(* ===== verification/_CoqProject ===== *)
-Q . S2P
Prelude.v
FlowTypes.v
Errors.v
Storage.v
Keys.v
Memstore.v
DefaultStore.v
DefaultStoreCorrect.v
Sqlite.v
SqliteCorrect.v
LogStore.v
StoreTheorems.v
Redis.v
Retry.v
Remote.v
RemoteTheorems.v
Report.v
Convert.v
Pragma.v
Vm.v
PendingBlock.v
Blockchain.v
Config.v
ServerConfig.v
Queries.v
Logging.v
BlockchainCorrect.v
Chain.v
SourceFiles.v
Consistency.v
Composition.v
ChainTheorems.v
Recovery.v
QueryTheorems.v
Liveness.v
Ledger.v
Creation.v
Checkpoint.v
Providers.v
Emulator.v
Simulation.v
StoreIndependence.v
Lives.v
DebuggerUnset.v
Access.v
AccessTheorems.v
Stream.v
StreamTheorems.v
Sdk.v
SdkTheorems.v
Debugger.v
DebuggerTheorems.v
DebugServer.v
Admin.v
Reports.v
LivenessCheck.v
Servers.v
ServerSetup.v
Server.v
AdminTheorems.v
ServerTheorems.v
ServerSimulation.v
StartCmd.v
Instances.v
StoreWitnesses.v
RemoteWitnesses.v
Witnesses.v
AdapterWitnesses.v
ServerWitnesses.v
DebuggerWitnesses.v
IndependenceWitnesses.v
