(* ===== verification/Prelude.v ===== *)
(** * A verification of the Flow emulator

    The emulator (github.com/onflow/flow-emulator) runs one Flow chain on a
    developer's machine: it keeps a store of blocks, transactions, results,
    events and versioned registers, a pending block that collects and executes
    transactions, and a set of APIs around the two.  This library translates
    its Go code, definition by definition, and proves what makes it correct.
    Source paths below are under src/.

    ** Parts of the program, and where they are modelled

    The stores (storage/).
    - [Storage]: the interface [storage.Store] as a class; the arguments of a
      commit; and the abstract store, a log of the writes made, with the answer
      of every query as a function of the log ([refines], [StoreCorrect]).
    - [Memstore]: storage/memstore/memstore.go, with its refinement of the log.
    - [Keys], [DefaultStore], [DefaultStoreCorrect]: storage/store.go and
      storage/encoding.go, the store over a key-value back end: keys, codecs,
      and its refinement for every back end with the laws of a versioned store.
    - [Sqlite], [SqliteCorrect]: storage/sqlite/store.go, that back end with
      rollbacks and snapshots.  [Redis]: storage/redis/store.go.
    - [LogStore]: the log of writes as a store of its own, on which a chain can run.
    - [StoreTheorems]: the refinements and the agreement of the stores.
    - [Remote], [RemoteTheorems]: storage/remote/store.go, the store of a forked
      network with its cache of registers and the pruning of the caches.
    - [Retry]: utils/grpc.go, the retries of the calls to an access node.
    - [Checkpoint]: storage/checkpoint/checkpoint.go and the chain on it.
    - [Providers]: a store of any kind with its dynamic type, and the constructors:
      storage/util/*.go, sqlite.New, redis.New and config.GetStore.

    The chain (emulator/, convert/, types/).
    - [FlowTypes], [Errors]: the data of flow-go that the emulator handles,
      types/errors.go and storage/errors.go.
    - [Report], [Convert], [Pragma]: emulator/computation_report.go, convert/*.go
      and types/result.go, emulator/pragma.go.
    - [Vm]: what the emulator calls of flow-go's virtual machine.
    - [PendingBlock]: emulator/pendingBlock.go.
    - [Blockchain], [Queries]: emulator/blockchain.go, blocks.go, contracts.go,
      scheduled_transactions.go, blockTicker.go: the state, the operations that
      change it, and the queries.  [Config]: its options and defaults.
    - [BlockchainCorrect], [Chain]: the invariant of the chain, its operations as
      a step relation, and that every step keeps the invariant.  A chain is
      [reachable] when it was created on an empty store and took such steps.
      The steps have rollbacks and snapshots among them where the store refuses
      them; where it offers them they are treated in [AdminTheorems].
    - [Lives]: the creation of a chain and its operations over any store with the
      contract, SQLite among them.  [DebuggerUnset]: the debugger of a chain is
      [nil], whatever is done to it.
    - [SourceFiles], [Logging]: [GetSourceFile] of emulator/blockchain.go; its
      [CadenceHook] and utils/logging.go.
    - [Consistency]: what the rows of SQLite need of a chain follows from its
      invariant and from IDs that do not collide.
    - [Simulation]: a relational logic, in which every operation of the chain is
      shown to do the same over two stores ([sim], [same]).
    - [Composition]: programs over the chain as sequences of its operations.
    - [ChainTheorems], [Recovery], [QueryTheorems], [Liveness], [Ledger],
      [Creation]: the theorems on it.

    The APIs and the server (adapters/, server/, cmd/).
    - [Emulator]: emulator/emulator.go, the interface between the chain and its
      APIs, as a class that the adapters are written against, and its instance.
    - [StoreIndependence]: clients of that interface, as programs that choose
      their next call by the answers, run over a chain on any store.
    - [Access], [AccessTheorems]; [Sdk], [SdkTheorems]: adapters/access.go and
      adapters/sdk.go.
    - [Stream], [StreamTheorems]: server/access/streamBackend.go.
    - [Admin], [AdminTheorems]: server/utils/emulator.go, the HTTP API.
    - [Reports]: the handlers of the coverage report and of the computation
      profile in server/utils/emulator.go.
    - [Debugger], [DebuggerTheorems]: server/debugger/debugsession.go, a session of
      the Debug Adapter Protocol.  [DebugServer]: server/debugger/debugger.go.
    - [LivenessCheck]: server/utils/liveness and server/utils/liveness.go.
    - [ServerConfig], [Server], [ServerTheorems]: server/server.go.  [ServerSetup],
      [Servers]: the construction of its servers and their listeners,
      server/access/grpc.go, rest.go and server/utils/admin.go.
    - [ServerSimulation]: the start of the server over two stores.
    - [StartCmd]: cmd/emulator/start/start.go and cmd/emulator/main.go.

    [Instances] gives every parameter a concrete value; [StoreWitnesses],
    [RemoteWitnesses], [Witnesses], [AdapterWitnesses], [ServerWitnesses],
    [DebuggerWitnesses] and [IndependenceWitnesses] apply the theorems there.
    [Prelude] (this file) has the machine integers, the result and state monads,
    bytes, hexadecimal and decimal texts, and the lemmas and tactics that the
    other files share.

    ** How the code is translated

    A method is a state transformer [ST error S A]: it returns a value or an
    error and the state it leaves, also when it fails.  A method under a mutex
    is one step, and a client's interleaving is a sequence of steps.  The routines
    of the debugger's server are interleaved step by step; those of the requests of
    a session run in any order, each handler being one step.  Unsigned
    integers are integers with an explicit wrap-around ([u64], [+64]).  A Go map
    that is ranged over is read in an order given by the class [GoMapOrder],
    and no theorem depends on it.  An [error] of Go is an inductive type with
    the wrapping of [fmt.Errorf] kept, so that [errors.Is] and [errors.As] are
    functions; a panic is the error [Panic].  The clock and the random source
    that an operation reads are its argument [World].  What is logged is left out,
    but for the results of scripts and transactions.

    Code outside the repository is a parameter: a class with the operations
    that are called, and a second class with the documented laws that a theorem
    needs ([Codecs] and [CodecsLaws] for CBOR, [SqlEngine], [RedisServer],
    [VirtualMachine], [Cadence], [Signing], [AccessNode], [CheckpointLedger], ...).

    The loops are structural or bounded: the execution loop by the number of
    transactions of the block ([executeBlock_terminates] shows that this is
    enough), a range of heights by the number of blocks from its start plus one,
    which the query ends within since the first missing height ends it, and the
    loops over the accounts by a bound that is the argument of [contract_files] and
    of [account_variables]; there the end of the bound is a result of its own
    (no session reaches [account_variables], since none comes to a stop).  The retries are bounded in the code.

    ** What the theorems show

    - The stores: the memory store and the SQLite store answer as the log of their
      writes says, registers at the heights that have a block, above which the
      memory store has none; a client of the emulator that neither rolls back nor
      uses snapshots, and reads accounts at heights that have a block, cannot tell
      which of the two the chain runs on, however it goes on by the answers;
      commits with mismatching counts are refused; what a rollback restores and
      what it leaves; what Redis loses; a fork's cache is invisible, except to
      reads below the fork.
    - The chain, on every store with the contract ([Lives]): it is well formed, its
      history is not changed by any operation but rollbacks and snapshots, and
      the outcome of a commit.  On a store whose writes succeed ([TotalStore]: the
      memory store, and the log, which SQLite follows by [StoreIndependence]):
      a transaction is accepted exactly under the stated conditions and committed
      once; the results and the registers of a commit; the execution terminates;
      what automatic mining does with what it is sent, and when it fails; a failed
      run blocks the commit until a reset; restarts resume.
    - The queries and the APIs: transactions, system and scheduled transactions
      and events of a committed block are found; scripts change nothing; streams
      deliver the blocks of the chain and each status once; the execution data
      of a block; the outcome of an account creation.
    - The server: the store and the configuration that it selects, from the
      command line on; that without a choice of a store it starts and serves its
      clients as it would over the log of its writes; that the chain behind it is
      always reachable, through its start and through any sequence of requests, on
      a store without rollbacks and snapshots; that the first jump to a snapshot
      brings the chain back; what a liveness probe reports; how the servers
      listen; and how often and for how long a call to an access node is retried.
    - The debugger: the requests are answered once each, in whatever order they are
      handled, or end the process, and which of them do; how a program is started,
      and that the routine that listens for stops ends the process; what the end
      of a program sends; the chain stays as it was; and [Stop] leaves no listener
      open, however it meets [Start].

    Where the code departs from what it means to do, the theorem states what it
    does: the debugger of a chain, which is [nil], so that every method called on it
    ends the process; rollbacks after a restart or above a snapshot, reads below a
    fork, the creation of accounts while mining automatically, and others.

    ** Not modelled

    The handlers inside flow-go's gRPC and REST servers, which hand requests to
    the adapters, and the metrics; the construction of the two servers is
    modelled.  The matching of paths by the router of the HTTP API, and the group
    of routines (graceland).  The construction of Cadence's runtime and of the
    virtual machine, and what the runtime keeps in its coverage reports, its
    profiles and its debugger.  What a read of a fork puts into its cache when the
    fork is a [provider]: [RemoteTheorems] has the reads with it.  Interleavings
    inside a handler of a debugger's session.  The parsing of flags.  Methods that
    return a constant or close a connection.  The mocks, which are generated, and
    the test fixtures.

    The comparison of chains over two stores uses functional extensionality, since
    a ledger is a function of its registers. *)
From Stdlib Require Export ZArith Lia.
From Stdlib Require Strings.Byte Strings.String Strings.Ascii.
From stdpp Require Export base tactics numbers list gmap strings vector countable.
Export Init.Byte.

#[global] Open Scope Z_scope.

(** * Machine integers

    [uint64], [uint32] and [int64] are integers kept in range by an explicit
    wrap-around. *)

Declare Scope machine_scope.
Delimit Scope machine_scope with u.

Definition two64 : Z := 18446744073709551616.
Definition two32 : Z := 4294967296.

Definition u64 (z : Z) : Z := z mod two64.
Definition u32 (z : Z) : Z := z mod two32.

(** The conversion [int64(x)] of a [uint64]. *)
Definition i64 (z : Z) : Z :=
  let r := z mod two64 in if bool_decide (r < two64 / 2) then r else r - two64.

Definition is_u64 (z : Z) : Prop := 0 ≤ z < two64.
Definition is_u32 (z : Z) : Prop := 0 ≤ z < two32.

Notation "x +64 y" := (u64 (x + y)) (at level 50, left associativity) : machine_scope.
Notation "x -64 y" := (u64 (x - y)) (at level 50, left associativity) : machine_scope.
Notation "x +32 y" := (u32 (x + y)) (at level 50, left associativity) : machine_scope.
Open Scope machine_scope.

Lemma u64_range z : is_u64 (u64 z).
Proof. apply Z.mod_pos_bound. reflexivity. Qed.

Lemma u32_range z : is_u32 (u32 z).
Proof. apply Z.mod_pos_bound. reflexivity. Qed.

Lemma u64_small z : is_u64 z → u64 z = z.
Proof. apply Z.mod_small. Qed.

Lemma u32_small z : is_u32 z → u32 z = z.
Proof. apply Z.mod_small. Qed.

Lemma u64_pred_zero : 0 -64 1 = two64 - 1.
Proof. reflexivity. Qed.

Lemma i64_small z : 0 ≤ z < two64 / 2 → i64 z = z.
Proof.
  intros Hz. unfold i64.
  assert (two64 / 2 < two64) by reflexivity.
  rewrite Z.mod_small by lia. rewrite bool_decide_eq_true_2 by lia. done.
Qed.

(** * Instants

    A [time.Time] is its number of nanoseconds since the Unix epoch. *)

Definition Time : Type := Z.
Definition Duration : Type := Z.
Definition time_UnixMilli (t : Time) : Z := t / 1000000.
Definition time_of_UnixMilli (ms : Z) : Time := ms * 1000000.
Definition time_of_Unix (sec : Z) : Time := sec * 1000000000.

(** * Results and stateful operations

    A Go function that returns [(value, error)] is a function into [res]; one
    that also updates its receiver is a state transformer [ST], whose state is
    kept on the error path: the writes made before a failing call stay. *)

Inductive res (E A : Type) : Type :=
  | Ok (a : A)
  | Err (e : E).
Arguments Ok {_ _} _.
Arguments Err {_ _} _.

#[global] Instance res_ret {E} : MRet (res E) := λ A a, Ok a.
#[global] Instance res_bind {E} : MBind (res E) := λ A B k m,
  match m with Ok a => k a | Err e => Err e end.
#[global] Instance res_fmap {E} : FMap (res E) := λ A B f m,
  match m with Ok a => Ok (f a) | Err e => Err e end.

#[global] Instance res_eq_dec {E A} `{EqDecision E, EqDecision A} : EqDecision (res E A).
Proof. solve_decision. Defined.

Definition is_Ok {E A} (m : res E A) : bool :=
  match m with Ok _ => true | Err _ => false end.

(** Translating the error of a result, as [if err != nil { return f(err) }]. *)
Definition map_err {E F A} (f : E → F) (m : res E A) : res F A :=
  match m with Ok a => Ok a | Err e => Err (f e) end.

Definition of_option {E A} (e : E) (o : option A) : res E A :=
  match o with Some a => Ok a | None => Err e end.

Definition ST (E S A : Type) : Type := S → res E A * S.

#[global] Instance ST_ret {E S} : MRet (ST E S) := λ A a s, (Ok a, s).
#[global] Instance ST_bind {E S} : MBind (ST E S) := λ A B k m s,
  match m s with
  | (Ok a, s') => k a s'
  | (Err e, s') => (Err e, s')
  end.

Definition st_fail {E S A} (e : E) : ST E S A := λ s, (Err e, s).
Definition st_get {E S A} (f : S → A) : ST E S A := λ s, (Ok (f s), s).
Definition st_modify {E S} (f : S → S) : ST E S unit := λ s, (Ok (), f s).
(** A read that may fail, on the current state. *)
Definition st_read {E S A} (f : S → res E A) : ST E S A := λ s, (f s, s).
Definition st_res {E S A} (m : res E A) : ST E S A := λ s, (m, s).

(** [for _, x := range l { if err := f(x); err != nil { return err } }] *)
Fixpoint st_iter {E S A} (f : A → ST E S unit) (l : list A) : ST E S unit :=
  match l with
  | [] => mret ()
  | x :: l => f x ;; st_iter f l
  end.

(** [for i, x := range l { ret[i], err = f(x); if err != nil { return nil, err } }] *)
Fixpoint res_map {E A B} (f : A → res E B) (l : list A) : res E (list B) :=
  match l with
  | [] => Ok []
  | x :: l => y ← f x; ys ← res_map f l; Ok (y :: ys)
  end.

Section result_lemmas.
Context {E : Type}.

Lemma map_err_Ok {E' A} (f : E → E') (m : res E A) a : map_err f m = Ok a → m = Ok a.
Proof. by destruct m; simpl; intros [= ->]. Qed.

Lemma bind_Ok {A B} (m : res E A) (k : A → res E B) b :
  (a ← m; k a) = Ok b ↔ ∃ a, m = Ok a ∧ k a = Ok b.
Proof.
  destruct m as [a|e]; simpl; split.
  - eauto.
  - intros (a' & [= ->] & H). done.
  - done.
  - intros (a' & ? & _). done.
Qed.

Lemma ST_bind_Ok {S A B} (m : ST E S A) (k : A → ST E S B) s b s' :
  (a ← m; k a) s = (Ok b, s') ↔ ∃ a s1, m s = (Ok a, s1) ∧ k a s1 = (Ok b, s').
Proof.
  unfold mbind, ST_bind. destruct (m s) as [[a|e] s1] eqn:Hm; split.
  - eauto.
  - intros (a' & s1' & [= -> ->] & H). done.
  - done.
  - intros (a' & s1' & ? & _). done.
Qed.

Lemma ST_bind_step {S A B} (m : ST E S A) (k : A → ST E S B) s a s1 :
  m s = (Ok a, s1) → (a ← m; k a) s = k a s1.
Proof. intros Hm. unfold mbind, ST_bind. by rewrite Hm. Qed.

Lemma ST_bind_fail {S A B} (m : ST E S A) (k : A → ST E S B) s e s1 :
  m s = (Err e, s1) → (a ← m; k a) s = (Err e, s1).
Proof. intros Hm. unfold mbind, ST_bind. by rewrite Hm. Qed.

Lemma ST_bind_assoc_unit {S A} (m n : ST E S unit) (k : unit → ST E S A) s :
  ((m ;; n) ≫= k) s = (m ;; (n ≫= k)) s.
Proof. unfold mbind, ST_bind. by destruct (m s) as [[]?]. Qed.

Lemma res_map_Ok {A B} (f : A → res E B) l ys :
  res_map f l = Ok ys ↔ Forall2 (λ x y, f x = Ok y) l ys.
Proof.
  revert ys. induction l as [|x l IH]; intros ys; simpl.
  - split; [intros [= <-]; constructor | inversion 1; done].
  - rewrite bind_Ok. setoid_rewrite bind_Ok. split.
    + intros (y & Hy & ys' & Hys & [= <-]). constructor; [done|]. by apply IH.
    + inversion 1 as [|? y ? ys' Hy Hys]; subst.
      exists y. split; [done|]. exists ys'. split; [by apply IH|done].
Qed.

Lemma res_map_total {A B} (f : A → res E B) (g : A → B) l :
  (∀ x, x ∈ l → f x = Ok (g x)) → res_map f l = Ok (g <$> l).
Proof.
  intros H. apply res_map_Ok. induction l as [|x l IH]; simpl; constructor.
  - apply H. left.
  - apply IH. intros y Hy. apply H. by right.
Qed.

Lemma res_map_Forall2 {A B} (f : A → res E B) (P : A → B → Prop) l :
  (∀ x, x ∈ l → ∃ y, f x = Ok y ∧ P x y) → ∃ ys, res_map f l = Ok ys ∧ Forall2 P l ys.
Proof.
  induction l as [|x l IH]; intros H; [by exists []; split; [|constructor]|].
  destruct (H x ltac:(left)) as (y & Hy & HP).
  destruct IH as (ys & Hys & HF); [intros z Hz; apply H; by right|].
  exists (y :: ys). simpl. rewrite Hy. simpl. rewrite Hys. split; [done|]. by constructor.
Qed.

Lemma res_map_ext {A B} (f g : A → res E B) xs :
  (∀ x, f x = g x) → res_map f xs = res_map g xs.
Proof. intros H. induction xs as [|x xs IH]; [done|]. simpl. by rewrite H, IH. Qed.

Lemma res_map_length {A B} (f : A → res E B) l ys :
  res_map f l = Ok ys → length ys = length l.
Proof. rewrite res_map_Ok. intros H. symmetry. by eapply Forall2_length. Qed.

Lemma st_iter_fmap {S A B} (f : B → ST E S unit) (g : A → B) l :
  st_iter f (g <$> l) = st_iter (λ x, f (g x)) l.
Proof.
  induction l as [|x l IH]; [done|]. rewrite fmap_cons. cbn [st_iter]. by rewrite IH.
Qed.

(** A loop whose every step succeeds, as a fold over the states. *)
Lemma st_iter_total {S A} (f : A → ST E S unit) (g : A → S → S) l s :
  (∀ x s, x ∈ l → f x s = (Ok (), g x s)) →
  st_iter f l s = (Ok (), fold_left (λ s x, g x s) l s).
Proof.
  revert s. induction l as [|x l IH]; intros s H; simpl; [done|].
  erewrite ST_bind_step by (apply H; left).
  apply IH. intros y s' Hy. apply H. by right.
Qed.

(** A property of the state that every step keeps, success or failure. *)
Lemma st_iter_inv {S A} (P : S → Prop) (f : A → ST E S unit) l s :
  (∀ x s, x ∈ l → P s → P (f x s).2) → P s → P (st_iter f l s).2.
Proof.
  revert s. induction l as [|x l IH]; intros s H Hs; simpl; [done|].
  unfold mbind, ST_bind.
  pose proof (H x s ltac:(left) Hs) as Hx.
  destruct (f x s) as [[u|e] s1]; simpl in *; [|done].
  apply IH; [|done]. intros y s' Hy. apply H. by right.
Qed.
End result_lemmas.

(** An operation that succeeds in every state. *)
Definition succeeds {E S A} (op : ST E S A) : Prop := ∀ s, ∃ a s', op s = (Ok a, s').

Section succeeds_lemmas.
Context {E S : Type}.
Lemma succeeds_ret {A} (a : A) : succeeds (mret a : ST E S A).
Proof. intros s. by eexists _, _. Qed.
Lemma succeeds_get {A} (f : S → A) : succeeds (st_get f : ST E S A).
Proof. intros s. by eexists _, _. Qed.
Lemma succeeds_modify (f : S → S) : succeeds (st_modify f : ST E S unit).
Proof. intros s. by eexists _, _. Qed.
Lemma succeeds_read {A} (f : S → res E A) : (∀ s, ∃ a, f s = Ok a) → succeeds (st_read f).
Proof. intros H s. destruct (H s) as [a Ha]. exists a, s. unfold st_read. by rewrite Ha. Qed.
Lemma succeeds_bind {A B} (m : ST E S A) (k : A → ST E S B) :
  succeeds m → (∀ a, succeeds (k a)) → succeeds (a ← m; k a).
Proof.
  intros Hm Hk s. destruct (Hm s) as (a & s1 & Ha). destruct (Hk a s1) as (c & s2 & Hc).
  exists c, s2. unfold mbind, ST_bind. by rewrite Ha.
Qed.
End succeeds_lemmas.

(** An operation that keeps a property of the state when it succeeds. *)
Definition keeps_ok {E S A} (P : S → Prop) (op : ST E S A) : Prop :=
  ∀ s a s', P s → op s = (Ok a, s') → P s'.

Section keeps_ok_lemmas.
Context {E S : Type} (P : S → Prop).
Lemma keeps_ok_ret {A} (a : A) : keeps_ok P (mret a : ST E S A).
Proof. by intros s ? ? ? [= _ <-]. Qed.
Lemma keeps_ok_fail {A} (e : E) : keeps_ok P (st_fail e : ST E S A).
Proof. by intros s ? ? ?. Qed.
Lemma keeps_ok_res {A} (m : res E A) : keeps_ok P (st_res m : ST E S A).
Proof. by intros s ? ? ? [= _ <-]. Qed.
Lemma keeps_ok_read {A} (f : S → res E A) : keeps_ok P (st_read f).
Proof. by intros s ? ? ? [= _ <-]. Qed.
Lemma keeps_ok_get {A} (f : S → A) : keeps_ok P (st_get f : ST E S A).
Proof. by intros s ? ? ? [= _ <-]. Qed.
Lemma keeps_ok_modify (f : S → S) : (∀ s, P s → P (f s)) → keeps_ok P (st_modify f : ST E S unit).
Proof. intros Hf s ? ? Hs [= _ <-]. by apply Hf. Qed.
Lemma keeps_ok_bind {A B} (m : ST E S A) (k : A → ST E S B) :
  keeps_ok P m → (∀ a, keeps_ok P (k a)) → keeps_ok P (a ← m; k a).
Proof.
  intros Hm Hk s b s' Hs H. unfold mbind, ST_bind in H.
  destruct (m s) as [[a|e] s1] eqn:He; [|done]. eapply Hk; [|exact H]. by eapply Hm.
Qed.
End keeps_ok_lemmas.

(** The structural cases of [keeps_ok]. *)
Ltac keeps_ok_step :=
  first [apply keeps_ok_ret|apply keeps_ok_fail|apply keeps_ok_res|apply keeps_ok_read|apply keeps_ok_get
        |apply keeps_ok_bind; [|intros ?]].

(** An operation that keeps a property of the state, whatever it returns. *)
Definition keeps {E S A} (P : S → Prop) (op : ST E S A) : Prop := ∀ s, P s → P (op s).2.

Section keeps_lemmas.
Context {E S : Type} (P : S → Prop).

Lemma keeps_ret {A} (a : A) : keeps P (mret a : ST E S A).
Proof. by intros s Hs. Qed.
Lemma keeps_fail {A} (e : E) : keeps P (st_fail e : ST E S A).
Proof. by intros s Hs. Qed.
Lemma keeps_res {A} (m : res E A) : keeps P (st_res m : ST E S A).
Proof. by intros s Hs. Qed.
Lemma keeps_read {A} (f : S → res E A) : keeps P (st_read f).
Proof. by intros s Hs. Qed.
Lemma keeps_get {A} (f : S → A) : keeps P (st_get f : ST E S A).
Proof. by intros s Hs. Qed.
Lemma keeps_modify (f : S → S) : (∀ s, P s → P (f s)) → keeps P (st_modify f : ST E S unit).
Proof. intros Hf s Hs. by apply Hf. Qed.
Lemma keeps_bind {A B} (m : ST E S A) (k : A → ST E S B) :
  keeps P m → (∀ a, keeps P (k a)) → keeps P (a ← m; k a).
Proof.
  intros Hm Hk s Hs. unfold mbind, ST_bind. specialize (Hm s Hs).
  destruct (m s) as [[a|e] s1]; [|done]. by apply Hk.
Qed.
Lemma keeps_res_bind {A B} (m : res E A) (k : A → ST E S B) :
  (∀ a, m = Ok a → keeps P (k a)) → keeps P (a ← st_res m; k a).
Proof. intros Hk s Hs. unfold mbind, ST_bind, st_res. destruct m; [by apply Hk|done]. Qed.
Lemma keeps_iter {A} (f : A → ST E S unit) l :
  (∀ x, x ∈ l → keeps P (f x)) → keeps P (st_iter f l).
Proof. intros Hf s Hs. apply st_iter_inv; [|done]. intros x s' Hx. by apply Hf. Qed.
Lemma keeps_if {A} (b : bool) (m n : ST E S A) : keeps P m → keeps P n → keeps P (if b then m else n).
Proof. by destruct b. Qed.
End keeps_lemmas.

(** Inverting the binds of a successful computation, one after the other. *)
Ltac inv_binds :=
  repeat match goal with
    | H : mbind _ _ = Ok _ |- _ =>
        let a := fresh "a" in let Ha := fresh "Ha" in
        apply bind_Ok in H as (a & Ha & H)
    | H : mbind _ _ _ = (Ok _, _) |- _ =>
        let a := fresh "a" in let s := fresh "s" in let Ha := fresh "Ha" in
        apply ST_bind_Ok in H as (a & s & Ha & H)
    | H : mret _ _ = (Ok _, _) |- _ => injection H as H; subst
    | H : Ok _ = Ok _ |- _ => injection H as H
    | H : (_, _) = (_, _) |- _ => injection H; clear H; intros; subst
    end.

(** * Bytes, hexadecimal and decimal text *)

Abbreviation Bytes := (list byte).

#[global] Instance byte_eq_dec : EqDecision byte.
Proof. intros a b. destruct (Byte.byte_eq_dec a b); [left|right]; done. Defined.

#[global] Program Instance byte_countable : Countable byte :=
  inj_countable Byte.to_N Byte.of_N _.
Next Obligation. intros b. apply Byte.of_to_N. Qed.

(** [[]byte(s)] and [string(b)]. *)
Definition bytes_of_string : string → Bytes := String.list_byte_of_string.
Definition string_of_bytes : Bytes → string := String.string_of_list_byte.

#[global] Instance bytes_of_string_inj : Inj (=) (=) bytes_of_string.
Proof.
  intros s t H. apply (f_equal string_of_bytes) in H.
  unfold bytes_of_string, string_of_bytes in H.
  by rewrite !String.string_of_list_byte_of_string in H.
Qed.

Lemma bytes_of_string_app s t :
  bytes_of_string (String.append s t) = bytes_of_string s ++ bytes_of_string t.
Proof.
  unfold bytes_of_string, String.list_byte_of_string. induction s as [|c s IH]; [done|].
  simpl. f_equal. exact IH.
Qed.

(** The text of encoding/hex: two lower-case digits per byte. *)
Definition hex_digits : list byte :=
  [x30; x31; x32; x33; x34; x35; x36; x37; x38; x39; x61; x62; x63; x64; x65; x66]%byte.

Definition nibble_hi (b : byte) : nat := N.to_nat (Byte.to_N b / 16)%N.
Definition nibble_lo (b : byte) : nat := N.to_nat (Byte.to_N b mod 16)%N.
Definition hex_digit (n : nat) : byte := nth n hex_digits x30%byte.

(** [hex.EncodeToString], on the bytes of the text. *)
Fixpoint hex_encode (bs : Bytes) : Bytes :=
  match bs with
  | [] => []
  | b :: bs => hex_digit (nibble_hi b) :: hex_digit (nibble_lo b) :: hex_encode bs
  end.

(** The value of a hexadecimal digit, upper or lower case. *)
Definition unhex_digit (c : byte) : option N :=
  let n := Byte.to_N c in
  if (48 <=? n)%N && (n <=? 57)%N then Some (n - 48)%N
  else if (97 <=? n)%N && (n <=? 102)%N then Some (n - 87)%N
  else if (65 <=? n)%N && (n <=? 70)%N then Some (n - 55)%N
  else None.

(** [hex.DecodeString]: [None] on an odd length or a byte that is no digit. *)
Fixpoint hex_decode (cs : Bytes) : option Bytes :=
  match cs with
  | [] => Some []
  | [_] => None
  | c1 :: c2 :: cs =>
      hi ← unhex_digit c1; lo ← unhex_digit c2; rest ← hex_decode cs;
      b ← Byte.of_N (hi * 16 + lo)%N; Some (b :: rest)
  end.

Lemma hex_byte_roundtrip b :
  (hi ← unhex_digit (hex_digit (nibble_hi b));
   lo ← unhex_digit (hex_digit (nibble_lo b)); Byte.of_N (hi * 16 + lo)%N) = Some b.
Proof. by destruct b. Qed.

Lemma hex_decode_encode bs : hex_decode (hex_encode bs) = Some bs.
Proof.
  induction bs as [|b bs IH]; [done|]. simpl.
  pose proof (hex_byte_roundtrip b) as Hb.
  destruct (unhex_digit (hex_digit (nibble_hi b))) as [hi|]; [|done].
  destruct (unhex_digit (hex_digit (nibble_lo b))) as [lo|]; [|done].
  simpl in Hb |- *. by rewrite IH, Hb.
Qed.

#[global] Instance hex_encode_inj : Inj (=) (=) hex_encode.
Proof.
  intros a b H. apply (f_equal hex_decode) in H.
  rewrite !hex_decode_encode in H. by injection H.
Qed.

Lemma hex_encode_length bs : length (hex_encode bs) = (2 * length bs)%nat.
Proof. induction bs as [|b bs IH]; [done|]. simpl. lia. Qed.

Lemma hex_encode_app a b : hex_encode (a ++ b) = hex_encode a ++ hex_encode b.
Proof. induction a as [|x a IH]; [done|]. simpl. by rewrite IH. Qed.

(** The [w] low decimal digits of [n], most significant first: the text of
    the verb [%0wd] on an [n < 10^w]. *)
Fixpoint fixed_dec (w : nat) (n : Z) : Bytes :=
  match w with
  | O => []
  | S w => fixed_dec w (n / 10) ++ [hex_digit (Z.to_nat (n mod 10))]
  end.

(** The value of a digit string, [None] on another character. *)
Definition dec_step (acc : option Z) (c : byte) : option Z :=
  acc ← acc;
  let d := Z.of_N (Byte.to_N c) - 48 in
  if bool_decide (0 ≤ d ≤ 9) then Some (acc * 10 + d) else None.
Definition dec_value (cs : Bytes) : option Z := foldl dec_step (Some 0) cs.

Lemma dec_step_digit acc d :
  0 ≤ d < 10 → dec_step (Some acc) (hex_digit (Z.to_nat d)) = Some (acc * 10 + d).
Proof.
  intros Hd.
  assert (d = 0 ∨ d = 1 ∨ d = 2 ∨ d = 3 ∨ d = 4 ∨ d = 5 ∨ d = 6 ∨ d = 7 ∨ d = 8 ∨ d = 9)
    as Hcase by lia.
  repeat destruct Hcase as [->|Hcase]; try subst d; reflexivity.
Qed.

Lemma dec_value_fixed w n : 0 ≤ n → dec_value (fixed_dec w n) = Some (n mod 10 ^ Z.of_nat w).
Proof.
  revert n. induction w as [|w IH]; intros n Hn.
  - simpl. by rewrite Z.mod_1_r.
  - simpl fixed_dec. unfold dec_value in *. rewrite foldl_app, IH by (apply Z.div_pos; lia).
    cbn [foldl]. rewrite dec_step_digit by (apply Z.mod_pos_bound; lia).
    f_equal. rewrite Nat2Z.inj_succ, Z.pow_succ_r by lia.
    rewrite Z.rem_mul_r by (try apply Z.pow_nonzero; try apply Z.pow_pos_nonneg; lia).
    lia.
Qed.

Lemma fixed_dec_length w n : length (fixed_dec w n) = w.
Proof. revert n. induction w as [|w IH]; intros n; simpl; [done|]. rewrite length_app, IH. simpl. lia. Qed.

Lemma fixed_dec_inj w n m :
  0 ≤ n < 10 ^ Z.of_nat w → 0 ≤ m < 10 ^ Z.of_nat w →
  fixed_dec w n = fixed_dec w m → n = m.
Proof.
  intros Hn Hm H. apply (f_equal dec_value) in H.
  rewrite !dec_value_fixed in H by lia. rewrite !Z.mod_small in H by lia. by injection H.
Qed.

(** The verb [%d] on a [uint64]: the twenty low digits, which are all of them
    below [10^20 > 2^64], without the leading zeros. *)
Fixpoint strip_zeros (cs : Bytes) : Bytes :=
  match cs with
  | c :: ((_ :: _) as cs') => if decide (c = x30%byte) then strip_zeros cs' else cs
  | _ => cs
  end.
Definition show_dec (n : Z) : Bytes := strip_zeros (fixed_dec 20 n).

Lemma strip_zeros_cons c c' cs :
  strip_zeros (c :: c' :: cs) =
  if decide (c = x30%byte) then strip_zeros (c' :: cs) else c :: c' :: cs.
Proof. done. Qed.

Lemma dec_value_strip cs : cs ≠ [] → dec_value (strip_zeros cs) = dec_value cs.
Proof.
  induction cs as [|c cs IH]; [done|]. intros _.
  destruct cs as [|c' cs']; [done|]. rewrite strip_zeros_cons. case_decide as Hc; [|done].
  subst c. rewrite IH by done. done.
Qed.

Lemma dec_value_show n : is_u64 n → dec_value (show_dec n) = Some n.
Proof.
  intros [Hn0 Hn]. unfold show_dec. rewrite dec_value_strip.
  - rewrite dec_value_fixed by done. f_equal. apply Z.mod_small.
    split; [done|]. eapply Z.lt_trans; [exact Hn|]. reflexivity.
  - intros H. apply (f_equal length) in H. by rewrite fixed_dec_length in H.
Qed.

Lemma show_dec_inj n m : is_u64 n → is_u64 m → show_dec n = show_dec m → n = m.
Proof.
  intros Hn Hm H. apply (f_equal dec_value) in H.
  rewrite !dec_value_show in H by done. by injection H.
Qed.

(** [fmt.Sscanf(s, "%d", &x)] into a [uint64]: leading spaces, then the longest
    run of digits; no digit or a value out of range is an error. *)
Definition is_digit (c : byte) : bool :=
  (48 <=? Byte.to_N c)%N && (Byte.to_N c <=? 57)%N.
Fixpoint take_digits (cs : Bytes) : Bytes :=
  match cs with c :: cs => if is_digit c then c :: take_digits cs else [] | [] => [] end.
Fixpoint skip_spaces (cs : Bytes) : Bytes :=
  match cs with c :: cs' => if decide (c = x20%byte) then skip_spaces cs' else cs | [] => [] end.
Definition sscanf_u64 (cs : Bytes) : option Z :=
  match take_digits (skip_spaces cs) with
  | [] => None
  | ds => n ← dec_value ds; if bool_decide (n < two64) then Some n else None
  end.

Lemma hex_digit_dec d : 0 ≤ d < 10 → is_digit (hex_digit (Z.to_nat d)) = true.
Proof.
  intros Hd.
  assert (d = 0 ∨ d = 1 ∨ d = 2 ∨ d = 3 ∨ d = 4 ∨ d = 5 ∨ d = 6 ∨ d = 7 ∨ d = 8 ∨ d = 9)
    as Hcase by lia.
  repeat destruct Hcase as [->|Hcase]; try subst d; reflexivity.
Qed.

Lemma fixed_dec_digits w n : Forall (λ c, is_digit c = true) (fixed_dec w n).
Proof.
  revert n. induction w as [|w IH]; intros n; simpl; [constructor|].
  apply Forall_app. split; [done|]. constructor; [|constructor].
  apply hex_digit_dec. apply Z.mod_pos_bound. lia.
Qed.

Lemma strip_zeros_Forall (P : byte → Prop) cs : Forall P cs → Forall P (strip_zeros cs).
Proof.
  induction cs as [|c cs IH]; [done|]. intros H. inversion H; subst.
  destruct cs as [|c' cs']; [done|]. rewrite strip_zeros_cons. case_decide; [|done]. by apply IH.
Qed.

Lemma strip_zeros_nonempty cs : cs ≠ [] → strip_zeros cs ≠ [].
Proof.
  induction cs as [|c cs IH]; [done|]. intros _.
  destruct cs as [|c' cs']; [done|]. rewrite strip_zeros_cons. case_decide; [|done]. by apply IH.
Qed.

Lemma take_digits_all cs : Forall (λ c, is_digit c = true) cs → take_digits cs = cs.
Proof. induction 1 as [|c cs Hc _ IH]; [done|]. simpl. by rewrite Hc, IH. Qed.

Lemma skip_spaces_digits cs : Forall (λ c, is_digit c = true) cs → skip_spaces cs = cs.
Proof.
  destruct 1 as [|c cs Hc _]; [done|]. simpl. case_decide as Hsp; [|done].
  by subst c.
Qed.

Lemma show_dec_digits n : Forall (λ c, is_digit c = true) (show_dec n).
Proof. apply strip_zeros_Forall, fixed_dec_digits. Qed.

(** Printing a [uint64] and scanning it back is the identity. *)
Lemma sscanf_show n : is_u64 n → sscanf_u64 (show_dec n) = Some n.
Proof.
  intros Hn. unfold sscanf_u64.
  rewrite skip_spaces_digits, take_digits_all by apply show_dec_digits.
  assert (show_dec n ≠ []) as Hne.
  { apply strip_zeros_nonempty. intros H. apply (f_equal length) in H.
    by rewrite fixed_dec_length in H. }
  destruct (show_dec n) as [|c cs] eqn:Hs; [done|].
  rewrite <- Hs, dec_value_show by done. simpl.
  rewrite bool_decide_eq_true_2 by apply Hn. done.
Qed.

(** * Generic lemmas *)

(** Splitting a concatenation at a known length. *)
Lemma app_inj_length {A} (a b c d : list A) :
  length a = length c → a ++ b = c ++ d → a = c ∧ b = d.
Proof. apply app_inj_1. Qed.

(** Left-biased lookup in the last of several writes: the value the last pair
    with key [k] gives. *)
Definition last_write {K V} `{EqDecision K} (k : K) (ws : list (K * V)) : option V :=
  foldl (λ acc w, if decide (w.1 = k) then Some w.2 else acc) None ws.

Lemma last_write_snoc {K V} `{EqDecision K} (k : K) (ws : list (K * V)) w :
  last_write k (ws ++ [w]) = if decide (w.1 = k) then Some w.2 else last_write k ws.
Proof. unfold last_write. by rewrite foldl_app. Qed.

Lemma last_write_app {K V} `{EqDecision K} (k : K) (ws ws' : list (K * V)) :
  last_write k (ws ++ ws') =
  match last_write k ws' with Some v => Some v | None => last_write k ws end.
Proof.
  induction ws' as [|w ws' IH] using rev_ind; [by rewrite app_nil_r|].
  rewrite app_assoc, !last_write_snoc. case_decide; done.
Qed.

Lemma last_write_None {K V} `{EqDecision K} (k : K) (ws : list (K * V)) :
  last_write k ws = None ↔ k ∉ ws.*1.
Proof.
  induction ws as [|w ws IH] using rev_ind; [set_solver|].
  rewrite last_write_snoc, fmap_app, elem_of_app. simpl.
  rewrite list_elem_of_singleton. case_decide as Hk.
  - split; [done|]. intros []. by right.
  - rewrite IH. split; [intros ? [?|?]|]; try done. intros Hn ?. apply Hn. by left.
Qed.

Lemma last_write_elem {K V} `{EqDecision K} (k : K) (ws : list (K * V)) v :
  last_write k ws = Some v → (k, v) ∈ ws.
Proof.
  induction ws as [|[k' v'] ws IH] using rev_ind; [done|].
  rewrite last_write_snoc, elem_of_app, list_elem_of_singleton. simpl.
  case_decide; [intros [= <-]; subst; by right|]. intros Hw. left. by apply IH.
Qed.

Lemma last_write_NoDup {K V} `{EqDecision K} (k : K) (ws : list (K * V)) v :
  NoDup ws.*1 → (k, v) ∈ ws → last_write k ws = Some v.
Proof.
  intros Hnd Hin. destruct (last_write k ws) as [v'|] eqn:Hl.
  - apply last_write_elem in Hl. f_equal.
    apply list_elem_of_lookup in Hl as [i Hi]. apply list_elem_of_lookup in Hin as [j Hj].
    assert (i = j) as ->.
    { eapply (NoDup_lookup _ i j k Hnd); rewrite list_lookup_fmap.
      - by rewrite Hi.
      - by rewrite Hj. }
    rewrite Hi in Hj. by injection Hj.
  - apply last_write_None in Hl. exfalso. apply Hl. apply list_elem_of_fmap. by exists (k, v).
Qed.

(** * Automation *)

Create HintDb emu discriminated.
Create Rewrite HintDb emu_rw.
#[export] Hint Resolve u64_range u32_range : emu.
#[export] Hint Resolve keeps_ret keeps_fail keeps_res keeps_read keeps_get keeps_bind keeps_if : emu.
#[export] Hint Rewrite @last_write_app @last_write_snoc hex_decode_encode : emu_rw.

(** Deciding a closed proposition by computation. *)
Ltac by_decide :=
  match goal with |- ?P => refine (bool_decide_eq_true_1 P _); vm_compute; reflexivity end.

(** Case analysis on the matches of the goal and the hypotheses. *)
Ltac split_matches :=
  repeat (case_match; simplify_eq/=; try done).
