(* ===== verification/FlowTypes.v ===== *)
(** The data of flow-go and flow-go-sdk that the emulator stores and passes
    around, as the emulator's code uses it, and the flow-go functions it calls
    on this data.

    The records keep the fields the emulator reads or writes.  The functions
    whose code is in flow-go (the hash of a block, the text of a register
    identifier, ...) are the operations of the classes [FlowModel] and
    [SnapshotTrees]; what the emulator relies on about them is stated by the
    classes [FlowModelLaws] and [SnapshotTreeLaws]. *)
From S2P Require Import Prelude.

(** * Identifiers and addresses: [[32]byte] and [[8]byte] *)

Abbreviation Identifier := (vec byte 32).
Abbreviation Address := (vec byte 8).

(** The byte arrays as map keys, with an encoding that evaluates. *)
Fixpoint vec_of_list {A} (n : nat) (l : list A) : option (vec A n) :=
  match n, l with
  | O, [] => Some [#]
  | S n, x :: l => vcons x <$> vec_of_list n l
  | _, _ => None
  end.
Lemma vec_of_list_to_list {A n} (v : vec A n) : vec_of_list n (vec_to_list v) = Some v.
Proof. induction v as [|x n v IH]; [done|]. simpl. by rewrite IH. Qed.
#[global] Instance bytes_countable n : Countable (vec byte n) | 0 :=
  inj_countable vec_to_list (vec_of_list n) vec_of_list_to_list.

Definition ZeroID : Identifier := vreplicate 32 x00%byte.
Definition EmptyAddress : Address := vreplicate 8 x00%byte.

(** The text of the verb [%x] on an identifier. *)
Definition hex_id (id : Identifier) : Bytes := hex_encode (vec_to_list id).

#[global] Instance hex_id_inj : Inj (=) (=) hex_id.
Proof. intros a b H. apply (inj hex_encode) in H. by apply vec_to_list_inj2. Qed.

Lemma hex_id_length id : length (hex_id id) = 64%nat.
Proof. unfold hex_id. by rewrite hex_encode_length, length_vec_to_list. Qed.

(** [len(bytes) != len(flowgo.ZeroID)], then [copy(id[:], bytes)]. *)
Definition id_of_bytes (bs : Bytes) : option Identifier :=
  match decide (length bs = 32%nat) with
  | left H => Some (eq_rect _ (vec byte) (list_to_vec bs) _ H)
  | right _ => None
  end.

Lemma id_of_bytes_to_list (id : Identifier) : id_of_bytes (vec_to_list id) = Some id.
Proof.
  unfold id_of_bytes.
  destruct (decide _) as [H|H]; [|by rewrite length_vec_to_list in H].
  f_equal. apply vec_to_list_inj2. destruct H. simpl. by rewrite vec_to_list_to_vec.
Qed.

(** The identifier whose last byte is [n] and whose other bytes are zero, for
    concrete examples. *)
Definition idn (n : Z) : Identifier :=
  vreplicate 31 x00%byte +++ [# default x00%byte (Byte.of_N (Z.to_N n))].

(** * Blocks, collections, transactions, events *)

Definition ChainID : Type := string.

Record HeaderBody := mkHeaderBody {
  hb_ChainID : ChainID;
  hb_ParentID : Identifier;
  hb_Height : Z;
  hb_Timestamp : Z;
  hb_View : Z
}.

Record BlockSeal := mkBlockSeal { seal_BlockID : Identifier; seal_ResultID : Identifier }.
Record CollectionGuarantee := mkGuarantee { CollectionID : Identifier }.

Record Payload := mkPayload {
  Guarantees : list CollectionGuarantee;
  Seals : list BlockSeal
}.
Definition NewEmptyPayload : Payload := mkPayload [] [].

Record Block := mkBlock { Block_HeaderBody : HeaderBody; Block_Payload : Payload }.
Definition Block_Height (b : Block) : Z := hb_Height (Block_HeaderBody b).
Definition Block_View (b : Block) : Z := hb_View (Block_HeaderBody b).
Definition Block_ParentID (b : Block) : Identifier := hb_ParentID (Block_HeaderBody b).
Definition Block_Timestamp (b : Block) : Z := hb_Timestamp (Block_HeaderBody b).

Record LightCollection := mkLightCollection { lc_Transactions : list Identifier }.

Record ProposalKey := mkProposalKey {
  pk_Address : Address;
  pk_KeyIndex : Z;
  pk_SequenceNumber : Z
}.

Record TransactionSignature := mkSignature {
  sig_Address : Address;
  sig_SignerIndex : Z;
  sig_KeyIndex : Z;
  sig_Signature : Bytes
}.

Record TransactionBody := mkTransactionBody {
  tx_ReferenceBlockID : Identifier;
  tx_Script : Bytes;
  tx_Arguments : list Bytes;
  tx_GasLimit : Z;
  tx_ProposalKey : ProposalKey;
  tx_Payer : Address;
  tx_Authorizers : list Address;
  tx_PayloadSignatures : list TransactionSignature;
  tx_EnvelopeSignatures : list TransactionSignature
}.

Record Collection := mkCollection { col_Transactions : list TransactionBody }.

Record Event := mkEvent {
  ev_Type : string;
  ev_TransactionID : Identifier;
  ev_TransactionIndex : Z;
  ev_EventIndex : Z;
  ev_Payload : Bytes
}.

(** * Registers and execution snapshots *)

Record RegisterID := mkRegisterID { reg_Owner : Bytes; reg_Key : Bytes }.
(** A register's value; the empty value stands for [nil] and [[]byte{}] alike. *)
Definition RegisterValue : Type := Bytes.

#[global] Instance Identifier_eq_dec : EqDecision Identifier := _.
#[global] Instance RegisterID_eq_dec : EqDecision RegisterID.
Proof. solve_decision. Defined.
#[global] Instance RegisterID_countable : Countable RegisterID.
Proof.
  refine (inj_countable' (λ r, (reg_Owner r, reg_Key r)) (λ p, mkRegisterID p.1 p.2) _).
  by intros [].
Defined.
#[global] Instance HeaderBody_eq_dec : EqDecision HeaderBody.
Proof. solve_decision. Defined.
#[global] Instance BlockSeal_eq_dec : EqDecision BlockSeal.
Proof. solve_decision. Defined.
#[global] Instance CollectionGuarantee_eq_dec : EqDecision CollectionGuarantee.
Proof. solve_decision. Defined.
#[global] Instance Payload_eq_dec : EqDecision Payload.
Proof. solve_decision. Defined.
#[global] Instance Block_eq_dec : EqDecision Block.
Proof. solve_decision. Defined.
#[global] Instance LightCollection_eq_dec : EqDecision LightCollection.
Proof. solve_decision. Defined.
#[global] Instance ProposalKey_eq_dec : EqDecision ProposalKey.
Proof. solve_decision. Defined.
#[global] Instance TransactionSignature_eq_dec : EqDecision TransactionSignature.
Proof. solve_decision. Defined.
#[global] Instance TransactionBody_eq_dec : EqDecision TransactionBody.
Proof. solve_decision. Defined.
#[global] Instance Collection_eq_dec : EqDecision Collection.
Proof. solve_decision. Defined.
#[global] Instance Event_eq_dec : EqDecision Event.
Proof. solve_decision. Defined.

(** The registers a procedure wrote. *)
Record ExecutionSnapshot := mkExecutionSnapshot {
  WriteSet : gmap RegisterID RegisterValue
}.

(** * What the emulator calls in flow-go's model packages *)

Class FlowModel := {
  Block_ID : Block → Identifier;
  LightCollection_ID : LightCollection → Identifier;
  Transaction_ID : TransactionBody → Identifier;
  (** [block.ToHeader()], with the header's embedded [HeaderBody] and its ID. *)
  Header : Type;
  ToHeader : Block → Header;
  Header_HeaderBody : Header → HeaderBody;
  Header_ID : Header → Identifier;
  (** [registerID.String()] *)
  RegisterID_String : RegisterID → Bytes;
  GenesisTime : Time
}.

(** The header of a block carries its header body and its ID; the text of a
    register identifier determines it. *)
Class FlowModelLaws (FM : FlowModel) : Prop := {
  ToHeader_body b : Header_HeaderBody (ToHeader b) = Block_HeaderBody b;
  ToHeader_ID b : Header_ID (ToHeader b) = Block_ID b;
  RegisterID_String_inj r1 r2 : RegisterID_String r1 = RegisterID_String r2 → r1 = r2
}.

(** * Go map iteration

    [for k, v := range m] visits the entries of [m] in an unspecified order.
    The order is a parameter: a listing of the entries of each map. *)

Class GoMapOrder := {
  map_range : ∀ {K V} `{Countable K}, gmap K V → list (K * V);
  map_range_perm {K V} `{Countable K} (m : gmap K V) : map_range m ≡ₚ map_to_list m
}.

Section map_range_lemmas.
Context {GO : GoMapOrder} {K V : Type} `{Countable K}.

Lemma elem_of_map_range (m : gmap K V) k v : (k, v) ∈ map_range m ↔ m !! k = Some v.
Proof. rewrite map_range_perm. apply elem_of_map_to_list. Qed.

Lemma map_range_NoDup (m : gmap K V) : NoDup (map_range m).*1.
Proof. rewrite map_range_perm. apply NoDup_fst_map_to_list. Qed.

Lemma map_range_length (m : gmap K V) : length (map_range m) = size m.
Proof. rewrite map_range_perm. apply length_map_to_list. Qed.

(** The last of the writes made while ranging over a map is the map's entry. *)
Lemma last_write_map_range (m : gmap K V) k : last_write k (map_range m) = m !! k.
Proof.
  destruct (m !! k) as [v|] eqn:Hk.
  - apply last_write_NoDup; [apply map_range_NoDup|]. by apply elem_of_map_range.
  - apply last_write_None. intros ((k' & v) & -> & Hin)%list_elem_of_fmap.
    apply elem_of_map_range in Hin. simpl in Hk. congruence.
Qed.
End map_range_lemmas.

(** The listing by increasing key code, for concrete runs. *)
Definition canonical_order : GoMapOrder := {|
  map_range K V _ _ m := map_to_list m;
  map_range_perm K V _ _ m := Permutation_refl _
|}.
