(* ===== verification/Errors.v ===== *)
(** The errors of the emulator: types/errors.go, storage/errors.go, and the
    errors of the libraries it calls that its code inspects.

    One inductive type stands for Go's [error] interface; its constructors are
    the dynamic types the code distinguishes by a type switch, [errors.Is] or
    [errors.As].  A constructor that is used through a pointer in Go keeps the
    name of the struct; [InvalidArgumentError] occurs both as a value and as a
    pointer, which a type switch tells apart. *)
From S2P Require Import Prelude FlowTypes.
#[local] Open Scope string_scope.

(** An FVM error: [fvmerrors.CodedError], its code and its text. *)
Record CodedError := mkCodedError { coded_Code : Z; coded_Error : string }.
#[global] Instance CodedError_eq_dec : EqDecision CodedError.
Proof. solve_decision. Defined.

(** The gRPC status codes the emulator uses (google.golang.org/grpc/codes). *)
Inductive Code := codes_OK | codes_Unknown | codes_InvalidArgument | codes_NotFound
  | codes_ResourceExhausted | codes_Internal | codes_Unavailable | codes_Other (n : Z).
#[global] Instance Code_eq_dec : EqDecision Code.
Proof. solve_decision. Defined.

Inductive error : Type :=
  (* storage/errors.go *)
  | ErrNotFound
  (* types/errors.go *)
  | InvalidArgumentError (msg : string)
  | PtrInvalidArgumentError (msg : string)
  | InternalError (msg : string)
  | BlockNotFoundByHeightError (Height : Z)
  | BlockNotFoundByIDError (ID : Identifier)
  | CollectionNotFoundError (ID : Identifier)
  | TransactionNotFoundError (ID : Identifier)
  | AccountNotFoundError (addr : Address)
  | DuplicateTransactionError (TxID : Identifier)
  | IncompleteTransactionError (MissingFields : list string)
  | ExpiredTransactionError (RefHeight FinalHeight : Z)
  | InvalidTransactionScriptError (ParserErr : error)
  | InvalidTransactionGasLimitError (Maximum Actual : Z)
  | InvalidStateVersionError (Version : Bytes)
  | PendingBlockCommitBeforeExecutionError (BlockID : Identifier)
  | PendingBlockMidExecutionError (BlockID : Identifier)
  | PendingBlockTransactionsExhaustedError (BlockID : Identifier)
  | StorageError (inner : error)
  | ExecutionError (code : Z) (Message : string)
  | FVMError (FlowError : CodedError)
  (* errors of flow-go: the validator's, the FVM's, the subscription sentinels *)
  | validator_IncompleteTransactionError (MissingFields : list string)
  | validator_ExpiredTransactionError (RefHeight FinalHeight : Z)
  | validator_InvalidGasLimitError (Maximum Actual : Z)
  | validator_InvalidScriptError (ParserErr : error)
  | fvm_CodedError (e : CodedError)
  | ErrBlockNotReady
  | ErrEndOfData
  (* status.Error, fmt.Errorf with %w, errors.Join, fmt.Errorf without %w *)
  | status_Error (code : Code) (msg : string)
  | Errorf_w (prefix : string) (inner : error)
  | errors_Join (e1 e2 : error)
  | Errorf (msg : string)
  (* an error of another library, by its text *)
  | LibraryError (msg : string)
  (* a run-time panic, which ends the call *)
  | Panic (msg : string).

#[global] Instance error_eq_dec : EqDecision error.
Proof. solve_decision. Defined.

Abbreviation result := (res error).

(** * errors.Is *)

(** [errors.Is(err, target)] for a sentinel [target]: equality along the chain
    of [Unwrap]. *)
Fixpoint errors_Is (err target : error) : bool :=
  bool_decide (err = target) ||
  match err with
  | InvalidTransactionScriptError e | StorageError e | Errorf_w _ e => errors_Is e target
  | FVMError c => bool_decide (fvm_CodedError c = target)
  | errors_Join e1 e2 => errors_Is e1 target || errors_Is e2 target
  | _ => false
  end.

Definition is_not_found (err : error) : bool := errors_Is err ErrNotFound.

(** * Error texts *)

Definition show_u64 (n : Z) : string := string_of_bytes (show_dec n).
(** [%s] on an identifier or an address: their [String] methods print hex. *)
Definition show_id (id : Identifier) : string := string_of_bytes (hex_id id).
Definition show_address (a : Address) : string := string_of_bytes (hex_encode (vec_to_list a)).

(** [%d] on an [int]. *)
Definition show_int (n : Z) : string :=
  if bool_decide (n < 0) then "-" +:+ show_u64 (- n) else show_u64 n.

(** [%s] on a [[]string]: the elements between brackets, separated by spaces. *)
Fixpoint join_spaces (l : list string) : string :=
  match l with
  | [] => ""
  | [s] => s
  | s :: l => s +:+ " " +:+ join_spaces l
  end.
Definition show_strings (l : list string) : string := "[" +:+ join_spaces l +:+ "]".

(** The texts of the errors of the libraries: their [Error] methods are not the
    emulator's code. *)
Class LibraryTexts := library_Error : error → string.

(** The [Error] methods of types/errors.go and storage/errors.go; an error
    made by [fmt.Errorf] with [%w] prints its prefix, then what it wraps. *)
Fixpoint Error_text {LT : LibraryTexts} (err : error) : string :=
  match err with
  | ErrNotFound => "could not find entity"
  | InvalidArgumentError msg | PtrInvalidArgumentError msg => "Invalid argument error: " +:+ msg
  | InternalError msg => "Internal error: " +:+ msg
  | BlockNotFoundByHeightError h => "could not find block at height " +:+ show_u64 h
  | BlockNotFoundByIDError id => "could not find block with ID " +:+ show_id id
  | CollectionNotFoundError id => "could not find collection with ID " +:+ show_id id
  | TransactionNotFoundError id => "could not find transaction with ID " +:+ show_id id
  | AccountNotFoundError a => "could not find account with address " +:+ show_address a
  | DuplicateTransactionError id =>
      "transaction with ID " +:+ show_id id +:+ " has already been submitted"
  | IncompleteTransactionError fs => "transaction is missing required fields: " +:+ show_strings fs
  | ExpiredTransactionError r f =>
      "transaction is expired: ref_height=" +:+ show_u64 r +:+ " final_height=" +:+ show_u64 f
  | InvalidTransactionScriptError e => "failed to parse transaction Cadence script: " +:+ Error_text e
  | InvalidTransactionGasLimitError m a =>
      "transaction compute limit (" +:+ show_u64 a +:+ ") exceeds the maximum compute limit ("
        +:+ show_u64 m +:+ ")"
  | InvalidStateVersionError v =>
      "execution state with version hash " +:+ string_of_bytes (hex_encode v) +:+ " is invalid"
  | PendingBlockCommitBeforeExecutionError id =>
      "pending block with ID " +:+ show_id id +:+ " cannot be committed before execution"
  | PendingBlockMidExecutionError id =>
      "pending block with ID " +:+ show_id id +:+ " is currently being executed"
  | PendingBlockTransactionsExhaustedError id =>
      "pending block with ID " +:+ show_id id +:+ " contains no more transactions to execute"
  | StorageError e => "storage failure: " +:+ Error_text e
  | ExecutionError c m => "execution error code " +:+ show_int c +:+ ": " +:+ m
  | FVMError c => coded_Error c
  | Errorf_w p e => p +:+ Error_text e
  | Errorf m | LibraryError m => m
  | _ => library_Error err
  end.

(** * ConvertAccessError

    The errors of the access validator become the emulator's. *)

Definition ConvertAccessError (err : error) : error :=
  match err with
  | validator_IncompleteTransactionError fs => IncompleteTransactionError fs
  | validator_ExpiredTransactionError r f => ExpiredTransactionError r f
  | validator_InvalidGasLimitError m a => InvalidTransactionGasLimitError m a
  | validator_InvalidScriptError e => InvalidTransactionScriptError e
  | _ => err
  end.

(** The interfaces [NotFoundError], [BlockNotFoundError] and
    [TransactionValidationError]: which types have the marker method. *)
Definition isNotFoundError (err : error) : bool :=
  match err with
  | BlockNotFoundByHeightError _ | BlockNotFoundByIDError _ | CollectionNotFoundError _
  | TransactionNotFoundError _ | AccountNotFoundError _ => true
  | _ => false
  end.

Definition isBlockNotFoundError (err : error) : bool :=
  match err with
  | BlockNotFoundByHeightError _ | BlockNotFoundByIDError _ => true
  | _ => false
  end.

Definition isTransactionValidationError (err : error) : bool :=
  match err with
  | DuplicateTransactionError _ | IncompleteTransactionError _ | ExpiredTransactionError _ _
  | InvalidTransactionScriptError _ | InvalidTransactionGasLimitError _ _ => true
  | _ => false
  end.

(** [NewInvalidArgumentError] and [NewInternalError] return pointers. *)
Definition NewInvalidArgumentError (msg : string) : error := PtrInvalidArgumentError msg.
Definition NewInternalError (msg : string) : error := InternalError msg.
