(* ===== verification/Storage.v ===== *)
(** The storage layer's interface (storage/store.go): the data kept for a
    committed block, the [Store] interface, the keys of the [KeyGenerator], and
    the abstract specification of a store, a log of the writes it received.

    A store answers every query as the log of its writes says: the newest
    write that concerns the key.  The implementations ([Memstore], [DefaultStore]
    over SQLite or another key-value back end) are proved against this log. *)
From S2P Require Import Prelude FlowTypes Errors.

(** * Stored data *)

(** types/result.go *)
Record StorableTransactionResult := mkStorableResult {
  str_ErrorCode : Z;
  str_ErrorMessage : string;
  str_Logs : list string;
  str_Events : list Event;
  str_BlockID : Identifier;
  str_BlockHeight : Z;
  str_CollectionID : Identifier
}.
#[global] Instance StorableTransactionResult_eq_dec : EqDecision StorableTransactionResult.
Proof. solve_decision. Defined.

(** The system transactions of a block, in execution order, and the map from
    scheduled transaction IDs to transaction IDs. *)
Record SystemTransactions := mkSystemTransactions {
  st_BlockID : Identifier;
  st_Transactions : list Identifier;
  st_ScheduledTransactionIDs : gmap Z Identifier
}.
#[global] Instance SystemTransactions_eq_dec : EqDecision SystemTransactions.
Proof. solve_decision. Defined.

(** The arguments of [CommitBlock]. *)
Record BlockCommit := mkBlockCommit {
  bc_block : Block;
  bc_collections : list LightCollection;
  bc_transactions : gmap Identifier TransactionBody;
  bc_transactionResults : gmap Identifier StorableTransactionResult;
  bc_systemTransactions : list Identifier;
  bc_systemTransactionBodies : gmap Identifier TransactionBody;
  bc_systemTransactionResults : gmap Identifier StorableTransactionResult;
  bc_executionSnapshot : ExecutionSnapshot;
  bc_events : list Event;
  bc_scheduledTransactionIDs : gmap Z Identifier
}.
Definition bc_height (c : BlockCommit) : Z := Block_Height (bc_block c).

(** The errors of a commit whose result counts do not match. *)
Definition transactions_count_error (n m : nat) : error :=
  Errorf ("transactions count (" +:+ show_int (Z.of_nat n) +:+ ") does not match result count ("
          +:+ show_int (Z.of_nat m) +:+ ")").
Definition system_count_error (n m : nat) : error :=
  Errorf ("system transactions count (" +:+ show_int (Z.of_nat n)
          +:+ ") does not match system result count (" +:+ show_int (Z.of_nat m) +:+ ")").

(** A [snapshot.StorageSnapshot]: reading a register. *)
Definition StorageSnapshot : Type := RegisterID → result RegisterValue.

(** [eventType != "" && event.Type != eventType]: the events of a type, or all. *)
Definition filter_events (eventType : string) (events : list Event) : list Event :=
  filter (λ e, eventType = ""%string ∨ ev_Type e = eventType) events.

(** * The Store interface *)

Class Store (S : Type) := {
  LatestBlockHeight : S → result Z;
  LatestBlock : S → result Block;
  StoreBlock : Block → ST error S unit;
  StoreSystemTransactions : SystemTransactions → ST error S unit;
  SystemTransactionsForBlockID : Identifier → S → result SystemTransactions;
  IndexScheduledTransactionID : Z → Identifier → ST error S unit;
  BlockIDByScheduledTransactionID : Z → S → result Identifier;
  IndexScheduledTransactionBlockID : Identifier → Identifier → ST error S unit;
  ScheduledTransactionBlockIDByTxID : Identifier → S → result Identifier;
  BlockByID : Identifier → S → result Block;
  BlockByHeight : Z → S → result Block;
  CommitBlock : BlockCommit → ST error S unit;
  CollectionByID : Identifier → S → result LightCollection;
  FullCollectionByID : Identifier → S → result Collection;
  TransactionByID : Identifier → S → result TransactionBody;
  TransactionResultByID : Identifier → S → result StorableTransactionResult;
  SystemTransactionResultByID : Identifier → Identifier → S → result StorableTransactionResult;
  LedgerByHeight : Z → S → result StorageSnapshot;
  EventsByHeight : Z → string → S → result (list Event)
}.

(** The optional interfaces of a store: what the type assertions
    [b.storage.(storage.RollbackProvider)] and
    [b.storage.(storage.SnapshotProvider)] give, [None] when the store does not
    have the methods. *)
Record SnapshotProvider (S : Type) := mkSnapshotProvider {
  sp_Supported : S → bool;
  sp_Snapshots : S → result (list string);
  sp_CreateSnapshot : string → ST error S unit;
  sp_LoadSnapshot : string → ST error S unit
}.
Arguments sp_Supported {S}.
Arguments sp_Snapshots {S}.
Arguments sp_CreateSnapshot {S}.
Arguments sp_LoadSnapshot {S}.

Class OptionalInterfaces (S : Type) := {
  as_RollbackProvider : S → option (Z → ST error S unit);
  as_SnapshotProvider : S → option (SnapshotProvider S)
}.

(** * The log of a store *)

(** The writes the blockchain makes. *)
Inductive write :=
  | WCommit (c : BlockCommit)
  | WIndexScheduled (scheduledTxID : Z) (blockID : Identifier)
  | WIndexTx (txID blockID : Identifier).

Definition apply_write {S : Type} `{!Store S} (w : write) : ST error S unit :=
  match w with
  | WCommit c => CommitBlock c
  | WIndexScheduled n b => IndexScheduledTransactionID n b
  | WIndexTx t b => IndexScheduledTransactionBlockID t b
  end.

(** The writes [l], newest first, made one after the other. *)
Definition run_log {S : Type} `{!Store S} (l : list write) : ST error S unit :=
  st_iter apply_write (reverse l).

(** The log, newest write first. *)
Abbreviation log := (list write).

(** The newest write that has something to say. *)
Fixpoint newest {A} (f : write → option A) (l : log) : option A :=
  match l with
  | [] => None
  | w :: l => match f w with Some a => Some a | None => newest f l end
  end.

Definition on_commit {A} (f : BlockCommit → option A) (w : write) : option A :=
  match w with WCommit c => f c | _ => None end.

Section spec.
Context {FM : FlowModel}.

Definition c_height (c : BlockCommit) : option Z := Some (bc_height c).
Definition c_block (h : Z) (c : BlockCommit) : option Block :=
  if decide (bc_height c = h) then Some (bc_block c) else None.
Definition c_blockID (id : Identifier) (c : BlockCommit) : option Z :=
  if decide (Block_ID (bc_block c) = id) then Some (bc_height c) else None.
Definition c_collection (id : Identifier) (c : BlockCommit) : option LightCollection :=
  last_write id ((λ col, (LightCollection_ID col, col)) <$> bc_collections c).
(** System transaction bodies are written after the user transactions. *)
Definition c_transaction (id : Identifier) (c : BlockCommit) : option TransactionBody :=
  match bc_systemTransactionBodies c !! id with
  | Some tx => Some tx
  | None => bc_transactions c !! id
  end.
Definition c_result (id : Identifier) (c : BlockCommit) : option StorableTransactionResult :=
  bc_transactionResults c !! id.
Definition c_systemResult (blockID txID : Identifier) (c : BlockCommit)
    : option StorableTransactionResult :=
  if decide (Block_ID (bc_block c) = blockID)
  then bc_systemTransactionResults c !! txID else None.
(** The metadata record is written unless there is nothing to record. *)
Definition has_systemTransactions (c : BlockCommit) : bool :=
  bool_decide (0 < length (bc_systemTransactions c))%nat
  || bool_decide (0 < size (bc_scheduledTransactionIDs c))%nat.
Definition commit_metadata (c : BlockCommit) : SystemTransactions :=
  mkSystemTransactions (Block_ID (bc_block c)) (bc_systemTransactions c)
    (bc_scheduledTransactionIDs c).
Definition c_systemTransactions (blockID : Identifier) (c : BlockCommit)
    : option SystemTransactions :=
  if decide (Block_ID (bc_block c) = blockID)
  then if has_systemTransactions c then Some (commit_metadata c) else None
  else None.
Definition c_events (h : Z) (c : BlockCommit) : option (list Event) :=
  if decide (bc_height c = h) then Some (bc_events c) else None.
Definition c_register (h : Z) (r : RegisterID) (c : BlockCommit) : option RegisterValue :=
  if decide (bc_height c ≤ h) then WriteSet (bc_executionSnapshot c) !! r else None.

Definition found {A} (o : option A) : result A := of_option ErrNotFound o.

Definition log_LatestBlockHeight (l : log) : result Z := found (newest (on_commit c_height) l).
Definition log_BlockByHeight (h : Z) (l : log) : result Block :=
  found (newest (on_commit (c_block h)) l).
Definition log_LatestBlock (l : log) : result Block :=
  h ← log_LatestBlockHeight l; log_BlockByHeight h l.
Definition log_BlockByID (id : Identifier) (l : log) : result Block :=
  h ← found (newest (on_commit (c_blockID id)) l); log_BlockByHeight h l.
Definition log_CollectionByID (id : Identifier) (l : log) : result LightCollection :=
  found (newest (on_commit (c_collection id)) l).
Definition log_TransactionByID (id : Identifier) (l : log) : result TransactionBody :=
  found (newest (on_commit (c_transaction id)) l).
Definition log_FullCollectionByID (id : Identifier) (l : log) : result Collection :=
  col ← log_CollectionByID id l;
  txs ← res_map (λ t, log_TransactionByID t l) (lc_Transactions col);
  Ok (mkCollection txs).
Definition log_TransactionResultByID (id : Identifier) (l : log)
    : result StorableTransactionResult :=
  found (newest (on_commit (c_result id)) l).
Definition log_SystemTransactionResultByID (b t : Identifier) (l : log)
    : result StorableTransactionResult :=
  found (newest (on_commit (c_systemResult b t)) l).
Definition log_SystemTransactionsForBlockID (b : Identifier) (l : log)
    : result SystemTransactions :=
  found (newest (on_commit (c_systemTransactions b)) l).
Definition log_BlockIDByScheduledTransactionID (n : Z) (l : log) : result Identifier :=
  found (newest (λ w, match w with
                      | WIndexScheduled m b => if decide (m = n) then Some b else None
                      | _ => None end) l).
Definition log_ScheduledTransactionBlockIDByTxID (t : Identifier) (l : log)
    : result Identifier :=
  found (newest (λ w, match w with
                      | WIndexTx t' b => if decide (t' = t) then Some b else None
                      | _ => None end) l).
Definition log_EventsByHeight (h : Z) (ty : string) (l : log) : result (list Event) :=
  Ok (filter_events ty (default [] (newest (on_commit (c_events h)) l))).
Definition log_Register (h : Z) (r : RegisterID) (l : log) : RegisterValue :=
  default [] (newest (on_commit (c_register h r)) l).

(** ** Well-formed logs

    The blocks are committed at the heights 0, 1, 2, ..., with as many results
    as transactions; an index entry may be written at any time. *)

Definition next_height (l : log) : Z :=
  match newest (on_commit c_height) l with Some h => h + 1 | None => 0 end.

(** The error of a commit whose counts do not match. *)
Definition counts_error (c : BlockCommit) : error :=
  if decide (size (bc_transactions c) = size (bc_transactionResults c))
  then system_count_error (length (bc_systemTransactions c)) (size (bc_systemTransactionResults c))
  else transactions_count_error (size (bc_transactions c)) (size (bc_transactionResults c)).

Definition counts_match (c : BlockCommit) : Prop :=
  size (bc_transactions c) = size (bc_transactionResults c) ∧
  length (bc_systemTransactions c) = size (bc_systemTransactionResults c).
#[global] Instance counts_match_dec c : Decision (counts_match c) := _.

Definition write_ok (l : log) (w : write) : Prop :=
  match w with
  | WCommit c => bc_height c = next_height l ∧ is_u64 (bc_height c) ∧ counts_match c
  | WIndexScheduled n _ => is_u64 n
  | WIndexTx _ _ => True
  end.

Inductive log_ok : log → Prop :=
  | log_ok_nil : log_ok []
  | log_ok_cons w l : log_ok l → write_ok l w → log_ok (w :: l).
End spec.

(** * Refinement of the log by a store *)

(** The store [s] answers the queries as the log [l] does.  A register is asked
    for at a committed height, or at the first one before anything is committed:
    above the latest block the stores differ, as the in-memory store has no
    registers there and the others have the newest ones. *)
Record refines {FM : FlowModel} {S : Type} `{!Store S} (s : S) (l : log) : Prop := {
  ref_LatestBlockHeight : LatestBlockHeight s = log_LatestBlockHeight l;
  ref_LatestBlock : LatestBlock s = log_LatestBlock l;
  ref_BlockByHeight h : is_u64 h → BlockByHeight h s = log_BlockByHeight h l;
  ref_BlockByID id : BlockByID id s = log_BlockByID id l;
  ref_CollectionByID id : CollectionByID id s = log_CollectionByID id l;
  ref_FullCollectionByID id : FullCollectionByID id s = log_FullCollectionByID id l;
  ref_TransactionByID id : TransactionByID id s = log_TransactionByID id l;
  ref_TransactionResultByID id : TransactionResultByID id s = log_TransactionResultByID id l;
  ref_SystemTransactionResultByID b t :
    SystemTransactionResultByID b t s = log_SystemTransactionResultByID b t l;
  ref_SystemTransactionsForBlockID b :
    SystemTransactionsForBlockID b s = log_SystemTransactionsForBlockID b l;
  ref_BlockIDByScheduledTransactionID n :
    is_u64 n → BlockIDByScheduledTransactionID n s = log_BlockIDByScheduledTransactionID n l;
  ref_ScheduledTransactionBlockIDByTxID t :
    ScheduledTransactionBlockIDByTxID t s = log_ScheduledTransactionBlockIDByTxID t l;
  ref_EventsByHeight h ty : is_u64 h → EventsByHeight h ty s = log_EventsByHeight h ty l;
  ref_LedgerByHeight h :
    0 ≤ h < next_height l →
    ∃ snap, LedgerByHeight h s = Ok snap ∧ ∀ r, snap r = Ok (log_Register h r l);
  ref_LedgerByHeight_first :
    next_height l = 0 → ∃ snap, LedgerByHeight 0 s = Ok snap ∧ ∀ r, snap r = Ok (log_Register 0 r l);
  ref_LedgerByHeight_total h : ∃ snap, LedgerByHeight h s = Ok snap
}.

(** What a store promises to its clients: it starts empty, and every write
    that extends a well-formed log succeeds and keeps the store an image of the
    log.  [store_writable] is what the back end asks of a write. *)
Class StoreCorrect {FM : FlowModel} (S : Type) `{!Store S} := {
  store_empty : S;
  store_rel : S → log → Prop;
  store_writable : S → log → write → Prop;
  store_rel_refines s l : store_rel s l → refines s l;
  store_rel_empty : store_rel store_empty [];
  store_rel_step s l w :
    store_rel s l → log_ok (w :: l) → store_writable s l w →
    ∃ s', apply_write w s = (Ok (), s') ∧ store_rel s' (w :: l);
  (** A commit whose counts do not match is refused, and nothing is written. *)
  store_counts s c : ¬ counts_match c → CommitBlock c s = (Err (counts_error c), s)
}.

Lemma st_iter_snoc {E S A} (f : A → ST E S unit) l x s :
  st_iter f (l ++ [x]) s = (st_iter f l ;; f x) s.
Proof.
  revert s. induction l as [|y l IH]; intros s; simpl.
  - unfold mbind, ST_bind. simpl. by destruct (f x s) as [[[]|] ?].
  - rewrite ST_bind_assoc_unit. unfold mbind, ST_bind.
    destruct (f y s) as [[[]|] s1]; [|done]. apply IH.
Qed.

(** * Facts about logs *)

Section log_facts.
Context {FM : FlowModel}.

Lemma newest_app {A} (f : write → option A) l1 l2 :
  newest f (l1 ++ l2) = match newest f l1 with Some a => Some a | None => newest f l2 end.
Proof.
  induction l1 as [|w l1 IH]; [done|]. simpl. rewrite IH. by destruct (f w).
Qed.

Lemma newest_elem {A} (f : write → option A) l a :
  newest f l = Some a → ∃ w, w ∈ l ∧ f w = Some a.
Proof.
  induction l as [|w l IH]; [done|]. simpl. destruct (f w) eqn:Hw.
  - intros [= <-]. exists w. split; [left|done].
  - intros Hl. destruct (IH Hl) as (w' & ? & ?). exists w'. split; [by right|done].
Qed.

Lemma newest_None {A} (f : write → option A) l :
  newest f l = None ↔ ∀ w, w ∈ l → f w = None.
Proof.
  induction l as [|w l IH]; simpl.
  - split; [|done]. intros _ w Hw. by apply not_elem_of_nil in Hw.
  - split.
    + destruct (f w) eqn:Hw; [done|]. intros Hl w' [->|Hin]%elem_of_cons; [done|].
      by apply IH.
    + intros Hall. rewrite (Hall w) by left. apply IH. intros w' Hin. apply Hall. by right.
Qed.

Lemma newest_same {A} (f : write → option A) l w a :
  w ∈ l → f w = Some a → (∀ w' a', w' ∈ l → f w' = Some a' → a' = a) → newest f l = Some a.
Proof.
  intros Hw Hf Hsame. destruct (newest f l) as [a'|] eqn:Hn.
  - apply newest_elem in Hn as (w' & Hin & Hf'). f_equal. by eapply Hsame.
  - rewrite (proj1 (newest_None f l) Hn w Hw) in Hf. done.
Qed.

Lemma newest_ext {A} (f g : write → option A) l :
  (∀ w, w ∈ l → f w = g w) → newest f l = newest g l.
Proof.
  induction l as [|w l IH]; intros Hfg; [done|]. simpl.
  rewrite (Hfg w) by left. rewrite IH; [done|]. intros w' Hw. apply Hfg. by right.
Qed.

Lemma log_ok_tail w l : log_ok (w :: l) → log_ok l ∧ write_ok l w.
Proof. by inversion 1. Qed.

Lemma next_height_commit c l : next_height (WCommit c :: l) = bc_height c + 1.
Proof. done. Qed.

Lemma next_height_nonneg l : log_ok l → 0 ≤ next_height l.
Proof.
  induction 1 as [|w l Hl IH Hw]; [done|].
  destruct w as [c| |]; [|done|done]. rewrite next_height_commit.
  destruct Hw as (-> & _ & _). lia.
Qed.

Lemma log_heights l c : log_ok l → WCommit c ∈ l → 0 ≤ bc_height c < next_height l.
Proof.
  induction 1 as [|w l Hl IH Hw]; [by intros ?%not_elem_of_nil|].
  pose proof (next_height_nonneg l Hl) as Hn.
  intros [<-|Hin]%elem_of_cons.
  - rewrite next_height_commit. destruct Hw as (-> & _ & _). lia.
  - specialize (IH Hin). destruct w as [c'| |]; [|done|done].
    rewrite next_height_commit. destruct Hw as (-> & _ & _). lia.
Qed.

Lemma next_height_le l : log_ok l → next_height l ≤ two64.
Proof.
  induction 1 as [|w l Hl IH Hw]; [done|].
  destruct w as [c| |]; [|done|done]. rewrite next_height_commit.
  destruct Hw as (_ & Hu & _). unfold is_u64 in Hu. lia.
Qed.

(** The blocks of a well-formed log are exactly those of the heights below
    the next one. *)
Lemma log_block_dom l h :
  log_ok l → is_Ok (log_BlockByHeight h l) = true ↔ 0 ≤ h < next_height l.
Proof.
  induction 1 as [|w l Hl IH Hw]; [simpl; split; [done|unfold next_height; simpl; lia]|].
  destruct w as [c| |]; [|done|done].
  rewrite next_height_commit. unfold log_BlockByHeight, c_block. simpl.
  pose proof (next_height_nonneg l Hl) as Hn. destruct Hw as (Hc & _ & _).
  case_decide as Hh.
  - split; [intros _; lia|done].
  - split.
    + intros H%IH. lia.
    + intros H. apply IH. lia.
Qed.

Lemma log_block_above l h : log_ok l → next_height l ≤ h → log_BlockByHeight h l = Err ErrNotFound.
Proof.
  intros Hl Hh. destruct (log_block_dom l h Hl) as [H _]. unfold log_BlockByHeight, found in *.
  destruct (newest _ l); [|done]. specialize (H eq_refl). lia.
Qed.

Lemma log_block_height l h b : log_BlockByHeight h l = Ok b → Block_Height b = h.
Proof.
  unfold log_BlockByHeight. destruct (newest _ l) as [b'|] eqn:Hn; [|done].
  intros [= <-]. apply newest_elem in Hn as (w & _ & Hw).
  destruct w as [c| |]; simplify_eq/=. unfold c_block in Hw.
  case_decide; simplify_eq. done.
Qed.

(** A commit at the next height is the newest block; the older ones stay. *)
Lemma log_block_commit l c h :
  log_BlockByHeight h (WCommit c :: l) =
  if decide (bc_height c = h) then Ok (bc_block c) else log_BlockByHeight h l.
Proof. unfold log_BlockByHeight, c_block. simpl. by case_decide. Qed.

Lemma log_latest_commit l c : log_LatestBlock (WCommit c :: l) = Ok (bc_block c).
Proof. unfold log_LatestBlock. simpl. by rewrite log_block_commit, decide_True. Qed.

(** Reading a register at a committed height is not affected by later
    commits: a snapshot of the ledger is immutable. *)
Lemma log_register_stable l w h r :
  log_ok (w :: l) → h < next_height l → log_Register h r (w :: l) = log_Register h r l.
Proof.
  intros [Hl Hw]%log_ok_tail Hh. destruct w as [c| |]; [|done|done].
  destruct Hw as (Hc & _ & _). unfold log_Register. simpl. unfold c_register at 1.
  rewrite decide_False by lia. done.
Qed.

Lemma log_register_commit l c h r :
  bc_height c ≤ h →
  log_Register h r (WCommit c :: l) =
  match WriteSet (bc_executionSnapshot c) !! r with
  | Some v => v
  | None => log_Register h r l
  end.
Proof.
  intros Hh. unfold log_Register. simpl. unfold c_register at 1.
  rewrite decide_True by done. by destruct (WriteSet _ !! r).
Qed.

(** Before anything is committed every register is empty. *)
Lemma log_register_none l h r : log_ok l → next_height l = 0 → log_Register h r l = [].
Proof.
  intros Hok H0. unfold log_Register.
  rewrite (proj2 (newest_None (on_commit (c_register h r)) l)); [done|].
  intros [c| |] Hw; [|done..]. pose proof (log_heights l c Hok Hw). lia.
Qed.

(** Above the latest height the registers are those of the latest height. *)
Lemma log_register_beyond l h h' r :
  log_ok l → next_height l - 1 ≤ h → next_height l - 1 ≤ h' → log_Register h r l = log_Register h' r l.
Proof.
  intros Hok Hh Hh'. unfold log_Register. f_equal. apply newest_ext. intros w Hw.
  destruct w as [c| |]; [|done..]. simpl. unfold c_register.
  pose proof (log_heights l c Hok Hw). by rewrite !decide_True by lia.
Qed.

Lemma next_height_mono l w : log_ok (w :: l) → next_height l ≤ next_height (w :: l).
Proof.
  intros [_ Hw]%log_ok_tail. destruct w as [c| |]; [|done|done].
  rewrite next_height_commit. destruct Hw as [-> _]. lia.
Qed.

Lemma next_height_app ws l : log_ok (ws ++ l) → next_height l ≤ next_height (ws ++ l).
Proof.
  induction ws as [|w ws IH]; intros Hok; [done|].
  change ((w :: ws) ++ l) with (w :: ws ++ l) in *. pose proof (next_height_mono _ _ Hok).
  apply log_ok_tail in Hok as [Hok _]. specialize (IH Hok). lia.
Qed.

(** The height of a commit is above the older log. *)
Lemma log_above l1 l0 c : log_ok (l1 ++ l0) → WCommit c ∈ l1 → next_height l0 ≤ bc_height c.
Proof.
  induction l1 as [|w l1 IH]; intros Hok Hin; [by apply not_elem_of_nil in Hin|].
  apply log_ok_tail in Hok as [Hok Hw].
  apply elem_of_cons in Hin as [<-|Hin]; [|by apply IH].
  destruct Hw as (-> & _). clear IH. induction l1 as [|w l1 IH]; simpl; [done|].
  apply log_ok_tail in Hok as [Hok Hw]. specialize (IH Hok).
  destruct w as [c'| |]; [|done|done]. rewrite next_height_commit. destruct Hw as (-> & _). lia.
Qed.

(** Later writes do not change what is recorded at a committed height. *)
Lemma log_block_stable ws l h :
  log_ok (ws ++ l) → h < next_height l → log_BlockByHeight h (ws ++ l) = log_BlockByHeight h l.
Proof.
  induction ws as [|w ws IH]; intros Hok Hh; [done|].
  simpl. pose proof (log_ok_tail _ _ Hok) as [Hok' _].
  destruct w as [c| |]; [|by apply IH..].
  rewrite log_block_commit, decide_False; [by apply IH|].
  pose proof (log_above (WCommit c :: ws) l c Hok ltac:(left)). lia.
Qed.

Lemma log_events_stable ws l h ty :
  log_ok (ws ++ l) → h < next_height l → log_EventsByHeight h ty (ws ++ l) = log_EventsByHeight h ty l.
Proof.
  induction ws as [|w ws IH]; intros Hok Hh; [done|].
  simpl. pose proof (log_ok_tail _ _ Hok) as [Hok' _]. rewrite <- IH by done.
  destruct w as [c| |]; [|done..]. unfold log_EventsByHeight. simpl. unfold c_events at 1.
  rewrite decide_False; [done|].
  pose proof (log_above (WCommit c :: ws) l c Hok ltac:(left)). lia.
Qed.

Lemma log_register_stable_app ws l h r :
  log_ok (ws ++ l) → h < next_height l → log_Register h r (ws ++ l) = log_Register h r l.
Proof.
  induction ws as [|w ws IH]; intros Hok Hh; [done|].
  simpl. pose proof (log_ok_tail _ _ Hok) as [Hok' _]. rewrite <- IH by done.
  apply log_register_stable; [done|]. pose proof (next_height_app ws l Hok'). lia.
Qed.
End log_facts.

(** A store that follows its contract makes every write of a well-formed log
    and stays an image of the log. *)
Lemma run_log_correct {FM : FlowModel} {S : Type} `{!Store S} {SC : StoreCorrect S} s0 l0 l1 :
  store_rel s0 l0 → log_ok (l1 ++ l0) →
  (∀ s l2 w l3, l1 = l3 ++ w :: l2 → store_rel s (l2 ++ l0) → store_writable s (l2 ++ l0) w) →
  ∃ s, run_log l1 s0 = (Ok (), s) ∧ store_rel s (l1 ++ l0).
Proof.
  intros R0. induction l1 as [|w l1 IH]; intros Hok Hw; [by exists s0|].
  pose proof Hok as Hok'. apply log_ok_tail in Hok' as [Hok1 _].
  destruct (IH Hok1) as (s1 & Hs1 & R1).
  { intros s l2 w' l3 -> R. eapply (Hw s l2 w' (w :: l3)); done. }
  destruct (store_rel_step s1 (l1 ++ l0) w R1 Hok) as (s2 & Hs2 & R2).
  { by apply (Hw s1 l1 w []). }
  exists s2. split; [|done]. unfold run_log. rewrite reverse_cons, st_iter_snoc.
  by erewrite ST_bind_step.
Qed.
