(* ===== verification/Keys.v ===== *)
(** The keys of the stored entities: [DefaultKeyGenerator] of storage/store.go,
    the store names, and the injectivity facts that keep the entries of a store
    apart. *)
From S2P Require Import Prelude FlowTypes.

(** The names of the stores (tables, key prefixes). *)
Definition globalStoreName : string := "global".
Definition BlockIndexStoreName : string := "blockIndex".
Definition BlockStoreName : string := "blocks".
Definition SystemTransactionName : string := "systemTransactions".
Definition CollectionStoreName : string := "collections".
Definition TransactionStoreName : string := "transactions".
Definition TransactionResultStoreName : string := "transactionResults".
Definition EventStoreName : string := "events".
Definition LedgerStoreName : string := "ledger".
Definition scheduledTransactionIndexName : string := "scheduledTransactionIndex".
Definition scheduledTransactionBlockIndexName : string := "scheduledTransactionBlockIndex".

Definition all_stores : list string :=
  [globalStoreName; BlockIndexStoreName; BlockStoreName; SystemTransactionName;
   CollectionStoreName; TransactionStoreName; TransactionResultStoreName; EventStoreName;
   LedgerStoreName; scheduledTransactionIndexName; scheduledTransactionBlockIndexName].

Module DefaultKeyGenerator.
Definition Storage (key : string) : string := key.
Definition LatestBlock : Bytes := bytes_of_string "latest_block_height".
Definition ForkedBlock : Bytes := bytes_of_string "forked_block_height".
(** [%032d] *)
Definition BlockHeight (blockHeight : Z) : Bytes := fixed_dec 32 blockHeight.
(** [%x] *)
Definition IdentifierKey (id : Identifier) : Bytes := hex_id id.
(** [scheduled_tx_%d] *)
Definition ScheduledTransactionID (scheduledTxID : Z) : Bytes :=
  bytes_of_string "scheduled_tx_" ++ show_dec scheduledTxID.
(** [system_tx_result_%x_%x] *)
Definition SystemTransactionResult (blockID txID : Identifier) : Bytes :=
  bytes_of_string "system_tx_result_" ++ hex_id blockID ++ bytes_of_string "_" ++ hex_id txID.
End DefaultKeyGenerator.

(** * Injectivity *)

Section key_facts.
Import DefaultKeyGenerator.

Lemma two64_lt_dec32 : two64 < 10 ^ Z.of_nat 32.
Proof. reflexivity. Qed.

Lemma BlockHeight_inj h1 h2 :
  is_u64 h1 → is_u64 h2 → BlockHeight h1 = BlockHeight h2 → h1 = h2.
Proof.
  intros [??] [??]. pose proof two64_lt_dec32. apply fixed_dec_inj; lia.
Qed.

Lemma ScheduledTransactionID_inj n1 n2 :
  is_u64 n1 → is_u64 n2 → ScheduledTransactionID n1 = ScheduledTransactionID n2 → n1 = n2.
Proof. intros Hn1 Hn2 H. apply app_inv_head in H. by apply show_dec_inj. Qed.

Lemma SystemTransactionResult_inj b1 t1 b2 t2 :
  SystemTransactionResult b1 t1 = SystemTransactionResult b2 t2 → b1 = b2 ∧ t1 = t2.
Proof.
  unfold SystemTransactionResult. intros H. apply app_inv_head in H.
  apply app_inj_length in H as [Hb H]; [|by rewrite !hex_id_length].
  apply app_inv_head in H. by split; apply (inj hex_id).
Qed.

(** User results and system results share a store: their keys differ. *)
Lemma SystemTransactionResult_Identifier b t id :
  SystemTransactionResult b t ≠ IdentifierKey id.
Proof.
  intros H. apply (f_equal length) in H. unfold SystemTransactionResult, IdentifierKey in H.
  rewrite !length_app, !hex_id_length in H. simpl in H. lia.
Qed.

Lemma LatestBlock_ForkedBlock : LatestBlock ≠ ForkedBlock.
Proof. done. Qed.
End key_facts.
