(* ===== verification/Memstore.v ===== *)
(** The in-memory store: storage/memstore/memstore.go.

    The Go maps are finite maps, the zero value of a missing entry is written
    out, and the methods that take the lock are the operations (a lock-protected
    method is one atomic step).  The ledger of a height is flow-go's
    [snapshot.SnapshotTree], a parameter with its two documented equations.
    [mem_correct] is the store's contract: it is an instance of [StoreCorrect]. *)
From S2P Require Import Prelude FlowTypes Errors Storage Keys.

(** * flow-go's snapshot trees

    The zero tree, [Append] and [Get]. *)
Class SnapshotTrees := {
  SnapshotTree : Type;
  emptyTree : SnapshotTree;
  tree_Append : ExecutionSnapshot → SnapshotTree → SnapshotTree;
  tree_Get : SnapshotTree → RegisterID → result RegisterValue
}.

Class SnapshotTreeLaws (TR : SnapshotTrees) : Prop := {
  tree_Get_empty r : tree_Get emptyTree r = Ok [];
  tree_Get_Append es t r :
    tree_Get (tree_Append es t) r =
    match WriteSet es !! r with Some v => Ok v | None => tree_Get t r end
}.

Module Mem.
Section memstore.
Context {FM : FlowModel} {TR : SnapshotTrees} {GO : GoMapOrder}.

Record Memstore := mkMemstore {
  blockIDToHeight : gmap Identifier Z;
  blocks : gmap Z Block;
  collections : gmap Identifier LightCollection;
  transactions : gmap Identifier TransactionBody;
  systemTransactions : gmap Identifier SystemTransactions;
  scheduledTransactionIndex : gmap Z Identifier;
  scheduledTransactionBlockIndex : gmap Identifier Identifier;
  transactionResults : gmap Identifier StorableTransactionResult;
  systemTransactionResults : gmap Bytes StorableTransactionResult;
  ledger : gmap Z SnapshotTree;
  eventsByBlockHeight : gmap Z (list Event);
  blockHeight : Z
}.

Definition New : Memstore := mkMemstore ∅ ∅ ∅ ∅ ∅ ∅ ∅ ∅ ∅ ∅ ∅ 0.

(** ** Assignments to the fields *)

Definition set_block (b : Block) (s : Memstore) : Memstore :=
  mkMemstore (<[Block_ID b := Block_Height b]> (blockIDToHeight s))
    (<[Block_Height b := b]> (blocks s)) (collections s) (transactions s)
    (systemTransactions s) (scheduledTransactionIndex s) (scheduledTransactionBlockIndex s)
    (transactionResults s) (systemTransactionResults s) (ledger s) (eventsByBlockHeight s)
    (if bool_decide (Block_Height b > blockHeight s) then Block_Height b else blockHeight s).
Definition set_collections f (s : Memstore) : Memstore :=
  mkMemstore (blockIDToHeight s) (blocks s) (f (collections s)) (transactions s)
    (systemTransactions s) (scheduledTransactionIndex s) (scheduledTransactionBlockIndex s)
    (transactionResults s) (systemTransactionResults s) (ledger s) (eventsByBlockHeight s)
    (blockHeight s).
Definition set_transactions f (s : Memstore) : Memstore :=
  mkMemstore (blockIDToHeight s) (blocks s) (collections s) (f (transactions s))
    (systemTransactions s) (scheduledTransactionIndex s) (scheduledTransactionBlockIndex s)
    (transactionResults s) (systemTransactionResults s) (ledger s) (eventsByBlockHeight s)
    (blockHeight s).
Definition set_systemTransactions f (s : Memstore) : Memstore :=
  mkMemstore (blockIDToHeight s) (blocks s) (collections s) (transactions s)
    (f (systemTransactions s)) (scheduledTransactionIndex s)
    (scheduledTransactionBlockIndex s) (transactionResults s) (systemTransactionResults s)
    (ledger s) (eventsByBlockHeight s) (blockHeight s).
Definition set_scheduledTransactionIndex f (s : Memstore) : Memstore :=
  mkMemstore (blockIDToHeight s) (blocks s) (collections s) (transactions s)
    (systemTransactions s) (f (scheduledTransactionIndex s))
    (scheduledTransactionBlockIndex s) (transactionResults s) (systemTransactionResults s)
    (ledger s) (eventsByBlockHeight s) (blockHeight s).
Definition set_scheduledTransactionBlockIndex f (s : Memstore) : Memstore :=
  mkMemstore (blockIDToHeight s) (blocks s) (collections s) (transactions s)
    (systemTransactions s) (scheduledTransactionIndex s)
    (f (scheduledTransactionBlockIndex s)) (transactionResults s)
    (systemTransactionResults s) (ledger s) (eventsByBlockHeight s) (blockHeight s).
Definition set_transactionResults f (s : Memstore) : Memstore :=
  mkMemstore (blockIDToHeight s) (blocks s) (collections s) (transactions s)
    (systemTransactions s) (scheduledTransactionIndex s) (scheduledTransactionBlockIndex s)
    (f (transactionResults s)) (systemTransactionResults s) (ledger s)
    (eventsByBlockHeight s) (blockHeight s).
Definition set_systemTransactionResults f (s : Memstore) : Memstore :=
  mkMemstore (blockIDToHeight s) (blocks s) (collections s) (transactions s)
    (systemTransactions s) (scheduledTransactionIndex s) (scheduledTransactionBlockIndex s)
    (transactionResults s) (f (systemTransactionResults s)) (ledger s)
    (eventsByBlockHeight s) (blockHeight s).
Definition set_ledger f (s : Memstore) : Memstore :=
  mkMemstore (blockIDToHeight s) (blocks s) (collections s) (transactions s)
    (systemTransactions s) (scheduledTransactionIndex s) (scheduledTransactionBlockIndex s)
    (transactionResults s) (systemTransactionResults s) (f (ledger s))
    (eventsByBlockHeight s) (blockHeight s).
Definition set_events f (s : Memstore) : Memstore :=
  mkMemstore (blockIDToHeight s) (blocks s) (collections s) (transactions s)
    (systemTransactions s) (scheduledTransactionIndex s) (scheduledTransactionBlockIndex s)
    (transactionResults s) (systemTransactionResults s) (ledger s)
    (f (eventsByBlockHeight s)) (blockHeight s).

(** ** Reads *)

Definition mem_LatestBlock (s : Memstore) : result Block :=
  found (blocks s !! blockHeight s).
Definition mem_LatestBlockHeight (s : Memstore) : result Z :=
  b ← mem_LatestBlock s; Ok (Block_Height b).
Definition mem_BlockByHeight (height : Z) (s : Memstore) : result Block :=
  found (blocks s !! height).
Definition mem_BlockByID (blockID : Identifier) (s : Memstore) : result Block :=
  h ← found (blockIDToHeight s !! blockID); found (blocks s !! h).
Definition mem_SystemTransactionsForBlockID (blockID : Identifier) (s : Memstore)
    : result SystemTransactions :=
  found (systemTransactions s !! blockID).
Definition mem_BlockIDByScheduledTransactionID (n : Z) (s : Memstore) : result Identifier :=
  found (scheduledTransactionIndex s !! n).
Definition mem_ScheduledTransactionBlockIDByTxID (t : Identifier) (s : Memstore)
    : result Identifier :=
  found (scheduledTransactionBlockIndex s !! t).
Definition mem_CollectionByID (id : Identifier) (s : Memstore) : result LightCollection :=
  found (collections s !! id).
Definition mem_TransactionByID (id : Identifier) (s : Memstore) : result TransactionBody :=
  found (transactions s !! id).
Definition mem_FullCollectionByID (id : Identifier) (s : Memstore) : result Collection :=
  light ← found (collections s !! id);
  txs ← res_map (λ t, found (transactions s !! t)) (lc_Transactions light);
  Ok (mkCollection txs).
Definition mem_TransactionResultByID (id : Identifier) (s : Memstore)
    : result StorableTransactionResult :=
  found (transactionResults s !! id).
Definition mem_SystemTransactionResultByID (blockID txID : Identifier) (s : Memstore)
    : result StorableTransactionResult :=
  found (systemTransactionResults s !! DefaultKeyGenerator.SystemTransactionResult blockID txID).
(** [s.ledger[blockHeight]]: the zero tree when the height is not there. *)
Definition ledger_at (h : Z) (s : Memstore) : SnapshotTree := default emptyTree (ledger s !! h).
Definition mem_LedgerByHeight (h : Z) (s : Memstore) : result StorageSnapshot :=
  Ok (tree_Get (ledger_at h s)).
Definition mem_EventsByHeight (h : Z) (eventType : string) (s : Memstore)
    : result (list Event) :=
  Ok (filter_events eventType (default [] (eventsByBlockHeight s !! h))).

(** ** Writes *)

Definition storeBlock (b : Block) : ST error Memstore unit := st_modify (set_block b).
Definition mem_StoreSystemTransactions (st : SystemTransactions) : ST error Memstore unit :=
  st_modify (set_systemTransactions (<[st_BlockID st := st]>)).
Definition mem_IndexScheduledTransactionID (n : Z) (blockID : Identifier)
    : ST error Memstore unit :=
  st_modify (set_scheduledTransactionIndex (<[n := blockID]>)).
Definition mem_IndexScheduledTransactionBlockID (txID blockID : Identifier)
    : ST error Memstore unit :=
  st_modify (set_scheduledTransactionBlockIndex (<[txID := blockID]>)).
Definition insertCollection (col : LightCollection) : ST error Memstore unit :=
  st_modify (set_collections (<[LightCollection_ID col := col]>)).
Definition insertSystemTransactions (blockID : Identifier) (st : SystemTransactions)
    : ST error Memstore unit :=
  st_modify (set_systemTransactions (<[blockID := st]>)).
Definition insertTransaction (p : Identifier * TransactionBody) : ST error Memstore unit :=
  st_modify (set_transactions (<[p.1 := p.2]>)).
Definition insertTransactionResult (p : Identifier * StorableTransactionResult)
    : ST error Memstore unit :=
  st_modify (set_transactionResults (<[p.1 := p.2]>)).
Definition insertSystemTransactionResult (blockID : Identifier)
    (p : Identifier * StorableTransactionResult) : ST error Memstore unit :=
  st_modify (set_systemTransactionResults
    (<[DefaultKeyGenerator.SystemTransactionResult blockID p.1 := p.2]>)).
(** The previous ledger is the one at [blockHeight-1], a [uint64]. *)
Definition insertExecutionSnapshot (h : Z) (es : ExecutionSnapshot) : ST error Memstore unit :=
  st_modify (λ s, set_ledger (<[h := tree_Append es (ledger_at (h -64 1) s)]>) s).
Definition insertEvents (h : Z) (events : list Event) : ST error Memstore unit :=
  st_modify (set_events (λ m,
    match m !! h with
    | None => <[h := events]> m
    | Some old => <[h := old ++ events]> m
    end)).

Definition mem_CommitBlock (c : BlockCommit) : ST error Memstore unit :=
  if bool_decide (size (bc_transactions c) ≠ size (bc_transactionResults c))
  then st_fail (transactions_count_error (size (bc_transactions c)) (size (bc_transactionResults c)))
  else if bool_decide (length (bc_systemTransactions c) ≠ size (bc_systemTransactionResults c))
  then st_fail (system_count_error (length (bc_systemTransactions c))
                              (size (bc_systemTransactionResults c)))
  else
    storeBlock (bc_block c) ;;
    st_iter insertCollection (bc_collections c) ;;
    (if has_systemTransactions c
     then insertSystemTransactions (Block_ID (bc_block c)) (commit_metadata c)
     else mret ()) ;;
    st_iter insertTransaction (map_range (bc_transactions c)) ;;
    st_iter insertTransactionResult (map_range (bc_transactionResults c)) ;;
    st_iter insertTransaction (map_range (bc_systemTransactionBodies c)) ;;
    st_iter (insertSystemTransactionResult (Block_ID (bc_block c)))
      (map_range (bc_systemTransactionResults c)) ;;
    insertExecutionSnapshot (bc_height c) (bc_executionSnapshot c) ;;
    insertEvents (bc_height c) (bc_events c).

#[global] Instance mem_Store : Store Memstore := {
  LatestBlockHeight := mem_LatestBlockHeight;
  LatestBlock := mem_LatestBlock;
  StoreBlock := storeBlock;
  StoreSystemTransactions := mem_StoreSystemTransactions;
  SystemTransactionsForBlockID := mem_SystemTransactionsForBlockID;
  IndexScheduledTransactionID := mem_IndexScheduledTransactionID;
  BlockIDByScheduledTransactionID := mem_BlockIDByScheduledTransactionID;
  IndexScheduledTransactionBlockID := mem_IndexScheduledTransactionBlockID;
  ScheduledTransactionBlockIDByTxID := mem_ScheduledTransactionBlockIDByTxID;
  BlockByID := mem_BlockByID;
  BlockByHeight := mem_BlockByHeight;
  CommitBlock := mem_CommitBlock;
  CollectionByID := mem_CollectionByID;
  FullCollectionByID := mem_FullCollectionByID;
  TransactionByID := mem_TransactionByID;
  TransactionResultByID := mem_TransactionResultByID;
  SystemTransactionResultByID := mem_SystemTransactionResultByID;
  LedgerByHeight := mem_LedgerByHeight;
  EventsByHeight := mem_EventsByHeight
}.

(** The store has neither rollback nor snapshots. *)
#[global] Instance mem_optional : OptionalInterfaces Memstore := {
  as_RollbackProvider _ := None;
  as_SnapshotProvider _ := None
}.

(** ** The state after a commit *)

Definition ins_all {K V} `{Countable K} (ws : list (K * V)) (m : gmap K V) : gmap K V :=
  fold_left (λ m p, <[p.1 := p.2]> m) ws m.

Lemma lookup_ins_all {K V} `{Countable K} (ws : list (K * V)) (m : gmap K V) k :
  ins_all ws m !! k = match last_write k ws with Some v => Some v | None => m !! k end.
Proof.
  induction ws as [|w ws IH] using rev_ind; [done|].
  unfold ins_all in *. rewrite fold_left_app, last_write_snoc. simpl.
  rewrite lookup_insert. by repeat case_decide.
Qed.

Lemma iter_insert {K V} `{Countable K}
    (setter : (gmap K V → gmap K V) → Memstore → Memstore) (ws : list (K * V)) s :
  (∀ f g s, setter f (setter g s) = setter (λ m, f (g m)) s) →
  (∀ s, setter (λ m, m) s = s) →
  st_iter (E := error) (λ p, st_modify (setter (<[p.1 := p.2]>))) ws s
    = (Ok (), setter (ins_all ws) s).
Proof.
  intros Hcomp Hid. revert s. induction ws as [|w ws IH]; intros s.
  - simpl. by rewrite (Hid s : setter (ins_all []) s = s).
  - simpl. unfold mbind, ST_bind. simpl. by rewrite IH, Hcomp.
Qed.

Definition collection_writes (c : BlockCommit) : list (Identifier * LightCollection) :=
  (λ col, (LightCollection_ID col, col)) <$> bc_collections c.
Definition systemResult_writes (c : BlockCommit) : list (Bytes * StorableTransactionResult) :=
  (λ p, (DefaultKeyGenerator.SystemTransactionResult (Block_ID (bc_block c)) p.1, p.2))
    <$> map_range (bc_systemTransactionResults c).

Lemma iter_collections c s :
  st_iter insertCollection (bc_collections c) s
    = (Ok (), set_collections (ins_all (collection_writes c)) s).
Proof.
  pose proof (iter_insert set_collections (collection_writes c) s) as H.
  unfold collection_writes at 1 in H. rewrite st_iter_fmap in H.
  refine (H _ _); [done|by intros []].
Qed.

Lemma iter_systemResults c s :
  st_iter (insertSystemTransactionResult (Block_ID (bc_block c)))
    (map_range (bc_systemTransactionResults c)) s
    = (Ok (), set_systemTransactionResults (ins_all (systemResult_writes c)) s).
Proof.
  pose proof (iter_insert set_systemTransactionResults (systemResult_writes c) s) as H.
  unfold systemResult_writes at 1 in H. rewrite st_iter_fmap in H.
  refine (H _ _); [done|by intros []].
Qed.

Lemma iter_metadata c s :
  (if has_systemTransactions c
   then insertSystemTransactions (Block_ID (bc_block c)) (commit_metadata c)
   else mret ()) s
    = (Ok (), if has_systemTransactions c
              then set_systemTransactions (<[Block_ID (bc_block c) := commit_metadata c]>) s
              else s).
Proof. by destruct (has_systemTransactions c). Qed.

Definition committed (c : BlockCommit) (s : Memstore) : Memstore :=
  let s1 := set_collections (ins_all (collection_writes c)) (set_block (bc_block c) s) in
  let s2 := if has_systemTransactions c
            then set_systemTransactions (<[Block_ID (bc_block c) := commit_metadata c]>) s1
            else s1 in
  let s3 := set_transactions (ins_all (map_range (bc_transactions c))) s2 in
  let s4 := set_transactionResults (ins_all (map_range (bc_transactionResults c))) s3 in
  let s5 := set_transactions (ins_all (map_range (bc_systemTransactionBodies c))) s4 in
  let s6 := set_systemTransactionResults (ins_all (systemResult_writes c)) s5 in
  let s7 := set_ledger
    (<[bc_height c := tree_Append (bc_executionSnapshot c) (ledger_at (bc_height c -64 1) s6)]>)
    s6 in
  (insertEvents (bc_height c) (bc_events c) s7).2.

Lemma mem_CommitBlock_state c s :
  counts_match c → mem_CommitBlock c s = (Ok (), committed c s).
Proof.
  intros [H1 H2]. unfold mem_CommitBlock, committed.
  rewrite bool_decide_eq_false_2 by (intros ?; done).
  rewrite bool_decide_eq_false_2 by (intros ?; done).
  erewrite (ST_bind_step (storeBlock (bc_block c))) by reflexivity.
  erewrite ST_bind_step by apply iter_collections.
  erewrite ST_bind_step by apply iter_metadata.
  erewrite ST_bind_step by (apply (iter_insert set_transactions); [done|by intros []]).
  erewrite ST_bind_step by (apply (iter_insert set_transactionResults); [done|by intros []]).
  erewrite ST_bind_step by (apply (iter_insert set_transactions); [done|by intros []]).
  erewrite ST_bind_step by apply iter_systemResults.
  by erewrite (ST_bind_step (insertExecutionSnapshot _ _)) by reflexivity.
Qed.

(** A commit whose counts differ is refused and changes nothing. *)
Lemma mem_CommitBlock_counts c s :
  ¬ counts_match c → mem_CommitBlock c s = (Err (counts_error c), s).
Proof.
  unfold counts_match, mem_CommitBlock, counts_error. intros Hn.
  case_bool_decide as H1; [by rewrite decide_False|].
  case_bool_decide as H2; [by rewrite decide_True by tauto|]. exfalso. apply Hn. lia.
Qed.

(** ** The store as an image of the log *)

Record mem_rel (s : Memstore) (l : log) : Prop := {
  mr_ok : log_ok l;
  mr_height : blockHeight s = default 0 (newest (on_commit c_height) l);
  mr_blocks h : blocks s !! h = newest (on_commit (c_block h)) l;
  mr_ids id : blockIDToHeight s !! id = newest (on_commit (c_blockID id)) l;
  mr_collections id : collections s !! id = newest (on_commit (c_collection id)) l;
  mr_transactions id : transactions s !! id = newest (on_commit (c_transaction id)) l;
  mr_results id : transactionResults s !! id = newest (on_commit (c_result id)) l;
  mr_systemResults b t :
    systemTransactionResults s !! DefaultKeyGenerator.SystemTransactionResult b t
    = newest (on_commit (c_systemResult b t)) l;
  mr_systemTransactions b :
    systemTransactions s !! b = newest (on_commit (c_systemTransactions b)) l;
  mr_scheduled n : found (scheduledTransactionIndex s !! n)
    = log_BlockIDByScheduledTransactionID n l;
  mr_scheduledTx t : found (scheduledTransactionBlockIndex s !! t)
    = log_ScheduledTransactionBlockIDByTxID t l;
  mr_events h : eventsByBlockHeight s !! h = newest (on_commit (c_events h)) l;
  mr_ledger h r : 0 ≤ h < next_height l → tree_Get (ledger_at h s) r = Ok (log_Register h r l);
  mr_ledger_dom h : ¬ (0 ≤ h < next_height l) → ledger s !! h = None
}.

Context {TL : SnapshotTreeLaws TR}.

Lemma mem_rel_refines s l : mem_rel s l → refines s l.
Proof.
  intros R. pose proof (mr_blocks s l R) as Hb.
  assert (mem_LatestBlock s = log_LatestBlock l) as Hlatest.
  { unfold mem_LatestBlock, log_LatestBlock, log_LatestBlockHeight.
    rewrite (mr_height s l R), Hb.
    destruct (newest (on_commit c_height) l) as [h|] eqn:Hn; [done|]. simpl.
    destruct (newest (on_commit (c_block 0)) l) as [b|] eqn:Hn0; [|done].
    apply newest_elem in Hn0 as (w & Hw & Hc). destruct w as [c| |]; try done.
    rewrite newest_None in Hn. by specialize (Hn _ Hw). }
  split; simpl; try done; intros.
  - unfold mem_LatestBlockHeight. rewrite Hlatest. unfold log_LatestBlock.
    destruct (log_LatestBlockHeight l) as [h|] eqn:Hh; [|done]. simpl.
    destruct (log_BlockByHeight h l) as [b|] eqn:Hbh; simpl.
    + by rewrite (log_block_height l h b).
    + unfold log_LatestBlockHeight in Hh.
      destruct (newest (on_commit c_height) l) as [h'|] eqn:Hn; simplify_eq/=.
      pose proof (mr_ok s l R) as Hok.
      assert (0 ≤ h < next_height l) as Hr.
      { apply newest_elem in Hn as ([c| |] & Hw & Hc); [|done|done].
        simpl in Hc. unfold c_height in Hc. simplify_eq. by apply log_heights. }
      apply (log_block_dom l h Hok) in Hr. by rewrite Hbh in Hr.
  - unfold mem_BlockByHeight. by rewrite Hb.
  - unfold mem_BlockByID, log_BlockByID. rewrite (mr_ids s l R).
    destruct (newest _ l); [|done]. simpl. by rewrite Hb.
  - unfold mem_CollectionByID. by rewrite (mr_collections s l R).
  - unfold mem_FullCollectionByID, log_FullCollectionByID, log_CollectionByID.
    rewrite (mr_collections s l R). destruct (newest _ l) as [col|]; [|done]. simpl.
    f_equiv. clear -R. induction (lc_Transactions col) as [|t ts IH]; [done|]. simpl.
    rewrite IH. by rewrite (mr_transactions s l R).
  - unfold mem_TransactionByID. by rewrite (mr_transactions s l R).
  - unfold mem_TransactionResultByID. by rewrite (mr_results s l R).
  - unfold mem_SystemTransactionResultByID. by rewrite (mr_systemResults s l R).
  - unfold mem_SystemTransactionsForBlockID. by rewrite (mr_systemTransactions s l R).
  - by apply (mr_scheduled s l R).
  - by apply (mr_scheduledTx s l R).
  - unfold mem_EventsByHeight, log_EventsByHeight. by rewrite (mr_events s l R).
  - eexists. split; [done|]. intros r. by apply (mr_ledger s l R).
  - eexists. split; [done|]. intros r. rewrite log_register_none by (done || apply R). unfold ledger_at.
    rewrite (mr_ledger_dom s l R) by lia. apply tree_Get_empty.
  - by eexists.
Qed.

(** The register writes of a commit at the next height, over the older ones. *)
Lemma mem_ledger_commit s l c h r :
  mem_rel s l → bc_height c = next_height l → is_u64 (bc_height c) →
  0 ≤ h < bc_height c + 1 →
  tree_Get (ledger_at h (set_ledger (<[bc_height c :=
    tree_Append (bc_executionSnapshot c) (ledger_at (bc_height c -64 1) s)]>) s)) r
  = Ok (log_Register h r (WCommit c :: l)).
Proof.
  intros R Hc Hu Hh. unfold ledger_at at 1. simpl.
  rewrite lookup_insert. case_decide as Heq.
  - subst h. simpl. rewrite tree_Get_Append, log_register_commit by lia.
    destruct (WriteSet _ !! r) as [v|]; [done|].
    destruct (decide (bc_height c = 0)) as [H0|H0].
    + rewrite H0, u64_pred_zero. unfold ledger_at.
      rewrite (mr_ledger_dom s l R) by (rewrite <- Hc, H0; unfold two64; lia). simpl.
      rewrite tree_Get_empty. unfold log_Register.
      rewrite (proj2 (newest_None (on_commit (c_register 0 r)) l)); [done|].
      intros [c'| |] Hw; [|done|done]. exfalso.
      pose proof (log_heights l c' (mr_ok s l R) Hw). lia.
    + rewrite u64_small by (unfold is_u64 in *; lia).
      rewrite (mr_ledger s l R) by lia. unfold log_Register. do 2 f_equal.
      apply newest_ext. intros [c'| |] Hw; [|done|done]. simpl. unfold c_register.
      pose proof (log_heights l c' (mr_ok s l R) Hw).
      rewrite !decide_True by lia. done.
  - fold (ledger_at h s). rewrite (mr_ledger s l R) by lia.
    unfold log_Register. simpl. unfold c_register at 2. by rewrite decide_False by lia.
Qed.

(** The fields after a commit, each as a function of the field before. *)
Section committed_fields.
Context (c : BlockCommit) (s : Memstore).
#[local] Ltac field := unfold committed; by destruct (has_systemTransactions c).

Lemma committed_height :
  blockHeight (committed c s)
  = if bool_decide (bc_height c > blockHeight s) then bc_height c else blockHeight s.
Proof. field. Qed.
Lemma committed_blocks : blocks (committed c s) = <[bc_height c := bc_block c]> (blocks s).
Proof. field. Qed.
Lemma committed_ids :
  blockIDToHeight (committed c s) = <[Block_ID (bc_block c) := bc_height c]> (blockIDToHeight s).
Proof. field. Qed.
Lemma committed_collections :
  collections (committed c s) = ins_all (collection_writes c) (collections s).
Proof. field. Qed.
Lemma committed_transactions :
  transactions (committed c s) = ins_all (map_range (bc_systemTransactionBodies c))
    (ins_all (map_range (bc_transactions c)) (transactions s)).
Proof. field. Qed.
Lemma committed_results :
  transactionResults (committed c s)
  = ins_all (map_range (bc_transactionResults c)) (transactionResults s).
Proof. field. Qed.
Lemma committed_systemResults :
  systemTransactionResults (committed c s)
  = ins_all (systemResult_writes c) (systemTransactionResults s).
Proof. field. Qed.
Lemma committed_systemTransactions :
  systemTransactions (committed c s)
  = if has_systemTransactions c
    then <[Block_ID (bc_block c) := commit_metadata c]> (systemTransactions s)
    else systemTransactions s.
Proof. field. Qed.
Lemma committed_scheduled :
  scheduledTransactionIndex (committed c s) = scheduledTransactionIndex s.
Proof. field. Qed.
Lemma committed_scheduledTx :
  scheduledTransactionBlockIndex (committed c s) = scheduledTransactionBlockIndex s.
Proof. field. Qed.
Lemma committed_events :
  eventsByBlockHeight (committed c s)
  = match eventsByBlockHeight s !! bc_height c with
    | None => <[bc_height c := bc_events c]> (eventsByBlockHeight s)
    | Some old => <[bc_height c := old ++ bc_events c]> (eventsByBlockHeight s)
    end.
Proof. field. Qed.
Lemma committed_ledger :
  ledger (committed c s)
  = <[bc_height c := tree_Append (bc_executionSnapshot c) (ledger_at (bc_height c -64 1) s)]>
      (ledger s).
Proof. field. Qed.
End committed_fields.

Lemma last_write_systemResults c b t :
  last_write (DefaultKeyGenerator.SystemTransactionResult b t) (systemResult_writes c)
  = c_systemResult b t c.
Proof.
  unfold systemResult_writes, c_systemResult. case_decide as Hb.
  - subst b. rewrite <- (last_write_map_range (bc_systemTransactionResults c) t).
    induction (map_range (bc_systemTransactionResults c)) as [|p ps IH] using rev_ind; [done|].
    rewrite fmap_app. setoid_rewrite last_write_snoc. rewrite <- IH. cbn [fst snd].
    destruct (decide (p.1 = t)) as [Hp|Hp]; case_decide as Hk; try done.
    + by rewrite Hp in Hk.
    + by apply SystemTransactionResult_inj in Hk as [_ ?].
  - apply last_write_None. rewrite <- list_fmap_compose.
    intros (p & Hp & _)%list_elem_of_fmap. simpl in Hp.
    apply SystemTransactionResult_inj in Hp as [Hp _]. done.
Qed.

Lemma mem_rel_commit s l c :
  mem_rel s l → log_ok (WCommit c :: l) → mem_rel (committed c s) (WCommit c :: l).
Proof.
  intros R Hok. pose proof (log_ok_tail _ _ Hok) as [Hl (Hc & Hu & Hcm)].
  pose proof (next_height_nonneg l Hl) as Hnn.
  split; [done|..]; intros; cbn [newest on_commit].
  - rewrite committed_height, (mr_height s l R). simpl. unfold next_height in Hc.
    destruct (newest (on_commit c_height) l) as [h|] eqn:Hn; simpl.
    + rewrite bool_decide_eq_true_2 by lia. done.
    + rewrite Hc. by rewrite bool_decide_eq_false_2 by lia.
  - rewrite committed_blocks, lookup_insert, (mr_blocks s l R). unfold c_block at 2.
    by case_decide.
  - rewrite committed_ids, lookup_insert, (mr_ids s l R). unfold c_blockID at 2.
    by case_decide.
  - rewrite committed_collections, lookup_ins_all, (mr_collections s l R). done.
  - rewrite committed_transactions, !lookup_ins_all, !last_write_map_range,
      (mr_transactions s l R).
    unfold c_transaction at 2. by destruct (bc_systemTransactionBodies c !! id).
  - rewrite committed_results, lookup_ins_all, last_write_map_range, (mr_results s l R). done.
  - rewrite committed_systemResults, lookup_ins_all, last_write_systemResults,
      (mr_systemResults s l R). done.
  - rewrite committed_systemTransactions. unfold c_systemTransactions at 1.
    destruct (has_systemTransactions c).
    + rewrite lookup_insert, (mr_systemTransactions s l R). by case_decide.
    + rewrite (mr_systemTransactions s l R). by case_decide.
  - rewrite committed_scheduled. apply (mr_scheduled s l R).
  - rewrite committed_scheduledTx. apply (mr_scheduledTx s l R).
  - rewrite committed_events.
    assert (eventsByBlockHeight s !! bc_height c = None) as ->.
    { rewrite (mr_events s l R). apply newest_None. intros [c'| |] Hw; [|done|done].
      simpl. unfold c_events. pose proof (log_heights l c' Hl Hw).
      by rewrite decide_False by lia. }
    rewrite lookup_insert, (mr_events s l R). unfold c_events at 2. by case_decide.
  - rewrite next_height_commit in *. unfold ledger_at. rewrite committed_ledger.
    by apply (mem_ledger_commit s l c h r).
  - rewrite next_height_commit in *. rewrite committed_ledger, lookup_insert.
    rewrite decide_False by lia. apply (mr_ledger_dom s l R). lia.
Qed.

Lemma mem_rel_step s l w :
  mem_rel s l → log_ok (w :: l) →
  ∃ s', apply_write w s = (Ok (), s') ∧ mem_rel s' (w :: l).
Proof.
  intros R Hok. destruct w as [c|n b|t b]; simpl.
  - exists (committed c s). split; [|by apply mem_rel_commit].
    apply mem_CommitBlock_state. by apply log_ok_tail in Hok as [_ (_ & _ & ?)].
  - eexists. split; [done|]. split; try apply R; [done|]. intros m. simpl.
    rewrite lookup_insert. unfold log_BlockIDByScheduledTransactionID. simpl.
    case_decide; [done|]. apply (mr_scheduled s l R).
  - eexists. split; [done|]. split; try apply R; [done|]. intros t'. simpl.
    rewrite lookup_insert. unfold log_ScheduledTransactionBlockIDByTxID. simpl.
    case_decide; [done|]. apply (mr_scheduledTx s l R).
Qed.

Lemma mem_rel_New : mem_rel New [].
Proof.
  split; try done; [constructor|..]; intros.
  - unfold next_height in *. simpl in *. lia.
Qed.

(** The in-memory store fulfils the storage contract, with no condition on
    the writes beyond the well-formedness of the log. *)
#[global] Program Instance mem_correct : StoreCorrect Memstore := {
  store_empty := New;
  store_rel := mem_rel;
  store_writable _ _ _ := True;
  store_rel_refines := mem_rel_refines;
  store_rel_empty := mem_rel_New
}.
Next Obligation. intros s l w R Hok _. by apply mem_rel_step. Qed.
Next Obligation. intros s c Hc. by apply mem_CommitBlock_counts. Qed.
End memstore.
End Mem.
