(* ===== verification/DefaultStore.v ===== *)
(** The store over a key-value back end: [DefaultStore] of storage/store.go with
    the codecs of storage/encoding.go.

    The back end is the interfaces [DataGetter] and [DataSetter], the class
    [DataStore]; SQLite and Redis implement them.  What the store relies on is
    stated by [PlainStore] (the keys with one value) and [VersionedStore] (the
    registers, whose values are kept by block height).  Under these laws the
    store is an image of the log of its writes ([def_rel_step]). *)
From S2P Require Import Prelude FlowTypes Errors Storage Keys.

(** * Encoding (storage/encoding.go)

    [em.Marshal] and [cbor.Unmarshal] at a type. *)

Class Codec (A : Type) := {
  cbor_Marshal : A → result Bytes;
  cbor_Unmarshal : Bytes → result A
}.

(** Marshalling the value succeeds, and unmarshalling the bytes gives it back;
    [P] is the range of the Go type. *)
Class CodecLaws (A : Type) (P : A → Prop) `{!Codec A} : Prop :=
  codec_roundtrip a : P a → ∃ bs, cbor_Marshal a = Ok bs ∧ cbor_Unmarshal bs = Ok a.

Class Codecs := {
  codec_uint64 :: Codec Z;
  codec_block :: Codec Block;
  codec_systemTransaction :: Codec SystemTransactions;
  codec_collection :: Codec LightCollection;
  codec_transaction :: Codec TransactionBody;
  codec_transactionResult :: Codec StorableTransactionResult;
  codec_events :: Codec (list Event)
}.

Class CodecsLaws (CD : Codecs) : Prop := {
  laws_uint64 :: CodecLaws Z is_u64;
  laws_block :: CodecLaws Block (λ _, True);
  laws_systemTransaction :: CodecLaws SystemTransactions (λ _, True);
  laws_collection :: CodecLaws LightCollection (λ _, True);
  laws_transaction :: CodecLaws TransactionBody (λ _, True);
  laws_transactionResult :: CodecLaws StorableTransactionResult (λ _, True);
  laws_events :: CodecLaws (list Event) (λ _, True)
}.

Section encoding.
Context {CD : Codecs}.
Definition encodeSystemTransaction (st : SystemTransactions) : result Bytes := cbor_Marshal st.
Definition decodeSystemTransaction (from : Bytes) : result SystemTransactions := cbor_Unmarshal from.
Definition encodeBlock (block : Block) : result Bytes := cbor_Marshal block.
Definition decodeBlock (from : Bytes) : result Block := cbor_Unmarshal from.
Definition encodeCollection (col : LightCollection) : result Bytes := cbor_Marshal col.
Definition decodeCollection (from : Bytes) : result LightCollection := cbor_Unmarshal from.
Definition encodeTransaction (tx : TransactionBody) : result Bytes := cbor_Marshal tx.
Definition decodeTransaction (from : Bytes) : result TransactionBody := cbor_Unmarshal from.
Definition encodeTransactionResult (r : StorableTransactionResult) : result Bytes := cbor_Marshal r.
Definition decodeTransactionResult (from : Bytes) : result StorableTransactionResult :=
  cbor_Unmarshal from.
(** The Go function panics when [Marshal] fails; the failure ends the caller. *)
Definition mustEncodeUint64 (v : Z) : result Bytes := cbor_Marshal v.
Definition decodeUint64 (from : Bytes) : result Z := cbor_Unmarshal from.
Definition encodeEvents (events : list Event) : result Bytes := cbor_Marshal events.
Definition decodeEvents (from : Bytes) : result (list Event) := cbor_Unmarshal from.
End encoding.

(** * The back end *)

(** [DataGetter] and [DataSetter], and the field [CurrentHeight] of the
    [DefaultStore] that the back ends embed. *)
Class DataStore (D : Type) := {
  GetBytes : string → Bytes → D → result Bytes;
  GetBytesAtVersion : string → Bytes → Z → D → result Bytes;
  SetBytes : string → Bytes → Bytes → ST error D unit;
  SetBytesWithVersion : string → Bytes → Bytes → Z → ST error D unit;
  CurrentHeight : D → Z;
  set_CurrentHeight : Z → D → D
}.

(** * The operations of DefaultStore *)

Module DefaultStore.
Import DefaultKeyGenerator.
Section default_store.
Context {FM : FlowModel} {CD : Codecs} {GO : GoMapOrder} {D : Type} {DS : DataStore D}.

Definition SetBlockHeight (height : Z) : ST error D unit :=
  st_modify (set_CurrentHeight height) ;;
  enc ← st_res (mustEncodeUint64 height);
  SetBytes (Storage globalStoreName) LatestBlock enc.

Definition LatestBlockHeight (s : D) : result Z :=
  enc ← GetBytes (Storage globalStoreName) LatestBlock s;
  decodeUint64 enc.

Definition def_LatestBlock (s : D) : result Block :=
  latestBlockHeight ← LatestBlockHeight s;
  encBlock ← GetBytes BlockStoreName (BlockHeight latestBlockHeight) s;
  decodeBlock encBlock.

Definition StoreSystemTransactions (st : SystemTransactions) : ST error D unit :=
  enc ← st_res (encodeSystemTransaction st);
  SetBytes (Storage SystemTransactionName) (IdentifierKey (st_BlockID st)) enc.

Definition IndexScheduledTransactionID (n : Z) (blockID : Identifier) : ST error D unit :=
  SetBytes (Storage scheduledTransactionIndexName) (ScheduledTransactionID n)
    (vec_to_list blockID).

(** The length check and the copy into the array. *)
Definition blockID_of_bytes (bs : Bytes) : result Identifier :=
  of_option (Errorf ("invalid block ID length: expected 32, got "
                     +:+ show_int (Z.of_nat (length bs)))) (id_of_bytes bs).

Definition BlockIDByScheduledTransactionID (n : Z) (s : D) : result Identifier :=
  bs ← GetBytes (Storage scheduledTransactionIndexName) (ScheduledTransactionID n) s;
  blockID_of_bytes bs.

Definition IndexScheduledTransactionBlockID (txID blockID : Identifier) : ST error D unit :=
  SetBytes (Storage scheduledTransactionBlockIndexName) (IdentifierKey txID)
    (vec_to_list blockID).

Definition ScheduledTransactionBlockIDByTxID (txID : Identifier) (s : D) : result Identifier :=
  bs ← GetBytes (Storage scheduledTransactionBlockIndexName) (IdentifierKey txID) s;
  blockID_of_bytes bs.

Definition StoreBlock (block : Block) : ST error D unit :=
  st_modify (set_CurrentHeight (Block_Height block)) ;;
  encBlock ← st_res (encodeBlock block);
  latestBlockHeight ← st_read (λ s,
    match LatestBlockHeight s with
    | Ok h => Ok h
    | Err err => if is_not_found err then Ok 0 else Err err
    end);
  SetBytes (Storage BlockStoreName) (BlockHeight (Block_Height block)) encBlock ;;
  encHeight ← st_res (mustEncodeUint64 (Block_Height block));
  SetBytes (Storage BlockIndexStoreName) (IdentifierKey (Block_ID block)) encHeight ;;
  if bool_decide (latestBlockHeight ≤ Block_Height block)%Z
  then SetBytes (Storage globalStoreName) LatestBlock encHeight
  else mret ().

Definition ForkedBlockHeight (s : D) : result Z :=
  enc ← GetBytes (Storage globalStoreName) ForkedBlock s;
  decodeUint64 enc.

Definition StoreForkedBlockHeight (height : Z) : ST error D unit :=
  enc ← st_res (mustEncodeUint64 height);
  SetBytes (Storage globalStoreName) ForkedBlock enc.

Definition BlockByHeight (blockHeight : Z) (s : D) : result Block :=
  encBlock ← GetBytes (Storage BlockStoreName) (BlockHeight blockHeight) s;
  decodeBlock encBlock.

Definition SystemTransactionsForBlockID (blockID : Identifier) (s : D)
    : result SystemTransactions :=
  enc ← GetBytes (Storage SystemTransactionName) (IdentifierKey blockID) s;
  decodeSystemTransaction enc.

Definition BlockByID (blockID : Identifier) (s : D) : result Block :=
  blockHeightEnc ← GetBytes (Storage BlockIndexStoreName) (IdentifierKey blockID) s;
  blockHeight ← decodeUint64 blockHeightEnc;
  BlockByHeight blockHeight s.

Definition CollectionByID (colID : Identifier) (s : D) : result LightCollection :=
  encCol ← GetBytes (Storage CollectionStoreName) (IdentifierKey colID) s;
  decodeCollection encCol.

Definition TransactionByID (txID : Identifier) (s : D) : result TransactionBody :=
  encTx ← GetBytes (Storage TransactionStoreName) (IdentifierKey txID) s;
  decodeTransaction encTx.

Definition FullCollectionByID (colID : Identifier) (s : D) : result Collection :=
  encCol ← GetBytes (Storage CollectionStoreName) (IdentifierKey colID) s;
  light ← decodeCollection encCol;
  txs ← res_map (λ txID, TransactionByID txID s) (lc_Transactions light);
  Ok (mkCollection txs).

Definition InsertCollection (col : LightCollection) : ST error D unit :=
  encCol ← st_res (encodeCollection col);
  SetBytes (Storage CollectionStoreName) (IdentifierKey (LightCollection_ID col)) encCol.

Definition InsertTransaction (p : Identifier * TransactionBody) : ST error D unit :=
  encTx ← st_res (encodeTransaction p.2);
  SetBytes (Storage TransactionStoreName) (IdentifierKey p.1) encTx.

Definition TransactionResultByID (txID : Identifier) (s : D)
    : result StorableTransactionResult :=
  encResult ← GetBytes (Storage TransactionResultStoreName) (IdentifierKey txID) s;
  decodeTransactionResult encResult.

Definition SystemTransactionResultByID (blockID txID : Identifier) (s : D)
    : result StorableTransactionResult :=
  encResult ← GetBytes (Storage TransactionResultStoreName)
                (SystemTransactionResult blockID txID) s;
  decodeTransactionResult encResult.

Definition InsertTransactionResult (p : Identifier * StorableTransactionResult)
    : ST error D unit :=
  encResult ← st_res (encodeTransactionResult p.2);
  SetBytes (Storage TransactionResultStoreName) (IdentifierKey p.1) encResult.

Definition InsertSystemTransactionResult (blockID : Identifier)
    (p : Identifier * StorableTransactionResult) : ST error D unit :=
  encResult ← st_res (encodeTransactionResult p.2);
  SetBytes (Storage TransactionResultStoreName) (SystemTransactionResult blockID p.1) encResult.

Definition EventsByHeight (blockHeight : Z) (eventType : string) (s : D)
    : result (list Event) :=
  match GetBytes (Storage EventStoreName) (BlockHeight blockHeight) s with
  | Err err => if is_not_found err then Ok [] else Err err
  | Ok eventsEnc =>
      blockEvents ← decodeEvents eventsEnc;
      Ok (filter_events eventType blockEvents)
  end.

Definition InsertEvents (blockHeight : Z) (events : list Event) : ST error D unit :=
  b ← st_res (encodeEvents events);
  SetBytes (Storage EventStoreName) (BlockHeight blockHeight) b.

Definition InsertExecutionSnapshot (blockHeight : Z) (es : ExecutionSnapshot)
    : ST error D unit :=
  st_iter (λ p, SetBytesWithVersion (Storage LedgerStoreName) (RegisterID_String p.1) p.2
                  blockHeight)
    (map_range (WriteSet es)).

Definition CommitBlock (c : BlockCommit) : ST error D unit :=
  if bool_decide (size (bc_transactions c) ≠ size (bc_transactionResults c))
  then st_fail (transactions_count_error (size (bc_transactions c)) (size (bc_transactionResults c)))
  else if bool_decide (length (bc_systemTransactions c) ≠ size (bc_systemTransactionResults c))
  then st_fail (system_count_error (length (bc_systemTransactions c))
                              (size (bc_systemTransactionResults c)))
  else
    StoreBlock (bc_block c) ;;
    (if has_systemTransactions c then StoreSystemTransactions (commit_metadata c) else mret ()) ;;
    st_iter InsertCollection (bc_collections c) ;;
    st_iter InsertTransaction (map_range (bc_transactions c)) ;;
    st_iter InsertTransactionResult (map_range (bc_transactionResults c)) ;;
    st_iter InsertTransaction (map_range (bc_systemTransactionBodies c)) ;;
    st_iter (InsertSystemTransactionResult (Block_ID (bc_block c)))
      (map_range (bc_systemTransactionResults c)) ;;
    InsertExecutionSnapshot (bc_height c) (bc_executionSnapshot c) ;;
    InsertEvents (bc_height c) (bc_events c).

(** [defaultStoreSnapshot.Get]: a register that was never written is empty. *)
Definition snapshot_Get (s : D) (blockHeight : Z) (id : RegisterID) : result RegisterValue :=
  match GetBytesAtVersion (Storage LedgerStoreName) (RegisterID_String id) blockHeight s with
  | Ok value => Ok value
  | Err err => if is_not_found err then Ok [] else Err err
  end.

Definition LedgerByHeight (blockHeight : Z) (s : D) : result StorageSnapshot :=
  Ok (snapshot_Get s blockHeight).

#[global] Instance def_Store : Store D := {
  Storage.LatestBlockHeight := LatestBlockHeight;
  Storage.LatestBlock := def_LatestBlock;
  Storage.StoreBlock := StoreBlock;
  Storage.StoreSystemTransactions := StoreSystemTransactions;
  Storage.SystemTransactionsForBlockID := SystemTransactionsForBlockID;
  Storage.IndexScheduledTransactionID := IndexScheduledTransactionID;
  Storage.BlockIDByScheduledTransactionID := BlockIDByScheduledTransactionID;
  Storage.IndexScheduledTransactionBlockID := IndexScheduledTransactionBlockID;
  Storage.ScheduledTransactionBlockIDByTxID := ScheduledTransactionBlockIDByTxID;
  Storage.BlockByID := BlockByID;
  Storage.BlockByHeight := BlockByHeight;
  Storage.CommitBlock := CommitBlock;
  Storage.CollectionByID := CollectionByID;
  Storage.FullCollectionByID := FullCollectionByID;
  Storage.TransactionByID := TransactionByID;
  Storage.TransactionResultByID := TransactionResultByID;
  Storage.SystemTransactionResultByID := SystemTransactionResultByID;
  Storage.LedgerByHeight := LedgerByHeight;
  Storage.EventsByHeight := EventsByHeight
}.
End default_store.
End DefaultStore.
