(* ===== verification/DefaultStoreCorrect.v ===== *)
(** The laws a key-value back end must satisfy, and the proof that
    [DefaultStore] over such a back end is an image of the log of its writes. *)
From S2P Require Import Prelude FlowTypes Errors Storage Keys DefaultStore.

(** * The laws of a back end *)

(** The keys with one value.  [set_ok d store key value] says that [d] can
    store the value under the key so that the next read finds it; it does not
    depend on what else is written. *)
Class PlainStore (D : Type) {DS : DataStore D} := {
  set_ok : D → string → Bytes → Bytes → Prop;
  set_total d st k v : set_ok d st k v → ∃ d', SetBytes st k v d = (Ok (), d');
  get_set d st k v d' :
    set_ok d st k v → SetBytes st k v d = (Ok (), d') → GetBytes st k d' = Ok v;
  get_set_ne d st k v d' st' k' :
    (st, k) ≠ (st', k') → SetBytes st k v d = (Ok (), d') → GetBytes st' k' d' = GetBytes st' k' d;
  set_ok_set d st k v d' st' k' v' :
    set_ok d st' k' v' → SetBytes st k v d = (Ok (), d') → set_ok d' st' k' v';
  get_height d st k h : GetBytes st k (set_CurrentHeight h d) = GetBytes st k d
}.

(** The keys with a value per version.  The versions of a key are written in
    increasing order; a write does not change what is read at an older version. *)
Class VersionedStore (D : Type) {DS : DataStore D} {PS : PlainStore D} := {
  version_ok : Z → Prop;
  version_ok_zero : version_ok 0;
  version_ok_le m n : version_ok n → 0 ≤ m ≤ n → version_ok m;
  setv_ok : D → string → Bytes → Z → Prop;
  setv_total d st k v n : setv_ok d st k n → ∃ d', SetBytesWithVersion st k v n d = (Ok (), d');
  getv_setv d st k v n d' m :
    version_ok m → setv_ok d st k n → SetBytesWithVersion st k v n d = (Ok (), d') →
    GetBytesAtVersion st k m d' = if decide (n ≤ m) then Ok v else GetBytesAtVersion st k m d;
  getv_setv_ne d st k v n d' st' k' m :
    (st, k) ≠ (st', k') → SetBytesWithVersion st k v n d = (Ok (), d') →
    GetBytesAtVersion st' k' m d' = GetBytesAtVersion st' k' m d;
  get_setv d st k v n d' st' k' :
    (st, k) ≠ (st', k') → SetBytesWithVersion st k v n d = (Ok (), d') →
    GetBytes st' k' d' = GetBytes st' k' d;
  getv_set d st k v d' st' k' m :
    (st, k) ≠ (st', k') → SetBytes st k v d = (Ok (), d') →
    GetBytesAtVersion st' k' m d' = GetBytesAtVersion st' k' m d;
  set_ok_setv d st k v n d' st' k' v' :
    st ≠ st' → set_ok d st' k' v' → SetBytesWithVersion st k v n d = (Ok (), d') →
    set_ok d' st' k' v';
  setv_ok_set d st k v d' st' k' n :
    st ≠ st' → setv_ok d st' k' n → SetBytes st k v d = (Ok (), d') → setv_ok d' st' k' n;
  setv_ok_setv d st k v n d' k' :
    k ≠ k' → setv_ok d st k' n → SetBytesWithVersion st k v n d = (Ok (), d') →
    setv_ok d' st k' n;
  getv_height d st k n h :
    GetBytesAtVersion st k n (set_CurrentHeight h d) = GetBytesAtVersion st k n d
}.

(** * The writes of an operation, as bytes *)

(** The bytes of a value, when marshalling succeeds. *)
Definition enc {A} `{!Codec A} (a : A) : Bytes :=
  match cbor_Marshal a with Ok bs => bs | Err _ => [] end.

Lemma marshal_enc {A P} `{!Codec A} {HL : CodecLaws A P} a :
  P a → cbor_Marshal a = Ok (enc a).
Proof. intros Ha. destruct (codec_roundtrip a Ha) as (bs & Hm & _). unfold enc. by rewrite Hm. Qed.

Lemma unmarshal_enc {A P} `{!Codec A} {HL : CodecLaws A P} a :
  P a → cbor_Unmarshal (enc a) = Ok a.
Proof.
  intros Ha. destruct (codec_roundtrip a Ha) as (bs & Hm & Hu). unfold enc. by rewrite Hm.
Qed.

(** One write of a plain key. *)
Abbreviation kv := ((string * Bytes) * Bytes)%type.

(** The writes of the entries [xs] of one store. *)
Definition seg {A} (st : string) (f : A → Bytes * Bytes) (xs : list A) : list kv :=
  (λ x, ((st, (f x).1), (f x).2)) <$> xs.

Lemma last_write_seg_ne {A} st (f : A → Bytes * Bytes) xs st' k :
  st ≠ st' → last_write (st', k) (seg st f xs) = None.
Proof.
  intros Hne. apply last_write_None. unfold seg. rewrite <- list_fmap_compose.
  intros (x & Hx & _)%list_elem_of_fmap. simpl in Hx. congruence.
Qed.

Lemma last_write_seg {K V} `{EqDecision K} st (key : K → Bytes) (val : V → Bytes)
    (xs : list (K * V)) k :
  (∀ p, p ∈ xs → key p.1 = key k → p.1 = k) →
  last_write (st, key k) (seg st (λ p, (key p.1, val p.2)) xs) = val <$> last_write k xs.
Proof.
  induction xs as [|p xs IH] using rev_ind; intros Hinj; [done|].
  unfold seg in *. rewrite fmap_app. setoid_rewrite last_write_snoc.
  rewrite IH by (intros q Hq; apply Hinj; apply elem_of_app; by left). cbn [fst snd].
  pose proof (Hinj p ltac:(apply elem_of_app; right; by left)) as Hp.
  destruct (decide (p.1 = k)) as [He|He]; case_decide as Hk; try done.
  - by rewrite He in Hk.
  - exfalso. apply He, Hp. congruence.
Qed.

Lemma last_write_seg_key {K V} st (key : K → Bytes) (val : V → Bytes) (xs : list (K * V)) k :
  (∀ p, p ∈ xs → key p.1 ≠ k) →
  last_write (st, k) (seg st (λ p, (key p.1, val p.2)) xs) = None.
Proof.
  intros Hne. apply last_write_None. unfold seg. rewrite <- list_fmap_compose.
  intros (x & Hx & Hin)%list_elem_of_fmap. simpl in Hx. apply (Hne x Hin). congruence.
Qed.

Section writes.
Import DefaultKeyGenerator.
Context {FM : FlowModel} {CD : Codecs} {GO : GoMapOrder}.

(** The plain keys a commit writes, in order; the registers, written between
    the last two groups, are in a store of their own. *)
Definition commit_writes (c : BlockCommit) : list kv :=
  let h := bc_height c in
  let id := Block_ID (bc_block c) in
  seg BlockStoreName (λ b, (BlockHeight h, enc b)) [bc_block c] ++
  seg BlockIndexStoreName (λ b : Block, (IdentifierKey (Block_ID b), enc h)) [bc_block c] ++
  seg globalStoreName (λ n : Z, (LatestBlock, enc n)) [h] ++
  seg SystemTransactionName (λ m, (IdentifierKey (st_BlockID m), enc m))
    (if has_systemTransactions c then [commit_metadata c] else []) ++
  seg CollectionStoreName (λ p : Identifier * LightCollection, (IdentifierKey p.1, enc p.2))
    ((λ col, (LightCollection_ID col, col)) <$> bc_collections c) ++
  seg TransactionStoreName (λ p, (IdentifierKey p.1, enc p.2)) (map_range (bc_transactions c)) ++
  seg TransactionResultStoreName (λ p, (IdentifierKey p.1, enc p.2))
    (map_range (bc_transactionResults c)) ++
  seg TransactionStoreName (λ p, (IdentifierKey p.1, enc p.2))
    (map_range (bc_systemTransactionBodies c)) ++
  seg TransactionResultStoreName (λ p, (SystemTransactionResult id p.1, enc p.2))
    (map_range (bc_systemTransactionResults c)).
Definition event_writes (c : BlockCommit) : list kv :=
  seg EventStoreName (λ evs, (BlockHeight (bc_height c), enc evs)) [bc_events c].

Definition plain_writes (w : write) : list kv :=
  match w with
  | WCommit c => commit_writes c ++ event_writes c
  | WIndexScheduled n b =>
      seg scheduledTransactionIndexName
        (λ p : Z * Identifier, (ScheduledTransactionID p.1, vec_to_list p.2)) [(n, b)]
  | WIndexTx t b =>
      seg scheduledTransactionBlockIndexName
        (λ p : Identifier * Identifier, (IdentifierKey p.1, vec_to_list p.2)) [(t, b)]
  end.

(** The height the back end is at while it makes the writes of [w]. *)
Definition at_write {D} {DS : DataStore D} (w : write) (d : D) : D :=
  match w with WCommit c => set_CurrentHeight (bc_height c) d | _ => d end.

(** What the back end asks of a write: every key it sets can be set. *)
Definition def_writable {D} {DS : DataStore D} {PS : PlainStore D} {VS : VersionedStore D}
    (d : D) (w : write) : Prop :=
  (∀ st k v, ((st, k), v) ∈ plain_writes w → set_ok (at_write w d) st k v) ∧
  match w with
  | WCommit c => version_ok (bc_height c) ∧ ∀ r v, WriteSet (bc_executionSnapshot c) !! r = Some v →
      setv_ok (at_write w d) LedgerStoreName (RegisterID_String r) (bc_height c)
  | _ => True
  end.
End writes.

(** * Running a list of writes *)

Section run.
Context {D : Type} {DS : DataStore D} {PS : PlainStore D} {VS : VersionedStore D}.

Definition set_kv (w : kv) : ST error D unit := SetBytes w.1.1 w.1.2 w.2.

(** After the writes [ws], a key holds the last value written to it; keys of
    other stores are as before. *)
Definition runs_to (ws : list kv) (d d' : D) : Prop :=
  (∀ st k, GetBytes st k d' = match last_write (st, k) ws with
                              | Some v => Ok v | None => GetBytes st k d end) ∧
  (∀ st k v, set_ok d st k v → set_ok d' st k v) ∧
  (∀ st, (∀ w, w ∈ ws → w.1.1 ≠ st) →
     (∀ k n, setv_ok d st k n → setv_ok d' st k n) ∧
     (∀ k n, GetBytesAtVersion st k n d' = GetBytesAtVersion st k n d)).

Lemma runs_to_nil d : runs_to [] d d.
Proof. split; [done|]. split; [done|]. done. Qed.

Lemma runs_to_app ws1 ws2 d d1 d2 :
  runs_to ws1 d d1 → runs_to ws2 d1 d2 → runs_to (ws1 ++ ws2) d d2.
Proof.
  intros (G1 & S1 & V1) (G2 & S2 & V2). split; [|split].
  - intros st k. rewrite G2, G1, last_write_app.
    by destruct (last_write (st, k) ws2).
  - auto.
  - intros st Hst.
    destruct (V1 st) as [V1a V1b]; [intros w Hw; apply Hst, elem_of_app; by left|].
    destruct (V2 st) as [V2a V2b]; [intros w Hw; apply Hst, elem_of_app; by right|].
    split; [auto|]. intros k n. by rewrite V2b.
Qed.

Lemma runs_to_set d st k v d' :
  set_ok d st k v → SetBytes st k v d = (Ok (), d') → runs_to [((st, k), v)] d d'.
Proof.
  intros Hok Hset. split; [|split].
  - intros st' k'. unfold last_write. simpl. case_decide as Hk.
    + injection Hk as <- <-. by eapply get_set.
    + by eapply get_set_ne.
  - intros st' k' v' H. by eapply set_ok_set.
  - intros st' Hst. specialize (Hst ((st, k), v) ltac:(left)). simpl in Hst.
    split; intros k' n; [intros H; by eapply setv_ok_set|].
    eapply getv_set; [|done]. congruence.
Qed.

(** An operation that makes the writes [ws] and succeeds when they can be made. *)
Definition can_set (ws : list kv) (d : D) : Prop :=
  ∀ st k v, ((st, k), v) ∈ ws → set_ok d st k v.
Definition does (op : ST error D unit) (ws : list kv) : Prop :=
  ∀ d, can_set ws d → ∃ d', op d = (Ok (), d') ∧ runs_to ws d d'.

Lemma can_set_app ws1 ws2 d : can_set (ws1 ++ ws2) d ↔ can_set ws1 d ∧ can_set ws2 d.
Proof.
  unfold can_set. setoid_rewrite elem_of_app. split; [|by intros [??] ??? [?|?]; auto].
  intros H. split; intros; apply H; auto.
Qed.

Lemma can_set_runs ws ws' d d' : can_set ws d → runs_to ws' d d' → can_set ws d'.
Proof. intros Hc (_ & HS & _) st k v Hin. apply HS. by apply Hc. Qed.

Lemma does_ret : does (mret ()) [].
Proof. intros d _. exists d. split; [done|apply runs_to_nil]. Qed.

Lemma does_set st k v : does (SetBytes st k v) [((st, k), v)].
Proof.
  intros d Hc. assert (set_ok d st k v) as Hok by (apply Hc; left).
  destruct (set_total d st k v Hok) as [d' Hd']. exists d'. split; [done|].
  by apply runs_to_set.
Qed.

Lemma does_bind op1 op2 ws1 ws2 :
  does op1 ws1 → does op2 ws2 → does (op1 ;; op2) (ws1 ++ ws2).
Proof.
  intros H1 H2 d [Hc1 Hc2]%can_set_app. destruct (H1 d Hc1) as (d1 & Hd1 & R1).
  destruct (H2 d1) as (d2 & Hd2 & R2); [by eapply can_set_runs|].
  exists d2. split; [by erewrite ST_bind_step|]. by eapply runs_to_app.
Qed.

Lemma does_iter {A} (op : A → ST error D unit) (f : A → kv) xs :
  (∀ x, does (op x) [f x]) → does (st_iter op xs) (f <$> xs).
Proof.
  intros Hop. induction xs as [|x xs IH]; [apply does_ret|].
  apply (does_bind (op x) (st_iter op xs) [f x]); auto.
Qed.

(** The registers: the write set of a block, at its height. *)
Definition regs_run (st : string) (ws : list (Bytes * Bytes)) (n : Z) (d d' : D) : Prop :=
  (∀ k m, version_ok m → GetBytesAtVersion st k m d' =
     match last_write k ws with
     | Some v => if decide (n ≤ m) then Ok v else GetBytesAtVersion st k m d
     | None => GetBytesAtVersion st k m d
     end) ∧
  (∀ st' k, st ≠ st' → GetBytes st' k d' = GetBytes st' k d) ∧
  (∀ st' k v, st ≠ st' → set_ok d st' k v → set_ok d' st' k v).

Lemma run_registers st ws n d :
  NoDup ws.*1 → (∀ k v, (k, v) ∈ ws → setv_ok d st k n) →
  ∃ d', st_iter (λ p, SetBytesWithVersion st p.1 p.2 n) ws d = (Ok (), d') ∧
        regs_run st ws n d d'.
Proof.
  revert d. induction ws as [|[k v] ws IH]; intros d Hnd Hok.
  - exists d. split; [done|]. split; [done|]. done.
  - rewrite fmap_cons in Hnd. inversion_clear Hnd as [|? ? Hk Hnd']. rename Hnd' into Hnd.
    assert (setv_ok d st k n) as Hvk by (apply (Hok k v); left).
    destruct (setv_total d st k v n Hvk) as [d1 Hset].
    destruct (IH d1) as (d2 & Hd2 & G2 & P2 & S2); [done|..].
    { intros k' v' Hin. eapply (setv_ok_setv d); [| |done].
      - intros ->. apply Hk. apply list_elem_of_fmap. by exists (k', v').
      - apply (Hok k' v'). by right. }
    exists d2. split; [simpl; by erewrite ST_bind_step|]. split; [|split].
    + intros k' m Hm. rewrite G2 by done. rewrite (last_write_app k' [(k, v)] ws).
      destruct (last_write k' ws) as [v'|] eqn:Hl.
      * destruct (decide (k = k')) as [->|Hne].
        { exfalso. apply Hk. apply last_write_elem in Hl.
          apply list_elem_of_fmap. by exists (k', v'). }
        case_decide; [done|]. eapply getv_setv_ne; [|done]. congruence.
      * unfold last_write. simpl. case_decide as Hke.
        { subst k'. by eapply getv_setv. }
        eapply getv_setv_ne; [|done]. congruence.
    + intros st' k' Hst. rewrite P2 by done. eapply get_setv; [|done]. congruence.
    + intros st' k' v' Hst H. apply S2; [done|]. by eapply set_ok_setv.
Qed.
End run.

(** * The writes of DefaultStore *)

Section store_writes.
Import DefaultKeyGenerator DefaultStore.
Context {FM : FlowModel} {FL : FlowModelLaws FM} {CD : Codecs} {CL : CodecsLaws CD}
        {GO : GoMapOrder}
        {D : Type} {DS : DataStore D} {PS : PlainStore D} {VS : VersionedStore D}.

(** Encode, then set. *)
Lemma does_encoded {A P} `{!Codec A} {HL : CodecLaws A P} st k (a : A) :
  P a → does (D := D) (enc ← st_res (cbor_Marshal a); SetBytes st k enc) [((st, k), enc a)].
Proof.
  intros Ha d Hc. rewrite (marshal_enc a Ha). by apply does_set.
Qed.

Lemma does_collections cs :
  does (D := D) (st_iter InsertCollection cs)
    (seg CollectionStoreName (λ p : Identifier * LightCollection, (IdentifierKey p.1, enc p.2))
      ((λ col, (LightCollection_ID col, col)) <$> cs)).
Proof.
  unfold seg. rewrite <- list_fmap_compose. apply does_iter. intros x.
  by apply (does_encoded (P := λ _, True)).
Qed.

Lemma does_transactions ps :
  does (D := D) (st_iter InsertTransaction ps)
    (seg TransactionStoreName (λ p, (IdentifierKey p.1, enc p.2)) ps).
Proof. apply does_iter. intros x. by apply (does_encoded (P := λ _, True)). Qed.

Lemma does_results ps :
  does (D := D) (st_iter InsertTransactionResult ps)
    (seg TransactionResultStoreName (λ p, (IdentifierKey p.1, enc p.2)) ps).
Proof. apply does_iter. intros x. by apply (does_encoded (P := λ _, True)). Qed.

Lemma does_systemResults id ps :
  does (D := D) (st_iter (InsertSystemTransactionResult id) ps)
    (seg TransactionResultStoreName (λ p, (SystemTransactionResult id p.1, enc p.2)) ps).
Proof. apply does_iter. intros x. by apply (does_encoded (P := λ _, True)). Qed.

Lemma does_metadata c :
  does (D := D)
    (if has_systemTransactions c then StoreSystemTransactions (commit_metadata c) else mret ())
    (seg SystemTransactionName (λ m, (IdentifierKey (st_BlockID m), enc m))
      (if has_systemTransactions c then [commit_metadata c] else [])).
Proof.
  destruct (has_systemTransactions c); [|apply does_ret].
  by apply (does_encoded (P := λ _, True)).
Qed.

Lemma does_events h evs :
  does (D := D) (InsertEvents h evs) (seg EventStoreName (λ evs, (BlockHeight h, enc evs)) [evs]).
Proof. by apply (does_encoded (P := λ _, True)). Qed.

Definition block_writes (c : BlockCommit) : list kv :=
  [((BlockStoreName, BlockHeight (bc_height c)), enc (bc_block c));
   ((BlockIndexStoreName, IdentifierKey (Block_ID (bc_block c))), enc (bc_height c));
   ((globalStoreName, LatestBlock), enc (bc_height c))].

(** [StoreBlock] when the latest height is not above the block's. *)
Lemma run_StoreBlock c d h :
  is_u64 (bc_height c) →
  match DefaultStore.LatestBlockHeight (set_CurrentHeight (bc_height c) d) with
  | Ok h => Ok h
  | Err err => if is_not_found err then Ok 0 else Err err
  end = Ok h → h ≤ bc_height c →
  can_set (block_writes c) (set_CurrentHeight (bc_height c) d) →
  ∃ d', DefaultStore.StoreBlock (bc_block c) d = (Ok (), d') ∧
        runs_to (block_writes c) (set_CurrentHeight (bc_height c) d) d'.
Proof.
  intros Hu Hl Hle Hc. unfold DefaultStore.StoreBlock.
  erewrite ST_bind_step by reflexivity.
  erewrite ST_bind_step by (unfold st_res, encodeBlock;
    by rewrite (marshal_enc (P := λ _, True) (bc_block c))).
  erewrite ST_bind_step by (unfold st_read; fold (bc_height c); by rewrite Hl).
  fold (bc_height c).
  assert (does (D := D)
    (SetBytes (Storage BlockStoreName) (BlockHeight (bc_height c)) (enc (bc_block c)) ;;
     encHeight ← st_res (mustEncodeUint64 (bc_height c));
     SetBytes (Storage BlockIndexStoreName) (IdentifierKey (Block_ID (bc_block c))) encHeight ;;
     if bool_decide (h ≤ bc_height c)%Z
     then SetBytes (Storage globalStoreName) LatestBlock encHeight else mret ())
    (block_writes c)) as Hdoes; [|by apply Hdoes].
  apply (does_bind _ _ [_]); [apply does_set|].
  intros d1 Hc1. unfold mustEncodeUint64. rewrite (marshal_enc (bc_height c) Hu).
  revert d1 Hc1. apply (does_bind _ _ [_]); [apply does_set|].
  rewrite bool_decide_eq_true_2 by done. apply does_set.
Qed.

Lemma LatestBlockHeight_log d l :
  GetBytes globalStoreName LatestBlock d = found (enc <$> newest (on_commit c_height) l) →
  log_ok l →
  DefaultStore.LatestBlockHeight d = log_LatestBlockHeight l.
Proof.
  intros Hg Hl. pose proof (next_height_le l Hl) as Hn.
  unfold DefaultStore.LatestBlockHeight, log_LatestBlockHeight, Storage.
  rewrite Hg. unfold decodeUint64.
  destruct (newest _ l) as [h|] eqn:He; [|done]. simpl.
  apply (unmarshal_enc (P := is_u64)).
  pose proof (next_height_nonneg l Hl). unfold next_height in *. rewrite He in *.
  apply newest_elem in He as ([c| |] & Hin & [= <-]).
  pose proof (log_heights l c Hl Hin). unfold is_u64. lia.
Qed.

(** ** The state of the back end that a log describes *)

Definition scheduled_at (n : Z) (w : write) : option Identifier :=
  match w with WIndexScheduled m b => if decide (m = n) then Some b else None | _ => None end.
Definition scheduledTx_at (t : Identifier) (w : write) : option Identifier :=
  match w with WIndexTx t' b => if decide (t' = t) then Some b else None | _ => None end.

Record def_rel (d : D) (l : log) : Prop := {
  dr_ok : log_ok l;
  dr_latest : GetBytes globalStoreName LatestBlock d
              = found (enc <$> newest (on_commit c_height) l);
  dr_blocks h : is_u64 h → GetBytes BlockStoreName (BlockHeight h) d
              = found (enc <$> newest (on_commit (c_block h)) l);
  dr_ids id : GetBytes BlockIndexStoreName (IdentifierKey id) d
              = found (enc <$> newest (on_commit (c_blockID id)) l);
  dr_collections id : GetBytes CollectionStoreName (IdentifierKey id) d
              = found (enc <$> newest (on_commit (c_collection id)) l);
  dr_transactions id : GetBytes TransactionStoreName (IdentifierKey id) d
              = found (enc <$> newest (on_commit (c_transaction id)) l);
  dr_results id : GetBytes TransactionResultStoreName (IdentifierKey id) d
              = found (enc <$> newest (on_commit (c_result id)) l);
  dr_systemResults b t : GetBytes TransactionResultStoreName (SystemTransactionResult b t) d
              = found (enc <$> newest (on_commit (c_systemResult b t)) l);
  dr_systemTransactions b : GetBytes SystemTransactionName (IdentifierKey b) d
              = found (enc <$> newest (on_commit (c_systemTransactions b)) l);
  dr_scheduled n : is_u64 n → GetBytes scheduledTransactionIndexName (ScheduledTransactionID n) d
              = found (vec_to_list <$> newest (scheduled_at n) l);
  dr_scheduledTx t : GetBytes scheduledTransactionBlockIndexName (IdentifierKey t) d
              = found (vec_to_list <$> newest (scheduledTx_at t) l);
  dr_events h : is_u64 h → GetBytes EventStoreName (BlockHeight h) d
              = found (enc <$> newest (on_commit (c_events h)) l);
  dr_version h : 0 ≤ h < next_height l → version_ok h;
  dr_ledger h r : version_ok h → GetBytesAtVersion LedgerStoreName (RegisterID_String r) h d
              = found (newest (on_commit (c_register h r)) l)
}.

(** ** Reading through the codecs *)

Lemma found_decoded {A} `{!Codec A} {HL : CodecLaws A (λ _, True)} (o : option A) :
  (bs ← found (enc <$> o); cbor_Unmarshal bs) = found o.
Proof. destruct o as [a|]; [|done]. by apply (unmarshal_enc (P := λ _, True)). Qed.

Lemma found_blockID (o : option Identifier) :
  (bs ← found (vec_to_list <$> o); blockID_of_bytes bs) = found o.
Proof.
  destruct o as [a|]; [|done]. simpl. unfold blockID_of_bytes. by rewrite id_of_bytes_to_list.
Qed.

Lemma log_height_u64 {A} (f : BlockCommit → option A) (g : A → Z) l a :
  log_ok l → (∀ c a, f c = Some a → g a = bc_height c) →
  newest (on_commit f) l = Some a → is_u64 (g a).
Proof.
  intros Hl Hg Hn. apply newest_elem in Hn as ([c| |] & Hin & Hf); [|done|done].
  rewrite (Hg c a Hf). pose proof (log_heights l c Hl Hin). pose proof (next_height_le l Hl).
  unfold is_u64. lia.
Qed.

Section reads.
Context (d : D) (l : log) (R : def_rel d l).

Lemma read_latest : DefaultStore.LatestBlockHeight d = log_LatestBlockHeight l.
Proof. apply LatestBlockHeight_log; apply R. Qed.

Lemma read_block h : is_u64 h → DefaultStore.BlockByHeight h d = log_BlockByHeight h l.
Proof.
  intros Hh. unfold DefaultStore.BlockByHeight, Storage, decodeBlock.
  rewrite (dr_blocks d l R h Hh). apply found_decoded.
Qed.

Lemma read_blockID id : DefaultStore.BlockByID id d = log_BlockByID id l.
Proof.
  unfold DefaultStore.BlockByID, log_BlockByID, Storage, decodeUint64.
  rewrite (dr_ids d l R id).
  destruct (newest (on_commit (c_blockID id)) l) as [h|] eqn:Hn; [|done].
  assert (is_u64 h) as Hh.
  { apply (log_height_u64 (c_blockID id) (λ h, h) l h (dr_ok d l R)); [|done].
    intros c a. unfold c_blockID. by case_decide; intros [= <-]. }
  simpl. rewrite (unmarshal_enc h Hh). simpl. by apply read_block.
Qed.

Lemma read_latestBlock : def_LatestBlock d = log_LatestBlock l.
Proof.
  unfold def_LatestBlock, log_LatestBlock. rewrite read_latest.
  unfold log_LatestBlockHeight.
  destruct (newest (on_commit c_height) l) as [h|] eqn:Hn; [|done]. simpl.
  apply read_block. apply (log_height_u64 c_height (λ h, h) l h (dr_ok d l R)); [|done].
  by intros c a [= <-].
Qed.

Lemma read_transaction id : DefaultStore.TransactionByID id d = log_TransactionByID id l.
Proof.
  unfold DefaultStore.TransactionByID, Storage, decodeTransaction.
  rewrite (dr_transactions d l R id). apply found_decoded.
Qed.

Lemma read_collection id : DefaultStore.CollectionByID id d = log_CollectionByID id l.
Proof.
  unfold DefaultStore.CollectionByID, Storage, decodeCollection.
  rewrite (dr_collections d l R id). apply found_decoded.
Qed.

Lemma read_events h ty : is_u64 h → DefaultStore.EventsByHeight h ty d = log_EventsByHeight h ty l.
Proof.
  intros Hh. unfold DefaultStore.EventsByHeight, log_EventsByHeight, Storage, decodeEvents.
  rewrite (dr_events d l R h Hh).
  destruct (newest _ l) as [evs|]; [|done]. simpl.
  by rewrite (unmarshal_enc (P := λ _, True)).
Qed.

Lemma read_register h r : version_ok h → snapshot_Get d h r = Ok (log_Register h r l).
Proof.
  intros Hh. unfold snapshot_Get, log_Register, Storage. rewrite (dr_ledger d l R h r Hh).
  by destruct (newest _ l).
Qed.
End reads.

Lemma def_rel_refines d l : def_rel d l → refines d l.
Proof.
  intros R. split; simpl; intros.
  - by apply read_latest.
  - by apply read_latestBlock.
  - by apply read_block.
  - by apply read_blockID.
  - by apply read_collection.
  - pose proof (read_collection d l R id) as Hc. unfold DefaultStore.CollectionByID in Hc.
    unfold DefaultStore.FullCollectionByID, log_FullCollectionByID. rewrite <- Hc.
    unfold mbind, res_bind. case_match; [|done]. case_match; [|done].
    by rewrite (res_map_ext _ _ _ (read_transaction d l R)).
  - by apply read_transaction.
  - unfold DefaultStore.TransactionResultByID, Storage. rewrite (dr_results d l R id).
    apply found_decoded.
  - unfold DefaultStore.SystemTransactionResultByID, Storage.
    rewrite (dr_systemResults d l R b t). apply found_decoded.
  - unfold DefaultStore.SystemTransactionsForBlockID, Storage.
    rewrite (dr_systemTransactions d l R b). apply found_decoded.
  - unfold DefaultStore.BlockIDByScheduledTransactionID, Storage.
    rewrite (dr_scheduled d l R n) by done. apply found_blockID.
  - unfold DefaultStore.ScheduledTransactionBlockIDByTxID, Storage.
    rewrite (dr_scheduledTx d l R t). apply found_blockID.
  - by apply read_events.
  - exists (snapshot_Get d h). split; [done|]. intros r. apply (read_register d l R). by apply R.
  - exists (snapshot_Get d 0). split; [done|]. intros r. apply (read_register d l R), version_ok_zero.
  - by eexists.
Qed.

(** ** What a commit writes under each key *)

Lemma last_write_seg_one {A} st (f : A → Bytes * Bytes) x st' k :
  last_write (st', k) (seg st f [x]) =
  if decide ((st, (f x).1) = (st', k)) then Some (f x).2 else None.
Proof. done. Qed.

Lemma last_write_seg_id {V} `{!Codec V} st (xs : list (Identifier * V)) id :
  last_write (st, IdentifierKey id) (seg st (λ p, (IdentifierKey p.1, enc p.2)) xs)
    = enc <$> last_write id xs.
Proof. apply (last_write_seg st IdentifierKey enc). intros p _. apply (inj hex_id). Qed.

Local Ltac other_segs :=
  rewrite !last_write_app;
  repeat match goal with
    | |- context [last_write (?st', ?k) (seg ?st ?f ?xs)] =>
        rewrite (last_write_seg_ne st f xs st' k) by done
    end; cbv beta iota.

Local Ltac key_clash inj :=
  exfalso; match goal with
  | He : (_, _) = (_, _), Hn : ¬ _ |- _ => apply (f_equal snd) in He; cbn [snd] in He; by apply Hn, inj
  end.

Section writes_of.
Context (c : BlockCommit).
Abbreviation ws := (plain_writes (WCommit c)).
Hypothesis Hu : is_u64 (bc_height c).

Lemma write_latest : last_write (globalStoreName, LatestBlock) ws = enc <$> c_height c.
Proof. unfold plain_writes, commit_writes, event_writes. other_segs. done. Qed.

Lemma write_block h :
  is_u64 h → last_write (BlockStoreName, BlockHeight h) ws = enc <$> c_block h c.
Proof.
  intros Hh. unfold plain_writes, commit_writes, event_writes. other_segs.
  rewrite last_write_seg_one. unfold c_block. cbn [fst snd]. repeat case_decide; first [done | key_clash BlockHeight_inj | congruence].
Qed.

Lemma write_event h :
  is_u64 h → last_write (EventStoreName, BlockHeight h) ws = enc <$> c_events h c.
Proof.
  intros Hh. unfold plain_writes, commit_writes, event_writes. other_segs.
  rewrite last_write_seg_one. unfold c_events. cbn [fst snd]. repeat case_decide; first [done | key_clash BlockHeight_inj | congruence].
Qed.

Lemma write_id id :
  last_write (BlockIndexStoreName, IdentifierKey id) ws = enc <$> c_blockID id c.
Proof.
  unfold plain_writes, commit_writes, event_writes. other_segs.
  rewrite last_write_seg_one. unfold c_blockID. cbn [fst snd]. repeat case_decide; first [done | key_clash (inj hex_id) | congruence].
Qed.

Lemma write_collection id :
  last_write (CollectionStoreName, IdentifierKey id) ws = enc <$> c_collection id c.
Proof.
  unfold plain_writes, commit_writes, event_writes. other_segs.
  rewrite last_write_seg_id. unfold c_collection. by destruct (last_write id _).
Qed.

Lemma write_transaction id :
  last_write (TransactionStoreName, IdentifierKey id) ws = enc <$> c_transaction id c.
Proof.
  unfold plain_writes, commit_writes, event_writes. other_segs.
  rewrite !last_write_seg_id, !last_write_map_range. unfold c_transaction.
  destruct (bc_systemTransactionBodies c !! id); [done|]. simpl. by destruct (_ !! id).
Qed.

Lemma write_result id :
  last_write (TransactionResultStoreName, IdentifierKey id) ws = enc <$> c_result id c.
Proof.
  unfold plain_writes, commit_writes, event_writes. other_segs.
  rewrite (last_write_seg_key _ (SystemTransactionResult (Block_ID (bc_block c))) enc)
    by (intros; apply SystemTransactionResult_Identifier).
  rewrite last_write_seg_id, last_write_map_range. unfold c_result. by destruct (_ !! id).
Qed.

Lemma write_systemResult b t :
  last_write (TransactionResultStoreName, SystemTransactionResult b t) ws
    = enc <$> c_systemResult b t c.
Proof.
  unfold plain_writes, commit_writes, event_writes. other_segs.
  rewrite (last_write_seg_key _ IdentifierKey enc)
    by (intros p _ Hk; by apply (SystemTransactionResult_Identifier b t p.1)).
  unfold c_systemResult. case_decide as Hb.
  - subst b. rewrite (last_write_seg _ (SystemTransactionResult _) enc)
      by (intros p _ Hk; by apply SystemTransactionResult_inj in Hk as [_ ?]).
    rewrite last_write_map_range. by destruct (_ !! t).
  - rewrite (last_write_seg_key _ (SystemTransactionResult _) enc); [done|].
    intros p _ Hk. by apply SystemTransactionResult_inj in Hk as [? _].
Qed.

Lemma write_systemTransactions b :
  last_write (SystemTransactionName, IdentifierKey b) ws = enc <$> c_systemTransactions b c.
Proof.
  unfold plain_writes, commit_writes, event_writes. other_segs.
  unfold c_systemTransactions. destruct (has_systemTransactions c).
  - rewrite last_write_seg_one. cbn [fst snd st_BlockID commit_metadata]. repeat case_decide; first [done | key_clash (inj hex_id) | congruence].
  - by case_decide.
Qed.

Lemma write_scheduled n :
  last_write (scheduledTransactionIndexName, ScheduledTransactionID n) ws = None.
Proof. unfold plain_writes, commit_writes, event_writes. by other_segs. Qed.

Lemma write_scheduledTx t :
  last_write (scheduledTransactionBlockIndexName, IdentifierKey t) ws = None.
Proof. unfold plain_writes, commit_writes, event_writes. by other_segs. Qed.
End writes_of.

(** ** A commit *)

(** The effect of the commit's writes on the back end. *)
Definition commit_effect (c : BlockCommit) (d d' : D) : Prop :=
  (∀ st k, st ≠ LedgerStoreName → GetBytes st k d' =
     match last_write (st, k) (plain_writes (WCommit c)) with
     | Some v => Ok v | None => GetBytes st k d end) ∧
  (∀ h r, version_ok h → GetBytesAtVersion LedgerStoreName (RegisterID_String r) h d' =
     match WriteSet (bc_executionSnapshot c) !! r with
     | Some v => if decide (bc_height c ≤ h) then Ok v
                 else GetBytesAtVersion LedgerStoreName (RegisterID_String r) h d
     | None => GetBytesAtVersion LedgerStoreName (RegisterID_String r) h d
     end).

Definition register_writes (es : ExecutionSnapshot) : list (Bytes * Bytes) :=
  (λ p, (RegisterID_String p.1, p.2)) <$> map_range (WriteSet es).

Lemma last_write_registers es r :
  last_write (RegisterID_String r) (register_writes es) = WriteSet es !! r.
Proof.
  transitivity (last_write r (map_range (WriteSet es))); [|apply last_write_map_range].
  unfold register_writes.
  induction (map_range (WriteSet es)) as [|p ps IH] using rev_ind; [done|].
  rewrite fmap_app. setoid_rewrite last_write_snoc. rewrite IH. simpl.
  destruct (decide (p.1 = r)) as [->|Hne]; [by rewrite decide_True|].
  rewrite decide_False; [done|]. intros Hs. by apply Hne, RegisterID_String_inj.
Qed.

Lemma register_writes_NoDup es : NoDup (register_writes es).*1.
Proof.
  assert ((register_writes es).*1 = RegisterID_String <$> (map_range (WriteSet es)).*1) as ->
    by (unfold register_writes; by rewrite <- !list_fmap_compose).
  apply NoDup_fmap_2; [intros r1 r2; apply RegisterID_String_inj|apply map_range_NoDup].
Qed.

Lemma plain_writes_ledger c w : w ∈ plain_writes (WCommit c) → w.1.1 ≠ LedgerStoreName.
Proof.
  unfold plain_writes, commit_writes, event_writes, seg.
  rewrite !elem_of_app, !list_elem_of_fmap.
  intros H. by repeat destruct H as [H|H]; destruct H as (? & -> & _).
Qed.

Lemma commit_writes_can c d :
  def_writable d (WCommit c) →
  let d1 := set_CurrentHeight (bc_height c) d in
  can_set (commit_writes c) d1 ∧ can_set (event_writes c) d1.
Proof. intros [Hp _]. apply can_set_app. exact Hp. Qed.

(** The writes between the block and the registers. *)
Definition body_writes (c : BlockCommit) : list kv := drop 3 (commit_writes c).

Lemma does_body c :
  does (D := D)
    ((if has_systemTransactions c then StoreSystemTransactions (commit_metadata c) else mret ()) ;;
     st_iter InsertCollection (bc_collections c) ;;
     st_iter InsertTransaction (map_range (bc_transactions c)) ;;
     st_iter InsertTransactionResult (map_range (bc_transactionResults c)) ;;
     st_iter InsertTransaction (map_range (bc_systemTransactionBodies c)) ;;
     st_iter (InsertSystemTransactionResult (Block_ID (bc_block c)))
       (map_range (bc_systemTransactionResults c)))
    (body_writes c).
Proof.
  apply does_bind; [apply does_metadata|]. apply does_bind; [apply does_collections|].
  apply does_bind; [apply does_transactions|]. apply does_bind; [apply does_results|].
  apply does_bind; [apply does_transactions|]. apply does_systemResults.
Qed.

(** The body of [CommitBlock], its inserts grouped. *)
Lemma CommitBlock_unfold c d :
  counts_match c →
  DefaultStore.CommitBlock c d =
  (DefaultStore.StoreBlock (bc_block c) ;;
   ((if has_systemTransactions c then StoreSystemTransactions (commit_metadata c) else mret ()) ;;
     st_iter InsertCollection (bc_collections c) ;;
     st_iter InsertTransaction (map_range (bc_transactions c)) ;;
     st_iter InsertTransactionResult (map_range (bc_transactionResults c)) ;;
     st_iter InsertTransaction (map_range (bc_systemTransactionBodies c)) ;;
     st_iter (InsertSystemTransactionResult (Block_ID (bc_block c)))
       (map_range (bc_systemTransactionResults c))) ;;
   InsertExecutionSnapshot (bc_height c) (bc_executionSnapshot c) ;;
   InsertEvents (bc_height c) (bc_events c)) d.
Proof.
  intros [H1 H2]. unfold DefaultStore.CommitBlock.
  rewrite (bool_decide_eq_false_2 (size _ ≠ _)) by auto.
  rewrite (bool_decide_eq_false_2 (length _ ≠ _)) by auto.
  unfold mbind, ST_bind. by repeat (case_match; simplify_eq).
Qed.

Lemma run_InsertExecutionSnapshot c d :
  (∀ r v, WriteSet (bc_executionSnapshot c) !! r = Some v →
     setv_ok d LedgerStoreName (RegisterID_String r) (bc_height c)) →
  ∃ d', InsertExecutionSnapshot (bc_height c) (bc_executionSnapshot c) d = (Ok (), d') ∧
        regs_run LedgerStoreName (register_writes (bc_executionSnapshot c)) (bc_height c) d d'.
Proof.
  intros Hv.
  destruct (run_registers LedgerStoreName (register_writes (bc_executionSnapshot c))
              (bc_height c) d) as (d' & Hrun & Heff).
  - apply register_writes_NoDup.
  - intros k v Hin. apply list_elem_of_fmap in Hin as ((r & v') & [= -> ->] & Hin).
    apply (Hv r v'). by apply elem_of_map_range in Hin.
  - exists d'. split; [|done]. unfold register_writes in Hrun. by rewrite st_iter_fmap in Hrun.
Qed.

(** A commit that extends the log succeeds and makes its writes. *)
Lemma run_CommitBlock c d l :
  def_rel d l → log_ok (WCommit c :: l) → def_writable d (WCommit c) →
  ∃ d', DefaultStore.CommitBlock c d = (Ok (), d') ∧ commit_effect c d d'.
Proof.
  intros R [Hl (Hc & Hu & Hcm)]%log_ok_tail Hw.
  destruct (commit_writes_can c d Hw) as [Hcw Hce]. destruct Hw as [_ [Hver Hv]]. simpl in Hv.
  change (commit_writes c) with (block_writes c ++ body_writes c) in Hcw.
  apply can_set_app in Hcw as [Hcb Hcr].
  rewrite CommitBlock_unfold by done.
  destruct (run_StoreBlock c d (default 0 (newest (on_commit c_height) l)) Hu) as (d1 & E1 & R1);
    [| |done|].
  { assert (DefaultStore.LatestBlockHeight (set_CurrentHeight (bc_height c) d)
            = log_LatestBlockHeight l) as ->
      by (apply LatestBlockHeight_log; [rewrite get_height; apply R|done]).
    unfold log_LatestBlockHeight. by destruct (newest (on_commit c_height) l). }
  { unfold next_height in Hc. destruct (newest (on_commit c_height) l); simpl; lia. }
  destruct (does_body c d1) as (d2 & E2 & R2); [by eapply can_set_runs|].
  pose proof (runs_to_app _ _ _ _ _ R1 R2) as R12.
  change (block_writes c ++ body_writes c) with (commit_writes c) in R12.
  destruct (proj2 (proj2 R12) LedgerStoreName) as [Vok Vget].
  { intros w Hw. apply (plain_writes_ledger c). apply elem_of_app. by left. }
  destruct (run_InsertExecutionSnapshot c d2) as (d3 & E3 & G3 & P3 & S3); [by eauto|].
  destruct (does_events (bc_height c) (bc_events c) d3) as (d4 & E4 & R4).
  { intros st k v Hin. apply S3; [|by apply R12, Hce].
    intros <-. apply list_elem_of_singleton in Hin. done. }
  exists d4. split.
  { by erewrite !ST_bind_step by done. }
  destruct R4 as (G4 & _ & V4). destruct R12 as (G2 & _ & _). split.
  - intros st k Hst. rewrite G4, P3, G2, get_height by done.
    change (plain_writes (WCommit c)) with (commit_writes c ++ event_writes c).
    rewrite last_write_app. unfold event_writes. by destruct (last_write (st, k) (seg EventStoreName _ _)).
  - intros h r Hh. destruct (V4 LedgerStoreName) as [_ V4']; [by intros w ->%list_elem_of_singleton|].
    rewrite V4', G3, last_write_registers, Vget, getv_height by done. done.
Qed.

Lemma found_after {A} `{!Codec A} (f : BlockCommit → option A) c l (g : result Bytes) :
  g = found (enc <$> newest (on_commit f) l) →
  match enc <$> f c with Some v => Ok v | None => g end
    = found (enc <$> newest (on_commit f) (WCommit c :: l)).
Proof. intros ->. simpl. by destruct (f c). Qed.

Lemma def_rel_commit c d d' l :
  def_rel d l → log_ok (WCommit c :: l) → version_ok (bc_height c) →
  commit_effect c d d' → def_rel d' (WCommit c :: l).
Proof.
  intros R Hok Hver [HG HV]. pose proof (proj2 (log_ok_tail _ _ Hok)) as (Hc & Hu & _).
  split; [done|..]; intros; try (rewrite HG by done).
  - rewrite write_latest. apply found_after, R.
  - rewrite write_block by done. by apply found_after, R.
  - rewrite write_id. apply found_after, R.
  - rewrite write_collection. apply found_after, R.
  - rewrite write_transaction. apply found_after, R.
  - rewrite write_result. apply found_after, R.
  - rewrite write_systemResult. apply found_after, R.
  - rewrite write_systemTransactions. apply found_after, R.
  - rewrite write_scheduled. by apply R.
  - rewrite write_scheduledTx. by apply R.
  - rewrite write_event by done. by apply found_after, R.
  - rewrite next_height_commit in *. apply (version_ok_le _ (bc_height c)); [done|lia].
  - rewrite HV, (dr_ledger d l R) by done. simpl. unfold c_register at 3.
    destruct (WriteSet _ !! r); by case_decide.
Qed.

(** ** The contract *)

Lemma def_rel_index d l w d' ws :
  def_rel d l → log_ok (w :: l) → runs_to ws d d' →
  ws = plain_writes w → (∀ f, on_commit (A := BlockCommit) f w = None) →
  def_rel d' (w :: l).
Proof.
  intros R Hok (HG & _ & HV) -> Hnc.
  destruct w as [c|n b|t b]; [by specialize (Hnc Some)|..];
    pose proof (log_ok_tail _ _ Hok) as [Hl Hw]; simpl in Hw.
  - destruct (HV LedgerStoreName) as [_ Hvg]; [by intros ? ->%list_elem_of_singleton|].
    assert (∀ st k, st ≠ scheduledTransactionIndexName → GetBytes st k d' = GetBytes st k d) as Hne.
    { intros st k Hst. rewrite HG. cbn [plain_writes]. by rewrite last_write_seg_ne. }
    split; [by constructor|..]; intros; try rewrite Hne by done; try (by apply R).
    + rewrite HG. cbn [plain_writes]. rewrite last_write_seg_one. cbn [newest scheduled_at fst snd].
      repeat case_decide; try congruence.
      * done.
      * key_clash ScheduledTransactionID_inj.
      * by apply R.
    + rewrite Hvg. by apply R.
  - destruct (HV LedgerStoreName) as [_ Hvg]; [by intros ? ->%list_elem_of_singleton|].
    assert (∀ st k, st ≠ scheduledTransactionBlockIndexName → GetBytes st k d' = GetBytes st k d) as Hne.
    { intros st k Hst. rewrite HG. cbn [plain_writes]. by rewrite last_write_seg_ne. }
    split; [by constructor|..]; intros; try rewrite Hne by done; try (by apply R).
    + rewrite HG. cbn [plain_writes]. rewrite last_write_seg_one. cbn [newest scheduledTx_at fst snd].
      repeat case_decide; try congruence.
      * done.
      * key_clash (inj hex_id).
      * by apply R.
    + rewrite Hvg. by apply R.
Qed.

Lemma def_rel_step d l w :
  def_rel d l → log_ok (w :: l) → def_writable d w →
  ∃ d', apply_write w d = (Ok (), d') ∧ def_rel d' (w :: l).
Proof.
  intros R Hok Hw. destruct w as [c|n b|t b].
  - destruct (run_CommitBlock c d l R Hok Hw) as (d' & E & Heff).
    exists d'. split; [done|]. eapply def_rel_commit; try done. apply Hw.
  - destruct (does_set scheduledTransactionIndexName (ScheduledTransactionID n)
                (vec_to_list b) d) as (d' & E & Hr); [exact (proj1 Hw)|].
    exists d'. split; [done|]. by eapply def_rel_index.
  - destruct (does_set scheduledTransactionBlockIndexName (IdentifierKey t)
                (vec_to_list b) d) as (d' & E & Hr); [exact (proj1 Hw)|].
    exists d'. split; [done|]. by eapply def_rel_index.
Qed.
End store_writes.

(** * What every write of the store keeps *)

Section keeps.
Import DefaultKeyGenerator DefaultStore.
Context {FM : FlowModel} {CD : Codecs} {GO : GoMapOrder} {D : Type} {DS : DataStore D}.
Context (P : D → Prop).

Lemma keeps_encoded {A} `{!Codec A} st k (a : A) :
  keeps P (SetBytes st k (enc a)) →
  keeps P (bs ← st_res (cbor_Marshal a); SetBytes st k bs).
Proof.
  intros Hk. unfold enc in Hk. destruct (cbor_Marshal a); [exact Hk|]. apply (keeps_fail P).
Qed.

(** The writes of [xs] in one store, among the writes [ws]. *)
Lemma keeps_seg {A} (op : A → ST error D unit) st (f : A → Bytes * Bytes) xs ws :
  (∀ st k v, ((st, k), v) ∈ ws → keeps P (SetBytes st k v)) →
  seg st f xs ⊆ ws →
  (∀ x, keeps P (SetBytes st (f x).1 (f x).2) → keeps P (op x)) →
  keeps P (st_iter op xs).
Proof.
  intros Hs Hsub Hop. apply keeps_iter. intros x Hx. apply Hop, Hs, Hsub.
  apply list_elem_of_fmap. by exists x.
Qed.

(** The body of [StoreBlock] after the assignment of the height. *)
Lemma keeps_store_block c ws :
  (∀ st k v, ((st, k), v) ∈ ws → keeps P (SetBytes st k v)) → block_writes c ⊆ ws →
  keeps P (
    encBlock ← st_res (encodeBlock (bc_block c));
    latestBlockHeight ← st_read (λ s,
      match DefaultStore.LatestBlockHeight s with
      | Ok h => Ok h
      | Err err => if is_not_found err then Ok 0 else Err err
      end);
    SetBytes (Storage BlockStoreName) (BlockHeight (Block_Height (bc_block c))) encBlock ;;
    encHeight ← st_res (mustEncodeUint64 (Block_Height (bc_block c)));
    SetBytes (Storage BlockIndexStoreName) (IdentifierKey (Block_ID (bc_block c))) encHeight ;;
    if bool_decide (latestBlockHeight ≤ Block_Height (bc_block c))%Z
    then SetBytes (Storage globalStoreName) LatestBlock encHeight
    else mret ()).
Proof.
  intros Hs Hsub.
  assert (∀ st k v, ((st, k), v) ∈ block_writes c → keeps P (SetBytes st k v)) as Hb by auto.
  pose proof (Hb _ _ _ ltac:(left)) as H1. pose proof (Hb _ _ _ ltac:(right; left)) as H2.
  pose proof (Hb _ _ _ ltac:(right; right; left)) as H3.
  unfold enc, bc_height in H1, H2, H3.
  apply keeps_res_bind. intros bs Hbs. unfold encodeBlock in Hbs. rewrite Hbs in H1.
  apply keeps_bind; [apply keeps_read|intros h]. apply keeps_bind; [done|intros _].
  apply keeps_res_bind. intros hs Hhs. unfold mustEncodeUint64 in Hhs. rewrite Hhs in H2, H3.
  apply keeps_bind; [done|intros _]. by apply keeps_if; [|apply keeps_ret].
Qed.

Local Ltac in_writes :=
  intros ? ?; unfold plain_writes, commit_writes; rewrite !elem_of_app; tauto.

(** A property that the commit's primitive writes keep while the store is at
    the height of the commit is kept by the commit, also by one that fails half
    way. *)
Lemma CommitBlock_keeps (c : BlockCommit) (I : D → Prop) :
  (∀ d, I d → P (set_CurrentHeight (bc_height c) d)) → (∀ d, P d → I d) →
  (∀ st k v, ((st, k), v) ∈ plain_writes (WCommit c) → keeps P (SetBytes st k v)) →
  (∀ r v, WriteSet (bc_executionSnapshot c) !! r = Some v →
     keeps P (SetBytesWithVersion LedgerStoreName (RegisterID_String r) v (bc_height c))) →
  keeps I (DefaultStore.CommitBlock c).
Proof.
  intros Hset HPI Hs Hv. unfold DefaultStore.CommitBlock.
  repeat (apply keeps_if; [by auto with emu|]).
  intros d Hd. unfold DefaultStore.StoreBlock. rewrite ST_bind_assoc_unit.
  erewrite ST_bind_step by reflexivity.
  apply HPI. match goal with |- P (?op ?s).2 => cut (keeps P op); [intros Hk; by apply Hk, Hset|] end.
  apply keeps_bind; [|intros _].
  { apply (keeps_store_block c (plain_writes (WCommit c)) Hs). intros x Hx.
    by apply elem_of_app; left; apply (elem_of_app (block_writes c)); left. }
  apply keeps_bind; [|intros _].
  { destruct (has_systemTransactions c) eqn:Hst; [|apply keeps_ret].
    apply keeps_encoded, Hs. unfold plain_writes, commit_writes. rewrite Hst, !elem_of_app.
    left; right; right; right; left. left. }
  apply keeps_bind; [|intros _].
  { apply keeps_iter. intros col Hcol. apply keeps_encoded, Hs.
    unfold plain_writes, commit_writes. rewrite !elem_of_app.
    left; right; right; right; right; left. apply list_elem_of_fmap.
    exists (LightCollection_ID col, col). split; [done|]. apply list_elem_of_fmap. by exists col. }
  apply keeps_bind; [apply (keeps_seg _ TransactionStoreName (λ p, (IdentifierKey p.1, enc p.2)) _ _ Hs);
    [in_writes|intros x; apply keeps_encoded]|intros _].
  apply keeps_bind; [apply (keeps_seg _ TransactionResultStoreName (λ p, (IdentifierKey p.1, enc p.2)) _ _ Hs);
    [in_writes|intros x; apply keeps_encoded]|intros _].
  apply keeps_bind; [apply (keeps_seg _ TransactionStoreName (λ p, (IdentifierKey p.1, enc p.2)) _ _ Hs);
    [in_writes|intros x; apply keeps_encoded]|intros _].
  apply keeps_bind; [apply (keeps_seg _ TransactionResultStoreName (λ p, (SystemTransactionResult (Block_ID (bc_block c)) p.1, enc p.2)) _ _ Hs);
    [in_writes|intros x; apply keeps_encoded]|intros _].
  apply keeps_bind; [|intros _].
  { apply keeps_iter. intros [r v] Hin%elem_of_map_range. by apply Hv. }
  apply keeps_encoded, Hs. apply elem_of_app. right. left.
Qed.
End keeps.

(** A back end that starts with no data. *)
Class EmptyStore (D : Type) {DS : DataStore D} {PS : PlainStore D} {VS : VersionedStore D} := {
  empty_data : D;
  get_empty st k : st ∈ all_stores → GetBytes st k empty_data = Err ErrNotFound;
  getv_empty st k n : st ∈ all_stores → version_ok n → GetBytesAtVersion st k n empty_data = Err ErrNotFound
}.

Lemma def_rel_empty {FM : FlowModel} {CD : Codecs} {D} {DS : DataStore D} {PS : PlainStore D}
    {VS : VersionedStore D} {ES : EmptyStore D} : def_rel empty_data [].
Proof.
  split; [constructor|..]; intros;
    try (rewrite get_empty by (unfold all_stores; set_solver); done).
  - unfold next_height in *. simpl in *. lia.
  - by rewrite getv_empty by (done || (unfold all_stores; set_solver)).
Qed.

Lemma def_counts {FM : FlowModel} {CD : Codecs} {GO : GoMapOrder} {D} {DS : DataStore D} (d : D) c :
  ¬ counts_match c → CommitBlock c d = (Err (counts_error c), d).
Proof.
  intros Hc. simpl. unfold DefaultStore.CommitBlock, st_fail, counts_error. unfold counts_match in Hc.
  case_bool_decide as H1; [by rewrite decide_False|].
  case_bool_decide as H2; [by rewrite decide_True by tauto|]. exfalso. apply Hc. lia.
Qed.

(** [DefaultStore] over a lawful back end fulfils the storage contract. *)
#[global] Instance def_correct {FM : FlowModel} {FL : FlowModelLaws FM} {CD : Codecs}
    {CL : CodecsLaws CD} {GO : GoMapOrder} {D} {DS : DataStore D} {PS : PlainStore D}
    {VS : VersionedStore D} {ES : EmptyStore D} : StoreCorrect D := {
  store_empty := empty_data;
  store_rel := def_rel;
  store_writable d _ w := def_writable d w;
  store_rel_refines := def_rel_refines;
  store_rel_empty := def_rel_empty;
  store_rel_step := def_rel_step;
  store_counts := def_counts
}.
