(* ===== verification/Sqlite.v ===== *)
(** The SQLite back end: storage/sqlite/store.go and createTables.sql.

    A table is a finite map: the rows are keyed by (key, version, height), the
    UNIQUE constraint of the tables, and an INSERT ... ON CONFLICT DO UPDATE is
    an insertion.  A SELECT ... ORDER BY version DESC LIMIT 1 returns a row of
    the greatest version; which one, when several rows (of different heights)
    have it, is the engine's choice, the parameter [limit1].  Binding a [uint64]
    argument is [bind_uint64] of the driver.  The databases of a store are named
    files (or named in-memory databases); [sq_db] is the open one, so that a
    loaded snapshot is the database that later writes change. *)
From stdpp Require Import sorting.
From S2P Require Import Prelude FlowTypes Errors Storage Keys DefaultStore DefaultStoreCorrect.

(** * Tables *)

(** (key, version, height), the texts in hexadecimal. *)
Abbreviation rowkey := (Bytes * Z * Z)%type.
Abbreviation table := (gmap rowkey Bytes).
Abbreviation database := (gmap string table).

Class SqlEngine := {
  (** The INTEGER a [uint64] argument is bound to. *)
  bind_uint64 : Z → result Z;
  (** The row ORDER BY version DESC LIMIT 1 keeps of the selected ones. *)
  limit1 : list (rowkey * Bytes) → option (rowkey * Bytes)
}.

Definition row_version (p : rowkey * Bytes) : Z := p.1.1.2.

Class SqlEngineLaws (SE : SqlEngine) : Prop := {
  bind_small z : 0 ≤ z < two64 / 2 → bind_uint64 z = Ok z;
  limit1_nil : limit1 [] = None;
  limit1_max rows :
    rows ≠ [] → ∃ p, limit1 rows = Some p ∧ p ∈ rows ∧
                     ∀ q, q ∈ rows → row_version q ≤ row_version p
}.

(** createTables.sql *)
Definition table_names : list string :=
  [globalStoreName; LedgerStoreName; BlockStoreName; BlockIndexStoreName; EventStoreName;
   TransactionStoreName; CollectionStoreName; TransactionResultStoreName;
   SystemTransactionName; scheduledTransactionIndexName; scheduledTransactionBlockIndexName].

(** CREATE TABLE IF NOT EXISTS *)
Definition initDb (db : database) : database :=
  foldr (λ name db, match db !! name with Some _ => db | None => <[name := ∅]> db end)
        db table_names.

(** The tables [RollbackToBlockHeight] deletes from. *)
Definition rollback_tables : list string :=
  [LedgerStoreName; BlockStoreName; BlockIndexStoreName; EventStoreName; TransactionStoreName;
   CollectionStoreName; TransactionResultStoreName].

Definition no_such_table (name : string) : error := LibraryError ("no such table: " +:+ name).

(** WHERE key = ? and version <= ? *)
Definition matches (key : Bytes) (version : Z) (p : rowkey * Bytes) : Prop :=
  p.1.1.1 = key ∧ row_version p ≤ version.
#[global] Instance matches_dec key version p : Decision (matches key version p) := _.

Definition selected (key : Bytes) (version : Z) (t : table) : list (rowkey * Bytes) :=
  map_to_list (filter (matches key version) t).

(** DELETE ... WHERE height > ? *)
Definition delete_above (height : Z) (t : table) : table :=
  filter (λ p : rowkey * Bytes, ¬ (height < p.1.2)) t.

(** * The store *)

Inductive location := InMemory | Directory | File.
#[global] Instance location_eq_dec : EqDecision location.
Proof. solve_decision. Defined.

Module Sqlite.
Section sqlite.
Context {SE : SqlEngine}.

Record Store := mkStore {
  sq_url : location;
  sq_id : Z;
  sq_snapshotNames : list string;
  sq_CurrentHeight : Z;
  (** The databases that exist, by name, and the name of the open one. *)
  sq_databases : gmap string database;
  sq_db : string
}.

Definition set_sq_CurrentHeight (h : Z) (s : Store) : Store :=
  mkStore (sq_url s) (sq_id s) (sq_snapshotNames s) h (sq_databases s) (sq_db s).
Definition set_db (db : database) (s : Store) : Store :=
  mkStore (sq_url s) (sq_id s) (sq_snapshotNames s) (sq_CurrentHeight s)
    (<[sq_db s := db]> (sq_databases s)) (sq_db s).

(** The open database. *)
Definition tables (s : Store) : database := default ∅ (sq_databases s !! sq_db s).

(** The name of the main database file. *)
Definition main_db (url : location) : string :=
  match url with
  | InMemory => ":memory:"
  | Directory | File => "emulator.sqlite"
  end.

(** [New] on the databases found at the location. *)
Definition New (url : location) (id : Z) (found : gmap string database) : Store :=
  let db := main_db url in
  mkStore url id [] 0 (<[db := initDb (default ∅ (found !! db))]> found) db.

Definition sq_SetBytesWithVersionAndHeight (store : string) (key value : Bytes)
    (version height : Z) : ST error Store unit :=
  v ← st_res (bind_uint64 version);
  h ← st_res (bind_uint64 height);
  t ← st_read (λ s, of_option (no_such_table store) (tables s !! store));
  st_modify (λ s, set_db (<[store := <[(hex_encode key, v, h) := hex_encode value]> t]> (tables s)) s).

(** The global table has no height. *)
Definition effective_height (store : string) (s : Store) : Z :=
  if decide (store = "global"%string) then 0 else sq_CurrentHeight s.

Definition sq_SetBytesWithVersion (store : string) (key value : Bytes) (version : Z)
    : ST error Store unit :=
  height ← st_get (effective_height store);
  sq_SetBytesWithVersionAndHeight store key value version height.

Definition sq_SetBytes (store : string) (key value : Bytes) : ST error Store unit :=
  sq_SetBytesWithVersion store key value 0.

Definition sq_GetBytesAtVersion (store : string) (key : Bytes) (version : Z) (s : Store)
    : result Bytes :=
  v ← bind_uint64 version;
  t ← of_option (no_such_table store) (tables s !! store);
  match limit1 (selected (hex_encode key) v t) with
  | Some p => of_option (LibraryError "encoding/hex: invalid byte") (hex_decode p.2)
  | None => Err ErrNotFound
  end.

Definition sq_GetBytes (store : string) (key : Bytes) (s : Store) : result Bytes :=
  sq_GetBytesAtVersion store key 0 s.

#[global] Instance sqlite_data : DataStore Store := {
  GetBytes := sq_GetBytes;
  GetBytesAtVersion := sq_GetBytesAtVersion;
  SetBytes := sq_SetBytes;
  SetBytesWithVersion := sq_SetBytesWithVersion;
  CurrentHeight := sq_CurrentHeight;
  set_CurrentHeight := set_sq_CurrentHeight
}.

(** ** Rollback *)

(** The DELETE statements of the transaction. *)
Definition rollback_db (height : Z) (db : database) : database :=
  foldl (λ db name, alter (delete_above height) name db) db rollback_tables.

Definition RollbackToBlockHeight {CD : Codecs} (height : Z) : ST error Store unit :=
  cur ← st_get sq_CurrentHeight;
  if bool_decide (cur ≤ height)%Z
  then st_fail (Errorf "rollback height should be less then current height")
  else
    st_modify (λ s, set_db (rollback_db height (tables s)) s) ;;
    DefaultStore.SetBlockHeight height.

(** ** Snapshots *)

Definition snapshotPrefix : string := "snapshot_".
Definition snapshot_unsupported : error :=
  Errorf "snapshot is not supported with current configuration".

Definition SupportSnapshotsWithCurrentConfig (s : Store) : bool :=
  match sq_url s with InMemory | Directory => true | File => false end.

(** The database file of a snapshot. *)
Definition snapshot_db (name : string) (s : Store) : string :=
  match sq_url s with
  | InMemory => "file:" +:+ name +:+ show_int (sq_id s) +:+ "?mode=memory&cache=shared"
  | Directory | File => snapshotPrefix +:+ name
  end.

(** [strings.CutPrefix] *)
Fixpoint CutPrefix (s prefix : string) : option string :=
  match prefix, s with
  | EmptyString, _ => Some s
  | String p prefix, String c s => if decide (p = c) then CutPrefix s prefix else None
  | String _ _, EmptyString => None
  end.

Definition string_le (a b : string) : Prop := String.leb a b = true.
#[global] Instance string_le_dec a b : Decision (string_le a b).
Proof. unfold string_le. apply _. Defined.

(** The files of the directory in the order of their names, as [os.ReadDir]. *)
Definition ReadDir (s : Store) : list string :=
  merge_sort string_le (map_to_list (sq_databases s)).*1.

Definition Snapshots (s : Store) : result (list string) :=
  if negb (SupportSnapshotsWithCurrentConfig s) then Err snapshot_unsupported
  else if decide (sq_url s = InMemory) then Ok (sq_snapshotNames s)
  else Ok (omap (λ file, CutPrefix file snapshotPrefix) (ReadDir s)).

Definition set_open (name : string) (s : Store) : Store :=
  mkStore (sq_url s) (sq_id s) (sq_snapshotNames s) (sq_CurrentHeight s) (sq_databases s) name.

(** A database with no table does not exist. *)
Definition LoadSnapshot (name : string) : ST error Store unit :=
  supported ← st_get SupportSnapshotsWithCurrentConfig;
  if negb supported then st_fail snapshot_unsupported
  else
    dbFile ← st_get (snapshot_db name);
    exist ← st_get (λ s, match sq_databases s !! dbFile with
                         | Some db => bool_decide (db ≠ ∅)
                         | None => false end);
    if (exist : bool) then st_modify (set_open dbFile)
    else st_fail (Errorf ("snapshot " +:+ name +:+ " does not exist")).

(** VACUUM INTO refuses a target that has content. *)
Definition vacuum_into (dbFile : string) : ST error Store unit :=
  target ← st_get (λ s, default ∅ (sq_databases s !! dbFile));
  if bool_decide (target = (∅ : database))
  then st_modify (λ s, mkStore (sq_url s) (sq_id s) (sq_snapshotNames s) (sq_CurrentHeight s)
                         (<[dbFile := tables s]> (sq_databases s)) (sq_db s))
  else st_fail (LibraryError "output file already exists").

Definition CreateSnapshot (name : string) : ST error Store unit :=
  supported ← st_get SupportSnapshotsWithCurrentConfig;
  if negb supported then st_fail snapshot_unsupported
  else
    dbFile ← st_get (snapshot_db name);
    vacuum_into dbFile ;;
    st_modify (λ s, mkStore (sq_url s) (sq_id s) (sq_snapshotNames s ++ [name])
                      (sq_CurrentHeight s) (sq_databases s) (sq_db s)).

(** The store has the methods of both optional interfaces. *)
Definition sqlite_snapshots : SnapshotProvider Store :=
  mkSnapshotProvider _ SupportSnapshotsWithCurrentConfig Snapshots CreateSnapshot LoadSnapshot.
#[global] Instance sqlite_optional {CD : Codecs} : OptionalInterfaces Store := {
  as_RollbackProvider _ := Some RollbackToBlockHeight;
  as_SnapshotProvider _ := Some sqlite_snapshots
}.
End sqlite.

(** * The back end's laws *)

Section sqlite_laws.
Context {SE : SqlEngine} {SL : SqlEngineLaws SE}.

Definition small (z : Z) : Prop := 0 ≤ z < two64 / 2.

Lemma tables_set_db db s : tables (set_db db s) = db.
Proof. unfold tables, set_db. simpl. by rewrite lookup_insert_eq. Qed.

(** What a row of the key tells about a write at [version] and [height]:
    the row that holds the version is the one that is replaced. *)
Definition row_fits (version height : Z) (value : Bytes) (p : rowkey * Bytes) : Prop :=
  row_version p ≤ version ∧
  (row_version p = version → p.1.2 = height ∨ p.2 = hex_encode value).

Definition rows_fit (s : Store) (store : string) (key value : Bytes) (version : Z) : Prop :=
  small version ∧ small (effective_height store s) ∧
  ∃ t, tables s !! store = Some t ∧
    ∀ p, t !! p.1 = Some p.2 → p.1.1.1 = hex_encode key →
      row_fits version (effective_height store s) value p.

Definition sq_setv_ok (s : Store) (store : string) (key : Bytes) (version : Z) : Prop :=
  ∀ value, rows_fit s store key value version.

(** A plain key may hold rows of older versions only in the absence of a
    version-0 row; there are none. *)
Definition sq_set_ok (s : Store) (store : string) (key value : Bytes) : Prop :=
  rows_fit s store key value 0.

Lemma run_set store key value version s t :
  small version → small (effective_height store s) → tables s !! store = Some t →
  sq_SetBytesWithVersion store key value version s =
  (Ok (), set_db (<[store := <[(hex_encode key, version, effective_height store s)
                                := hex_encode value]> t]> (tables s)) s).
Proof.
  intros Hv Hh Ht. unfold sq_SetBytesWithVersion.
  erewrite ST_bind_step by reflexivity. unfold sq_SetBytesWithVersionAndHeight.
  erewrite ST_bind_step by (unfold st_res; by rewrite bind_small).
  erewrite ST_bind_step by (unfold st_res; by rewrite bind_small).
  erewrite ST_bind_step by (unfold st_read; by rewrite Ht). done.
Qed.

(** A successful write, inverted. *)
Lemma set_inv store key value version s s' :
  sq_SetBytesWithVersion store key value version s = (Ok (), s') →
  ∃ v h t, bind_uint64 version = Ok v ∧ bind_uint64 (effective_height store s) = Ok h ∧
    tables s !! store = Some t ∧
    s' = set_db (<[store := <[(hex_encode key, v, h) := hex_encode value]> t]> (tables s)) s.
Proof.
  intros H. unfold sq_SetBytesWithVersion, sq_SetBytesWithVersionAndHeight in H.
  apply ST_bind_Ok in H as (h0 & s1 & [= <- <-] & H).
  apply ST_bind_Ok in H as (v & s2 & [= Hv <-] & H).
  apply ST_bind_Ok in H as (h & s3 & [= Hh <-] & H).
  apply ST_bind_Ok in H as (t & s4 & Ht & H).
  unfold st_read in Ht. destruct (tables s !! store) as [t'|] eqn:Hs; [|done].
  injection Ht as <- <-. injection H as <-. eauto 10.
Qed.

Lemma elem_of_selected key m t p :
  p ∈ selected key m t ↔ t !! p.1 = Some p.2 ∧ matches key m p.
Proof. destruct p as [k v]. unfold selected. by rewrite elem_of_map_to_list, map_lookup_filter_Some. Qed.

(** The value a SELECT returns, when the rows of the greatest version agree. *)
Lemma select_value key m t v p0 :
  p0 ∈ selected key m t →
  (∀ p, p ∈ selected key m t → row_version p0 ≤ row_version p → p.2 = v) →
  ∃ p, limit1 (selected key m t) = Some p ∧ p.2 = v.
Proof.
  intros Hin Hv. destruct (limit1_max (selected key m t)) as (p & Hp & Hpin & Hmax).
  { intros He. rewrite He in Hin. by apply not_elem_of_nil in Hin. }
  exists p. split; [done|]. apply Hv; auto.
Qed.

Lemma read_at store key m s t :
  small m → tables s !! store = Some t →
  sq_GetBytesAtVersion store key m s =
  match limit1 (selected (hex_encode key) m t) with
  | Some p => of_option (LibraryError "encoding/hex: invalid byte") (hex_decode p.2)
  | None => Err ErrNotFound
  end.
Proof. intros Hm Ht. unfold sq_GetBytesAtVersion. by rewrite bind_small, Ht. Qed.

Lemma read_after_set s store key value n m s' :
  small m → n ≤ m → rows_fit s store key value n →
  sq_SetBytesWithVersion store key value n s = (Ok (), s') →
  sq_GetBytesAtVersion store key m s' = Ok value.
Proof.
  intros Hm Hnm (Hn & Hh & t & Ht & Hfit) Hset.
  erewrite run_set in Hset by done. injection Hset as <-.
  erewrite read_at by (done || rewrite tables_set_db; apply lookup_insert_eq).
  set (k0 := (hex_encode key, n, effective_height store s)) in *.
  destruct (select_value (hex_encode key) m (<[k0 := hex_encode value]> t) (hex_encode value)
              (k0, hex_encode value)) as (p & -> & ->).
  - apply elem_of_selected. simpl. rewrite lookup_insert_eq. done.
  - intros p [Hp [Hpk Hpv]]%elem_of_selected Hge. change (row_version (k0, _)) with n in Hge.
    apply lookup_insert_Some in Hp as [[_ ->]|[Hne Hp]]; [done|].
    destruct (Hfit p Hp Hpk) as [Hle Heq].
    destruct Heq as [Heq|Heq]; [lia| |done]. exfalso. apply Hne.
    destruct p as [[[pk pv] ph] pval]. unfold row_version, k0 in *. simpl in *.
    repeat f_equal; [done|lia|done].
  - by rewrite hex_decode_encode.
Qed.

(** A write leaves the selection of an older version, and of another key. *)
Lemma selected_insert key m t k v :
  ¬ matches key m (k, v) → (∀ v', t !! k = Some v' → ¬ matches key m (k, v')) →
  selected key m (<[k := v]> t) = selected key m t.
Proof.
  intros Hn Ho. unfold selected. f_equal. apply map_eq. intros i. apply option_eq. intros x.
  rewrite !map_lookup_filter_Some, lookup_insert_Some.
  split; [intros [[[<- <-]|[??]] ?]; done|].
  intros [Hi Hm]. split; [|done]. destruct (decide (k = i)) as [<-|]; [|by right].
  exfalso. by eapply Ho.
Qed.

Lemma read_unaffected s store key value n s' store' key' m :
  sq_SetBytesWithVersion store key value n s = (Ok (), s') →
  (∀ v h, bind_uint64 n = Ok v → store = store' →
          ∀ v', bind_uint64 m = Ok v' →
          ∀ x, ¬ matches (hex_encode key') v' ((hex_encode key, v, h), x)) →
  sq_GetBytesAtVersion store' key' m s' = sq_GetBytesAtVersion store' key' m s.
Proof.
  intros (v & h & t & Hv & Hh & Hs & ->)%set_inv Hne. unfold sq_GetBytesAtVersion.
  destruct (bind_uint64 m) as [v'|] eqn:Hm; [|done]. cbn [mbind res_bind].
  rewrite tables_set_db. destruct (decide (store = store')) as [<-|Hst].
  - rewrite lookup_insert_eq, Hs. cbn [of_option mbind res_bind].
    rewrite selected_insert; [done|by eapply Hne|intros; by eapply Hne].
  - by rewrite lookup_insert_ne.
Qed.

Lemma effective_set db store s : effective_height store (set_db db s) = effective_height store s.
Proof. done. Qed.

(** A write keeps the conditions of the writes to other keys, and of the
    writes to the same key at the same version. *)
Lemma rows_fit_set s store key value n s' store' key' value' n' :
  rows_fit s store' key' value' n' →
  sq_SetBytesWithVersion store key value n s = (Ok (), s') →
  store ≠ store' ∨ key ≠ key' ∨ n = n' →
  rows_fit s' store' key' value' n'.
Proof.
  intros (Hn & Hh & t' & Ht' & Hfit) (v & h & t & Hv & Hhe & Ht & ->)%set_inv Hcase.
  split; [done|]. split; [done|]. rewrite tables_set_db, effective_set.
  destruct (decide (store = store')) as [<-|Hst].
  - rewrite lookup_insert_eq. eexists. split; [done|]. rewrite Ht in Ht'. injection Ht' as <-.
    intros p [[Hpk Hpv]|[Hne Hp]]%lookup_insert_Some Hk; [|by apply Hfit].
    destruct p as [[[pk pv] ph] pval]. cbn [fst snd] in Hpk, Hk.
    injection Hpk as <- <- <-. apply (inj hex_encode) in Hk as <-.
    destruct Hcase as [?|[?|<-]]; [done..|].
    rewrite bind_small in Hv by done. rewrite bind_small in Hhe by done. simplify_eq.
    unfold row_fits, row_version. simpl. split; [lia|]. intros _. by left.
  - exists t'. by rewrite lookup_insert_ne.
Qed.

Lemma zero_small : small 0.
Proof. by split. Qed.

Lemma other_key (store : string) (key : Bytes) (v h : Z) store' key' m (x : Bytes) :
  (store, key) ≠ (store', key') → store = store' →
  ¬ matches (hex_encode key') m ((hex_encode key, v, h), x).
Proof. intros Hne <- [Hk _]. apply (inj hex_encode) in Hk as <-. done. Qed.

#[global] Program Instance sqlite_plain : PlainStore Store := { set_ok := sq_set_ok }.
Next Obligation.
  intros s st k v (Hn & Hh & t & Ht & _). eexists. by apply run_set.
Qed.
Next Obligation. intros s st k v s' Hok H. by eapply read_after_set. Qed.
Next Obligation.
  intros s st k v s' st' k' Hne H. eapply read_unaffected; [exact H|].
  intros; by eapply other_key.
Qed.
Next Obligation.
  intros s st k v s' st' k' v' Hok H. eapply rows_fit_set; [exact Hok|exact H|]. by right; right.
Qed.
Next Obligation. done. Qed.

#[global] Program Instance sqlite_versioned : VersionedStore Store :=
  { version_ok := small; setv_ok := sq_setv_ok }.
Next Obligation. by split. Qed.
Next Obligation. unfold small. lia. Qed.
Next Obligation.
  intros s st k v n Hok. destruct (Hok v) as (Hn & Hh & t & Ht & _).
  eexists. by apply run_set.
Qed.
Next Obligation.
  intros s st k v n s' m Hm Hok H. simpl. case_decide as Hnm.
  - by eapply read_after_set.
  - eapply read_unaffected; [exact H|]. intros v1 h Hv _ v2 Hv2 x [_ Hle].
    destruct (Hok v) as [Hn _].
    rewrite bind_small in Hv by done. rewrite bind_small in Hv2 by done.
    simplify_eq. unfold row_version in Hle. simpl in Hle. lia.
Qed.
Next Obligation.
  intros s st k v n s' st' k' m Hne H. eapply read_unaffected; [exact H|].
  intros; by eapply other_key.
Qed.
Next Obligation.
  intros s st k v n s' st' k' Hne H. eapply read_unaffected; [exact H|].
  intros; by eapply other_key.
Qed.
Next Obligation.
  intros s st k v s' st' k' m Hne H. eapply read_unaffected; [exact H|].
  intros; by eapply other_key.
Qed.
Next Obligation.
  intros s st k v n s' st' k' v' Hne Hok H. eapply rows_fit_set; [exact Hok|exact H|]. by left.
Qed.
Next Obligation.
  intros s st k v s' st' k' n Hne Hok H v'. eapply rows_fit_set; [exact (Hok v')|exact H|]. by left.
Qed.
Next Obligation.
  intros s st k v n s' k' Hne Hok H v'. eapply rows_fit_set; [exact (Hok v')|exact H|]. by right; left.
Qed.
Next Obligation. done. Qed.

Definition fresh : Store := New InMemory 0 ∅.

Lemma fresh_tables st : st ∈ all_stores → tables fresh !! st = Some ∅.
Proof.
  unfold all_stores. rewrite !elem_of_cons, elem_of_nil. intros Hst.
  by repeat destruct Hst as [->|Hst].
Qed.

#[global] Program Instance sqlite_empty : EmptyStore Store := { empty_data := fresh }.
Next Obligation.
  intros st k Hst. simpl. unfold sq_GetBytes.
  erewrite read_at by (apply zero_small || by apply fresh_tables).
  unfold selected. rewrite map_filter_empty, map_to_list_empty. by rewrite limit1_nil.
Qed.
Next Obligation.
  intros st k n Hst Hn. simpl.
  erewrite read_at by (done || by apply fresh_tables).
  unfold selected. rewrite map_filter_empty, map_to_list_empty. by rewrite limit1_nil.
Qed.
End sqlite_laws.
End Sqlite.
