(* ===== verification/SqliteCorrect.v ===== *)
(** What rolling back and loading a snapshot do to a SQLite store.

    [rollback_restores]: after any commits above a height, rolling back to the
    height restores the seven tables the statement deletes from.
    [snapshot_restores]: loading a snapshot brings back all the tables the store
    had when it was created.  [snapshot_is_live]: the loaded snapshot is the open
    database, so that later writes change it. *)
From S2P Require Import Prelude FlowTypes Errors Storage Keys DefaultStore DefaultStoreCorrect.
From S2P Require Import Sqlite.

Import Sqlite.

Section rollback.
Context {FM : FlowModel} {CD : Codecs} {CL : CodecsLaws CD} {GO : GoMapOrder}
        {SE : SqlEngine} {SL : SqlEngineLaws SE}.

Lemma lookup_alter_all (f : table → table) (names : list string) (db : database) (name : string) :
  NoDup names →
  foldl (λ db name, alter f name db) db names !! name =
  if decide (name ∈ names) then f <$> db !! name else db !! name.
Proof.
  intros Hnd. revert db. induction Hnd as [|n names Hn Hnd IH]; intros db; [done|].
  simpl. rewrite IH. destruct (decide (n = name)) as [->|Hne].
  - rewrite decide_False, decide_True by (done || left). by rewrite lookup_alter_eq.
  - rewrite lookup_alter_ne by done. apply decide_ext. set_solver.
Qed.

Lemma rollback_tables_NoDup : NoDup rollback_tables.
Proof. by_decide. Qed.

Lemma rollback_lookup h db name :
  rollback_db h db !! name =
  if decide (name ∈ rollback_tables) then delete_above h <$> db !! name else db !! name.
Proof. apply lookup_alter_all, rollback_tables_NoDup. Qed.

(** ** Writes above a height leave the rows below it *)

Lemma delete_above_insert h t k n hh v :
  h < hh → delete_above h (<[(k, n, hh) := v]> t) = delete_above h t.
Proof.
  intros Hh. unfold delete_above. apply map_eq. intros i. apply option_eq. intros x.
  rewrite !map_lookup_filter_Some, lookup_insert_Some.
  split; [intros [[[<- <-]|[_ ?]] Hn]; [by destruct Hn|done]|].
  intros [Hi Hn]. split; [|done]. right. split; [|done]. intros <-. by apply Hn.
Qed.

(** A failed statement changes nothing. *)
Lemma set_fail st k v m s e s' : sq_SetBytesWithVersion st k v m s = (Err e, s') → s' = s.
Proof.
  unfold sq_SetBytesWithVersion, sq_SetBytesWithVersionAndHeight, mbind, ST_bind, st_get,
    st_res, st_read, st_modify. by repeat case_match; intros; simplify_eq.
Qed.

Definition kept (h : Z) (s0 s : Store) : Prop :=
  ∀ name, name ∈ rollback_tables →
    delete_above h <$> tables s !! name = delete_above h <$> tables s0 !! name.

Definition at_height (n : Z) (P : Store → Prop) (s : Store) : Prop :=
  sq_CurrentHeight s = n ∧ P s.

Lemma set_kept h s0 n st k v m :
  small n → h < n → keeps (at_height n (kept h s0)) (sq_SetBytesWithVersion st k v m).
Proof.
  intros Hn Hh s [Hc Hk].
  destruct (sq_SetBytesWithVersion st k v m s) as [[[]|e] s'] eqn:Hset.
  - apply set_inv in Hset as (v' & h' & t & Hv & Hb & Ht & ->). split; [done|].
    intros name Hname. simpl. rewrite tables_set_db. rewrite <- (Hk name Hname).
    destruct (decide (st = name)) as [<-|Hne]; [|by rewrite lookup_insert_ne].
    rewrite lookup_insert_eq, Ht. cbn [fmap option_fmap option_map]. f_equal.
    unfold effective_height in Hb. rewrite decide_False in Hb.
    + rewrite Hc, bind_small in Hb by done. injection Hb as <-. by apply delete_above_insert.
    + intros ->. revert Hname. by_decide.
  - by apply set_fail in Hset as ->.
Qed.

(** The index tables are not among the seven. *)
Lemma set_kept_index h s0 st k v :
  st ∉ rollback_tables → keeps (kept h s0) (sq_SetBytes st k v).
Proof.
  intros Hst s Hk. unfold sq_SetBytes.
  destruct (sq_SetBytesWithVersion st k v 0 s) as [[[]|e] s'] eqn:Hset.
  - apply set_inv in Hset as (v' & h' & t & Hv & Hb & Ht & ->).
    intros name Hname. simpl. rewrite tables_set_db, lookup_insert_ne; [by apply Hk|].
    by intros ->.
  - by apply set_fail in Hset as ->.
Qed.

Definition write_above (h : Z) (w : write) : Prop :=
  match w with WCommit c => h < bc_height c ∧ small (bc_height c) | _ => True end.

Lemma write_kept h s0 w : write_above h w → keeps (kept h s0) (apply_write w).
Proof.
  destruct w as [c|n b|t b]; simpl; intros Hw.
  - destruct Hw as [Hh Hs]. apply (CommitBlock_keeps (at_height (bc_height c) (kept h s0))).
    + intros s Hk. split; [done|]. exact Hk.
    + by intros s [_ ?].
    + intros. by apply set_kept.
    + intros. by apply set_kept.
  - apply set_kept_index. by_decide.
  - apply set_kept_index. by_decide.
Qed.
End rollback.

(** * A SQLite store follows the log of its writes

    What SQLite asks of a write is a condition on the log alone: outside of the
    global table, a key that is written again gets the same bytes. *)

Section contract.
Context {FM : FlowModel} {FL : FlowModelLaws FM} {CD : Codecs} {CL : CodecsLaws CD}
        {GO : GoMapOrder} {SE : SqlEngine} {SL : SqlEngineLaws SE}.

Definition consistent (l : log) (w : write) : Prop :=
  (∀ st k v w' v', st ≠ globalStoreName → ((st, k), v) ∈ plain_writes w →
     w' ∈ l → ((st, k), v') ∈ plain_writes w' → v = v') ∧
  match w with WCommit c => small (bc_height c) | _ => True end.

(** Where the rows of a table come from. *)
Definition row_origin (l : log) (st : string) (p : rowkey * Bytes) : Prop :=
  p.1.2 < Z.max 1 (next_height l) ∧
  if decide (st = LedgerStoreName)
  then row_version p = p.1.2 ∧ p.1.2 < next_height l
  else row_version p = 0 ∧
       if decide (st = globalStoreName) then p.1.2 = 0
       else ∃ w k v, w ∈ l ∧ ((st, k), v) ∈ plain_writes w ∧
                     p.1.1.1 = hex_encode k ∧ p.2 = hex_encode v.

Record sq_rows (l : log) (s : Store) : Prop := {
  sr_tables st : st ∈ all_stores → is_Some (tables s !! st);
  sr_small : small (sq_CurrentHeight s);
  sr_height : sq_CurrentHeight s < Z.max 1 (next_height l);
  sr_origin st t p : tables s !! st = Some t → t !! p.1 = Some p.2 → row_origin l st p
}.

Lemma row_origin_mono l w st p : log_ok (w :: l) → row_origin l st p → row_origin (w :: l) st p.
Proof.
  intros Hok%next_height_mono. unfold row_origin. intros [Hh Hrow]. split; [lia|].
  revert Hrow. case_decide.
  - intros [Hv Hl]. split; [done|]. lia.
  - case_decide; [done|]. intros [Hv (w' & k & v & Hw & Hrest)]. split; [done|].
    exists w', k, v. split; [by right|done].
Qed.

Lemma effective_small l s st : sq_rows l s → small (effective_height st s).
Proof.
  intros R. unfold effective_height. case_decide; [apply zero_small|apply R].
Qed.

(** A statement keeps the origin of the rows when its own row has one. *)
Lemma set_rows l n st k v m :
  small n → small m →
  (∀ s, sq_CurrentHeight s = n → sq_rows l s →
     row_origin l st ((hex_encode k, m, effective_height st s), hex_encode v)) →
  keeps (at_height n (sq_rows l)) (sq_SetBytesWithVersion st k v m).
Proof.
  intros Hn Hm Ho s [Hc R].
  destruct (sq_SetBytesWithVersion st k v m s) as [[[]|e] s'] eqn:Hset;
    [|by apply set_fail in Hset as ->].
  apply set_inv in Hset as (m' & h & t & Hm' & Hh & Ht & ->).
  rewrite bind_small in Hm' by done. injection Hm' as <-.
  rewrite bind_small in Hh by (by eapply effective_small). injection Hh as <-.
  split; [done|]. split.
  - intros st' Hst'. simpl. rewrite tables_set_db.
    destruct (decide (st = st')) as [<-|]; [by rewrite lookup_insert_eq; eexists|].
    rewrite lookup_insert_ne by done. by apply R.
  - apply R.
  - apply R.
  - intros st' t' p. simpl. rewrite tables_set_db. intros Ht' Hp.
    destruct (decide (st = st')) as [<-|Hne].
    + rewrite lookup_insert_eq in Ht'. injection Ht' as <-.
      apply lookup_insert_Some in Hp as [[Hk Hv]|[_ Hp]]; [|by eapply (sr_origin l s R)].
      destruct p as [pk pv]. simpl in Hk, Hv. subst. by apply Ho.
    + rewrite lookup_insert_ne in Ht' by done. by eapply (sr_origin l s R).
Qed.

Lemma plain_origin l w st k v s :
  w ∈ l → ((st, k), v) ∈ plain_writes w → st ≠ LedgerStoreName →
  sq_CurrentHeight s < Z.max 1 (next_height l) →
  row_origin l st ((hex_encode k, 0, effective_height st s), hex_encode v).
Proof.
  intros Hw Hin Hst Hh. unfold row_origin. rewrite decide_False by done. split.
  { simpl. unfold effective_height. case_decide; lia. }
  split; [done|]. case_decide as Hg.
  - simpl. unfold effective_height. by rewrite decide_True.
  - exists w, k, v. done.
Qed.

Lemma sq_rows_mono l w s : log_ok (w :: l) → sq_rows l s → sq_rows (w :: l) s.
Proof.
  intros Hok R. split; [apply R|apply R| |].
  { pose proof (sr_height l s R). pose proof (next_height_mono l w Hok). lia. }
  intros st t p Ht Hp.
  apply row_origin_mono; [done|]. by eapply (sr_origin l s R).
Qed.

(** Every write of the store keeps the origin of the rows. *)
Lemma write_rows l w s :
  log_ok (w :: l) → consistent l w → sq_rows l s → sq_rows (w :: l) (apply_write w s).2.
Proof.
  intros Hok [_ Hsm] R%(sq_rows_mono l w); [|done].
  destruct w as [c|n b|t b]; simpl in *.
  - revert s R. change (keeps (sq_rows (WCommit c :: l)) (DefaultStore.CommitBlock c)).
    apply (CommitBlock_keeps (at_height (bc_height c) (sq_rows (WCommit c :: l)))).
    + intros s R. split; [done|]. split; [apply R|done| |apply R].
      rewrite next_height_commit. simpl. lia.
    + by intros s [_ ?].
    + intros st k v Hin. apply set_rows; [done|apply zero_small|]. intros s _ R.
      eapply plain_origin; [left|done| |apply R]. by apply plain_writes_ledger in Hin.
    + intros r v Hr. apply set_rows; [done|done|]. intros s Hs _.
      unfold row_origin, row_version. rewrite decide_True by done. simpl.
      unfold effective_height. rewrite decide_False by done.
      rewrite next_height_commit, Hs. split; [lia|]. split; [done|lia].
  - eapply (set_rows _ (sq_CurrentHeight s)); [apply R|apply zero_small| |done].
    intros s' _ R'. eapply plain_origin; [left|by left|done|apply R'].
  - eapply (set_rows _ (sq_CurrentHeight s)); [apply R|apply zero_small| |done].
    intros s' _ R'. eapply plain_origin; [left|by left|done|apply R'].
Qed.

Lemma plain_writes_stores w st k v : ((st, k), v) ∈ plain_writes w → st ∈ all_stores ∧ st ≠ LedgerStoreName.
Proof.
  destruct w as [c|n b|t b].
  - intros Hin. split; [|by apply plain_writes_ledger in Hin].
    revert Hin. unfold plain_writes, commit_writes, event_writes, seg.
    rewrite !elem_of_app, !list_elem_of_fmap. intros Hin.
    repeat destruct Hin as [Hin|Hin]; destruct Hin as (? & [= -> _ _] & _); by_decide.
  - intros [= -> _ _]%list_elem_of_singleton. split; [by_decide|done].
  - intros [= -> _ _]%list_elem_of_singleton. split; [by_decide|done].
Qed.

Lemma effective_at st w (s : Store) :
  effective_height st (at_write w s) =
  if decide (st = globalStoreName) then 0
  else match w with WCommit c => bc_height c | _ => sq_CurrentHeight s end.
Proof. unfold effective_height, globalStoreName. case_decide; [done|]. by destruct w. Qed.

(** The condition on the log is what the back end asks of the write. *)
Lemma consistent_writable l w s :
  sq_rows l s → log_ok (w :: l) → consistent l w → def_writable s w.
Proof.
  intros R Hok [Hcons Hsm]. split.
  - intros st k v Hin. destruct (plain_writes_stores _ _ _ _ Hin) as [Hall Hl].
    split; [apply zero_small|]. split.
    { rewrite effective_at. case_decide; [apply zero_small|]. by destruct w; [|apply R..]. }
    destruct (sr_tables l s R st Hall) as [t Ht]. exists t. split; [by destruct w|].
    intros p Hp Hk. pose proof (sr_origin l s R st t p Ht Hp) as Ho.
    unfold row_origin in Ho. rewrite decide_False in Ho by done. destruct Ho as (_ & Hv & Ho).
    split; [lia|]. intros _. rewrite effective_at. case_decide as Hg; [by left|]. right.
    destruct Ho as (w' & k' & v' & Hw' & Hin' & Hk' & ->).
    rewrite Hk in Hk'. apply (inj hex_encode) in Hk' as <-. f_equal. symmetry. by eapply Hcons.
  - destruct w as [c| |]; [|done|done]. split; [done|]. intros r v _ value.
    pose proof (log_ok_tail _ _ Hok) as [_ (Hc & _)].
    split; [done|]. rewrite effective_at, decide_False by done. split; [done|].
    destruct (sr_tables l s R LedgerStoreName) as [t Ht]; [by_decide|].
    exists t. split; [done|]. intros p Hp _.
    pose proof (sr_origin l s R _ t p Ht Hp) as Ho. unfold row_origin in Ho.
    rewrite decide_True in Ho by done. destruct Ho as (_ & Hv & Hh). split; [lia|]. intros; lia.
Qed.

Lemma fresh_rows : sq_rows [] fresh.
Proof.
  split.
  - intros st Hst. rewrite (fresh_tables st Hst). by eexists.
  - apply zero_small.
  - done.
  - intros st t p Ht Hp. exfalso.
    assert (st ∈ all_stores) as Hst.
    { assert (tables fresh = list_to_map ((λ n, (n, ∅)) <$> table_names)) as Hf by by_decide.
      rewrite Hf in Ht. apply elem_of_list_to_map_2 in Ht.
      apply list_elem_of_fmap in Ht as (n & [= -> _] & Hn). revert Hn.
      unfold table_names, all_stores. rewrite !elem_of_cons. tauto. }
    rewrite (fresh_tables st Hst) in Ht. injection Ht as <-. by rewrite lookup_empty in Hp.
Qed.

Definition sq_rel (s : Store) (l : log) : Prop := def_rel s l ∧ sq_rows l s.

Lemma sq_rel_step s l w :
  sq_rel s l → log_ok (w :: l) → consistent l w →
  ∃ s', apply_write w s = (Ok (), s') ∧ sq_rel s' (w :: l).
Proof.
  intros [R Rr] Hok Hc.
  destruct (def_rel_step s l w R Hok) as (s' & Hs' & R'); [by eapply consistent_writable|].
  exists s'. split; [done|]. split; [done|].
  pose proof (write_rows l w s Hok Hc Rr) as Hr. by rewrite Hs' in Hr.
Qed.

(** The store over SQLite fulfils the storage contract. *)
Definition sqlite_correct : StoreCorrect Store := {|
  store_empty := fresh;
  store_rel := sq_rel;
  store_writable _ l w := consistent l w;
  store_rel_refines s l R := def_rel_refines s l (proj1 R);
  store_rel_empty := conj def_rel_empty fresh_rows;
  store_rel_step := sq_rel_step;
  store_counts := def_counts
|}.
End contract.

(** * Rolling back *)

Section rollback_log.
Context {FM : FlowModel} {FL : FlowModelLaws FM} {CD : Codecs} {CL : CodecsLaws CD}
        {GO : GoMapOrder} {SE : SqlEngine} {SL : SqlEngineLaws SE}.

Fixpoint consistent_log (l : log) : Prop :=
  match l with [] => True | w :: l => consistent l w ∧ consistent_log l end.

Lemma consistent_log_app l1 l0 w l2 :
  consistent_log (l1 ++ w :: l2 ++ l0) → consistent (l2 ++ l0) w.
Proof. induction l1 as [|x l1 IH]; simpl; [by intros [? _]|]. intros [_ ?]. by apply IH. Qed.

Lemma sqlite_run s0 l0 l1 :
  sq_rel s0 l0 → log_ok (l1 ++ l0) → consistent_log (l1 ++ l0) →
  ∃ s, run_log l1 s0 = (Ok (), s) ∧ sq_rel s (l1 ++ l0).
Proof.
  intros R Hok Hc. apply (run_log_correct (SC := sqlite_correct) s0 l0 l1 R Hok).
  intros s l2 w l3 -> _. apply (consistent_log_app l3). by rewrite <- app_assoc in Hc.
Qed.

(** ** The state after a rollback *)

Lemma consistent_log_elem l w : consistent_log l → w ∈ l →
  match w with WCommit c => small (bc_height c) | _ => True end.
Proof.
  induction l as [|x l IH]; intros Hc Hin; [by apply not_elem_of_nil in Hin|].
  destruct Hc as [[_ Hx] Hc]. apply elem_of_cons in Hin as [->|Hin]; [done|by apply IH].
Qed.

Lemma run_kept h s0 l0 l1 s :
  log_ok (l1 ++ l0) → consistent_log (l1 ++ l0) → h < next_height l0 →
  run_log l1 s0 = (Ok (), s) → kept h s0 s.
Proof.
  intros Hok Hc Hh Hrun.
  assert (keeps (kept h s0) (run_log l1)) as Hk; [|specialize (Hk s0); rewrite Hrun in Hk; by apply Hk].
  apply keeps_iter. intros w Hw. rewrite elem_of_reverse in Hw. apply write_kept.
  destruct w as [c| |]; [|done|done]. pose proof (log_above l1 l0 c Hok Hw). split; [lia|].
  apply (consistent_log_elem _ (WCommit c) Hc). apply elem_of_app. by left.
Qed.

(** What a rolled-back store answers: the tables that are rolled back follow
    the log of the height, the index tables still follow the whole log. *)
Record rolled_back (h : Z) (l0 l : log) (s : Store) : Prop := {
  rb_LatestBlockHeight : LatestBlockHeight s = Ok h;
  rb_LatestBlock : LatestBlock s = log_LatestBlock l0;
  rb_BlockByHeight n : is_u64 n → BlockByHeight n s = log_BlockByHeight n l0;
  rb_BlockByID id : BlockByID id s = log_BlockByID id l0;
  rb_CollectionByID id : CollectionByID id s = log_CollectionByID id l0;
  rb_TransactionByID id : TransactionByID id s = log_TransactionByID id l0;
  rb_TransactionResultByID id : TransactionResultByID id s = log_TransactionResultByID id l0;
  rb_EventsByHeight n ty : is_u64 n → EventsByHeight n ty s = log_EventsByHeight n ty l0;
  rb_LedgerByHeight n :
    0 ≤ n ≤ h → ∃ snap, LedgerByHeight n s = Ok snap ∧ ∀ r, snap r = Ok (log_Register n r l0);
  rb_SystemTransactions b :
    SystemTransactionsForBlockID b s = log_SystemTransactionsForBlockID b l;
  rb_BlockIDByScheduled n :
    is_u64 n → BlockIDByScheduledTransactionID n s = log_BlockIDByScheduledTransactionID n l;
  rb_ScheduledTransactionBlockID t :
    ScheduledTransactionBlockIDByTxID t s = log_ScheduledTransactionBlockIDByTxID t l
}.

Lemma get_same_table (s1 s2 : Store) st k n :
  tables s1 !! st = tables s2 !! st → sq_GetBytesAtVersion st k n s1 = sq_GetBytesAtVersion st k n s2.
Proof. intros Ht. unfold sq_GetBytesAtVersion. by rewrite Ht. Qed.

(** The rows of an image of [l0] are not above its latest height. *)
Lemma rows_below s0 l0 st t h :
  sq_rel s0 l0 → Z.max 1 (next_height l0) ≤ h + 1 → tables s0 !! st = Some t → delete_above h t = t.
Proof.
  intros [_ R] Hn Ht. unfold delete_above. apply map_filter_id. intros k v Hk Hlt. simpl in Hlt.
  destruct (sr_origin l0 s0 R st t (k, v) Ht Hk) as [Hh _]. simpl in Hh. lia.
Qed.

Lemma delete_above_rel s0 l0 st t :
  sq_rel s0 l0 → 0 < next_height l0 → tables s0 !! st = Some t →
  delete_above (next_height l0 - 1) t = t.
Proof. intros R Hn. apply (rows_below s0 l0); [done|lia]. Qed.

Lemma rollback_run h s0 s l :
  sq_rel s0 l → tables s = tables s0 → is_u64 h → h < sq_CurrentHeight s →
  ∃ s', RollbackToBlockHeight h s = (Ok (), s') ∧
    (∀ st, st ≠ globalStoreName → tables s' !! st = rollback_db h (tables s) !! st) ∧
    GetBytes globalStoreName DefaultKeyGenerator.LatestBlock s' = Ok (enc h).
Proof.
  intros [_ R] Ht0 Hu Hh. unfold RollbackToBlockHeight.
  erewrite ST_bind_step by reflexivity. rewrite bool_decide_eq_false_2 by lia.
  erewrite ST_bind_step by reflexivity. unfold DefaultStore.SetBlockHeight.
  erewrite ST_bind_step by reflexivity.
  erewrite ST_bind_step by (unfold st_res, mustEncodeUint64; by rewrite (marshal_enc h Hu)).
  set (s1 := set_CurrentHeight h _).
  assert (tables s1 = rollback_db h (tables s)) as Ht1 by apply tables_set_db.
  destruct (sr_tables l s0 R globalStoreName) as [t Ht]; [by_decide|].
  assert (tables s1 !! globalStoreName = Some t) as Hg.
  { by rewrite Ht1, Ht0, rollback_lookup, decide_False by by_decide. }
  assert (rows_fit s1 globalStoreName DefaultKeyGenerator.LatestBlock (enc h) 0) as Hfit.
  { split; [apply zero_small|]. split; [apply zero_small|]. exists t. split; [done|].
    intros p Hp _. destruct (sr_origin l s0 R _ t p Ht Hp) as [_ Ho].
    rewrite decide_False, decide_True in Ho by done. destruct Ho as [Hv Hz].
    split; [lia|]. intros _. by left. }
  eexists. split; [apply run_set; [apply zero_small|apply zero_small|exact Hg]|]. split.
  - intros st Hst. rewrite tables_set_db, lookup_insert_ne by done. by rewrite Ht1.
  - eapply read_after_set; [apply zero_small|done|exact Hfit|].
    apply run_set; [apply zero_small|apply zero_small|exact Hg].
Qed.

Lemma latest_at h l0 s' :
  next_height l0 = h + 1 → is_u64 h → LatestBlockHeight s' = Ok h →
  (∀ n, is_u64 n → BlockByHeight n s' = log_BlockByHeight n l0) → LatestBlock s' = log_LatestBlock l0.
Proof.
  intros Hn Hu Hlat Hblk. unfold log_LatestBlock, log_LatestBlockHeight.
  unfold next_height in Hn. destruct (newest _ l0) as [h'|]; [|destruct Hu; lia].
  assert (h' = h) as -> by lia. simpl. rewrite <- Hblk by done. simpl.
  unfold DefaultStore.def_LatestBlock. simpl in Hlat. by rewrite Hlat.
Qed.

Lemma rolled_back_intro h l0 l s0 s s' :
  sq_rel s0 l0 → sq_rel s l → next_height l0 = h + 1 → is_u64 h →
  (∀ st, st ∈ rollback_tables → tables s' !! st = tables s0 !! st) →
  (∀ st, st ≠ globalStoreName → st ∉ rollback_tables → tables s' !! st = tables s !! st) →
  GetBytes globalStoreName DefaultKeyGenerator.LatestBlock s' = Ok (enc h) →
  rolled_back h l0 l s'.
Proof.
  intros [R0 _] [R _] Hn Hu H0 H1 Hg. pose proof (def_rel_refines s0 l0 R0) as Q0.
  pose proof (def_rel_refines s l R) as Q.
  assert (∀ st k, st ∈ rollback_tables → GetBytes st k s' = GetBytes st k s0) as G0.
  { intros st k Hst. apply get_same_table. by apply H0. }
  assert (∀ st k, st ≠ globalStoreName → st ∉ rollback_tables → GetBytes st k s' = GetBytes st k s) as G1.
  { intros st k Hst Hnot. apply get_same_table. by apply H1. }
  assert (LatestBlockHeight s' = Ok h) as Hlat.
  { simpl. unfold DefaultStore.LatestBlockHeight, DefaultKeyGenerator.Storage, decodeUint64.
    rewrite Hg. by apply (unmarshal_enc h). }
  assert (∀ n, is_u64 n → BlockByHeight n s' = log_BlockByHeight n l0) as Hblk.
  { intros n Hn'. rewrite <- (ref_BlockByHeight s0 l0 Q0) by done. simpl.
    unfold DefaultStore.BlockByHeight. by rewrite G0 by by_decide. }
  assert (∀ id, TransactionByID id s' = log_TransactionByID id l0) as Htx.
  { intros id. rewrite <- (ref_TransactionByID s0 l0 Q0). simpl.
    unfold DefaultStore.TransactionByID. by rewrite G0 by by_decide. }
  split; [done|..]; intros.
  - by apply (latest_at h).
  - by apply Hblk.
  - rewrite <- (ref_BlockByID s0 l0 Q0). simpl. unfold DefaultStore.BlockByID.
    rewrite G0 by by_decide.
    unfold mbind, res_bind. case_match; [|done]. case_match; [|done].
    unfold DefaultStore.BlockByHeight. by rewrite G0 by by_decide.
  - rewrite <- (ref_CollectionByID s0 l0 Q0). simpl. unfold DefaultStore.CollectionByID.
    by rewrite G0 by by_decide.
  - apply Htx.
  - rewrite <- (ref_TransactionResultByID s0 l0 Q0). simpl.
    unfold DefaultStore.TransactionResultByID. by rewrite G0 by by_decide.
  - rewrite <- (ref_EventsByHeight s0 l0 Q0) by done. simpl.
    unfold DefaultStore.EventsByHeight. by rewrite G0 by by_decide.
  - destruct (ref_LedgerByHeight s0 l0 Q0 n) as (snap & [= <-] & Hsnap); [lia|].
    eexists. split; [done|]. intros r. rewrite <- (Hsnap r).
    unfold DefaultStore.snapshot_Get, DefaultKeyGenerator.Storage.
    cbn [GetBytesAtVersion sqlite_data].
    by rewrite (get_same_table s' s0 LedgerStoreName) by (apply H0; by_decide).
  - rewrite <- (ref_SystemTransactionsForBlockID s l Q). simpl.
    unfold DefaultStore.SystemTransactionsForBlockID. by rewrite G1 by by_decide.
  - rewrite <- (ref_BlockIDByScheduledTransactionID s l Q) by done. simpl.
    unfold DefaultStore.BlockIDByScheduledTransactionID. by rewrite G1 by by_decide.
  - rewrite <- (ref_ScheduledTransactionBlockIDByTxID s l Q). simpl.
    unfold DefaultStore.ScheduledTransactionBlockIDByTxID. by rewrite G1 by by_decide.
Qed.

(** C21 (sqlite/store.go, RollbackToBlockHeight): after any further commits [l1],
    rolling back to the height of the log [l0] succeeds; blocks, collections,
    transactions, results, events and registers are again those of [l0], and the
    latest height is the requested one.  The system-transaction records and the
    scheduled-transaction indexes still answer as the whole log. *)
Theorem rollback_restores h l0 l1 s0 s :
  sq_rel s0 l0 → log_ok (l1 ++ l0) → consistent_log (l1 ++ l0) →
  next_height l0 = h + 1 → 0 ≤ h →
  run_log l1 s0 = (Ok (), s) → h < sq_CurrentHeight s →
  ∃ s', RollbackToBlockHeight h s = (Ok (), s') ∧ rolled_back h l0 (l1 ++ l0) s'.
Proof.
  intros R0 Hok Hc Hn Hh Hrun Hcur.
  destruct (sqlite_run s0 l0 l1 R0 Hok Hc) as (s1 & Hs1 & R1).
  rewrite Hrun in Hs1. injection Hs1 as <-.
  assert (is_u64 h) as Hu.
  { pose proof (sr_small _ s (proj2 R1)) as Hsm. unfold small, is_u64 in *.
    assert (two64 / 2 < two64) by reflexivity. lia. }
  destruct (rollback_run h s s _ R1 eq_refl Hu Hcur) as (s' & Hs' & Ht & Hg).
  exists s'. split; [done|]. apply (rolled_back_intro h l0 _ s0 s s'); try done.
  - intros st Hst. rewrite Ht, rollback_lookup, decide_True by (done || by intros ->; revert Hst; by_decide).
    rewrite (run_kept h s0 l0 l1 s Hok Hc ltac:(lia) Hrun st Hst).
    destruct (tables s0 !! st) as [t|] eqn:Hst0; [|done]. simpl. f_equal.
    replace h with (next_height l0 - 1) by lia. apply (delete_above_rel s0 l0 st); [done|lia|done].
  - intros st Hst Hnot. by rewrite Ht, rollback_lookup, decide_False.
Qed.
End rollback_log.

(** * Snapshots *)

Section snapshots.
Context {FM : FlowModel} {CD : Codecs} {GO : GoMapOrder} {SE : SqlEngine}.

Definition snapshot_safe (name : string) (db : database) (s : Store) : Prop :=
  SupportSnapshotsWithCurrentConfig s = true ∧
  sq_db s ≠ snapshot_db name s ∧ sq_databases s !! snapshot_db name s = Some db.

Lemma set_snapshot_safe name db st k v m :
  keeps (snapshot_safe name db) (sq_SetBytesWithVersion st k v m).
Proof.
  intros s (Hs & Hne & Hdb).
  destruct (sq_SetBytesWithVersion st k v m s) as [[[]|e] s'] eqn:Hset;
    [|by apply set_fail in Hset as ->].
  apply set_inv in Hset as (? & ? & t & _ & _ & Ht & ->).
  split; [done|]. split; [done|]. simpl. by rewrite lookup_insert_ne.
Qed.

Lemma write_snapshot_safe name db w : keeps (snapshot_safe name db) (apply_write w).
Proof.
  destruct w as [c|n b|t b]; cbn [apply_write];
    [|exact (set_snapshot_safe name db _ _ _ 0)..].
  apply (CommitBlock_keeps (snapshot_safe name db)); [done|done|intros..];
    apply set_snapshot_safe.
Qed.

(** A snapshot that was created is there, whatever is written after that. *)
Lemma create_snapshot_safe name s s1 :
  tables s ≠ ∅ → CreateSnapshot name s = (Ok (), s1) →
  snapshot_safe name (tables s) s1 ∧ tables s1 = tables s ∧
  sq_url s1 = sq_url s ∧ sq_snapshotNames s1 = sq_snapshotNames s ++ [name].
Proof.
  intros Hne. unfold CreateSnapshot, vacuum_into, mbind, ST_bind, st_get, st_modify, st_fail.
  destruct (SupportSnapshotsWithCurrentConfig s) eqn:Hsup; simpl; [|done].
  case_bool_decide as He; simpl; [|done]. intros [= <-].
  assert (sq_db s ≠ snapshot_db name s) as Hdb.
  { intros Heq. apply Hne. unfold tables. by rewrite Heq. }
  split; [|split; [|done]].
  - split; [done|]. split; [exact Hdb|]. simpl. unfold snapshot_db. simpl. by rewrite lookup_insert_eq.
  - unfold tables. simpl. by rewrite lookup_insert_ne.
Qed.

Lemma load_snapshot_safe name db s :
  db ≠ ∅ → snapshot_safe name db s →
  ∃ s', LoadSnapshot name s = (Ok (), s') ∧ tables s' = db ∧ sq_CurrentHeight s' = sq_CurrentHeight s ∧
    sq_db s' = snapshot_db name s'.
Proof.
  intros Hne (Hs & _ & Hl). eexists. split; [|split; [|split]].
  - unfold LoadSnapshot, mbind, ST_bind, st_get, st_modify, st_fail. rewrite Hs. simpl.
    rewrite Hl. by rewrite bool_decide_eq_true_2.
  - unfold tables. simpl. by rewrite Hl.
  - done.
  - done.
Qed.

Lemma writes_snapshot_safe name db ws : keeps (snapshot_safe name db) (st_iter apply_write ws).
Proof. apply keeps_iter. intros w _. apply write_snapshot_safe. Qed.

(** (CreateSnapshot, LoadSnapshot): loading a snapshot brings back all the
    tables the store had when it was created, whatever was written in between,
    and whether or not the writes succeeded. *)
Theorem snapshot_restores name s s1 ws :
  tables s ≠ ∅ → CreateSnapshot name s = (Ok (), s1) →
  ∃ s2, LoadSnapshot name (st_iter apply_write ws s1).2 = (Ok (), s2) ∧ tables s2 = tables s.
Proof.
  intros Hne Hcreate. destruct (create_snapshot_safe name s s1 Hne Hcreate) as (Hsafe & _).
  destruct (load_snapshot_safe name (tables s) (st_iter apply_write ws s1).2 Hne) as (s2 & H1 & H2 & _);
    [by apply writes_snapshot_safe|]. by exists s2.
Qed.

(** The loaded snapshot is the open database: what is written after the
    load is in the snapshot, and loading it again does not undo the write. *)
Theorem snapshot_is_live name s s1 ws :
  LoadSnapshot name s = (Ok (), s1) →
  let s2 := (st_iter apply_write ws s1).2 in
  tables s2 ≠ ∅ →
  ∃ s3, LoadSnapshot name s2 = (Ok (), s3) ∧ tables s3 = tables s2.
Proof.
  intros Hload s2 Hne.
  set (P := λ s : Store, SupportSnapshotsWithCurrentConfig s = true ∧ sq_db s = snapshot_db name s).
  assert (P s1) as H1.
  { revert Hload. unfold LoadSnapshot, mbind, ST_bind, st_get, st_modify, st_fail.
    destruct (SupportSnapshotsWithCurrentConfig s) eqn:Hsup; simpl; [|done].
    case_match; [|done]. intros [= <-]. by split. }
  assert (∀ st k v m, keeps P (sq_SetBytesWithVersion st k v m)) as Hset.
  { intros st k v m s0 [Hs Hd].
    destruct (sq_SetBytesWithVersion st k v m s0) as [[[]|e] s'] eqn:He;
      [|by apply set_fail in He as ->].
    by apply set_inv in He as (? & ? & t & _ & _ & Ht & ->). }
  assert (P s2) as [Hs Hd].
  { subst s2. clear Hload Hne. revert s1 H1. change (keeps P (st_iter apply_write ws)).
    apply keeps_iter. intros [c|n b|t b] _; cbn [apply_write]; [|exact (Hset _ _ _ 0)..].
    apply (CommitBlock_keeps P); [done|done|intros..]; apply Hset. }
  assert (sq_databases s2 !! snapshot_db name s2 = Some (tables s2)) as Hl.
  { unfold tables in *. rewrite Hd in *. by destruct (sq_databases s2 !! _). }
  eexists. split.
  - unfold LoadSnapshot, mbind, ST_bind, st_get, st_modify, st_fail. rewrite Hs. simpl.
    rewrite Hl. by rewrite bool_decide_eq_true_2.
  - unfold tables at 1. simpl. by rewrite Hl.
Qed.
End snapshots.
