(* ===== verification/LogStore.v ===== *)
(** The abstract store as a store: the log of the writes is itself a [Store].

    Its state is the log, a write is put in front of it, and a query is the
    function of the log that specifies it.  A chain over this store is the
    specification that [Simulation] compares a chain over any other store with. *)
From S2P Require Import Prelude FlowTypes Errors Storage.

Section log_store.
Context {FM : FlowModel}.

Definition append (w : write) : ST error log unit := st_modify (cons w).

Definition log_CommitBlock (c : BlockCommit) : ST error log unit :=
  if decide (counts_match c) then append (WCommit c) else st_fail (counts_error c).

(** The chain stores blocks and system transactions through commits only. *)
Definition outside_commit {A} : ST error log A := st_fail (Errorf "not a write of the chain").

#[export] Instance log_Store : Store log := {
  LatestBlockHeight := log_LatestBlockHeight;
  LatestBlock := log_LatestBlock;
  StoreBlock _ := outside_commit;
  StoreSystemTransactions _ := outside_commit;
  SystemTransactionsForBlockID := log_SystemTransactionsForBlockID;
  IndexScheduledTransactionID n b := append (WIndexScheduled n b);
  BlockIDByScheduledTransactionID := log_BlockIDByScheduledTransactionID;
  IndexScheduledTransactionBlockID t b := append (WIndexTx t b);
  ScheduledTransactionBlockIDByTxID := log_ScheduledTransactionBlockIDByTxID;
  BlockByID := log_BlockByID;
  BlockByHeight := log_BlockByHeight;
  CommitBlock := log_CommitBlock;
  CollectionByID := log_CollectionByID;
  FullCollectionByID := log_FullCollectionByID;
  TransactionByID := log_TransactionByID;
  TransactionResultByID := log_TransactionResultByID;
  SystemTransactionResultByID := log_SystemTransactionResultByID;
  LedgerByHeight h l := Ok (λ r, Ok (log_Register h r l));
  EventsByHeight := log_EventsByHeight
}.

#[export] Instance log_optional : OptionalInterfaces log := {
  as_RollbackProvider _ := None;
  as_SnapshotProvider _ := None
}.

Lemma log_write w l : log_ok (w :: l) → apply_write w l = (Ok (), w :: l).
Proof.
  intros [_ Hw]%log_ok_tail. destruct w as [c| |]; [|done..]. destruct Hw as (_ & _ & Hc).
  simpl. unfold log_CommitBlock. by rewrite decide_True.
Qed.

#[export] Program Instance log_correct : StoreCorrect log := {
  store_empty := [];
  store_rel s l := s = l;
  store_writable _ _ _ := True
}.
Next Obligation. intros s l ->. split; intros; first [done|by eexists|by eexists; split]. Qed.
Next Obligation. done. Qed.
Next Obligation. intros s l w -> Hok _. exists (w :: l). by rewrite log_write. Qed.
Next Obligation. intros s c Hc. simpl. unfold log_CommitBlock. by rewrite decide_False. Qed.

(** A write keeps the log a suffix, also one that is refused. *)
Lemma apply_write_suffix w (l : log) : ∃ ws, (apply_write w l).2 = ws ++ l.
Proof.
  destruct w as [c| |]; simpl; [|by eexists [_]..]. unfold log_CommitBlock.
  case_decide; [by eexists [_]|by exists []].
Qed.
End log_store.
