(* ===== verification/StoreTheorems.v ===== *)
(** The stores against their common specification, the log of the writes.

    Both implementations make every write of a well-formed log and answer the
    queries as the log does, so that they are told apart only by the registers
    above the latest block; a commit whose
    result counts do not match is refused by both with nothing written. *)
From S2P Require Import Prelude FlowTypes Errors Storage Keys Memstore DefaultStore.
From S2P Require Import DefaultStoreCorrect Sqlite SqliteCorrect.

(** Two stores that answer every query alike; registers are compared at the
    heights below [n]. *)
Record same_answers {S1 S2 : Type} `{!Store S1, !Store S2} (n : Z) (s1 : S1) (s2 : S2) : Prop := {
  sa_LatestBlockHeight : LatestBlockHeight s1 = LatestBlockHeight s2;
  sa_LatestBlock : LatestBlock s1 = LatestBlock s2;
  sa_BlockByHeight h : is_u64 h → BlockByHeight h s1 = BlockByHeight h s2;
  sa_BlockByID id : BlockByID id s1 = BlockByID id s2;
  sa_CollectionByID id : CollectionByID id s1 = CollectionByID id s2;
  sa_FullCollectionByID id : FullCollectionByID id s1 = FullCollectionByID id s2;
  sa_TransactionByID id : TransactionByID id s1 = TransactionByID id s2;
  sa_TransactionResultByID id : TransactionResultByID id s1 = TransactionResultByID id s2;
  sa_SystemTransactionResultByID b t :
    SystemTransactionResultByID b t s1 = SystemTransactionResultByID b t s2;
  sa_SystemTransactionsForBlockID b :
    SystemTransactionsForBlockID b s1 = SystemTransactionsForBlockID b s2;
  sa_BlockIDByScheduledTransactionID m :
    is_u64 m → BlockIDByScheduledTransactionID m s1 = BlockIDByScheduledTransactionID m s2;
  sa_ScheduledTransactionBlockIDByTxID t :
    ScheduledTransactionBlockIDByTxID t s1 = ScheduledTransactionBlockIDByTxID t s2;
  sa_EventsByHeight h ty : is_u64 h → EventsByHeight h ty s1 = EventsByHeight h ty s2;
  sa_register h r :
    0 ≤ h < n →
    (snap ← LedgerByHeight h s1; snap r) = (snap ← LedgerByHeight h s2; snap r)
}.

Lemma refines_same_answers {FM : FlowModel} {S1 S2 : Type} `{!Store S1, !Store S2}
    (s1 : S1) (s2 : S2) l :
  refines s1 l → refines s2 l → same_answers (next_height l) s1 s2.
Proof.
  intros R1 R2. split; intros;
    try (destruct R1, R2; etrans; [|symmetry]; match goal with H : _ |- _ => by apply H end).
  destruct (ref_LedgerByHeight _ _ R1 h) as (n1 & -> & H1); [done|].
  destruct (ref_LedgerByHeight _ _ R2 h) as (n2 & -> & H2); [done|]. simpl. by rewrite H1, H2.
Qed.

Section store_theorems.
Context {FM : FlowModel} {FL : FlowModelLaws FM} {TR : SnapshotTrees} {TL : SnapshotTreeLaws TR}
        {CD : Codecs} {CL : CodecsLaws CD} {GO : GoMapOrder} {SE : SqlEngine} {SL : SqlEngineLaws SE}.

Lemma mem_run l : log_ok l → ∃ s, run_log l Mem.New = (Ok (), s) ∧ refines s l.
Proof.
  intros Hok. destruct (run_log_correct Mem.New [] l) as (s & Hs & R);
    [apply Mem.mem_rel_New|by rewrite app_nil_r|done|].
  exists s. rewrite app_nil_r in R. split; [done|]. by apply store_rel_refines.
Qed.

Lemma fresh_rel : sq_rel Sqlite.fresh [].
Proof. exact (conj def_rel_empty fresh_rows). Qed.

Lemma sqlite_run_fresh l :
  log_ok l → consistent_log l → ∃ s, run_log l Sqlite.fresh = (Ok (), s) ∧ refines s l.
Proof.
  intros Hok Hc. destruct (sqlite_run Sqlite.fresh [] l fresh_rel) as (s & Hs & [R _]);
    [by rewrite app_nil_r..|].
  exists s. rewrite app_nil_r in R. split; [done|]. by apply def_rel_refines.
Qed.

(** C3 (memstore.go): the in-memory store makes every write of a well-formed log,
    and then answers the queries of the [Store] interface as the log does: the
    newest write that concerns the key, a register as of the asked height when a
    block was committed at it.  At a height above the latest block it has no
    registers at all, where the log and the SQLite store have the newest ones. *)
Theorem memstore_refines_log l :
  log_ok l → ∃ s, run_log l Mem.New = (Ok (), s) ∧ refines s l ∧
    ∀ h r, next_height l ≤ h → (ledger ← LedgerByHeight h s; ledger r) = Ok [].
Proof.
  intros Hok. destruct (run_log_correct Mem.New [] l) as (s & Hs & R);
    [apply Mem.mem_rel_New|by rewrite app_nil_r|done|]. rewrite app_nil_r in R.
  exists s. split; [done|]. split; [by apply store_rel_refines|]. intros h r Hh. simpl.
  unfold Mem.ledger_at. rewrite (Mem.mr_ledger_dom s l R) by lia. apply tree_Get_empty.
Qed.

(** C4 (store.go DefaultStore over sqlite/store.go): a fresh SQLite store makes
    every write of a well-formed log, and then answers every query as the log
    does, a register at the heights that have a block.  What is asked of the log is that a key outside of the global table is
    only rewritten with the same bytes and that the heights are positive as
    signed 64-bit numbers: the table keeps one row per height. *)
Theorem sqlite_refines_log l :
  log_ok l → consistent_log l → ∃ s, run_log l Sqlite.fresh = (Ok (), s) ∧ refines s l.
Proof. apply sqlite_run_fresh. Qed.

(** The in-memory store and a SQLite store that received the same writes give
    the same answer to every query of the [Store] interface, errors included. *)
Theorem memstore_sqlite_agree l s1 s2 :
  log_ok l → consistent_log l →
  run_log l Mem.New = (Ok (), s1) → run_log l Sqlite.fresh = (Ok (), s2) →
  same_answers (next_height l) s1 s2.
Proof.
  intros Hok Hc H1 H2. destruct (mem_run l Hok) as (s & Hs & R1). rewrite Hs in H1.
  destruct (sqlite_run_fresh l Hok Hc) as (s' & Hs' & R2). rewrite Hs' in H2.
  simplify_eq. by apply refines_same_answers.
Qed.

(** A commit whose numbers of transactions and of results differ, or whose
    numbers of system transactions and of their results do, is refused by both
    stores, whatever their state, and nothing of it is written. *)
Theorem unbalanced_commit_refused c (m : Mem.Memstore) (s : Sqlite.Store) :
  size (bc_transactions c) ≠ size (bc_transactionResults c) ∨
  length (bc_systemTransactions c) ≠ size (bc_systemTransactionResults c) →
  (∃ e, CommitBlock c m = (Err e, m)) ∧ (∃ e, CommitBlock c s = (Err e, s)).
Proof.
  intros Hne. assert (¬ counts_match c) as Hc by (intros [??]; tauto).
  split; eexists; [by apply Mem.mem_CommitBlock_counts|by apply def_counts].
Qed.
End store_theorems.
