(* ===== verification/Redis.v ===== *)
(** The Redis back end: storage/redis/store.go.

    The Redis server is a parameter: the commands the store sends, with their
    documented effect on the strings and the sorted sets of the key space.  A
    sorted set holds each member once, with one score: a value that is written
    again at a later version moves to that version. *)
From S2P Require Import Prelude FlowTypes Errors Storage Keys DefaultStore DefaultStoreCorrect.

(** * The server *)

Class RedisServer := {
  DB : Type;
  db_empty : DB;
  cmd_GET : string → DB → option Bytes;
  cmd_SET : string → Bytes → DB → DB;
  (** ZADD key score member *)
  cmd_ZADD : string → Z → Bytes → DB → DB;
  (** ZREVRANGEBYSCORE key max min LIMIT 0 1, as a list of at most one member;
      [min] is the empty text, which reads as 0 *)
  cmd_ZREVRANGEBYSCORE : string → Z → DB → list Bytes;
  (** The scores of the members of a sorted set. *)
  zset : string → DB → gmap Bytes Z;
  (** [float64(version)], as the integer it stands for *)
  float64 : Z → Z
}.

Class RedisLaws (RS : RedisServer) : Prop := {
  GET_empty k : cmd_GET k db_empty = None;
  zset_empty k : zset k db_empty = ∅;
  GET_SET k v d : cmd_GET k (cmd_SET k v d) = Some v;
  GET_SET_ne k k' v d : k ≠ k' → cmd_GET k' (cmd_SET k v d) = cmd_GET k' d;
  GET_ZADD k k' n v d : k ≠ k' → cmd_GET k' (cmd_ZADD k n v d) = cmd_GET k' d;
  zset_SET k k' v d : k ≠ k' → zset k' (cmd_SET k v d) = zset k' d;
  zset_ZADD k n v d : zset k (cmd_ZADD k n v d) = <[v := n]> (zset k d);
  zset_ZADD_ne k k' n v d : k ≠ k' → zset k' (cmd_ZADD k n v d) = zset k' d;
  (** A member of the greatest score not above [max]. *)
  ZREVRANGE_none k max d :
    (∀ v n, zset k d !! v = Some n → max < n) → cmd_ZREVRANGEBYSCORE k max d = [];
  ZREVRANGE_some k max d v n :
    zset k d !! v = Some n → 0 ≤ n ≤ max →
    ∃ v' n', cmd_ZREVRANGEBYSCORE k max d = [v'] ∧ zset k d !! v' = Some n' ∧ n ≤ n' ≤ max ∧
             ∀ v'' n'', zset k d !! v'' = Some n'' → n'' ≤ max → n'' ≤ n';
  float64_exact z : 0 ≤ z ≤ 2 ^ 53 → float64 z = z
}.

Module Redis.
Section redis.
Context {RS : RedisServer}.

Record Store := mkStore { rdb : DB; redis_CurrentHeight : Z }.
Definition set_rdb (f : DB → DB) (s : Store) : Store :=
  mkStore (f (rdb s)) (redis_CurrentHeight s).

(** [fmt.Sprintf("%s_%s", store, hex.EncodeToString(key))] *)
Definition storeKey (store : string) (key : Bytes) : string :=
  store +:+ "_" +:+ string_of_bytes (hex_encode key).

Definition decode_value (val : Bytes) : result Bytes :=
  of_option (LibraryError "encoding/hex: invalid byte") (hex_decode val).

Definition redis_GetBytes (store : string) (key : Bytes) (s : Store) : result Bytes :=
  match cmd_GET (storeKey store key) (rdb s) with
  | None => Err ErrNotFound
  | Some val => decode_value val
  end.

Definition redis_SetBytes (store : string) (key value : Bytes) : ST error Store unit :=
  st_modify (set_rdb (cmd_SET (storeKey store key) (hex_encode value))).

Definition redis_SetBytesWithVersion (store : string) (key value : Bytes) (version : Z)
    : ST error Store unit :=
  st_modify (set_rdb (cmd_ZADD (storeKey store key) (float64 version) (hex_encode value))).

Definition redis_GetBytesAtVersion (store : string) (key : Bytes) (version : Z) (s : Store)
    : result Bytes :=
  match cmd_ZREVRANGEBYSCORE (storeKey store key) version (rdb s) with
  | [] => Err ErrNotFound
  | val :: _ => decode_value val
  end.

#[global] Instance redis_data : DataStore Store := {
  GetBytes := redis_GetBytes;
  GetBytesAtVersion := redis_GetBytesAtVersion;
  SetBytes := redis_SetBytes;
  SetBytesWithVersion := redis_SetBytesWithVersion;
  CurrentHeight := redis_CurrentHeight;
  set_CurrentHeight h s := mkStore (rdb s) h
}.

(** The store has neither rollback nor snapshots. *)
#[global] Instance redis_optional : OptionalInterfaces Store := {
  as_RollbackProvider _ := None;
  as_SnapshotProvider _ := None
}.
End redis.

Section redis_laws.
Context {RS : RedisServer} {RL : RedisLaws RS}.

(** Keys with one value are read back. *)
Lemma redis_get_set st k v s :
  redis_GetBytes st k (redis_SetBytes st k v s).2 = Ok v.
Proof.
  unfold redis_GetBytes. simpl. rewrite GET_SET. unfold decode_value.
  by rewrite hex_decode_encode.
Qed.

Lemma redis_read_new st k v n m s :
  0 ≤ n ≤ 2 ^ 53 →
  (∀ w n', zset (storeKey st k) (rdb s) !! w = Some n' → n' < n) →
  n ≤ m →
  redis_GetBytesAtVersion st k m (redis_SetBytesWithVersion st k v n s).2 = Ok v.
Proof.
  intros Hn Hold Hm. unfold redis_GetBytesAtVersion. simpl.
  rewrite float64_exact by done.
  destruct (ZREVRANGE_some (storeKey st k) m
              (cmd_ZADD (storeKey st k) n (hex_encode v) (rdb s)) (hex_encode v) n)
    as (v' & n' & -> & Hv' & Hb & Hmax); [|lia|].
  { by rewrite zset_ZADD, lookup_insert_eq. }
  rewrite zset_ZADD in Hv'. apply lookup_insert_Some in Hv' as [[<- _]|[_ Hv']].
  - unfold decode_value. by rewrite hex_decode_encode.
  - specialize (Hold v' n' Hv'). lia.
Qed.

(** (redis/store.go, SetBytesWithVersion, GetBytesAtVersion): a value written
    at a version above all the earlier ones is read back at that version and at
    every later one. *)
Theorem redis_new_value st k v n m s :
  0 ≤ n ≤ 2 ^ 53 →
  (∀ w n', zset (storeKey st k) (rdb s) !! w = Some n' → n' < n) →
  n ≤ m →
  redis_GetBytesAtVersion st k m (redis_SetBytesWithVersion st k v n s).2 = Ok v.
Proof. apply redis_read_new. Qed.

(** C35: writing an old value again loses the history: after the values [v], [w],
    [v] at the versions [n1 < n2 < n3], nothing is found at [n1], where [v] was
    written. *)
Theorem redis_rewrite_loses_history st k v w n1 n2 n3 s :
  v ≠ w → 0 ≤ n1 < n2 → n2 < n3 ≤ 2 ^ 53 →
  zset (storeKey st k) (rdb s) = ∅ →
  let s1 := (redis_SetBytesWithVersion st k v n1 s).2 in
  let s2 := (redis_SetBytesWithVersion st k w n2 s1).2 in
  let s3 := (redis_SetBytesWithVersion st k v n3 s2).2 in
  redis_GetBytesAtVersion st k n1 s1 = Ok v ∧
  redis_GetBytesAtVersion st k n1 s3 = Err ErrNotFound.
Proof.
  intros Hvw H12 H23 He s1 s2 s3. split.
  - apply redis_read_new; [lia|by rewrite He; intros ??; rewrite lookup_empty|lia].
  - unfold redis_GetBytesAtVersion. subst s3 s2 s1. simpl.
    rewrite !float64_exact by lia. rewrite ZREVRANGE_none; [done|].
    intros v' n'. rewrite !zset_ZADD, He.
    intros [[_ <-]|[Hne [[_ <-]|[Hne' [[<- _]|[_ Hl]]%lookup_insert_Some]]%lookup_insert_Some]]%lookup_insert_Some;
      [lia|lia|done|by rewrite lookup_empty in Hl].
Qed.
End redis_laws.
End Redis.
