(* ===== verification/Retry.v ===== *)
(** The retries of calls to an access node: utils/grpc.go.

    The call and the context are given by what they do at each attempt.  A
    [time.Duration] is its nanoseconds; its product with the factor 2.0 is exact
    in a float64 for every value up to the largest wait. *)
From S2P Require Import Prelude FlowTypes Errors.

Definition Second : Duration := 1000000000.
Definition defaultMaxAttempts : nat := 10.
Definition defaultInitialBackoff : Duration := 1 * Second.
Definition defaultMaxBackoff : Duration := 30 * Second.
Definition defaultBackoffFactor : Z := 2.

(** [status.Code] *)
Class StatusCodes := status_Code : error → Code.

Definition isRetryableCode (code : Code) : bool :=
  match code with
  | codes_Unavailable | codes_ResourceExhausted | codes_Unknown => true
  | _ => false
  end.

(** What is done, in its order: a wait, a call. *)
Inductive retry_action := Wait (d : Duration) | Invoke.

Section retry.
Context {SC : StatusCodes}.
(** What the call returns at an attempt ([None] is [nil]), and the error of the
    context when it is done in the wait before an attempt. *)
Context (invoker : nat → option error) (ctx_done : nat → option error).

Fixpoint retry_loop (attempts attempt : nat) (backoff : Duration) (lastErr : option error)
    : option error * list retry_action :=
  match attempts with
  | O => (lastErr, [])
  | S attempts =>
      let call backoff :=
        let lastErr := invoker attempt in
        match lastErr with
        | None => (None, [Invoke])
        | Some err =>
            if isRetryableCode (status_Code err)
            then let '(r, l) := retry_loop attempts (S attempt) backoff lastErr in (r, Invoke :: l)
            else (lastErr, [Invoke])
        end in
      if bool_decide (0 < attempt)%nat
      then match ctx_done attempt with
           | Some err => (Some err, [Wait backoff])
           | None => let '(r, l) := call (Z.min (backoff * defaultBackoffFactor) defaultMaxBackoff) in
                     (r, Wait backoff :: l)
           end
      else call backoff
  end.
Definition retryInterceptor : option error * list retry_action :=
  retry_loop defaultMaxAttempts 0 defaultInitialBackoff None.

(** * Theorems *)

Definition retried (r : option error) : bool :=
  match r with Some err => isRetryableCode (status_Code err) | None => false end.

(** The wait after the failure of an attempt: doubled each time, up to the cap. *)
Definition wait_after (i : nat) : Duration := Z.min (2 ^ Z.of_nat i * Second) (30 * Second).

(** The actions of the attempts from [i] on, [n] of them after the first. *)
Fixpoint actions_from (i n : nat) : list retry_action :=
  match n with O => [] | S n => Wait (wait_after i) :: Invoke :: actions_from (S i) n end.

Lemma wait_after_next i : Z.min (wait_after i * defaultBackoffFactor) defaultMaxBackoff = wait_after (S i).
Proof.
  unfold wait_after, defaultBackoffFactor, defaultMaxBackoff, Second.
  rewrite Nat2Z.inj_succ, Z.pow_succ_r by lia. lia.
Qed.

(** The loop from an attempt after the first, when that attempt is due. *)
Lemma retry_loop_run n i lastErr :
  ∃ k, (k ≤ n)%nat ∧ (∀ j, (j < k)%nat → retried (invoker (S (i + j))) = true ∧ ctx_done (S (i + j)) = None) ∧
  ((k = n ∧ (retry_loop n (S i) (wait_after i) lastErr).1
             = match n with O => lastErr | S m => invoker (S (i + m)) end
          ∧ (retry_loop n (S i) (wait_after i) lastErr).2 = actions_from i n) ∨
   (k < n)%nat ∧ ctx_done (S (i + k)) = None ∧ retried (invoker (S (i + k))) = false ∧
     retry_loop n (S i) (wait_after i) lastErr = (invoker (S (i + k)), actions_from i (S k)) ∨
   (k < n)%nat ∧ ∃ err, ctx_done (S (i + k)) = Some err ∧
     retry_loop n (S i) (wait_after i) lastErr = (Some err, actions_from i k ++ [Wait (wait_after (i + k))])).
Proof.
  revert i lastErr. induction n as [|n IH]; intros i lastErr.
  { exists 0%nat. split; [lia|]. split; [lia|]. by left. }
  cbn [retry_loop]. rewrite bool_decide_eq_true_2 by lia. cbn zeta.
  destruct (ctx_done (S i)) as [err|] eqn:Hctx.
  { exists 0%nat. rewrite Nat.add_0_r. split; [lia|]. split; [lia|]. right. right. split; [lia|]. by exists err. }
  rewrite wait_after_next. destruct (invoker (S i)) as [err|] eqn:Hinv; cycle 1.
  { exists 0%nat. rewrite Nat.add_0_r. split; [lia|]. split; [lia|]. right. left. rewrite Hinv.
    split; [lia|]. by split_and!. }
  destruct (isRetryableCode (status_Code err)) eqn:Hr; cycle 1.
  { exists 0%nat. rewrite Nat.add_0_r. split; [lia|]. split; [lia|]. right. left. rewrite Hinv.
    split; [lia|]. by split_and!. }
  destruct (IH (S i) (Some err)) as (k & Hk & Hpre & Hcase). exists (S k).
  split; [lia|]. split.
  { intros [|j] Hj; [rewrite Nat.add_0_r, Hinv; by split|].
    replace (S (i + S j)) with (S (S i + j)) by lia. apply Hpre. lia. }
  replace (S (i + S k)) with (S (S i + k)) by lia. replace (i + S k)%nat with (S i + k)%nat by lia.
  destruct (retry_loop n (S (S i)) (wait_after (S i)) (Some err)) as [r l]. simpl in Hcase. simpl fst. simpl snd.
  destruct Hcase as [(-> & -> & ->)|[(Hlt & Hc & Hf & [= -> ->])|(Hlt & err' & Hc & [= -> ->])]].
  - left. split; [done|]. split; [|done]. destruct n as [|m]; [by rewrite Nat.add_0_r|]. f_equal. lia.
  - right. left. split; [lia|]. by split_and!.
  - right. right. split; [lia|]. exists err'. by split.
Qed.

Definition total_wait (l : list retry_action) : Duration :=
  foldr (λ a n, match a with Wait d => d + n | Invoke => n end) 0 l.

Lemma total_wait_bound k :
  ((k ≤ 9)%nat → total_wait (actions_from 0 k) ≤ 151 * Second) ∧
  ((k < 9)%nat → total_wait (actions_from 0 k ++ [Wait (wait_after k)]) ≤ 151 * Second).
Proof. split; intros Hk; do 10 (destruct k as [|k]; [first [by vm_compute|lia]|]); lia. Qed.

(** C39 (bounds): a call is made at most ten times: again after every failure that
    may pass, with waits of 1, 2, 4, 8, 16 and then 30 seconds, 151 seconds in
    all; what it returns is the first outcome that is not such a failure, else
    that of the tenth call, or the error of the context when that ends in a wait. *)
Theorem retry_outcome :
  ∃ k, (k < defaultMaxAttempts)%nat ∧ (∀ j, (j < k)%nat → retried (invoker j) = true) ∧
    (∀ j, (0 < j ≤ k)%nat → ctx_done j = None) ∧ total_wait retryInterceptor.2 ≤ 151 * Second ∧
    ((S k = defaultMaxAttempts ∨ retried (invoker k) = false) ∧
       retryInterceptor = (invoker k, Invoke :: actions_from 0 k) ∨
     (S k < defaultMaxAttempts)%nat ∧ retried (invoker k) = true ∧
       ∃ err, ctx_done (S k) = Some err ∧
         retryInterceptor = (Some err, Invoke :: actions_from 0 k ++ [Wait (wait_after k)])).
Proof.
  assert (retryInterceptor = if retried (invoker 0)
    then ((retry_loop 9 1 (wait_after 0) (invoker 0)).1, Invoke :: (retry_loop 9 1 (wait_after 0) (invoker 0)).2)
    else (invoker 0%nat, [Invoke])) as ->.
  { unfold retryInterceptor, defaultMaxAttempts. remember 9%nat as n. cbn [retry_loop]. simpl.
    change defaultInitialBackoff with (wait_after 0).
    destruct (invoker 0) as [err|]; [|done]. simpl. destruct (isRetryableCode _); [|done].
    by destruct (retry_loop n 1 _ _). }
  destruct (retried (invoker 0)) eqn:H0; cycle 1.
  { exists 0%nat. split; [unfold defaultMaxAttempts; lia|]. split; [lia|]. split; [lia|]. split; [done|].
    left. split; [by right|done]. }
  destruct (retry_loop_run 9 0 (invoker 0)) as (k & Hk & Hpre & Hcase). unfold defaultMaxAttempts.
  assert (∀ j, (j < S k)%nat → retried (invoker j) = true) as Hret.
  { intros [|j] Hj; [done|]. apply (Hpre j). lia. }
  assert (∀ j, (0 < j ≤ k)%nat → ctx_done j = None) as Hctx.
  { intros [|j] Hj; [lia|]. apply (Hpre j). lia. }
  destruct (retry_loop 9 1 (wait_after 0) (invoker 0)) as [r l]. simpl fst in *. simpl snd in *.
  destruct Hcase as [(-> & -> & ->)|[(Hlt & Hc & Hf & [= -> ->])|(Hlt & err & Hc & [= -> ->])]].
  - exists 9%nat. split; [lia|]. split; [intros j Hj; apply Hret; lia|]. split; [done|].
    split; [apply (total_wait_bound 9); lia|]. left. split; [by left|done].
  - exists (S k). split; [lia|]. split; [done|]. split.
    { intros j Hj. destruct (decide (j = S k)) as [->|]; [exact Hc|apply Hctx; lia]. }
    split; [apply (total_wait_bound (S k)); lia|]. left. split; [by right|done].
  - exists k. split; [lia|]. split; [intros j Hj; apply Hret; lia|]. split; [done|]. split; [apply (total_wait_bound k); lia|].
    right. split; [lia|]. split; [apply Hret; lia|]. by exists err.
Qed.
End retry.
