(* ===== verification/Remote.v ===== *)
(** The store of a forked network: storage/remote/store.go.

    A remote store is a SQLite store (the overlay, which receives the local
    commits) over the state of a remote network at a fixed height, read through
    an access node.  The registers read from the node are kept in a second
    SQLite store, the fork cache.  The access node, the file system's failures
    and the unstable sort are parameters; everything the store does with their
    answers is translated. *)
From stdpp Require Import sorting.
From S2P Require Import Prelude FlowTypes Errors Storage Keys DefaultStore.
From S2P Require Import DefaultStoreCorrect Sqlite.

(** * The remote node *)

(** The replies of the access and execution-data APIs, with the conversions of
    flow-go the store applies to them. *)
Class AccessNode {FM : FlowModel} := {
  BlockHeaderMessage : Type;
  msg_Id : BlockHeaderMessage → Bytes;
  msg_Height : BlockHeaderMessage → Z;
  MessageToBlockHeader : BlockHeaderMessage → result Header;
  HashToID : Bytes → Identifier;
  rpc_ChainId : result string;
  rpc_LatestBlockHeader : result BlockHeaderMessage;
  rpc_BlockHeaderByHeight : Z → result BlockHeaderMessage;
  rpc_BlockHeaderByID : Identifier → result BlockHeaderMessage;
  (** The values of a request for one register at a height. *)
  rpc_RegisterValues : Z → RegisterID → result (list RegisterValue);
  (** [status.Code(err) == codes.NotFound] *)
  is_status_NotFound : error → bool;
  (** [grpc.NewClient] *)
  grpc_NewClient : string → option error
}.

(** The failures of the file system: [os.MkdirAll], [os.ReadDir],
    [os.RemoveAll], the opening of a database. *)
Class FileSystem := {
  os_MkdirAll : string → option error;
  os_ReadDir : option error;
  os_RemoveAll : string → option error;
  sqlite_New : string → option error
}.

(** * The cache directory *)

Definition blockBuffer : Z := 10.
Definition DefaultTTL : Duration := 30 * 24 * 3600 * 1000000000.
Definition DefaultMaxCacheCount : nat := 10.

(** An entry of the base directory: [os.Stat] and the walk that sums the sizes
    can fail. *)
Record DirEntry := mkDirEntry {
  de_Name : string;
  de_IsDir : bool;
  de_ModTime : option Time;
  de_Size : option Z;
  de_databases : gmap string database
}.

Record cacheInfo := mkCacheInfo { ci_path : string; ci_accessTime : Time; ci_size : Z }.

(** [sort.Slice] with the comparison of access times; it is not stable. *)
Class SortSlice := {
  sort_Slice : list cacheInfo → list cacheInfo;
  sort_Slice_perm l : sort_Slice l ≡ₚ l;
  sort_Slice_sorted l : StronglySorted (λ a b, ci_accessTime a ≤ ci_accessTime b) (sort_Slice l)
}.

(** [filepath.Join] of a directory and a plain name; a cache is named by the
    name of its directory here. *)
Definition Join (dir name : string) : string := dir +:+ "/" +:+ name.

Definition getCaches (entries : list DirEntry) : list cacheInfo :=
  omap (λ e, if de_IsDir e
             then match de_ModTime e, de_Size e with
                  | Some t, Some n => Some (mkCacheInfo (de_Name e) t n)
                  | _, _ => None
                  end
             else None) entries.

Section prune.
Context {FS : FileSystem} {SS : SortSlice}.

(** The directories a call of [pruneCache] tries to remove. *)
Definition expired (cutoff : Time) (c : cacheInfo) : Prop := ci_accessTime c < cutoff.
#[global] Instance expired_dec cutoff c : Decision (expired cutoff c).
Proof. unfold expired. apply _. Defined.

Definition prunable (now : Time) (entries : list DirEntry) : list cacheInfo :=
  let caches := sort_Slice (getCaches entries) in
  let cutoff := now - DefaultTTL in
  let old := filter (expired cutoff) caches in
  let kept := filter (λ c, ¬ expired cutoff c) caches in
  old ++ take (length kept - DefaultMaxCacheCount) kept.

(** The entry a removal leaves, when it fails. *)
Definition remains (baseDir : string) (removed : list cacheInfo) (e : DirEntry) : Prop :=
  de_Name e ∉ ci_path <$> removed ∨ is_Some (os_RemoveAll (Join baseDir (de_Name e))).
#[global] Instance remains_dec baseDir removed e : Decision (remains baseDir removed e).
Proof. unfold remains. apply _. Defined.

Definition pruneCache (baseDir : string) (now : Time) (entries : list DirEntry)
    : result (list DirEntry) :=
  match os_ReadDir with
  | Some err => Err err
  | None => Ok (filter (remains baseDir (prunable now entries)) entries)
  end.
End prune.

(** * The store *)

Module Remote.
Import DefaultKeyGenerator.
Section remote.
Context {FM : FlowModel} {CD : Codecs} {GO : GoMapOrder} {SE : SqlEngine} {AN : AccessNode}.
Context {FS : FileSystem} {SS : SortSlice}.

Record Store := mkStore {
  rs_Store : Sqlite.Store;
  (** Whether the clients were given as an option. *)
  rs_client : bool;
  rs_host : string;
  rs_chainID : ChainID;
  rs_forkHeight : Z;
  rs_forkBlockID : Identifier;
  rs_forkCacheDir : string;
  rs_cacheStore : option Sqlite.Store;
  (** The content of the cache directory. *)
  rs_dir : list DirEntry
}.

Definition set_Store (v : Sqlite.Store) (s : Store) : Store :=
  mkStore v (rs_client s) (rs_host s) (rs_chainID s) (rs_forkHeight s) (rs_forkBlockID s)
    (rs_forkCacheDir s) (rs_cacheStore s) (rs_dir s).
Definition set_chainID (v : ChainID) (s : Store) : Store :=
  mkStore (rs_Store s) (rs_client s) (rs_host s) v (rs_forkHeight s) (rs_forkBlockID s)
    (rs_forkCacheDir s) (rs_cacheStore s) (rs_dir s).
Definition set_forkHeight (v : Z) (s : Store) : Store :=
  mkStore (rs_Store s) (rs_client s) (rs_host s) (rs_chainID s) v (rs_forkBlockID s)
    (rs_forkCacheDir s) (rs_cacheStore s) (rs_dir s).
Definition set_forkBlockID (v : Identifier) (s : Store) : Store :=
  mkStore (rs_Store s) (rs_client s) (rs_host s) (rs_chainID s) (rs_forkHeight s) v
    (rs_forkCacheDir s) (rs_cacheStore s) (rs_dir s).
Definition set_cacheStore (v : option Sqlite.Store) (s : Store) : Store :=
  mkStore (rs_Store s) (rs_client s) (rs_host s) (rs_chainID s) (rs_forkHeight s)
    (rs_forkBlockID s) (rs_forkCacheDir s) v (rs_dir s).
Definition set_dir (v : list DirEntry) (s : Store) : Store :=
  mkStore (rs_Store s) (rs_client s) (rs_host s) (rs_chainID s) (rs_forkHeight s)
    (rs_forkBlockID s) (rs_forkCacheDir s) (rs_cacheStore s) v.

(** ** Options *)

Definition WithForkHost (host : string) (s : Store) : Store :=
  mkStore (rs_Store s) (rs_client s) host (rs_chainID s) (rs_forkHeight s) (rs_forkBlockID s)
    (rs_forkCacheDir s) (rs_cacheStore s) (rs_dir s).
Definition WithRPCHost (host : string) (chainID : ChainID) (s : Store) : Store :=
  set_chainID chainID (WithForkHost host s).
Definition WithForkHeight : Z → Store → Store := set_forkHeight.
Definition WithStartBlockHeight (height : Z) : Store → Store := WithForkHeight height.
Definition WithForkCacheDir (dir : string) (s : Store) : Store :=
  mkStore (rs_Store s) (rs_client s) (rs_host s) (rs_chainID s) (rs_forkHeight s)
    (rs_forkBlockID s) dir (rs_cacheStore s) (rs_dir s).
Definition WithClient (s : Store) : Store :=
  mkStore (rs_Store s) true (rs_host s) (rs_chainID s) (rs_forkHeight s) (rs_forkBlockID s)
    (rs_forkCacheDir s) (rs_cacheStore s) (rs_dir s).

(** An operation of the overlay. *)
Definition on_overlay {A} (m : ST error Sqlite.Store A) : ST error Store A := λ s,
  match m (rs_Store s) with (r, v) => (r, set_Store v s) end.

(** ** Blocks *)

Definition BlockByHeight (height : Z) (s : Store) : result Block :=
  match DefaultStore.BlockByHeight height (rs_Store s) with
  | Ok block => Ok block
  | Err _ =>
      latestBlockHeight ← map_err (Errorf_w "could not get local latest block: ")
                            (DefaultStore.LatestBlockHeight (rs_Store s));
      if bool_decide (latestBlockHeight < height) then Err (BlockNotFoundByHeightError height)
      else
        blockRes ← rpc_BlockHeaderByHeight height;
        header ← MessageToBlockHeader blockRes;
        Ok (mkBlock (Header_HeaderBody header) NewEmptyPayload)
  end.

Definition BlockByID (blockID : Identifier) (s : Store) : result Block :=
  match DefaultStore.BlockByID blockID (rs_Store s) with
  | Ok block => BlockByHeight (Block_Height block) s
  | Err err =>
      if is_not_found err
      then heightRes ← rpc_BlockHeaderByID blockID; BlockByHeight (msg_Height heightRes) s
      else Err err
  end.

Definition LatestBlock (s : Store) : result Block :=
  latestBlockHeight ← map_err (Errorf_w "could not get local latest block: ")
                        (DefaultStore.LatestBlockHeight (rs_Store s));
  BlockByHeight latestBlockHeight s.

(** ** Registers *)

(** The value the node has for a register at a height; a register it does not
    know is empty. *)
Definition fetch (height : Z) (id : RegisterID) : result RegisterValue :=
  match rpc_RegisterValues height id with
  | Ok (value :: _) => Ok value
  | Ok [] => Ok []
  | Err err => if is_status_NotFound err then Ok [] else Err err
  end.

(** The write to the cache; a failure is only logged. *)
Definition store_in_cache (id : RegisterID) (value : RegisterValue) : ST error Store unit := λ s,
  match rs_cacheStore s with
  | None => (Ok (), s)
  | Some cache =>
      (Ok (), set_cacheStore (Some (SetBytes (Storage LedgerStoreName) (RegisterID_String id)
                                      value cache).2) s)
  end.

(** What the cache holds for the register: nothing when there is no cache. *)
Definition read_cache (id : RegisterID) (s : Store) : result (option RegisterValue) :=
  match rs_cacheStore s with
  | None => Ok None
  | Some cache =>
      match GetBytes (Storage LedgerStoreName) (RegisterID_String id) cache with
      | Ok value => Ok (Some value)
      | Err err => if is_not_found err then Ok None else Err err
      end
  end.

(** The read function of the snapshot [LedgerByHeight] returns. *)
Definition ledger_Get (blockHeight : Z) (id : RegisterID) : ST error Store RegisterValue := λ s,
  match GetBytesAtVersion (Storage LedgerStoreName) (RegisterID_String id) blockHeight
          (rs_Store s) with
  | Ok value => (Ok value, s)
  | Err err =>
      if negb (is_not_found err) then (Err err, s)
      else
        (cached ← st_read (read_cache id);
         match cached with
         | Some value => mret value
         | None =>
             value ← st_read (λ s, fetch (blockHeight `min` rs_forkHeight s) id);
             store_in_cache id value ;;
             mret value
         end) s
  end.

(** ** Creation *)

Definition initializeStartBlock : ST error Store unit :=
  found ← st_read (λ s,
    match DefaultStore.ForkedBlockHeight (rs_Store s) with
    | Ok h => Ok (if bool_decide (0 < h) then Some h else None)
    | Err err => if is_not_found err then Ok None
                 else Err (Errorf_w "could not get forked block height: " err)
    end);
  match found with
  | Some forkHeight =>
      st_modify (set_forkHeight forkHeight) ;;
      blockResp ← st_res (map_err (Errorf_w "could not get fork block header: ")
                            (rpc_BlockHeaderByHeight forkHeight));
      st_modify (set_forkBlockID (HashToID (msg_Id blockResp)))
  | None =>
      configured ← st_get rs_forkHeight;
      (if bool_decide (configured = 0)
       then resp ← st_res (map_err (Errorf_w "could not get last block height: ")
                             rpc_LatestBlockHeader);
            st_modify (set_forkHeight (u64 (msg_Height resp - blockBuffer)))
       else mret ()) ;;
      forkHeight ← st_get rs_forkHeight;
      blockResp ← st_res (map_err (Errorf_w "could not get fork block header: ")
                            (rpc_BlockHeaderByHeight forkHeight));
      st_modify (set_forkBlockID (HashToID (msg_Id blockResp))) ;;
      on_overlay (λ v, match DefaultStore.StoreForkedBlockHeight forkHeight v with
                       | (Err err, v') => (Err (Errorf_w "could not set start block height: " err), v')
                       | ok => ok end) ;;
      on_overlay (λ v, match DefaultStore.SetBlockHeight forkHeight v with
                       | (Err err, v') => (Err (Errorf_w "could not set start block height: " err), v')
                       | ok => ok end)
  end.

(** The directory of the cache: the network and the first twelve characters of
    the fork block's ID. *)
Definition cache_subdir (s : Store) : string :=
  rs_chainID s +:+ "-" +:+ string_of_bytes (take 12 (hex_id (rs_forkBlockID s))).

(** [os.MkdirAll] leaves a directory that exists, [os.Chtimes] sets its time. *)
Definition make_dir (name : string) (now : Time) (entries : list DirEntry) : list DirEntry :=
  if decide (name ∈ de_Name <$> entries) then entries
  else entries ++ [mkDirEntry name true (Some now) (Some 0) ∅].
Definition touch_dir (name : string) (now : Time) (entries : list DirEntry) : list DirEntry :=
  (λ e, if decide (de_Name e = name)
        then mkDirEntry name (de_IsDir e) (Some now) (de_Size e) (de_databases e) else e)
    <$> entries.
Definition databases_in (name : string) (entries : list DirEntry) : gmap string database :=
  default ∅ (de_databases <$> head (filter (λ e, de_Name e = name) entries)).

Definition fails (prefix : string) (o : option error) : result unit :=
  match o with Some err => Err (Errorf_w prefix err) | None => Ok () end.

Definition initializeCacheStore (now : Time) : ST error Store Sqlite.Store :=
  forkCacheDir ← st_get rs_forkCacheDir;
  st_res (fails "failed to create cache directory: " (os_MkdirAll forkCacheDir)) ;;
  st_modify (λ s, match pruneCache forkCacheDir now (rs_dir s) with
                  | Ok entries => set_dir entries s
                  | Err _ => s end) ;;
  subdir ← st_get cache_subdir;
  let cachePath := Join forkCacheDir subdir in
  st_res (fails "failed to create cache subdirectory: " (os_MkdirAll cachePath)) ;;
  st_modify (λ s, set_dir (make_dir subdir now (rs_dir s)) s) ;;
  st_res (fails "failed to create cache store: " (sqlite_New cachePath)) ;;
  cacheStore ← st_get (λ s, Sqlite.New Directory (time_UnixMilli now)
                              (databases_in subdir (rs_dir s)));
  st_modify (λ s, set_dir (touch_dir subdir now (rs_dir s)) s) ;;
  mret cacheStore.

(** The connection and the check of the chain ID. *)
Definition check_network : ST error Store unit :=
  client ← st_get rs_client;
  host ← st_get rs_host;
  (if (client : bool) then mret ()
   else if bool_decide (host = ""%string) then st_fail (Errorf "rpc host must be provided")
   else st_res (fails "could not connect to rpc host: " (grpc_NewClient host))) ;;
  chainId ← st_res (map_err (Errorf_w "could not get network parameters: ") rpc_ChainId);
  chainID ← st_get rs_chainID;
  if bool_decide (chainID = ""%string) then st_modify (set_chainID chainId)
  else if bool_decide (chainId = chainID) then mret ()
  else st_fail (Errorf ("chain ID of rpc host does not match chain ID provided in config: "
                        +:+ chainId +:+ " != " +:+ chainID)).

(** The cache on the disk if a directory is configured and it can be opened,
    otherwise in memory. *)
Definition disk_cache (now : Time) : ST error Store (option Sqlite.Store) := λ s,
  if bool_decide (rs_forkCacheDir s = ""%string) then (Ok None, s)
  else match initializeCacheStore now s with
       | (Ok c, s') => (Ok (Some c), s')
       | (Err _, s') => (Ok None, s')
       end.
Definition open_cache (now : Time) : ST error Store unit :=
  cacheStore ← disk_cache now;
  match cacheStore with
  | Some c => st_modify (set_cacheStore (Some c))
  | None =>
      st_res (fails "failed to initialize in-memory cache: " (sqlite_New ":memory:")) ;;
      st_modify (set_cacheStore (Some (Sqlite.New InMemory (time_UnixMilli now) ∅)))
  end.

(** [New] on the provider and the options; [entries] is the content of the
    cache directory and [now] the time. *)
Definition with_options (provider : Sqlite.Store) (options : list (Store → Store))
    (entries : list DirEntry) : Store :=
  foldl (λ s opt, opt s) (mkStore provider false "" "" 0 ZeroID "" None entries) options.
Definition New (provider : Sqlite.Store) (options : list (Store → Store))
    (entries : list DirEntry) (now : Time) : res error unit * Store :=
  (check_network ;; initializeStartBlock ;; open_cache now)
    (with_options provider options entries).
End remote.
End Remote.
