(* ===== verification/RemoteTheorems.v ===== *)
(** What the store of a forked network promises: the fork cache is invisible to
    the reads at and above the fork height, the fork height survives a restart,
    the blocks come from the overlay or from the node, and pruning keeps the
    newest caches. *)
From stdpp Require Import sorting.
From S2P Require Import Prelude FlowTypes Errors Storage Keys DefaultStore.
From S2P Require Import DefaultStoreCorrect Sqlite SqliteCorrect Remote.
Import DefaultKeyGenerator Remote.

(** * The fork cache *)

Section cache.
Context {FM : FlowModel} {FL : FlowModelLaws FM} {CD : Codecs} {GO : GoMapOrder}.
Context {SE : SqlEngine} {SL : SqlEngineLaws SE} {AN : AccessNode}.
Context {FS : FileSystem} {SS : SortSlice}.

(** A row of the cache: a register and the value the node has for it at the
    fork height. *)
Definition cache_row (fork : Z) (p : rowkey * Bytes) : Prop :=
  p.1.1.2 = 0 ∧ p.1.2 = 0 ∧
  ∃ id v, p.1.1.1 = hex_encode (RegisterID_String id) ∧ p.2 = hex_encode v ∧ fetch fork id = Ok v.

Definition cache_ok (fork : Z) (c : Sqlite.Store) : Prop :=
  Sqlite.sq_CurrentHeight c = 0 ∧
  ∃ t, Sqlite.tables c !! LedgerStoreName = Some t ∧
       ∀ k x, t !! k = Some x → cache_row fork (k, x).

Definition coherent (s : Store) : Prop :=
  ∀ c, rs_cacheStore s = Some c → cache_ok (rs_forkHeight s) c.

Lemma cache_read fork c id :
  cache_ok fork c →
  GetBytes (Storage LedgerStoreName) (RegisterID_String id) c = Err ErrNotFound ∨
  ∃ v, GetBytes (Storage LedgerStoreName) (RegisterID_String id) c = Ok v ∧ fetch fork id = Ok v.
Proof.
  intros (_ & t & Ht & Hrows). simpl. unfold Sqlite.sq_GetBytes.
  erewrite Sqlite.read_at by (apply Sqlite.zero_small || exact Ht).
  destruct (selected _ 0 t) as [|p0 ps] eqn:Hsel; [left; by rewrite limit1_nil|right].
  destruct (limit1_max (p0 :: ps)) as (p & -> & Hp & _); [done|].
  rewrite <- Hsel in Hp. apply Sqlite.elem_of_selected in Hp as [Hp [Hk _]].
  destruct p as [k x]. destruct (Hrows k x Hp) as (_ & _ & id' & v & Hid & Hv & Hf).
  cbn [fst snd] in Hk, Hid, Hv. rewrite Hid in Hk. apply (inj hex_encode) in Hk.
  apply RegisterID_String_inj in Hk as ->. exists v. cbn [snd]. rewrite Hv, hex_decode_encode. done.
Qed.

Lemma cache_set c t (k v : Bytes) :
  Sqlite.sq_CurrentHeight c = 0 → Sqlite.tables c !! LedgerStoreName = Some t →
  SetBytes LedgerStoreName k v c =
  (Ok (), Sqlite.set_db (<[LedgerStoreName := <[(hex_encode k, 0, 0) := hex_encode v]> t]>
                           (Sqlite.tables c)) c).
Proof.
  intros Hh Ht.
  assert (Sqlite.effective_height LedgerStoreName c = 0) as He
    by (unfold Sqlite.effective_height; by rewrite decide_False).
  pose proof (Sqlite.run_set LedgerStoreName k v 0 c t Sqlite.zero_small) as Hr.
  rewrite He in Hr. apply Hr; [apply Sqlite.zero_small|done].
Qed.

Lemma cache_write fork c id v :
  cache_ok fork c → fetch fork id = Ok v →
  cache_ok fork (SetBytes (Storage LedgerStoreName) (RegisterID_String id) v c).2.
Proof.
  intros (Hh & t & Ht & Hrows) Hf. change (Storage LedgerStoreName) with LedgerStoreName.
  rewrite (cache_set c t) by done. split; [done|]. cbn [snd].
  rewrite Sqlite.tables_set_db, lookup_insert_eq.
  eexists. split; [done|]. intros k x [[<- <-]|[_ Hk]]%lookup_insert_Some; [|by apply Hrows].
  split; [done|]. split; [done|]. by exists id, v.
Qed.

(** A write to the cache is read back. *)
Lemma cache_write_read fork c id v :
  cache_ok fork c →
  GetBytes LedgerStoreName (RegisterID_String id)
    (SetBytes LedgerStoreName (RegisterID_String id) v c).2 = Ok v.
Proof.
  intros (Hh & t & Ht & Hrows). rewrite (cache_set c t) by done. cbn [snd].
  apply (get_set c LedgerStoreName (RegisterID_String id) v); [|by apply cache_set].
  assert (Sqlite.effective_height LedgerStoreName c = 0) as He
    by (unfold Sqlite.effective_height; by rewrite decide_False).
  split_and!; [apply Sqlite.zero_small|rewrite He; apply Sqlite.zero_small|].
  exists t. split; [done|]. intros [k x] Hk _. destruct (Hrows k x Hk) as (H1 & H2 & _).
  unfold Sqlite.row_fits, row_version. cbn [fst snd] in *. rewrite H1, H2, He. split; [lia|by left].
Qed.

Lemma fresh_cache_ok fork id0 : cache_ok fork (Sqlite.New InMemory id0 ∅).
Proof. split; [done|]. by exists ∅. Qed.

(** * Reads and writes of a forked store *)

Inductive fork_op :=
  | FRead (height : Z) (id : RegisterID)
  | FWrite (w : write).

Definition fork_step (op : fork_op) (s : Store) : (result RegisterValue + result unit) * Store :=
  match op with
  | FRead h id => let (r, s') := ledger_Get h id s in (inl r, s')
  | FWrite w => let (r, s') := on_overlay (apply_write w) s in (inr r, s')
  end.

(** The specification: a register of the overlay at the height, or the node's
    at the fork height. *)
Definition fork_register (fork h : Z) (id : RegisterID) (d : Sqlite.Store) : result RegisterValue :=
  match GetBytesAtVersion LedgerStoreName (RegisterID_String id) h d with
  | Ok v => Ok v
  | Err err => if is_not_found err then fetch fork id else Err err
  end.

Definition spec_step (fork : Z) (op : fork_op) (d : Sqlite.Store)
    : (result RegisterValue + result unit) * Sqlite.Store :=
  match op with
  | FRead h id => (inl (fork_register fork h id d), d)
  | FWrite w => let (r, d') := apply_write w d in (inr r, d')
  end.

Fixpoint run_ops {S} (step : fork_op → S → (result RegisterValue + result unit) * S)
    (ops : list fork_op) (s : S) : list (result RegisterValue + result unit) * S :=
  match ops with
  | [] => ([], s)
  | op :: ops => let (r, s1) := step op s in
                 let (rs, s2) := run_ops step ops s1 in (r :: rs, s2)
  end.

Definition op_above (fork : Z) (op : fork_op) : Prop :=
  match op with FRead h _ => fork ≤ h | FWrite _ => True end.

Lemma ledger_Get_cases h id s r s' :
  coherent s → rs_forkHeight s ≤ h → ledger_Get h id s = (r, s') →
  r = fork_register (rs_forkHeight s) h id (rs_Store s) ∧
  coherent s' ∧ rs_Store s' = rs_Store s ∧ rs_forkHeight s' = rs_forkHeight s.
Proof.
  intros Hc Hh. unfold ledger_Get, fork_register.
  change (Storage LedgerStoreName) with LedgerStoreName.
  destruct (GetBytesAtVersion LedgerStoreName _ h (rs_Store s)) as [v|err]; [by intros [= <- <-]|].
  destruct (is_not_found err); [|by intros [= <- <-]]. cbn [negb].
  assert (read_cache id s = Ok None ∨
          ∃ v, read_cache id s = Ok (Some v) ∧ fetch (rs_forkHeight s) id = Ok v) as Hrd.
  { unfold read_cache. destruct (rs_cacheStore s) as [c|] eqn:Hcs; [|by left].
    destruct (cache_read _ c id (Hc c Hcs)) as [->|(v & -> & Hv)]; [by left|right; by exists v]. }
  unfold mbind, ST_bind, st_read. destruct Hrd as [->|(v & -> & Hv)]; [|by intros [= <- <-]].
  rewrite Z.min_r by done.
  destruct (fetch (rs_forkHeight s) id) as [v|e] eqn:Hf; [|by intros [= <- <-]].
  unfold store_in_cache. destruct (rs_cacheStore s) as [c|] eqn:Hcs; [|by intros [= <- <-]].
  intros [= <- <-]. split_and!; [done| |done..].
  intros c' [= <-]. apply (cache_write (rs_forkHeight s)); [by apply Hc|done].
Qed.

Lemma fork_step_sim op s o s' :
  coherent s → op_above (rs_forkHeight s) op → fork_step op s = (o, s') →
  spec_step (rs_forkHeight s) op (rs_Store s) = (o, rs_Store s') ∧
  coherent s' ∧ rs_forkHeight s' = rs_forkHeight s.
Proof.
  intros Hc Ha Hs. destruct op as [h id|w]; simpl in *.
  - destruct (ledger_Get h id s) as [r s1] eqn:Hg. injection Hs as <- <-.
    destruct (ledger_Get_cases h id s r s1 Hc Ha Hg) as (-> & ? & -> & ->). done.
  - unfold on_overlay in Hs. destruct (apply_write w (rs_Store s)) as [r d]. by injection Hs as <- <-.
Qed.

(** C23 (remote/store.go, LedgerByHeight): a forked store with its cache of
    fetched registers refines the store without a cache: in every sequence of
    local writes and of register reads at heights not below the fork height,
    each read returns the overlay's value at that height and, when there is
    none, the value the node has at the fork height, and each write has the
    outcome it has on the overlay alone. *)
Theorem fork_cache_invisible (s : Store) (ops : list fork_op) :
  coherent s → Forall (op_above (rs_forkHeight s)) ops →
  (run_ops fork_step ops s).1 = (run_ops (spec_step (rs_forkHeight s)) ops (rs_Store s)).1 ∧
  rs_Store (run_ops fork_step ops s).2
    = (run_ops (spec_step (rs_forkHeight s)) ops (rs_Store s)).2.
Proof.
  intros Hc Hops. revert s Hc Hops. induction ops as [|op ops IH]; intros s Hc Hops; [done|].
  inversion Hops as [|? ? Ha Hops']; subst. clear Hops. rename Hops' into Hops. cbn [run_ops].
  destruct (fork_step op s) as [o s1] eqn:Hs.
  destruct (fork_step_sim op s o s1 Hc Ha Hs) as (-> & Hc1 & Hf1).
  rewrite <- Hf1 in Hops. destruct (IH s1 Hc1 Hops) as [E1 E2]. rewrite Hf1 in E1, E2.
  destruct (run_ops fork_step ops s1), (run_ops _ ops (rs_Store s1)).
  cbn [fst snd] in *. by rewrite E1, E2.
Qed.

(** C25 (LedgerByHeight): the cache is keyed by the register alone: a read below
    the fork height of a register that the overlay and the cache do not have
    caches the node's value of that height, and the reads at the fork height
    and above then return the old value. *)
Theorem read_below_fork_is_cached (s : Store) (c : Sqlite.Store) (id : RegisterID) (h h' : Z) v :
  rs_cacheStore s = Some c → cache_ok (rs_forkHeight s) c →
  GetBytesAtVersion LedgerStoreName (RegisterID_String id) h (rs_Store s) = Err ErrNotFound →
  GetBytesAtVersion LedgerStoreName (RegisterID_String id) h' (rs_Store s) = Err ErrNotFound →
  GetBytes LedgerStoreName (RegisterID_String id) c = Err ErrNotFound →
  h < rs_forkHeight s → fetch h id = Ok v →
  ∃ s', ledger_Get h id s = (Ok v, s') ∧ (ledger_Get h' id s').1 = Ok v.
Proof.
  intros Hcs Hok Hover Hover' Hcache Hlt Hv.
  pose proof (cache_write_read _ c id v Hok) as Hget.
  set (c' := (SetBytes LedgerStoreName (RegisterID_String id) v c).2) in *.
  exists (set_cacheStore (Some c') s). unfold ledger_Get.
  change (Storage LedgerStoreName) with LedgerStoreName. cbn [rs_Store set_cacheStore].
  rewrite Hover, Hover'. change (is_not_found ErrNotFound) with true. cbn [negb].
  unfold mbind, ST_bind, st_read, read_cache, store_in_cache.
  change (Storage LedgerStoreName) with LedgerStoreName.
  cbn [rs_cacheStore set_cacheStore]. rewrite Hcs, Hcache, Hget.
  change (is_not_found ErrNotFound) with true. cbn beta iota.
  rewrite Z.min_l, Hv by lia. by rewrite Hcs.
Qed.
End cache.

(** * Creation and restart *)

(** What a write to another key leaves, also one that fails. *)
Section other_keys.
Context {SE : SqlEngine} {SL : SqlEngineLaws SE}.

Lemma keeps_other_set store key value st k r :
  (store, key) ≠ (st, k) →
  keeps (λ d : Sqlite.Store, GetBytes st k d = r) (Sqlite.sq_SetBytes store key value).
Proof.
  intros Hne d Hd. simpl. unfold Sqlite.sq_SetBytes.
  destruct (Sqlite.sq_SetBytesWithVersion store key value 0 d) as [[[]|e] d'] eqn:H; simpl.
  - rewrite <- Hd. exact (get_set_ne d store key value d' st k Hne H).
  - by apply set_fail in H as ->.
Qed.

Lemma keeps_other_store store key value st k r :
  store ≠ st → keeps (λ d : Sqlite.Store, GetBytes st k d = r) (Sqlite.sq_SetBytes store key value).
Proof. intros Hne. apply keeps_other_set. by intros [= ??]. Qed.

Lemma keeps_other_setv store key value n st k r :
  store ≠ st →
  keeps (λ d : Sqlite.Store, GetBytes st k d = r) (Sqlite.sq_SetBytesWithVersion store key value n).
Proof.
  intros Hne d Hd. simpl.
  destruct (Sqlite.sq_SetBytesWithVersion store key value n d) as [[[]|e] d'] eqn:H; simpl.
  - rewrite <- Hd. refine (get_setv d store key value n d' st k _ H). by intros [= ??].
  - by apply set_fail in H as ->.
Qed.
End other_keys.

Section restart.
Context {FM : FlowModel} {FL : FlowModelLaws FM} {CD : Codecs} {CL : CodecsLaws CD}.
Context {GO : GoMapOrder} {SE : SqlEngine} {SL : SqlEngineLaws SE}.
Context {FS : FileSystem} {SS : SortSlice}.

(** No local write touches the record of the fork height. *)
Lemma write_keeps_fork (w : write) r :
  keeps (λ d : Sqlite.Store, GetBytes globalStoreName ForkedBlock d = r) (apply_write w).
Proof.
  destruct w as [c|n b|t b]; simpl; [|apply keeps_other_store; by_decide..].
  apply (CommitBlock_keeps (λ d, Sqlite.sq_GetBytes globalStoreName ForkedBlock d = r)); [done|done|..].
  - intros st k v Hin. apply keeps_other_set. intros [= -> ->].
    revert Hin. unfold plain_writes, commit_writes, event_writes, seg.
    rewrite !elem_of_app, !list_elem_of_fmap.
    intros H. repeat destruct H as [H|H]; by destruct H as (? & Hx & _).
  - intros r' v _. by apply keeps_other_setv.
Qed.

Definition apply_writes (ws : list write) (d : Sqlite.Store) : Sqlite.Store :=
  foldl (λ d w, (apply_write w d).2) d ws.

Lemma writes_keep_fork ws d :
  GetBytes globalStoreName ForkedBlock (apply_writes ws d) = GetBytes globalStoreName ForkedBlock d.
Proof.
  revert d. induction ws as [|w ws IH]; intros d; [done|]. cbn [apply_writes foldl].
  fold (apply_writes ws (apply_write w d).2). rewrite IH. by apply (write_keeps_fork w).
Qed.

Section one_node.
Context {AN : AccessNode}.

(** The options of the package set the fields of the connection only. *)
Definition plain_option (o : Store → Store) : Prop := ∀ s, rs_Store (o s) = rs_Store s.

Lemma with_options_Store provider options entries :
  Forall plain_option options → rs_Store (with_options provider options entries) = provider.
Proof.
  intros Ho. unfold with_options.
  assert (∀ s, rs_Store (foldl (λ s opt, opt s) s options) = rs_Store s) as H; [|apply H].
  induction Ho as [|o os Ho _ IH]; intros s; [done|]. simpl. by rewrite IH, Ho.
Qed.

Lemma check_network_keeps d h :
  keeps (λ s, rs_Store s = d ∧ rs_forkHeight s = h) check_network.
Proof.
  repeat first [apply keeps_ret|apply keeps_fail|apply keeps_res|apply keeps_get|apply keeps_if
               |apply keeps_modify; intros s Hs; exact Hs|apply keeps_bind; [|intros ?]].
Qed.

Lemma open_cache_keeps now d h :
  keeps (λ s, rs_Store s = d ∧ rs_forkHeight s = h) (open_cache now).
Proof.
  assert (keeps (λ s, rs_Store s = d ∧ rs_forkHeight s = h) (initializeCacheStore now)) as Hi.
  { repeat first [apply keeps_ret|apply keeps_fail|apply keeps_res|apply keeps_get
                 |apply keeps_modify; intros s Hs; try case_match; exact Hs
                 |apply keeps_bind; [|intros ?]]. }
  apply keeps_bind; [|intros [c|]].
  - intros s Hs. unfold disk_cache. case_bool_decide; [done|].
    specialize (Hi s Hs). by destruct (initializeCacheStore now s) as [[]?].
  - by apply keeps_modify.
  - apply keeps_bind; [apply keeps_res|intros _]. by apply keeps_modify.
Qed.

Lemma remote_New_inv provider options entries now s :
  New provider options entries now = (Ok (), s) → Forall plain_option options →
  ∃ s0 s1, rs_Store s0 = provider ∧
           rs_forkHeight s0 = rs_forkHeight (with_options provider options entries) ∧
           initializeStartBlock s0 = (Ok (), s1) ∧
           rs_Store s = rs_Store s1 ∧ rs_forkHeight s = rs_forkHeight s1.
Proof.
  intros H Ho. unfold New in H. apply ST_bind_Ok in H as ([] & s0 & H0 & H).
  apply ST_bind_Ok in H as ([] & s1 & H1 & H). exists s0, s1.
  pose proof (check_network_keeps provider _ _
    (conj (with_options_Store provider options entries Ho) eq_refl)) as Hk.
  pose proof (open_cache_keeps now _ _ s1 (conj eq_refl eq_refl)) as Hk'.
  rewrite H0 in Hk. rewrite H in Hk'. tauto.
Qed.

Lemma start_stored s s' h :
  DefaultStore.ForkedBlockHeight (rs_Store s) = Ok h → 0 < h →
  initializeStartBlock s = (Ok (), s') → rs_forkHeight s' = h ∧ rs_Store s' = rs_Store s.
Proof.
  intros Hf Hh Hrun. unfold initializeStartBlock in Hrun.
  rewrite (ST_bind_step _ _ s (Some h) s) in Hrun
    by (unfold st_read; by rewrite Hf, bool_decide_eq_true_2).
  apply ST_bind_Ok in Hrun as (u & s1 & [= <- <-] & Hrun).
  apply ST_bind_Ok in Hrun as (m & s2 & Hm & Hrun). unfold st_res in Hm. injection Hm as _ <-.
  by injection Hrun as <-.
Qed.

(** A database without data: what [sqlite.New] creates. *)
Lemma global_set_ok (d : Sqlite.Store) k v :
  Sqlite.tables d !! globalStoreName = Some ∅ → set_ok d globalStoreName k v.
Proof.
  intros Ht. split_and!; [apply Sqlite.zero_small|by split|]. exists ∅. split; [done|].
  intros p Hp. by rewrite lookup_empty in Hp.
Qed.

Lemma empty_not_forked (d : Sqlite.Store) :
  Sqlite.tables d !! globalStoreName = Some ∅ →
  DefaultStore.ForkedBlockHeight d = Err ErrNotFound.
Proof.
  intros Ht. unfold DefaultStore.ForkedBlockHeight. change (Storage globalStoreName) with globalStoreName.
  simpl. unfold Sqlite.sq_GetBytes. erewrite Sqlite.read_at by (apply Sqlite.zero_small || exact Ht).
  unfold selected. by rewrite map_filter_empty, map_to_list_empty, limit1_nil.
Qed.

(** A number stored in the global table is read back. *)
Lemma store_number (d : Sqlite.Store) k (h : Z) d' :
  is_u64 h → set_ok d globalStoreName k (enc h) →
  SetBytes globalStoreName k (enc h) d = (Ok (), d') →
  (e ← GetBytes globalStoreName k d'; decodeUint64 e) = Ok h.
Proof.
  intros Hh Hok Hset. rewrite (get_set _ _ _ _ _ Hok Hset). cbn [mbind res_bind].
  by apply (unmarshal_enc (P := is_u64)).
Qed.

Lemma fork_recorded (d : Sqlite.Store) h d1 d2 :
  is_u64 h → Sqlite.tables d !! globalStoreName = Some ∅ →
  DefaultStore.StoreForkedBlockHeight h d = (Ok (), d1) →
  DefaultStore.SetBlockHeight h d1 = (Ok (), d2) →
  DefaultStore.ForkedBlockHeight d2 = Ok h ∧ DefaultStore.LatestBlockHeight d2 = Ok h.
Proof.
  intros Hh Ht H1 H2.
  unfold DefaultStore.StoreForkedBlockHeight, DefaultStore.SetBlockHeight, mustEncodeUint64 in H1, H2.
  rewrite (marshal_enc h Hh) in H1, H2. change (Storage globalStoreName) with globalStoreName in *.
  change ((enc ← st_res (Ok (enc h)); SetBytes globalStoreName ForkedBlock enc) d)
    with (SetBytes globalStoreName ForkedBlock (enc h) d) in H1.
  change ((st_modify (set_CurrentHeight h) ;;
           enc ← st_res (Ok (enc h)); SetBytes globalStoreName DefaultKeyGenerator.LatestBlock enc) d1)
    with (SetBytes globalStoreName DefaultKeyGenerator.LatestBlock (enc h) (set_CurrentHeight h d1)) in H2.
  assert (∀ k v, set_ok (set_CurrentHeight h d1) globalStoreName k v) as Hok.
  { intros k v. refine (set_ok_set d _ _ _ d1 globalStoreName k v _ H1). by apply global_set_ok. }
  split.
  - unfold DefaultStore.ForkedBlockHeight. change (Storage globalStoreName) with globalStoreName.
    assert ((globalStoreName, DefaultKeyGenerator.LatestBlock) ≠ (globalStoreName, ForkedBlock))
      as Hne by (intros Heq; by apply (f_equal snd), LatestBlock_ForkedBlock in Heq).
    rewrite (get_set_ne _ _ _ _ _ _ _ Hne H2).
    rewrite get_height. by apply (store_number d ForkedBlock h); [|apply global_set_ok|].
  - by apply (store_number (set_CurrentHeight h d1) DefaultKeyGenerator.LatestBlock h).
Qed.

(** The configured fork height, or ten below the node's latest height. *)
Definition start_height (configured : Z) (h : Z) : Prop :=
  if bool_decide (configured = 0)
  then ∃ resp, rpc_LatestBlockHeader = Ok resp ∧ h = u64 (msg_Height resp - blockBuffer)
  else h = configured.

Lemma start_fresh s s' :
  Sqlite.tables (rs_Store s) !! globalStoreName = Some ∅ → is_u64 (rs_forkHeight s') →
  initializeStartBlock s = (Ok (), s') →
  start_height (rs_forkHeight s) (rs_forkHeight s') ∧
  DefaultStore.ForkedBlockHeight (rs_Store s') = Ok (rs_forkHeight s') ∧
  DefaultStore.LatestBlockHeight (rs_Store s') = Ok (rs_forkHeight s').
Proof.
  intros Ht Hu Hrun. unfold initializeStartBlock in Hrun.
  rewrite (ST_bind_step _ _ s None s) in Hrun by (unfold st_read; by rewrite empty_not_forked).
  apply ST_bind_Ok in Hrun as (? & ? & [= <- <-] & Hrun).
  apply ST_bind_Ok in Hrun as (? & s1 & Hcfg & Hrun).
  assert (rs_Store s1 = rs_Store s ∧ start_height (rs_forkHeight s) (rs_forkHeight s1)) as [Hs1 Hst].
  { unfold start_height. case_bool_decide as Hz; [|by injection Hcfg as _ <-].
    apply ST_bind_Ok in Hcfg as (resp & s0 & Hr & Hcfg). unfold st_res in Hr.
    destruct rpc_LatestBlockHeader as [m|]; [|done]. injection Hr as <- <-.
    injection Hcfg as _ <-. split; [done|]. by exists m. }
  apply ST_bind_Ok in Hrun as (h & ? & [= <- <-] & Hrun).
  apply ST_bind_Ok in Hrun as (resp & s2 & Hr & Hrun).
  unfold st_res in Hr. injection Hr as _ <-.
  apply ST_bind_Ok in Hrun as (? & ? & [= _ <-] & Hrun).
  apply ST_bind_Ok in Hrun as (? & s3 & H3 & H4).
  unfold on_overlay in H3, H4. cbn [rs_Store set_forkBlockID] in H3. rewrite Hs1 in H3.
  destruct (DefaultStore.StoreForkedBlockHeight _ (rs_Store s)) as [[[]|] d1] eqn:E1; [|done].
  injection H3 as _ <-. cbn [rs_Store set_Store] in H4.
  destruct (DefaultStore.SetBlockHeight _ d1) as [[[]|] d2] eqn:E2; [|done].
  injection H4 as <-. cbn [rs_Store rs_forkHeight set_Store set_forkBlockID] in *.
  split; [done|]. by eapply fork_recorded.
Qed.
End one_node.

(** (remote/store.go, New, initializeStartBlock): a store that forks a
    network on a new database is at the configured height or, when there is
    none, ten blocks below the node's latest block, and its latest block is
    that height.  After any local writes, failed ones included, a restart on
    the same database forks at the same height, whatever the options say and
    whatever the node answers now. *)
Theorem fork_height_survives_restart (AN AN' : AccessNode) url id options options' entries entries'
    now now' ws (s : Store) (s' : Store) :
  New (AN := AN) (Sqlite.New url id ∅) options entries now = (Ok (), s) →
  Forall plain_option options → 0 < rs_forkHeight s < two64 →
  New (AN := AN') (apply_writes ws (rs_Store s)) options' entries' now' = (Ok (), s') →
  Forall plain_option options' →
  start_height (AN := AN) (rs_forkHeight (with_options (Sqlite.New url id ∅) options entries))
    (rs_forkHeight s) ∧
  DefaultStore.LatestBlockHeight (rs_Store s) = Ok (rs_forkHeight s) ∧
  rs_forkHeight s' = rs_forkHeight s ∧ rs_Store s' = apply_writes ws (rs_Store s).
Proof.
  intros HN Ho Hpos HN' Ho'.
  destruct (remote_New_inv _ _ _ _ _ HN Ho) as (s0 & s1 & Hs0 & Hc & H1 & E1 & E2).
  destruct (remote_New_inv _ _ _ _ _ HN' Ho') as (s0' & s1' & Hs0' & _ & H1' & E1' & E2').
  rewrite E2 in Hpos. destruct (start_fresh (AN := AN) s0 s1) as (Hst & Hf & Hl); [|by unfold is_u64; lia|done|].
  { rewrite Hs0. unfold Sqlite.tables, Sqlite.New. cbn [Sqlite.sq_databases Sqlite.sq_db].
    by rewrite lookup_insert_eq. }
  rewrite E1, E2. destruct (start_stored (AN := AN') s0' s1' (rs_forkHeight s1)) as [Hh Hs]; [|lia|done|].
  { rewrite Hs0'. unfold DefaultStore.ForkedBlockHeight.
    change (Storage globalStoreName) with globalStoreName. by rewrite writes_keep_fork, E1. }
  rewrite E1', E2', Hh, Hs, Hs0', E1, <- Hc. done.
Qed.
End restart.

(** * Pruning the caches *)

Section pruning.
Context {FS : FileSystem} {SS : SortSlice}.

(** An entry that is a readable cache. *)
Definition cache_of (e : DirEntry) : option cacheInfo :=
  if de_IsDir e
  then match de_ModTime e, de_Size e with
       | Some t, Some n => Some (mkCacheInfo (de_Name e) t n)
       | _, _ => None
       end
  else None.

Lemma cache_of_path e c : cache_of e = Some c → ci_path c = de_Name e.
Proof. unfold cache_of. repeat case_match; by intros [= <-]. Qed.

Lemma elem_of_getCaches c entries : c ∈ getCaches entries ↔ ∃ e, e ∈ entries ∧ cache_of e = Some c.
Proof. apply list_elem_of_omap. Qed.

Lemma getCaches_paths entries :
  NoDup (de_Name <$> entries) → NoDup (ci_path <$> getCaches entries).
Proof.
  induction entries as [|e es IH]; [done|]. rewrite fmap_cons. intros [Hn Hd]%list.NoDup_cons.
  unfold getCaches. cbn [omap list_omap]. fold (cache_of e) (getCaches es).
  destruct (cache_of e) as [c|] eqn:Hc; [|by apply IH]. rewrite fmap_cons. apply list.NoDup_cons.
  split; [|by apply IH]. rewrite (cache_of_path e c Hc). contradict Hn.
  apply list_elem_of_fmap in Hn as (c' & -> & (e' & He' & Hc')%elem_of_getCaches).
  rewrite (cache_of_path _ _ Hc'). apply list_elem_of_fmap. by exists e'.
Qed.

Lemma filter_sorted (P : cacheInfo → Prop) `{∀ c, Decision (P c)} R l :
  StronglySorted R l → StronglySorted R (filter P l).
Proof.
  induction 1 as [|x l Hl IH Hx]; [constructor|]. rewrite filter_cons. case_decide; [|done].
  constructor; [done|]. rewrite list.Forall_forall in *. intros y [_ Hy]%list_elem_of_filter. auto.
Qed.

Section one_prune.
Context (now : Time) (entries : list DirEntry) (Hnames : NoDup (de_Name <$> entries)).
Let sorted := sort_Slice (getCaches entries).
Let kept := filter (λ c, ¬ expired (now - DefaultTTL) c) sorted.
Let n := (length kept - DefaultMaxCacheCount)%nat.

Lemma sorted_elem c : c ∈ sorted ↔ c ∈ getCaches entries.
Proof. unfold sorted. by rewrite sort_Slice_perm. Qed.

Lemma same_path c c' : c ∈ sorted → c' ∈ sorted → ci_path c = ci_path c' → c = c'.
Proof.
  rewrite !sorted_elem. intros Hc Hc' Hp. pose proof (getCaches_paths entries Hnames) as Hnd.
  apply list_elem_of_lookup in Hc as [i Hi]. apply list_elem_of_lookup in Hc' as [j Hj].
  assert (i = j) as ->; [|congruence].
  eapply NoDup_lookup; [exact Hnd|..]; rewrite list_lookup_fmap; [by rewrite Hi|].
  by rewrite Hj, Hp.
Qed.

Lemma kept_NoDup : NoDup kept.
Proof.
  apply list.NoDup_filter. unfold sorted. rewrite sort_Slice_perm.
  eapply (NoDup_fmap_1 ci_path). by apply getCaches_paths.
Qed.

(** The caches that are not removed: the last ones of the recent caches. *)
Lemma survivor c :
  c ∈ sorted → ci_path c ∉ ci_path <$> prunable now entries ↔ c ∈ drop n kept.
Proof.
  intros Hc. unfold prunable. fold sorted kept. fold n.
  assert (ci_path c ∈ ci_path <$> (filter (expired (now - DefaultTTL)) sorted ++ take n kept) ↔
          c ∈ filter (expired (now - DefaultTTL)) sorted ∨ c ∈ take n kept) as ->.
  { rewrite list_elem_of_fmap, <- elem_of_app. split; [|by exists c].
    intros (c' & Hp & Hc'). assert (c' ∈ sorted) as Hs'.
    { apply elem_of_app in Hc' as [[_ ?]%list_elem_of_filter|Hc']; [done|].
      apply elem_of_take in Hc' as (i & Hi%list_elem_of_lookup_2 & _).
      by apply list_elem_of_filter in Hi as [_ ?]. }
    by rewrite (same_path c c'). }
  pose proof kept_NoDup as Hnd. rewrite <- (take_drop n kept) in Hnd.
  apply list.NoDup_app in Hnd as (_ & Hdis & _).
  assert (c ∈ drop n kept → c ∈ kept) as Hdk
    by (intros ?; rewrite <- (take_drop n kept); apply elem_of_app; by right).
  split.
  - intros Hn. destruct (decide (expired (now - DefaultTTL) c)) as [He|He].
    { exfalso. apply Hn. left. by apply list_elem_of_filter. }
    assert (c ∈ kept) as Hk by by apply list_elem_of_filter.
    rewrite <- (take_drop n kept) in Hk. apply elem_of_app in Hk as [?|?]; [|done].
    exfalso. apply Hn. by right.
  - intros Hd [[He _]%list_elem_of_filter|Ht]; [|by eapply Hdis].
    apply Hdk, list_elem_of_filter in Hd as [? _]. done.
Qed.

Lemma survivors baseDir entries' :
  (∀ p, os_RemoveAll p = None) → pruneCache baseDir now entries = Ok entries' →
  getCaches entries' ≡ₚ drop n kept.
Proof.
  intros Hrm H. unfold pruneCache in H. destruct os_ReadDir; [done|]. injection H as <-.
  set (es := filter _ entries).
  assert (∀ e, e ∈ es ↔ e ∈ entries ∧ de_Name e ∉ ci_path <$> prunable now entries) as Hes.
  { intros e. unfold es, remains. rewrite list_elem_of_filter, Hrm, is_Some_alt. tauto. }
  apply list.NoDup_Permutation.
  - eapply (NoDup_fmap_1 ci_path), getCaches_paths.
    eapply sublist_NoDup; [exact Hnames|]. apply (fmap_sublist de_Name), sublist_filter.
  - pose proof kept_NoDup as Hnd. rewrite <- (take_drop n kept) in Hnd. by apply list.NoDup_app in Hnd as (_ & _ & ?).
  - intros c. rewrite elem_of_getCaches. split.
    + intros (e & [He Hn]%Hes & Hc). apply survivor.
      * apply sorted_elem, elem_of_getCaches. by exists e.
      * by rewrite (cache_of_path e c Hc).
    + intros Hd. assert (c ∈ sorted) as Hs.
      { assert (c ∈ kept) as [_ ?]%list_elem_of_filter; [|done].
        rewrite <- (take_drop n kept). apply elem_of_app. by right. }
      pose proof (proj2 (survivor c Hs) Hd) as Hn.
      apply sorted_elem, elem_of_getCaches in Hs as (e & He & Hc). exists e. split; [|done].
      apply Hes. by rewrite <- (cache_of_path e c Hc).
Qed.

Lemma kept_sorted : StronglySorted (λ a b, ci_accessTime a ≤ ci_accessTime b) (take n kept ++ drop n kept).
Proof. rewrite take_drop. apply filter_sorted, sort_Slice_sorted. Qed.

Lemma kept_recent c : c ∈ drop n kept → now - DefaultTTL ≤ ci_accessTime c.
Proof.
  intros Hd. assert (c ∈ kept) as [He _]%list_elem_of_filter.
  { rewrite <- (take_drop n kept). apply elem_of_app. by right. }
  unfold expired in He. lia.
Qed.

Lemma removed_older c c' :
  c ∈ sorted → c ∉ drop n kept → c' ∈ drop n kept → ci_accessTime c ≤ ci_accessTime c'.
Proof.
  intros Hc Hn Hc'. destruct (decide (expired (now - DefaultTTL) c)) as [He|He].
  { pose proof (kept_recent c' Hc'). unfold expired in He. lia. }
  eapply (StronglySorted_app_1_elem_of _ _ _ _ _ kept_sorted); [|done].
  assert (c ∈ kept) as Hk by by apply list_elem_of_filter.
  rewrite <- (take_drop n kept) in Hk. by apply elem_of_app in Hk as [?|?].
Qed.
End one_prune.

(** (remote/store.go, pruneCache): when the removals succeed, at most ten
    readable caches remain, none of them last used more than thirty days ago;
    what was removed is not newer than what remains, and a cache of the last
    thirty days is removed only when ten remain. *)
Theorem pruneCache_keeps_newest (baseDir : string) (now : Time) (entries entries' : list DirEntry) :
  NoDup (de_Name <$> entries) → (∀ p, os_RemoveAll p = None) →
  pruneCache baseDir now entries = Ok entries' →
  (length (getCaches entries') ≤ DefaultMaxCacheCount)%nat ∧
  (∀ c, c ∈ getCaches entries' → c ∈ getCaches entries ∧ now - DefaultTTL ≤ ci_accessTime c) ∧
  (∀ c, c ∈ getCaches entries → c ∉ getCaches entries' →
     (∀ c', c' ∈ getCaches entries' → ci_accessTime c ≤ ci_accessTime c') ∧
     (now - DefaultTTL ≤ ci_accessTime c → length (getCaches entries') = DefaultMaxCacheCount)).
Proof.
  intros Hnd Hrm Hp. pose proof (survivors now entries Hnd baseDir entries' Hrm Hp) as Hs.
  setoid_rewrite Hs. rewrite length_drop. set (kept := filter _ _).
  split_and!.
  - lia.
  - intros c Hc. split; [|by eapply kept_recent]. apply sorted_elem.
    assert (c ∈ kept) as [_ ?]%list_elem_of_filter; [|done].
    rewrite <- (take_drop (length kept - DefaultMaxCacheCount) kept). apply elem_of_app. by right.
  - intros c Hc%sorted_elem Hn. split; [intros c' Hc'; by eapply removed_older|].
    intros Hrec. assert (c ∈ kept) as Hk by (apply list_elem_of_filter; unfold expired; split; [lia|done]).
    destruct (decide (length kept ≤ DefaultMaxCacheCount)%nat) as [Hle|]; [|lia].
    exfalso. apply Hn. by replace (length kept - DefaultMaxCacheCount)%nat with 0%nat by lia.
Qed.
End pruning.

(** * Blocks *)

Section blocks.
Context {FM : FlowModel} {CD : Codecs} {GO : GoMapOrder} {SE : SqlEngine} {AN : AccessNode}.

(** (BlockByHeight, BlockByID, LatestBlock): a block of the overlay is
    returned as it is; another height up to the latest one is answered from the
    node's header, with an empty payload; a height above the latest is not
    found without asking the node; and a block ID that the overlay does not
    have is looked up by the height the node knows for it. *)
Theorem fork_blocks (s : Store) (h latest : Z) :
  DefaultStore.LatestBlockHeight (rs_Store s) = Ok latest →
  (∀ block, DefaultStore.BlockByHeight h (rs_Store s) = Ok block → BlockByHeight h s = Ok block) ∧
  (∀ err, DefaultStore.BlockByHeight h (rs_Store s) = Err err →
     (latest < h → BlockByHeight h s = Err (BlockNotFoundByHeightError h)) ∧
     (h ≤ latest → ∀ m header, rpc_BlockHeaderByHeight h = Ok m → MessageToBlockHeader m = Ok header →
        BlockByHeight h s = Ok (mkBlock (Header_HeaderBody header) NewEmptyPayload))) ∧
  (∀ id m, DefaultStore.BlockByID id (rs_Store s) = Err ErrNotFound → rpc_BlockHeaderByID id = Ok m →
     BlockByID id s = BlockByHeight (msg_Height m) s) ∧
  LatestBlock s = BlockByHeight latest s.
Proof.
  intros Hl. unfold BlockByID, LatestBlock, BlockByHeight. rewrite Hl. cbn [map_err mbind res_bind].
  split_and!; [by intros block ->| | |done].
  - intros err ->. split; intros Hh.
    + by rewrite bool_decide_eq_true_2.
    + intros m header Hm Hhd. rewrite bool_decide_eq_false_2 by lia.
      rewrite Hm. cbn [mbind res_bind]. by rewrite Hhd.
  - intros id m -> Hm. by rewrite Hm.
Qed.
End blocks.
