(* ===== verification/Report.v ===== *)
(** The computation report: emulator/computation_report.go.

    The kinds of metered computation are flow-go's and Cadence's constants; the
    report names them.  [transformIntensities] ranges over a Go map, whose order
    is unspecified; the names of the kinds are distinct, so that the report does
    not depend on the order and loses no entry. *)
From S2P Require Import Prelude FlowTypes Errors.

Inductive ComputationKind :=
  | KindStatement | KindLoop | KindFunctionInvocation | KindCreateCompositeValue |
  KindTransferCompositeValue | KindDestroyCompositeValue | KindCreateArrayValue |
  KindTransferArrayValue | KindDestroyArrayValue | KindCreateDictionaryValue |
  KindTransferDictionaryValue | KindDestroyDictionaryValue | KindEncodeValue | KindSTDLIBPanic |
  KindSTDLIBAssert | KindSTDLIBRevertibleRandom | KindSTDLIBRLPDecodeString |
  KindSTDLIBRLPDecodeList | KindHash | KindVerifySignature | KindAddAccountKey |
  KindAddEncodedAccountKey | KindAllocateSlabIndex | KindCreateAccount | KindEmitEvent |
  KindGenerateUUID | KindGetAccountAvailableBalance | KindGetAccountBalance |
  KindGetAccountContractCode | KindGetAccountContractNames | KindGetAccountKey |
  KindGetBlockAtHeight | KindGetCode | KindGetCurrentBlockHeight | KindGetStorageCapacity |
  KindGetStorageUsed | KindGetValue | KindRemoveAccountContractCode | KindResolveLocation |
  KindRevokeAccountKey | KindSetValue | KindUpdateAccountContractCode | KindValidatePublicKey |
  KindValueExists | KindAccountKeysCount | KindBLSVerifyPOP | KindBLSAggregateSignatures |
  KindBLSAggregatePublicKeys | KindGetOrLoadProgram | KindGenerateAccountLocalID |
  KindGetRandomSourceHistory | KindEVMGasUsage | KindRLPEncoding | KindRLPDecoding |
  KindEncodeEvent | KindEVMEncodeABI | KindEVMDecodeABI
  | OtherKind (n : Z).
#[global] Instance ComputationKind_eq_dec : EqDecision ComputationKind.
Proof. solve_decision. Defined.

(** [kind.String()] of a kind the switch has no case for. *)
Class KindString := kind_String : Z → string.

(** The cases of the switch, in its order. *)
Definition named_kinds : list (ComputationKind * string) := [
  (KindStatement, "Statement"%string);
  (KindLoop, "Loop"%string);
  (KindFunctionInvocation, "FunctionInvocation"%string);
  (KindCreateCompositeValue, "CreateCompositeValue"%string);
  (KindTransferCompositeValue, "TransferCompositeValue"%string);
  (KindDestroyCompositeValue, "DestroyCompositeValue"%string);
  (KindCreateArrayValue, "CreateArrayValue"%string);
  (KindTransferArrayValue, "TransferArrayValue"%string);
  (KindDestroyArrayValue, "DestroyArrayValue"%string);
  (KindCreateDictionaryValue, "CreateDictionaryValue"%string);
  (KindTransferDictionaryValue, "TransferDictionaryValue"%string);
  (KindDestroyDictionaryValue, "DestroyDictionaryValue"%string);
  (KindEncodeValue, "EncodeValue"%string);
  (KindSTDLIBPanic, "STDLIBPanic"%string);
  (KindSTDLIBAssert, "STDLIBAssert"%string);
  (KindSTDLIBRevertibleRandom, "STDLIBRevertibleRandom"%string);
  (KindSTDLIBRLPDecodeString, "STDLIBRLPDecodeString"%string);
  (KindSTDLIBRLPDecodeList, "STDLIBRLPDecodeList"%string);
  (KindHash, "Hash"%string);
  (KindVerifySignature, "VerifySignature"%string);
  (KindAddAccountKey, "AddAccountKey"%string);
  (KindAddEncodedAccountKey, "AddEncodedAccountKey"%string);
  (KindAllocateSlabIndex, "AllocateSlabIndex"%string);
  (KindCreateAccount, "CreateAccount"%string);
  (KindEmitEvent, "EmitEvent"%string);
  (KindGenerateUUID, "GenerateUUID"%string);
  (KindGetAccountAvailableBalance, "GetAccountAvailableBalance"%string);
  (KindGetAccountBalance, "GetAccountBalance"%string);
  (KindGetAccountContractCode, "GetAccountContractCode"%string);
  (KindGetAccountContractNames, "GetAccountContractNames"%string);
  (KindGetAccountKey, "GetAccountKey"%string);
  (KindGetBlockAtHeight, "GetBlockAtHeight"%string);
  (KindGetCode, "GetCode"%string);
  (KindGetCurrentBlockHeight, "GetCurrentBlockHeight"%string);
  (KindGetStorageCapacity, "GetStorageCapacity"%string);
  (KindGetStorageUsed, "GetStorageUsed"%string);
  (KindGetValue, "GetValue"%string);
  (KindRemoveAccountContractCode, "RemoveAccountContractCode"%string);
  (KindResolveLocation, "ResolveLocation"%string);
  (KindRevokeAccountKey, "RevokeAccountKey"%string);
  (KindSetValue, "SetValue"%string);
  (KindUpdateAccountContractCode, "UpdateAccountContractCode"%string);
  (KindValidatePublicKey, "ValidatePublicKey"%string);
  (KindValueExists, "ValueExists"%string);
  (KindAccountKeysCount, "AccountKeysCount"%string);
  (KindBLSVerifyPOP, "BLSVerifyPOP"%string);
  (KindBLSAggregateSignatures, "BLSAggregateSignatures"%string);
  (KindBLSAggregatePublicKeys, "BLSAggregatePublicKeys"%string);
  (KindGetOrLoadProgram, "GetOrLoadProgram"%string);
  (KindGenerateAccountLocalID, "GenerateAccountLocalID"%string);
  (KindGetRandomSourceHistory, "GetRandomSourceHistory"%string);
  (KindEVMGasUsage, "EVMGasUsage"%string);
  (KindRLPEncoding, "RLPEncoding"%string);
  (KindRLPDecoding, "RLPDecoding"%string);
  (KindEncodeEvent, "EncodeEvent"%string);
  (KindEVMEncodeABI, "EVMEncodeABI"%string);
  (KindEVMDecodeABI, "EVMDecodeABI"%string)].

Definition kind_code (k : ComputationKind) : nat + Z :=
  match k with
  | OtherKind n => inr n
  | _ => inl (default 0%nat (fst <$> list_find (λ p, p.1 = k) named_kinds))
  end.
Definition kind_of_code (c : nat + Z) : ComputationKind :=
  match c with
  | inr n => OtherKind n
  | inl i => default (OtherKind 0) (fst <$> named_kinds !! i)
  end.
#[global] Instance ComputationKind_countable : Countable ComputationKind.
Proof. refine (inj_countable' kind_code kind_of_code _). by intros []. Defined.

Record ProcedureReport := mkProcedureReport {
  pr_Path : string;
  pr_ComputationUsed : Z;
  pr_Intensities : gmap string Z;
  pr_MemoryEstimate : Z;
  pr_Code : string;
  pr_Arguments : list string
}.
Record ComputationReport := mkComputationReport {
  cr_Scripts : gmap string ProcedureReport;
  cr_Transactions : gmap string ProcedureReport
}.

Section report.
Context {KS : KindString} {GO : GoMapOrder}.

(** The key of a kind in the report. *)
Definition kind_name (k : ComputationKind) : string :=
  match list_find (λ p, p.1 = k) named_kinds with
  | Some (_, (_, name)) => name
  | None => match k with OtherKind n => kind_String n | _ => "" end
  end.

Definition transformIntensities (intensities : gmap ComputationKind Z) : gmap string Z :=
  foldl (λ result p, <[kind_name p.1 := p.2]> result) ∅ (map_range intensities).

Definition ReportTransaction (id : string) (computationUsed memoryEstimate : Z)
    (path code : string) (arguments : list string) (intensities : gmap ComputationKind Z)
    (cr : ComputationReport) : ComputationReport :=
  mkComputationReport (cr_Scripts cr)
    (<[id := mkProcedureReport path computationUsed (transformIntensities intensities)
               memoryEstimate code arguments]> (cr_Transactions cr)).

Definition ReportScript (id : string) (computationUsed memoryEstimate : Z)
    (path code : string) (arguments : list string) (intensities : gmap ComputationKind Z)
    (cr : ComputationReport) : ComputationReport :=
  mkComputationReport
    (<[id := mkProcedureReport path computationUsed (transformIntensities intensities)
               memoryEstimate code arguments]> (cr_Scripts cr))
    (cr_Transactions cr).

(** ** No entry is lost *)

Definition is_named (k : ComputationKind) : Prop :=
  match k with OtherKind _ => False | _ => True end.

Definition index_of_name (name : string) : option nat :=
  fst <$> list_find (λ p, p.2 = name) named_kinds.
Definition index_of_kind (k : ComputationKind) : option nat :=
  fst <$> list_find (λ p, p.1 = k) named_kinds.

(** The name of a kind has the position of the kind: no name occurs twice. *)
Lemma named_kinds_names k : is_named k → index_of_name (kind_name k) = index_of_kind k.
Proof. intros Hk. destruct k; [vm_compute; reflexivity..|destruct Hk]. Qed.

Lemma index_of_kind_inj k1 k2 :
  is_named k1 → index_of_kind k1 = index_of_kind k2 → k1 = k2.
Proof.
  unfold index_of_kind. intros Hn.
  destruct (list_find _ named_kinds) as [[i p]|] eqn:H1.
  - destruct (list_find (λ p, p.1 = k2) named_kinds) as [[j q]|] eqn:H2; [|discriminate].
    intros [= ->]. apply list_find_Some in H1 as (H1 & <- & _).
    apply list_find_Some in H2 as (H2 & <- & _). congruence.
  - exfalso. destruct k1; [vm_compute in H1; discriminate..|destruct Hn].
Qed.

Lemma kind_name_inj k1 k2 :
  is_named k1 → is_named k2 → kind_name k1 = kind_name k2 → k1 = k2.
Proof.
  intros H1 H2 He. apply index_of_kind_inj; [done|].
  by rewrite <- !named_kinds_names, He.
Qed.

Lemma foldl_report ws (m : gmap string Z) name :
  foldl (λ result p, <[kind_name p.1 := p.2]> result) m ws !! name =
  match last_write name ((λ p, (kind_name p.1, p.2)) <$> ws) with
  | Some v => Some v | None => m !! name end.
Proof.
  induction ws as [|w ws IH] using rev_ind; [done|].
  rewrite foldl_app, fmap_app. simpl. rewrite (last_write_snoc name (_ <$> ws)). simpl.
  rewrite lookup_insert, IH. by case_decide.
Qed.

(** (computation_report.go, transformIntensities): whatever order the map is
    visited in, the report gives for the name of every metered kind of the
    table exactly its intensity, when the names of the other kinds are not in
    the table. *)
Theorem transformIntensities_exact (intensities : gmap ComputationKind Z) k :
  is_named k →
  (∀ n k', intensities !! OtherKind n = Some k' → kind_String n ≠ kind_name k) →
  transformIntensities intensities !! kind_name k = intensities !! k.
Proof.
  intros Hk Hother. unfold transformIntensities. rewrite foldl_report.
  rewrite <- (last_write_map_range intensities k).
  assert (∀ p, p ∈ map_range intensities → kind_name p.1 = kind_name k → p.1 = k) as Hinj.
  { intros [k' v] Hin%elem_of_map_range He. simpl in *.
    assert (is_named k' ∨ ∃ n, k' = OtherKind n) as [Hn|[n ->]]
      by (destruct k'; [by left..|by right; eexists]); [by apply kind_name_inj|].
    exfalso. by apply (Hother n v Hin). }
  revert Hinj. generalize (map_range intensities). intros ws.
  induction ws as [|p ws IH] using rev_ind; intros Hinj; [done|].
  rewrite fmap_app. setoid_rewrite last_write_snoc. simpl.
  destruct (decide (p.1 = k)) as [->|Hne]; [by rewrite decide_True|].
  rewrite decide_False.
  - apply IH. intros q Hq. apply Hinj, elem_of_app. by left.
  - intros He. apply Hne, (Hinj p); [|done]. apply elem_of_app. right. left.
Qed.
End report.
