(* ===== verification/Convert.v ===== *)
(** Conversions between the SDK's and flow-go's data: convert/flow.go,
    convert/vm.go and convert/emu.go.

    Cadence values and their CCF encoding are parameters ([Cadence]); the rest
    is translated field by field.  The round trips show that nothing is lost. *)
From S2P Require Import Prelude FlowTypes Errors Storage Report.

(** * Cadence values (github.com/onflow/cadence) *)

Class Cadence := {
  cadence_Value : Type;
  cadence_Event : Type;
  (** The dynamic type of a value: an event, an unsigned 64-bit integer. *)
  as_Event : cadence_Value → option cadence_Event;
  as_UInt64 : cadence_Value → option Z;
  of_Event : cadence_Event → cadence_Value;
  cadence_String : cadence_Value → string;
  SearchFieldByName : cadence_Event → string → option cadence_Value;
  (** [ccf.EventsEncMode.Encode], [ccf.EventsDecMode.Decode], [ccf.Decode] *)
  ccf_Encode : cadence_Value → result Bytes;
  ccf_EventsDecode : Bytes → result cadence_Value;
  ccf_Decode : Bytes → result cadence_Value
}.

(** Encoding an event gives bytes that decode to it; the decoded value of
    bytes encodes back to them (CCF's canonical encoding). *)
Class CadenceLaws (CA : Cadence) : Prop := {
  as_of_Event e : as_Event (of_Event e) = Some e;
  of_as_Event v e : as_Event v = Some e → of_Event e = v;
  ccf_decode_encode v bs : ccf_Encode v = Ok bs → ccf_EventsDecode bs = Ok v;
  ccf_encode_decode bs v : ccf_EventsDecode bs = Ok v → ccf_Encode v = Ok bs;
  as_UInt64_range v n : as_UInt64 v = Some n → is_u64 n
}.

(** * The SDK's data (github.com/onflow/flow-go-sdk) *)

Abbreviation sdk_Identifier := (vec byte 32).
Abbreviation sdk_Address := (vec byte 8).

Record sdk_ProposalKey := mkSdkProposalKey {
  spk_Address : sdk_Address; spk_KeyIndex : Z; spk_SequenceNumber : Z
}.
Record sdk_TransactionSignature := mkSdkSignature {
  ssig_Address : sdk_Address; ssig_SignerIndex : Z; ssig_KeyIndex : Z; ssig_Signature : Bytes
}.
Record sdk_Transaction := mkSdkTransaction {
  stx_ReferenceBlockID : sdk_Identifier;
  stx_Script : Bytes;
  stx_Arguments : list Bytes;
  stx_GasLimit : Z;
  stx_ProposalKey : sdk_ProposalKey;
  stx_Payer : sdk_Address;
  stx_Authorizers : list sdk_Address;
  stx_PayloadSignatures : list sdk_TransactionSignature;
  stx_EnvelopeSignatures : list sdk_TransactionSignature
}.
Record sdk_Collection := mkSdkCollection { sc_TransactionIDs : list sdk_Identifier }.

(** A public key with its algorithms: opaque to the emulator. *)
Class Crypto := {
  PublicKey : Type;
  SigningAlgorithm : Type;
  HashingAlgorithm : Type;
  PrivateKey : Type;
  (** [privateKey.PublicKey()] *)
  public_key : PrivateKey → PublicKey
}.

Section keys.
Context {CR : Crypto}.
Record AccountPublicKey := mkAccountPublicKey {
  apk_Index : Z; apk_PublicKey : PublicKey; apk_SignAlgo : SigningAlgorithm;
  apk_HashAlgo : HashingAlgorithm; apk_SeqNumber : Z; apk_Weight : Z; apk_Revoked : bool
}.
Record sdk_AccountKey := mkSdkAccountKey {
  sak_Index : Z; sak_PublicKey : PublicKey; sak_SigAlgo : SigningAlgorithm;
  sak_HashAlgo : HashingAlgorithm; sak_Weight : Z; sak_SequenceNumber : Z; sak_Revoked : bool
}.
Record Account := mkAccount {
  acc_Address : Address; acc_Balance : Z; acc_Keys : list AccountPublicKey;
  acc_Contracts : gmap string Bytes
}.
Record sdk_Account := mkSdkAccount {
  sacc_Address : sdk_Address; sacc_Balance : Z; sacc_Code : Bytes;
  sacc_Keys : list sdk_AccountKey; sacc_Contracts : gmap string Bytes
}.
End keys.

(** [flowgo.TransactionStatus] and the access model's transaction result. *)
Inductive TransactionStatus :=
  | StatusUnknown | StatusPending | StatusFinalized | StatusExecuted | StatusSealed | StatusExpired.
#[global] Instance TransactionStatus_eq_dec : EqDecision TransactionStatus.
Proof. solve_decision. Defined.

Record access_TransactionResult := mkAccessResult {
  ar_Status : TransactionStatus;
  ar_StatusCode : Z;
  ar_ErrorMessage : string;
  ar_Events : list Event;
  ar_TransactionID : Identifier;
  ar_BlockHeight : Z;
  ar_BlockID : Identifier;
  ar_CollectionID : Identifier
}.
#[global] Instance access_TransactionResult_eq_dec : EqDecision access_TransactionResult.
Proof. solve_decision. Defined.

(** * What a procedure returns (flow-go, fvm.ProcedureOutput) *)

Record ProcedureOutput {CA : Cadence} := mkProcedureOutput {
  po_Logs : list string;
  po_Events : list Event;
  po_Value : option cadence_Value;
  po_ComputationUsed : Z;
  po_ComputationIntensities : gmap ComputationKind Z;
  po_MemoryEstimate : Z;
  po_Err : option CodedError
}.

Arguments mkProcedureOutput {CA}.

(** * The conversions *)

Section convert.
Context {CA : Cadence} {CR : Crypto}.

(** ** Events *)

Record sdk_Event := mkSdkEvent {
  sev_Type : string;
  sev_TransactionID : sdk_Identifier;
  sev_TransactionIndex : Z;
  sev_EventIndex : Z;
  sev_Value : cadence_Event
}.

Definition SDKIdentifierToFlow (i : sdk_Identifier) : Identifier := i.
Definition FlowIdentifierToSDK (i : Identifier) : sdk_Identifier := i.
Definition SDKIdentifiersToFlow (l : list sdk_Identifier) : list Identifier :=
  SDKIdentifierToFlow <$> l.
Definition FlowIdentifiersToSDK (l : list Identifier) : list sdk_Identifier :=
  FlowIdentifierToSDK <$> l.
Definition SDKAddressToFlow (a : sdk_Address) : Address := a.
Definition FlowAddressToSDK (a : Address) : sdk_Address := a.
Definition SDKAddressesToFlow (l : list sdk_Address) : list Address := SDKAddressToFlow <$> l.
Definition FlowAddressesToSDK (l : list Address) : list sdk_Address := FlowAddressToSDK <$> l.

Definition SDKProposalKeyToFlow (k : sdk_ProposalKey) : ProposalKey :=
  mkProposalKey (SDKAddressToFlow (spk_Address k)) (spk_KeyIndex k) (spk_SequenceNumber k).
Definition FlowProposalKeyToSDK (k : ProposalKey) : sdk_ProposalKey :=
  mkSdkProposalKey (FlowAddressToSDK (pk_Address k)) (pk_KeyIndex k) (pk_SequenceNumber k).

Definition SDKTransactionSignatureToFlow (s : sdk_TransactionSignature) : TransactionSignature :=
  mkSignature (SDKAddressToFlow (ssig_Address s)) (ssig_SignerIndex s) (ssig_KeyIndex s)
    (ssig_Signature s).
Definition FlowTransactionSignatureToSDK (s : TransactionSignature) : sdk_TransactionSignature :=
  mkSdkSignature (FlowAddressToSDK (sig_Address s)) (sig_SignerIndex s) (sig_KeyIndex s)
    (sig_Signature s).
Definition SDKTransactionSignaturesToFlow l : list TransactionSignature :=
  SDKTransactionSignatureToFlow <$> l.
Definition FlowTransactionSignaturesToSDK l : list sdk_TransactionSignature :=
  FlowTransactionSignatureToSDK <$> l.

Definition SDKTransactionToFlow (t : sdk_Transaction) : TransactionBody := {|
  tx_ReferenceBlockID := SDKIdentifierToFlow (stx_ReferenceBlockID t);
  tx_Script := stx_Script t;
  tx_Arguments := stx_Arguments t;
  tx_GasLimit := stx_GasLimit t;
  tx_ProposalKey := SDKProposalKeyToFlow (stx_ProposalKey t);
  tx_Payer := SDKAddressToFlow (stx_Payer t);
  tx_Authorizers := SDKAddressesToFlow (stx_Authorizers t);
  tx_PayloadSignatures := SDKTransactionSignaturesToFlow (stx_PayloadSignatures t);
  tx_EnvelopeSignatures := SDKTransactionSignaturesToFlow (stx_EnvelopeSignatures t)
|}.
Definition FlowTransactionToSDK (t : TransactionBody) : sdk_Transaction := {|
  stx_ReferenceBlockID := FlowIdentifierToSDK (tx_ReferenceBlockID t);
  stx_Script := tx_Script t;
  stx_Arguments := tx_Arguments t;
  stx_GasLimit := tx_GasLimit t;
  stx_ProposalKey := FlowProposalKeyToSDK (tx_ProposalKey t);
  stx_Payer := FlowAddressToSDK (tx_Payer t);
  stx_Authorizers := FlowAddressesToSDK (tx_Authorizers t);
  stx_PayloadSignatures := FlowTransactionSignaturesToSDK (tx_PayloadSignatures t);
  stx_EnvelopeSignatures := FlowTransactionSignaturesToSDK (tx_EnvelopeSignatures t)
|}.

(** [uint32(event.TransactionIndex)] truncates the SDK's [int]. *)
Definition SDKEventToFlow (e : sdk_Event) : result Event :=
  payload ← ccf_Encode (of_Event (sev_Value e));
  Ok (mkEvent (sev_Type e) (SDKIdentifierToFlow (sev_TransactionID e))
        (u32 (sev_TransactionIndex e)) (u32 (sev_EventIndex e)) payload).

Definition FlowEventToSDK (e : Event) : result sdk_Event :=
  cadenceValue ← ccf_EventsDecode (ev_Payload e);
  cadenceEvent ← of_option
    (Errorf ("cadence value not of type event: " +:+ cadence_String cadenceValue))
    (as_Event cadenceValue);
  Ok (mkSdkEvent (ev_Type e) (FlowIdentifierToSDK (ev_TransactionID e))
        (ev_TransactionIndex e) (ev_EventIndex e) cadenceEvent).

Definition FlowEventsToSDK (l : list Event) : result (list sdk_Event) := res_map FlowEventToSDK l.

(** ** Accounts *)

Definition FlowAccountPublicKeyToSDK (k : AccountPublicKey) (index : Z) : result sdk_AccountKey :=
  Ok (mkSdkAccountKey index (apk_PublicKey k) (apk_SignAlgo k) (apk_HashAlgo k) (apk_Weight k)
        (apk_SeqNumber k) (apk_Revoked k)).
Definition SDKAccountKeyToFlow (k : sdk_AccountKey) : result AccountPublicKey :=
  Ok (mkAccountPublicKey (sak_Index k) (sak_PublicKey k) (sak_SigAlgo k) (sak_HashAlgo k)
        (sak_SequenceNumber k) (sak_Weight k) (sak_Revoked k)).
Definition SDKAccountKeysToFlow (l : list sdk_AccountKey) : result (list AccountPublicKey) :=
  res_map SDKAccountKeyToFlow l.
(** The index of a key is its position in the list. *)
Definition FlowAccountPublicKeysToSDK (l : list AccountPublicKey) : result (list sdk_AccountKey) :=
  res_map (λ p, FlowAccountPublicKeyToSDK p.2 (u32 (Z.of_nat p.1))) (imap pair l).
Definition FlowAccountToSDK (a : Account) : result sdk_Account :=
  keys ← FlowAccountPublicKeysToSDK (acc_Keys a);
  Ok (mkSdkAccount (FlowAddressToSDK (acc_Address a)) (acc_Balance a) [] keys (acc_Contracts a)).
Definition SDKAccountToFlow (a : sdk_Account) : result Account :=
  keys ← SDKAccountKeysToFlow (sacc_Keys a);
  Ok (mkAccount (SDKAddressToFlow (sacc_Address a)) (sacc_Balance a) keys (sacc_Contracts a)).

Definition FlowLightCollectionToSDK (c : LightCollection) : sdk_Collection :=
  mkSdkCollection (FlowIdentifiersToSDK (lc_Transactions c)).

(** ** Results *)

Record sdk_TransactionResult := mkSdkTransactionResult {
  sr_Status : TransactionStatus;
  sr_Error : option error;
  sr_Events : list sdk_Event;
  sr_TransactionID : sdk_Identifier;
  sr_BlockHeight : Z;
  sr_BlockID : sdk_Identifier
}.

Definition FlowTransactionResultToSDK (r : access_TransactionResult) : result sdk_TransactionResult :=
  events ← FlowEventsToSDK (ar_Events r);
  Ok (mkSdkTransactionResult (ar_Status r)
        (if decide (ar_ErrorMessage r = ""%string) then None
         else Some (ExecutionError (ar_StatusCode r) (ar_ErrorMessage r)))
        events (FlowIdentifierToSDK (ar_TransactionID r)) (ar_BlockHeight r)
        (FlowIdentifierToSDK (ar_BlockID r))).

(** types/result.go; the debugging details of a failed transaction. *)
Record TransactionResultDebug := mkDebug { dbg_Message : string; dbg_Meta : gmap string string }.
Record TransactionResult := mkTransactionResult {
  tr_TransactionID : sdk_Identifier;
  tr_ComputationUsed : Z;
  tr_MemoryEstimate : Z;
  tr_Error : option error;
  tr_Logs : list string;
  tr_Events : list sdk_Event;
  tr_Debug : option TransactionResultDebug
}.
Definition Succeeded (r : TransactionResult) : bool :=
  match tr_Error r with None => true | Some _ => false end.
Definition Reverted (r : TransactionResult) : bool := negb (Succeeded r).

Definition VMErrorToEmulator (vmError : option CodedError) : option error := FVMError <$> vmError.

Definition VMTransactionResultToEmulator (txnId : Identifier) (output : ProcedureOutput)
    : result TransactionResult :=
  sdkEvents ← FlowEventsToSDK (po_Events output);
  Ok (mkTransactionResult (FlowIdentifierToSDK txnId) (po_ComputationUsed output)
        (po_MemoryEstimate output) (VMErrorToEmulator (po_Err output)) (po_Logs output)
        sdkEvents None).

Definition ToStorableResult (output : ProcedureOutput) (blockID : Identifier) (blockHeight : Z)
    (collectionID : Identifier) : result StorableTransactionResult :=
  Ok (mkStorableResult
        (match po_Err output with Some e => coded_Code e | None => 0 end)
        (match po_Err output with Some e => coded_Error e | None => "" end)
        (po_Logs output) (po_Events output) blockID blockHeight collectionID).

(** * Round trips *)

(** (convert/flow.go): converting a transaction to the SDK and back is the
    identity, in both directions. *)
Theorem transaction_conversion_roundtrip :
  (∀ t, SDKTransactionToFlow (FlowTransactionToSDK t) = t) ∧
  (∀ t, FlowTransactionToSDK (SDKTransactionToFlow t) = t).
Proof.
  assert (∀ l, SDKTransactionSignaturesToFlow (FlowTransactionSignaturesToSDK l) = l) as H1.
  { intros l. unfold SDKTransactionSignaturesToFlow, FlowTransactionSignaturesToSDK.
    rewrite <- list_fmap_compose. rewrite <- (list_fmap_id l) at 2.
    apply list_fmap_ext. by intros i [] _. }
  assert (∀ l, FlowTransactionSignaturesToSDK (SDKTransactionSignaturesToFlow l) = l) as H2.
  { intros l. unfold SDKTransactionSignaturesToFlow, FlowTransactionSignaturesToSDK.
    rewrite <- list_fmap_compose. rewrite <- (list_fmap_id l) at 2.
    apply list_fmap_ext. by intros i [] _. }
  assert (∀ l, SDKAddressesToFlow (FlowAddressesToSDK l) = l) as H3.
  { intros l. unfold SDKAddressesToFlow, FlowAddressesToSDK.
    by rewrite <- list_fmap_compose, list_fmap_id. }
  split; intros []; unfold SDKTransactionToFlow, FlowTransactionToSDK; simpl; f_equal;
    try apply H1; try apply H2; try apply H3;
    match goal with |- _ = ?k => by case k end.
Qed.

(** An event whose payload decodes to a Cadence event survives the
    conversion to the SDK and back, and the conversion to the SDK of a
    converted SDK event gives it back when its indexes fit in 32 bits. *)
Theorem event_conversion_roundtrip {CL : CadenceLaws CA} :
  (∀ e s, is_u32 (ev_TransactionIndex e) → is_u32 (ev_EventIndex e) →
     FlowEventToSDK e = Ok s → SDKEventToFlow s = Ok e) ∧
  (∀ s e, is_u32 (sev_TransactionIndex s) → is_u32 (sev_EventIndex s) →
     SDKEventToFlow s = Ok e → FlowEventToSDK e = Ok s).
Proof.
  split.
  - intros [ty id ti ei pl] s Hti Hei H. unfold FlowEventToSDK in H. simpl in *.
    apply bind_Ok in H as (v & Hv & H). apply bind_Ok in H as (ev & He & H).
    destruct (as_Event v) as [ev'|] eqn:Hev; [|done]. injection He as ->. injection H as <-.
    unfold SDKEventToFlow. simpl. rewrite (of_as_Event v ev Hev).
    rewrite (ccf_encode_decode pl v Hv). simpl. by rewrite !u32_small.
  - intros [ty id ti ei v] e Hti Hei H. unfold SDKEventToFlow in H. simpl in *.
    apply bind_Ok in H as (pl & Hpl & H). injection H as <-. rewrite !u32_small by done.
    unfold FlowEventToSDK. simpl. rewrite (ccf_decode_encode _ _ Hpl). simpl.
    by rewrite as_of_Event.
Qed.

Lemma key_roundtrip ks (off : nat) :
  (∀ i k, ks !! i = Some k → apk_Index k = Z.of_nat (off + i)) →
  Z.of_nat (off + length ks) ≤ two32 →
  (sks ← res_map (λ p, FlowAccountPublicKeyToSDK p.2 (u32 (Z.of_nat p.1)))
           (imap (λ i k, (off + i, k)%nat) ks); SDKAccountKeysToFlow sks) = Ok ks.
Proof.
  revert off. induction ks as [|k ks IH]; intros off Hidx Hlen; [done|].
  specialize (IH (S off)). rewrite imap_cons. cbn [length] in Hlen.
  assert (imap ((λ i k0, ((off + i)%nat, k0)) ∘ S) ks = imap (λ i k0, ((S off + i)%nat, k0)) ks)
    as Heq by (apply imap_ext; intros; simpl; f_equal; lia).
  rewrite Heq. clear Heq. cbn [res_map].
  destruct (res_map _ (imap _ ks)) as [sks|e] eqn:Hs; simpl in IH |- *.
  - unfold SDKAccountKeysToFlow in IH |- *. cbn [res_map]. rewrite IH; [|intros i k' Hk; rewrite (Hidx (S i) k' Hk); f_equal; lia|lia]. simpl.
    do 2 f_equal. destruct k as [ix ? ? ? ? ? ?]; simpl. f_equal.
    rewrite (u32_small (Z.of_nat (off + 0))) by (unfold is_u32; lia).
    symmetry. exact (Hidx 0%nat _ eq_refl).
  - exfalso. clear IH. assert (is_Ok (Err e : result (list sdk_AccountKey)) = true); [|done].
    rewrite <- Hs. erewrite (res_map_total _ (λ p, _)); [done|].
    intros x _. unfold FlowAccountPublicKeyToSDK. reflexivity.
Qed.

(** An account whose keys carry their position as index (as the FVM
    returns them) survives the conversion to the SDK and back. *)
Theorem account_conversion_roundtrip (a : Account) :
  (∀ i k, acc_Keys a !! i = Some k → apk_Index k = Z.of_nat i) →
  Z.of_nat (length (acc_Keys a)) ≤ two32 →
  (s ← FlowAccountToSDK a; SDKAccountToFlow s) = Ok a.
Proof.
  intros Hidx Hlen. pose proof (key_roundtrip (acc_Keys a) 0 Hidx Hlen) as Hk.
  unfold FlowAccountToSDK, FlowAccountPublicKeysToSDK, SDKAccountToFlow. destruct a; simpl in *.
  change (imap pair acc_Keys0) with (imap (λ i k, (i, k)) acc_Keys0).
  destruct (res_map _ _) as [sks|e]; [|done]. simpl in *. by rewrite Hk.
Qed.
End convert.

Arguments mkSdkEvent {CA}.
Arguments mkTransactionResult {CA}.
Arguments mkSdkTransactionResult {CA}.
Arguments mkAccountPublicKey {CR}.
Arguments mkSdkAccountKey {CR}.
Arguments mkAccount {CR}.
Arguments mkSdkAccount {CR}.
