(* ===== verification/Pragma.v ===== *)
(** Pragmas of Cadence code: emulator/pragma.go.

    Cadence's parser is a parameter; of its syntax trees the code looks at the
    pragma declarations, in the order of [program.Walk]. *)
From S2P Require Import Prelude FlowTypes Errors.

Inductive ast_Expression :=
  | InvocationExpression (InvokedExpression : string) (Arguments : list ast_Expression)
  | StringExpression (Value : string)
  | OtherExpression.
Inductive ast_Element :=
  | PragmaDeclaration (Expression : ast_Expression)
  | OtherElement.

Class CadenceParser := {
  (** [parser.ParseProgram], then the elements [Walk] visits. *)
  ParseProgram : string → result (list ast_Element)
}.

Definition PragmaDebug : string := "debug".
Definition PragmaSourceFile : string := "sourceFile".

Record Pragma := mkPragma { Pragma_Name : string; Pragma_Argument : string }.
#[global] Instance Pragma_eq_dec : EqDecision Pragma.
Proof. solve_decision. Defined.

Definition FilterByName (name : string) (l : list Pragma) : list Pragma :=
  filter (λ p, Pragma_Name p = name) l.
(** [nil] on the empty list. *)
Definition First (l : list Pragma) : option Pragma := head l.
Fixpoint Contains (name : string) (l : list Pragma) : bool :=
  match l with
  | [] => false
  | p :: l => if decide (Pragma_Name p = name) then true else Contains name l
  end.
Definition Count (name : string) (l : list Pragma) : nat :=
  foldl (λ c p, if decide (Pragma_Name p = name) then (c + 1)%nat else c) 0%nat l.

(** The body of the visitor. *)
Definition pragma_of (el : ast_Element) : option Pragma :=
  match el with
  | PragmaDeclaration (InvocationExpression name args) =>
      match args with
      | [] => Some (mkPragma name "")
      | [StringExpression v] => Some (mkPragma name v)
      | _ => None
      end
  | _ => None
  end.

Definition ExtractPragmas {CP : CadenceParser} (code : string) : list Pragma :=
  match ParseProgram code with
  | Err _ => []
  | Ok elements => omap pragma_of elements
  end.

(** [pragmas.FilterByName(name).First().Argument()]; a call on [nil] panics. *)
Definition first_argument (name : string) (l : list Pragma) : option string :=
  Pragma_Argument <$> First (FilterByName name l).

Lemma Contains_elem name l : Contains name l = true ↔ ∃ p, p ∈ l ∧ Pragma_Name p = name.
Proof.
  induction l as [|p l IH]; simpl.
  - split; [done|]. by intros (p & ?%not_elem_of_nil & _).
  - case_decide as Hp.
    + split; [|done]. intros _. exists p. split; [left|done].
    + rewrite IH. split; intros (q & Hq & Hn).
      * exists q. split; [by right|done].
      * apply elem_of_cons in Hq as [->|Hq]; [done|]. by exists q.
Qed.

(** The call of [Argument] after the check of [Contains] finds a pragma: the
    source-file lookup of the emulator does not panic. *)
Lemma Contains_first name l :
  Contains name l = true → ∃ p, First (FilterByName name l) = Some p ∧ Pragma_Name p = name.
Proof.
  unfold First, FilterByName. induction l as [|p l IH]; [done|]. simpl.
  case_decide as Hp.
  - intros _. exists p. by rewrite filter_cons_True.
  - rewrite filter_cons_False by done. exact IH.
Qed.

Lemma Count_filter name l : Count name l = length (FilterByName name l).
Proof.
  unfold Count, FilterByName. induction l as [|p l IH] using rev_ind; [done|].
  rewrite foldl_app, list.filter_app, length_app, IH. simpl.
  rewrite filter_cons. case_decide; simpl; lia.
Qed.
