(* ===== verification/Vm.v ===== *)
(** What the emulator calls in flow-go's virtual machine and its helpers.

    None of this code is the emulator's: the virtual machine, the execution
    state of a block, the transaction validator, the blueprints of the system
    transactions are parameters, with the laws the emulator relies on.  The
    context of an execution is the record of the options the emulator sets. *)
From S2P Require Import Prelude FlowTypes Errors Storage Report Convert.

(** The block header look-ups the VM and the validator make. *)
Record BlocksView {FM : FlowModel} := mkBlocksView {
  bv_HeaderByID : Identifier → result (option Header);
  bv_FinalizedHeader : result Header;
  bv_SealedHeader : result Header;
  bv_IndexedHeight : result Z;
  bv_ByHeightFrom : Z → Header → result Header
}.

(** The options of [fvm.NewContext] and [fvm.NewContextFromParent]. *)
Record Context {FM : FlowModel} := mkContext {
  ctx_Chain : ChainID;
  ctx_BlockHeader : option Header;
  ctx_ContractRemovalRestricted : bool;
  ctx_ComputationLimit : Z;
  ctx_AccountStorageLimit : bool;
  ctx_TransactionFeesEnabled : bool;
  ctx_EVMTestOperationsAllowed : bool;
  ctx_AuthorizationChecksEnabled : bool;
  ctx_SequenceNumberCheckAndIncrementEnabled : bool;
  ctx_RandomSourceHistoryCallAllowed : bool
}.

Arguments mkContext {FM}.
Arguments mkBlocksView {FM}.

Section context_options.
Context {FM : FlowModel}.
Definition WithBlockHeader (h : Header) (c : Context) : Context :=
  mkContext (ctx_Chain c) (Some h) (ctx_ContractRemovalRestricted c) (ctx_ComputationLimit c)
    (ctx_AccountStorageLimit c) (ctx_TransactionFeesEnabled c) (ctx_EVMTestOperationsAllowed c)
    (ctx_AuthorizationChecksEnabled c) (ctx_SequenceNumberCheckAndIncrementEnabled c)
    (ctx_RandomSourceHistoryCallAllowed c).
Definition WithAccountStorageLimit (b : bool) (c : Context) : Context :=
  mkContext (ctx_Chain c) (ctx_BlockHeader c) (ctx_ContractRemovalRestricted c)
    (ctx_ComputationLimit c) b (ctx_TransactionFeesEnabled c) (ctx_EVMTestOperationsAllowed c)
    (ctx_AuthorizationChecksEnabled c) (ctx_SequenceNumberCheckAndIncrementEnabled c)
    (ctx_RandomSourceHistoryCallAllowed c).
Definition WithTransactionFeesEnabled (b : bool) (c : Context) : Context :=
  mkContext (ctx_Chain c) (ctx_BlockHeader c) (ctx_ContractRemovalRestricted c)
    (ctx_ComputationLimit c) (ctx_AccountStorageLimit c) b (ctx_EVMTestOperationsAllowed c)
    (ctx_AuthorizationChecksEnabled c) (ctx_SequenceNumberCheckAndIncrementEnabled c)
    (ctx_RandomSourceHistoryCallAllowed c).
Definition WithAuthorizationChecksEnabled (b : bool) (c : Context) : Context :=
  mkContext (ctx_Chain c) (ctx_BlockHeader c) (ctx_ContractRemovalRestricted c)
    (ctx_ComputationLimit c) (ctx_AccountStorageLimit c) (ctx_TransactionFeesEnabled c)
    (ctx_EVMTestOperationsAllowed c) b (ctx_SequenceNumberCheckAndIncrementEnabled c)
    (ctx_RandomSourceHistoryCallAllowed c).
Definition WithSequenceNumberCheckAndIncrementEnabled (b : bool) (c : Context) : Context :=
  mkContext (ctx_Chain c) (ctx_BlockHeader c) (ctx_ContractRemovalRestricted c)
    (ctx_ComputationLimit c) (ctx_AccountStorageLimit c) (ctx_TransactionFeesEnabled c)
    (ctx_EVMTestOperationsAllowed c) (ctx_AuthorizationChecksEnabled c) b
    (ctx_RandomSourceHistoryCallAllowed c).
Definition WithRandomSourceHistoryCallAllowed (b : bool) (c : Context) : Context :=
  mkContext (ctx_Chain c) (ctx_BlockHeader c) (ctx_ContractRemovalRestricted c)
    (ctx_ComputationLimit c) (ctx_AccountStorageLimit c) (ctx_TransactionFeesEnabled c)
    (ctx_EVMTestOperationsAllowed c) (ctx_AuthorizationChecksEnabled c)
    (ctx_SequenceNumberCheckAndIncrementEnabled c) b.
End context_options.

(** The options of the bootstrap procedure that come from the configuration. *)
Record BootstrapOptions := mkBootstrapOptions {
  bo_InitialTokenSupply : Z;
  bo_SetupVMBridgeEnabled : bool;
  bo_EVMTestHelpersEnabled : bool;
  (** The account creation fee, the storage reservation and the storage per
      FLOW, when the storage limit is enabled. *)
  bo_Storage : option (Z * Z * Z)
}.

Inductive Procedure :=
  | fvm_Transaction (tx : TransactionBody) (txIndex : Z)
  | fvm_Script (script : Bytes) (arguments : list Bytes)
  | fvm_Bootstrap (opts : BootstrapOptions).

(** The validator's options. *)
Record TransactionValidationOptions := mkValidationOptions {
  vo_Expiry : Z;
  vo_AllowEmptyReferenceBlockID : bool;
  vo_MaxGasLimit : Z
}.

Class VirtualMachine {FM : FlowModel} {CA : Cadence} := {
  (** [vm.Run]: besides the context it reads the entropy provider's block ID and
      the block look-ups. *)
  vm_Run : Context → Identifier → BlocksView → Procedure → StorageSnapshot →
           result (ExecutionSnapshot * ProcedureOutput);
  (** [fvm.GetAccount] *)
  fvm_GetAccount : ∀ {CR : Crypto}, Context → Address → StorageSnapshot → result Account;
  (** [fvmerrors.IsAccountNotFoundError] *)
  IsAccountNotFoundError : error → bool;

  (** [state.ExecutionState]: the registers of a block under execution. *)
  ExecutionState : Type;
  NewExecutionState : StorageSnapshot → ExecutionState;
  es_Get : ExecutionState → StorageSnapshot;
  es_Merge : ExecutionSnapshot → ST error ExecutionState unit;
  (** [Finalize] gives the snapshot of the writes and marks the state. *)
  es_Finalize : ExecutionState → ExecutionSnapshot * ExecutionState;

  (** [interpreter.Debugger]: its state, and [RequestPause] on it. *)
  interpreter_Debugger : Type;
  debugger_RequestPause : interpreter_Debugger → interpreter_Debugger;

  (** [validator.TransactionValidator.Validate] *)
  validator_Validate : TransactionValidationOptions → ChainID → BlocksView → TransactionBody →
                       result unit;

  (** package blueprints *)
  ProcessCallbacksTransaction : ChainID → result TransactionBody;
  ExecuteCallbacksTransactions : ChainID → list Event → result (list TransactionBody);
  PendingExecutionEventType : ChainID → string;

  (** the chain's service account; the script of the system chunk transaction
      for it; the checks of the transaction builder *)
  ServiceAddress : ChainID → Address;
  ReplaceAddresses : Address → Bytes;
  Build : TransactionBody → result TransactionBody;
  DefaultMaxTransactionGasLimit : Z;
  (** the ID of a script, [flowgo.MakeIDFromFingerPrint(script)] *)
  Script_ID : Bytes → Identifier;
  (** [fvm.Script(script).WithArguments(arguments...).ID] *)
  ScriptProcedure_ID : Bytes → list Bytes → Identifier
}.

(** The writes of an execution state are those of the merged snapshots, the
    later over the earlier ones; reading goes to them first.  A finalized state
    can be neither read nor written. *)
Class VirtualMachineLaws {FM : FlowModel} {CA : Cadence} (VM : VirtualMachine) : Prop := {
  Finalize_New s : WriteSet (es_Finalize (NewExecutionState s)).1 = ∅;
  Finalize_Merge es st st' :
    es_Merge es st = (Ok (), st') →
    WriteSet (es_Finalize st').1 = WriteSet es ∪ WriteSet (es_Finalize st).1;
  Get_Finalized st r : is_Ok (es_Get (es_Finalize st).2 r) = false;
  Merge_Finalized es st : is_Ok (es_Merge es (es_Finalize st).2).1 = false;
  Get_New s r : es_Get (NewExecutionState s) r = s r;
  Get_Merge es st st' r :
    es_Merge es st = (Ok (), st') →
    es_Get st' r = match WriteSet es !! r with Some v => Ok v | None => es_Get st r end
}.

(** The clock and the random source an operation reads. *)
Class Clocks := { Clock : Type; SystemClock : Clock }.
Record World {CK : Clocks} := mkWorld {
  Now : Clock → Time;
  (** [rand.Intn(MaxViewIncrease)] *)
  Intn : Z
}.
Arguments mkWorld {CK}.
