(* ===== verification/PendingBlock.v ===== *)
(** The block under construction: emulator/pendingBlock.go.

    [pb_ok] is the invariant of the block: its transaction list has no
    duplicates, is the domain of the transaction map, and the transactions up to
    the execution index are those that were run.  Every operation keeps it. *)
From S2P Require Import Prelude FlowTypes Errors Storage Report Convert Vm.

Definition MaxViewIncrease : Z := 3.

Section pending_block.
Context {FM : FlowModel} {CA : Cadence} {VM : VirtualMachine} {CK : Clocks}.

Record IndexedTransactionResult := mkIndexedResult {
  itr_ProcedureOutput : ProcedureOutput;
  itr_Index : Z
}.

Record pendingBlock := mkPendingBlock {
  pb_height : Z;
  pb_view : Z;
  pb_parentID : Identifier;
  pb_clock : Clock;
  pb_timestamp : Time;
  pb_transactions : gmap Identifier TransactionBody;
  pb_transactionIDs : list Identifier;
  pb_transactionResults : gmap Identifier IndexedTransactionResult;
  pb_ledgerState : ExecutionState;
  pb_events : list Event;
  pb_index : Z
}.

Definition newPendingBlock (prevBlock : Block) (ledgerSnapshot : StorageSnapshot) (clock : Clock)
    (w : World) : pendingBlock := {|
  pb_height := Block_Height prevBlock +64 1;
  pb_view := Block_View prevBlock +64 (Intn w + 1);
  pb_parentID := Block_ID prevBlock;
  pb_clock := clock;
  pb_timestamp := Now w clock;
  pb_transactions := ∅;
  pb_transactionIDs := [];
  pb_transactionResults := ∅;
  pb_ledgerState := NewExecutionState ledgerSnapshot;
  pb_events := [];
  pb_index := 0
|}.

(** ** Field updates *)

Definition set_txs (txs : gmap Identifier TransactionBody) (ids : list Identifier)
    (b : pendingBlock) : pendingBlock :=
  mkPendingBlock (pb_height b) (pb_view b) (pb_parentID b) (pb_clock b) (pb_timestamp b) txs ids
    (pb_transactionResults b) (pb_ledgerState b) (pb_events b) (pb_index b).
Definition set_index (i : Z) (b : pendingBlock) : pendingBlock :=
  mkPendingBlock (pb_height b) (pb_view b) (pb_parentID b) (pb_clock b) (pb_timestamp b)
    (pb_transactions b) (pb_transactionIDs b) (pb_transactionResults b) (pb_ledgerState b)
    (pb_events b) i.
Definition add_events (evs : list Event) (b : pendingBlock) : pendingBlock :=
  mkPendingBlock (pb_height b) (pb_view b) (pb_parentID b) (pb_clock b) (pb_timestamp b)
    (pb_transactions b) (pb_transactionIDs b) (pb_transactionResults b) (pb_ledgerState b)
    (pb_events b ++ evs) (pb_index b).
Definition set_ledgerState (st : ExecutionState) (b : pendingBlock) : pendingBlock :=
  mkPendingBlock (pb_height b) (pb_view b) (pb_parentID b) (pb_clock b) (pb_timestamp b)
    (pb_transactions b) (pb_transactionIDs b) (pb_transactionResults b) st
    (pb_events b) (pb_index b).
Definition set_result (id : Identifier) (r : IndexedTransactionResult) (b : pendingBlock)
    : pendingBlock :=
  mkPendingBlock (pb_height b) (pb_view b) (pb_parentID b) (pb_clock b) (pb_timestamp b)
    (pb_transactions b) (pb_transactionIDs b) (<[id := r]> (pb_transactionResults b))
    (pb_ledgerState b) (pb_events b) (pb_index b).

(** ** Reads *)

Definition Collections (b : pendingBlock) : list LightCollection :=
  match pb_transactionIDs b with
  | [] => []
  | ids => [mkLightCollection ids]
  end.

(** The chain ID is the constant [flowgo.Emulator]. *)
Definition pending_Block (b : pendingBlock) : Block :=
  mkBlock
    (mkHeaderBody "flow-emulator" (pb_parentID b) (pb_height b)
       (u64 (time_UnixMilli (pb_timestamp b))) (pb_view b))
    (mkPayload ((λ c, mkGuarantee (LightCollection_ID c)) <$> Collections b) []).

Definition pending_ID (b : pendingBlock) : Identifier := Block_ID (pending_Block b).
Definition ContainsTransaction (txID : Identifier) (b : pendingBlock) : bool :=
  match pb_transactions b !! txID with Some _ => true | None => false end.
Definition pending_GetTransaction (txID : Identifier) (b : pendingBlock) : option TransactionBody :=
  pb_transactions b !! txID.
Definition Size (b : pendingBlock) : Z := Z.of_nat (length (pb_transactionIDs b)).
Definition Empty (b : pendingBlock) : bool := bool_decide (Size b = 0).
Definition ExecutionStarted (b : pendingBlock) : bool := bool_decide (0 < pb_index b).
Definition ExecutionComplete (b : pendingBlock) : bool := bool_decide (u32 (Size b) ≤ pb_index b).

Definition NextTransaction (b : pendingBlock) : option TransactionBody :=
  if bool_decide (Size b ≤ pb_index b) then None
  else txID ← pb_transactionIDs b !! Z.to_nat (pb_index b); pending_GetTransaction txID b.

(** ** Updates *)

Definition AddTransaction (tx : TransactionBody) (b : pendingBlock) : pendingBlock :=
  set_txs (<[Transaction_ID tx := tx]> (pb_transactions b))
    (pb_transactionIDs b ++ [Transaction_ID tx]) b.

Definition merge_ledger (es : ExecutionSnapshot) : ST error pendingBlock unit := λ b,
  match es_Merge es (pb_ledgerState b) with
  | (r, st) => (r, set_ledgerState st b)
  end.

Definition Finalize : ST error pendingBlock ExecutionSnapshot := λ b,
  let '(es, st) := es_Finalize (pb_ledgerState b) in (Ok es, set_ledgerState st b).

Definition ExecuteNextTransaction (ctx : Context) (entropy : Identifier) (blocks : BlocksView)
    : ST error pendingBlock ProcedureOutput :=
  txnBody ← st_get NextTransaction;
  txnIndex ← st_get pb_index;
  st_modify (λ b, set_index (pb_index b +32 1) b) ;;
  txn ← st_res (of_option (Panic "nil transaction") txnBody);
  run ← st_read (λ b, vm_Run ctx entropy blocks (fvm_Transaction txn txnIndex)
                        (es_Get (pb_ledgerState b)));
  st_modify (add_events (po_Events run.2)) ;;
  merge_ledger run.1 ;;
  st_modify (set_result (Transaction_ID txn) (mkIndexedResult run.2 txnIndex)) ;;
  mret run.2.

Definition pending_SetClock (clock : Clock) (w : World) (b : pendingBlock) : pendingBlock :=
  mkPendingBlock (pb_height b) (pb_view b) (pb_parentID b) clock (Now w clock)
    (pb_transactions b) (pb_transactionIDs b) (pb_transactionResults b) (pb_ledgerState b)
    (pb_events b) (pb_index b).

(** ** The invariant *)

Record pb_ok (b : pendingBlock) : Prop := {
  ok_NoDup : NoDup (pb_transactionIDs b);
  ok_dom id : is_Some (pb_transactions b !! id) ↔ id ∈ pb_transactionIDs b;
  ok_id id tx : pb_transactions b !! id = Some tx → Transaction_ID tx = id;
  ok_size : Size b < two32;
  ok_index : 0 ≤ pb_index b ≤ Size b;
  ok_results id : is_Some (pb_transactionResults b !! id) →
    id ∈ take (Z.to_nat (pb_index b)) (pb_transactionIDs b)
}.

(** Every transaction before the index has its result: no run failed. *)
Definition all_results (b : pendingBlock) : Prop :=
  ∀ id, id ∈ take (Z.to_nat (pb_index b)) (pb_transactionIDs b) →
        is_Some (pb_transactionResults b !! id).

Lemma newPendingBlock_ok prev snap clock w : pb_ok (newPendingBlock prev snap clock w).
Proof.
  split; simpl; try done.
  - constructor.
  - intros id. rewrite lookup_empty, elem_of_nil. split; [by intros []|done].
  - intros id. rewrite lookup_empty. by intros [].
Qed.

Lemma complete_iff b : pb_ok b → ExecutionComplete b = true ↔ pb_index b = Size b.
Proof.
  intros Hok. pose proof (ok_size b Hok). pose proof (ok_index b Hok).
  unfold ExecutionComplete. rewrite u32_small by (unfold is_u32; lia).
  rewrite bool_decide_eq_true. lia.
Qed.

Lemma contains_iff b id :
  pb_ok b → ContainsTransaction id b = true ↔ id ∈ pb_transactionIDs b.
Proof.
  intros Hok. rewrite <- (ok_dom b Hok id). unfold ContainsTransaction.
  destruct (pb_transactions b !! id); split; try done; by intros [].
Qed.

(** The transaction at the index, which the execution of the next one runs. *)
Lemma NextTransaction_Some b :
  pb_ok b → pb_index b < Size b →
  ∃ tx, NextTransaction b = Some tx ∧
        pb_transactionIDs b !! Z.to_nat (pb_index b) = Some (Transaction_ID tx).
Proof.
  intros Hok Hi. pose proof (ok_index b Hok) as [H0 _]. unfold NextTransaction.
  rewrite bool_decide_eq_false_2 by lia.
  destruct (lookup_lt_is_Some_2 (pb_transactionIDs b) (Z.to_nat (pb_index b))) as [id Hid].
  { unfold Size in Hi. lia. }
  rewrite Hid. simpl. destruct (proj2 (ok_dom b Hok id)) as [tx Htx].
  { by eapply list_elem_of_lookup_2. }
  exists tx. split; [done|]. by rewrite (ok_id b Hok id tx Htx).
Qed.

Lemma AddTransaction_ok tx b :
  pb_ok b → pb_index b = 0 → ContainsTransaction (Transaction_ID tx) b = false →
  Size b + 1 < two32 → pb_ok (AddTransaction tx b).
Proof.
  intros Hok Hi Hc Hs.
  assert (Transaction_ID tx ∉ pb_transactionIDs b) as Hn.
  { intros Hin%(contains_iff b _ Hok). congruence. }
  split; simpl.
  - apply list.NoDup_app. split; [apply Hok|]. split; [|apply NoDup_singleton].
    intros x Hx ->%list_elem_of_singleton. done.
  - intros id. rewrite elem_of_app, list_elem_of_singleton, <- (ok_dom b Hok id).
    rewrite lookup_insert_is_Some'. split; intros [?|?]; auto.
  - intros id tx' [[<- <-]|[_ Hl]]%lookup_insert_Some; [done|]. by apply (ok_id b Hok).
  - unfold Size in *. simpl. rewrite length_app. simpl. lia.
  - unfold Size in *. simpl. rewrite length_app. simpl. lia.
  - rewrite Hi. intros id Hr. specialize (ok_results b Hok id Hr) as Hin. rewrite Hi in Hin.
    simpl in Hin. by apply not_elem_of_nil in Hin.
Qed.

(** ** Executing a transaction *)

(** What an execution does not change: the header and the transactions. *)
Record same_block (b b' : pendingBlock) : Prop := {
  sb_height : pb_height b' = pb_height b;
  sb_view : pb_view b' = pb_view b;
  sb_parentID : pb_parentID b' = pb_parentID b;
  sb_timestamp : pb_timestamp b' = pb_timestamp b;
  sb_transactions : pb_transactions b' = pb_transactions b;
  sb_transactionIDs : pb_transactionIDs b' = pb_transactionIDs b
}.

Lemma same_block_refl b : same_block b b.
Proof. done. Qed.
Lemma same_block_trans b1 b2 b3 : same_block b1 b2 → same_block b2 b3 → same_block b1 b3.
Proof. intros [] []. split; congruence. Qed.
Lemma same_block_Block b b' : same_block b b' → pending_Block b' = pending_Block b.
Proof. intros [H1 H2 H3 H4 H5 H6]. unfold pending_Block, Collections. by rewrite H1, H2, H3, H4, H6. Qed.
Lemma same_block_ID b b' : same_block b b' → pending_ID b' = pending_ID b.
Proof. intros H. unfold pending_ID. by rewrite (same_block_Block b b'). Qed.

(** The state after a run of the transaction at the index that the virtual
    machine and the ledger accept. *)
Definition executed (tx : TransactionBody) (out : ProcedureOutput) (st : ExecutionState)
    (b : pendingBlock) : pendingBlock :=
  set_result (Transaction_ID tx) (mkIndexedResult out (pb_index b))
    (set_ledgerState st (add_events (po_Events out) (set_index (pb_index b +32 1) b))).

(** The outcomes of [ExecuteNextTransaction] on a block with a transaction
    left: the run of the virtual machine fails, the merge fails, or the block
    gets the events, the writes and the result. *)
Lemma ExecuteNextTransaction_cases ctx e bl b :
  pb_ok b → pb_index b < Size b →
  ∃ tx, NextTransaction b = Some tx ∧
  let run := vm_Run ctx e bl (fvm_Transaction tx (pb_index b)) (es_Get (pb_ledgerState b)) in
  ExecuteNextTransaction ctx e bl b =
  match run with
  | Err err => (Err err, set_index (pb_index b +32 1) b)
  | Ok (es, out) =>
      match es_Merge es (pb_ledgerState b) with
      | (Ok _, st) => (Ok out, executed tx out st b)
      | (Err err, st) =>
          (Err err, set_ledgerState st (add_events (po_Events out) (set_index (pb_index b +32 1) b)))
      end
  end.
Proof.
  intros Hok Hi. destruct (NextTransaction_Some b Hok Hi) as (tx & Htx & _).
  exists tx. split; [done|]. simpl. unfold ExecuteNextTransaction, merge_ledger.
  unfold mbind, ST_bind, st_get, st_modify, st_res, st_read. rewrite Htx. simpl.
  destruct (vm_Run _ _ _ _ _) as [[es out]|err]; simpl; [|done].
  destruct (es_Merge es (pb_ledgerState b)) as [[[]|err] st]; done.
Qed.

Lemma index_step b : pb_ok b → pb_index b < Size b → pb_index b +32 1 = pb_index b + 1.
Proof.
  intros Hok Hi. pose proof (ok_size b Hok). pose proof (ok_index b Hok).
  apply u32_small. unfold is_u32. lia.
Qed.

(** Advancing the index, with at most the result of the transaction it was at. *)
Lemma advance_ok b b' :
  pb_ok b → same_block b b' → pb_index b < Size b → pb_index b' = pb_index b + 1 →
  (∀ id, is_Some (pb_transactionResults b' !! id) →
     is_Some (pb_transactionResults b !! id) ∨
     pb_transactionIDs b !! Z.to_nat (pb_index b) = Some id) →
  pb_ok b'.
Proof.
  intros Hok Hs Hi Hi' Hr. pose proof (ok_index b Hok) as [H0 _].
  destruct Hs as [_ _ _ _ Htx Hids].
  split; rewrite ?Htx, ?Hids; try apply Hok.
  - unfold Size. rewrite Hids. apply (ok_size b Hok).
  - unfold Size in *. rewrite Hids. lia.
  - intros id Hid. rewrite Hi'.
    replace (Z.to_nat (pb_index b + 1)) with (S (Z.to_nat (pb_index b))) by lia.
    destruct (Hr id Hid) as [H|H].
    + specialize (ok_results b Hok id H) as Hin.
      apply elem_of_take in Hin as (i & Hl & Hlt). apply elem_of_take. exists i. split; [done|lia].
    + apply elem_of_take. exists (Z.to_nat (pb_index b)). split; [done|lia].
Qed.

Lemma ExecuteNextTransaction_ok ctx e bl b :
  pb_ok b → pb_index b < Size b →
  let r := ExecuteNextTransaction ctx e bl b in
  pb_ok r.2 ∧ same_block b r.2 ∧ pb_index r.2 = pb_index b + 1 ∧
  (is_Ok r.1 = true → all_results b → all_results r.2).
Proof.
  intros Hok Hi r. pose proof (index_step b Hok Hi) as Hidx.
  destruct (ExecuteNextTransaction_cases ctx e bl b Hok Hi) as (tx & Htx & Hr).
  destruct (NextTransaction_Some b Hok Hi) as (tx' & Htx' & Hid).
  rewrite Htx in Htx'. injection Htx' as <-.
  assert (∀ b', same_block b b' → pb_index b' = pb_index b + 1 →
            pb_transactionResults b' = pb_transactionResults b → pb_ok b') as Hsame.
  { intros b' H1 H2 H3. apply (advance_ok b b'); try done. rewrite H3. by left. }
  subst r. rewrite Hr. destruct (vm_Run _ _ _ _ _) as [[es out]|err]; simpl.
  - destruct (es_Merge es (pb_ledgerState b)) as [[[]|err] st]; simpl.
    + assert (same_block b (executed tx out st b)) as Hsb by done.
      split; [|split; [done|split; [done|]]].
      * apply (advance_ok b); [done|done|done|done|]. simpl. intros id.
        destruct (decide (Transaction_ID tx = id)) as [<-|Hne]; [by right|].
        rewrite lookup_insert_ne by done. by left.
      * intros _ Hall id. unfold executed. simpl. rewrite Hidx.
        pose proof (ok_index b Hok).
        replace (Z.to_nat (pb_index b + 1)) with (S (Z.to_nat (pb_index b))) by lia.
        intros (i & Hl & Hlt)%elem_of_take.
        destruct (decide (i = Z.to_nat (pb_index b))) as [->|Hne].
        -- rewrite Hid in Hl. injection Hl as <-. rewrite lookup_insert_eq. by eexists.
        -- destruct (decide (Transaction_ID tx = id)) as [<-|Hid']; [rewrite lookup_insert_eq; by eexists|].
           rewrite lookup_insert_ne by done. apply Hall. apply elem_of_take.
           exists i. split; [done|lia].
    + split; [by apply Hsame|]. done.
  - split; [by apply Hsame|]. done.
Qed.
End pending_block.

Arguments mkIndexedResult {CA}.
