(* ===== verification/Blockchain.v ===== *)
(** The emulated chain: the state of emulator/blockchain.go and the operations
    that change it (configuration, transactions, execution, commit).

    A method that takes the mutex is one atomic operation; it is a state
    transformer on [Blockchain], whose state is kept on the error paths.  The
    store is any [Store].  What an operation reads from outside (the clock, the
    random view increment) is its [World] argument. *)
From S2P Require Import Prelude FlowTypes Errors Storage Report Convert Pragma Vm PendingBlock.

(** * Configuration *)

Record ServiceKey {CR : Crypto} := mkServiceKey {
  sk_Index : Z;
  sk_Address : Address;
  sk_SequenceNumber : Z;
  sk_PrivateKey : option PrivateKey;
  sk_PublicKey : option PublicKey;
  sk_HashAlgo : HashingAlgorithm;
  sk_SigAlgo : SigningAlgorithm;
  sk_Weight : Z
}.
Arguments mkServiceKey {CR}.

Record ContractDescription := mkContractDescription {
  cd_Name : string; cd_Address : Address; cd_Description : string; cd_Source : Bytes
}.

Record config {CR : Crypto} := mkConfig {
  conf_ServiceKey : ServiceKey;
  conf_SimpleAddresses : bool;
  conf_GenesisTokenSupply : Z;
  conf_TransactionMaxGasLimit : Z;
  conf_ScriptGasLimit : Z;
  conf_TransactionExpiry : Z;
  conf_StorageLimitEnabled : bool;
  conf_TransactionFeesEnabled : bool;
  conf_ContractRemovalEnabled : bool;
  conf_MinimumStorageReservation : Z;
  conf_StorageMBPerFLOW : Z;
  conf_TransactionValidationEnabled : bool;
  conf_ChainID : ChainID;
  conf_AutoMine : bool;
  conf_Contracts : list ContractDescription;
  conf_ComputationReportingEnabled : bool;
  conf_ScheduledTransactionsEnabled : bool;
  conf_SetupVMBridgeEnabled : bool;
  conf_EVMTestHelpersEnabled : bool
}.
Arguments mkConfig {CR}.

Section service_key.
Context {CR : Crypto}.

(** [serviceKey.PrivateKey != nil] *)
Definition has_private_key (k : ServiceKey) : bool :=
  match sk_PrivateKey k with Some _ => true | None => false end.

(** [ServiceKey.AccountKey]; the public key is not [nil] on a configured key. *)
Definition AccountKey (k : ServiceKey) : option sdk_AccountKey :=
  (λ pk, mkSdkAccountKey (sk_Index k) pk (sk_SigAlgo k) (sk_HashAlgo k) (sk_Weight k)
           (sk_SequenceNumber k) false) <$> sk_PublicKey k.

Definition MonotonicEmulator : ChainID := "flow-emulator-monotonic".
Definition GetChainID (conf : config) : ChainID :=
  if conf_SimpleAddresses conf then MonotonicEmulator else conf_ChainID conf.

Definition set_AutoMine (v : bool) (c : config) : config :=
  mkConfig (conf_ServiceKey c) (conf_SimpleAddresses c) (conf_GenesisTokenSupply c)
    (conf_TransactionMaxGasLimit c) (conf_ScriptGasLimit c) (conf_TransactionExpiry c)
    (conf_StorageLimitEnabled c) (conf_TransactionFeesEnabled c) (conf_ContractRemovalEnabled c)
    (conf_MinimumStorageReservation c) (conf_StorageMBPerFLOW c)
    (conf_TransactionValidationEnabled c) (conf_ChainID c) v (conf_Contracts c)
    (conf_ComputationReportingEnabled c) (conf_ScheduledTransactionsEnabled c)
    (conf_SetupVMBridgeEnabled c) (conf_EVMTestHelpersEnabled c).
End service_key.

(** What the emulator calls to examine a failed signature, and to build the
    signed transaction that deploys a contract. *)
Class Signing {CR : Crypto} := {
  EnvelopeMessage : TransactionBody → Bytes;
  PayloadMessage : TransactionBody → Bytes;
  ErrCodeInvalidEnvelopeSignatureError : Z;
  ErrCodeInvalidPayloadSignatureError : Z;
  SHA2_256 : HashingAlgorithm;
  SHA3_256 : HashingAlgorithm;
  same_algo : HashingAlgorithm → HashingAlgorithm → bool;
  algo_String : HashingAlgorithm → string;
  (** Verification with the hasher of the algorithm for the transaction tag. *)
  Verify : PublicKey → Bytes → Bytes → HashingAlgorithm → bool;
  AccountKeyWeightThreshold : Z;
  (** [templates.AddAccountContract] with the fields set and the envelope signed. *)
  deploy_transaction : ServiceKey → Identifier → string → Bytes → result sdk_Transaction
}.

(** A place in the source map: a transaction or a script. *)
Abbreviation Location := (Identifier + Identifier)%type.
Definition TransactionLocation (id : Identifier) : Location := inl id.
Definition ScriptLocation (id : Identifier) : Location := inr id.

(** [for k, v := range results] into a new map. *)
Definition map_results {GO : GoMapOrder} {A B} (f : A → result B) (m : gmap Identifier A)
    : result (gmap Identifier B) :=
  l ← res_map (λ p, v ← f p.2; Ok (p.1, v)) (map_range m);
  Ok (list_to_map l).

Definition st_map_err {E S A} (f : E → E) (m : ST E S A) : ST E S A := λ s,
  match m s with
  | (Ok a, s') => (Ok a, s')
  | (Err e, s') => (Err (f e), s')
  end.

Section blockchain.
Context {FM : FlowModel} {CA : Cadence} {VM : VirtualMachine} {CK : Clocks} {CR : Crypto}
        {SG : Signing} {CP : CadenceParser} {KS : KindString} {GO : GoMapOrder}
        {S : Type} `{!Store S}.

Record Blockchain := mkBlockchain {
  b_storage : S;
  b_pendingBlock : pendingBlock;
  b_clock : Clock;
  b_vmCtx : Context;
  b_transactionValidator : TransactionValidationOptions;
  b_systemTransactions : gmap Identifier TransactionBody;
  b_serviceKey : ServiceKey;
  b_activeDebuggingSession : bool;
  (** A pointer: [None] is [nil]. *)
  b_debugger : option interpreter_Debugger;
  b_currentCode : string;
  b_currentScriptID : string;
  b_conf : config;
  b_sourceFileMap : gmap Location string;
  (** [entropyProvider.LatestBlock] *)
  b_entropy : Identifier;
  b_computationReport : ComputationReport;
  (** The calls of [broadcaster.Publish]. *)
  b_published : Z
}.

(** ** Assignments to the fields *)

Definition set_storage (s : S) (b : Blockchain) : Blockchain :=
  mkBlockchain s (b_pendingBlock b) (b_clock b) (b_vmCtx b) (b_transactionValidator b)
    (b_systemTransactions b) (b_serviceKey b) (b_activeDebuggingSession b) (b_debugger b)
    (b_currentCode b) (b_currentScriptID b) (b_conf b) (b_sourceFileMap b) (b_entropy b)
    (b_computationReport b) (b_published b).
Definition set_pendingBlock (p : pendingBlock) (b : Blockchain) : Blockchain :=
  mkBlockchain (b_storage b) p (b_clock b) (b_vmCtx b) (b_transactionValidator b)
    (b_systemTransactions b) (b_serviceKey b) (b_activeDebuggingSession b) (b_debugger b)
    (b_currentCode b) (b_currentScriptID b) (b_conf b) (b_sourceFileMap b) (b_entropy b)
    (b_computationReport b) (b_published b).
Definition set_clock (c : Clock) (b : Blockchain) : Blockchain :=
  mkBlockchain (b_storage b) (b_pendingBlock b) c (b_vmCtx b) (b_transactionValidator b)
    (b_systemTransactions b) (b_serviceKey b) (b_activeDebuggingSession b) (b_debugger b)
    (b_currentCode b) (b_currentScriptID b) (b_conf b) (b_sourceFileMap b) (b_entropy b)
    (b_computationReport b) (b_published b).
Definition set_vmCtx (c : Context) (b : Blockchain) : Blockchain :=
  mkBlockchain (b_storage b) (b_pendingBlock b) (b_clock b) c (b_transactionValidator b)
    (b_systemTransactions b) (b_serviceKey b) (b_activeDebuggingSession b) (b_debugger b)
    (b_currentCode b) (b_currentScriptID b) (b_conf b) (b_sourceFileMap b) (b_entropy b)
    (b_computationReport b) (b_published b).
Definition set_validator (v : TransactionValidationOptions) (b : Blockchain) : Blockchain :=
  mkBlockchain (b_storage b) (b_pendingBlock b) (b_clock b) (b_vmCtx b) v
    (b_systemTransactions b) (b_serviceKey b) (b_activeDebuggingSession b) (b_debugger b)
    (b_currentCode b) (b_currentScriptID b) (b_conf b) (b_sourceFileMap b) (b_entropy b)
    (b_computationReport b) (b_published b).
Definition cache_systemTransaction (tx : TransactionBody) (b : Blockchain) : Blockchain :=
  mkBlockchain (b_storage b) (b_pendingBlock b) (b_clock b) (b_vmCtx b) (b_transactionValidator b)
    (<[Transaction_ID tx := tx]> (b_systemTransactions b)) (b_serviceKey b)
    (b_activeDebuggingSession b) (b_debugger b)
    (b_currentCode b) (b_currentScriptID b) (b_conf b) (b_sourceFileMap b) (b_entropy b)
    (b_computationReport b) (b_published b).
Definition set_serviceKey (k : ServiceKey) (b : Blockchain) : Blockchain :=
  mkBlockchain (b_storage b) (b_pendingBlock b) (b_clock b) (b_vmCtx b) (b_transactionValidator b)
    (b_systemTransactions b) k (b_activeDebuggingSession b) (b_debugger b)
    (b_currentCode b) (b_currentScriptID b) (b_conf b) (b_sourceFileMap b) (b_entropy b)
    (b_computationReport b) (b_published b).
Definition set_debugging (d : bool) (b : Blockchain) : Blockchain :=
  mkBlockchain (b_storage b) (b_pendingBlock b) (b_clock b) (b_vmCtx b) (b_transactionValidator b)
    (b_systemTransactions b) (b_serviceKey b) d (b_debugger b)
    (b_currentCode b) (b_currentScriptID b) (b_conf b) (b_sourceFileMap b) (b_entropy b)
    (b_computationReport b) (b_published b).
(** The debugger that a pointer leads to. *)
Definition set_debugger (d : interpreter_Debugger) (b : Blockchain) : Blockchain :=
  mkBlockchain (b_storage b) (b_pendingBlock b) (b_clock b) (b_vmCtx b) (b_transactionValidator b)
    (b_systemTransactions b) (b_serviceKey b) (b_activeDebuggingSession b) (Some d)
    (b_currentCode b) (b_currentScriptID b) (b_conf b) (b_sourceFileMap b) (b_entropy b)
    (b_computationReport b) (b_published b).
(** The assignments before a run: the current code and its ID. *)
Definition set_current (code id : string) (b : Blockchain) : Blockchain :=
  mkBlockchain (b_storage b) (b_pendingBlock b) (b_clock b) (b_vmCtx b) (b_transactionValidator b)
    (b_systemTransactions b) (b_serviceKey b) (b_activeDebuggingSession b) (b_debugger b)
    code id (b_conf b) (b_sourceFileMap b) (b_entropy b)
    (b_computationReport b) (b_published b).
Definition set_conf (c : config) (b : Blockchain) : Blockchain :=
  mkBlockchain (b_storage b) (b_pendingBlock b) (b_clock b) (b_vmCtx b) (b_transactionValidator b)
    (b_systemTransactions b) (b_serviceKey b) (b_activeDebuggingSession b) (b_debugger b)
    (b_currentCode b) (b_currentScriptID b) c (b_sourceFileMap b) (b_entropy b)
    (b_computationReport b) (b_published b).
Definition set_sourceFile (l : Location) (f : string) (b : Blockchain) : Blockchain :=
  mkBlockchain (b_storage b) (b_pendingBlock b) (b_clock b) (b_vmCtx b) (b_transactionValidator b)
    (b_systemTransactions b) (b_serviceKey b) (b_activeDebuggingSession b) (b_debugger b)
    (b_currentCode b) (b_currentScriptID b) (b_conf b) (<[l := f]> (b_sourceFileMap b))
    (b_entropy b) (b_computationReport b) (b_published b).
Definition set_report (r : ComputationReport) (b : Blockchain) : Blockchain :=
  mkBlockchain (b_storage b) (b_pendingBlock b) (b_clock b) (b_vmCtx b) (b_transactionValidator b)
    (b_systemTransactions b) (b_serviceKey b) (b_activeDebuggingSession b) (b_debugger b)
    (b_currentCode b) (b_currentScriptID b) (b_conf b) (b_sourceFileMap b) (b_entropy b)
    r (b_published b).
(** The end of a commit: the listeners are notified, the pending block is
    replaced, the entropy source is the committed block. *)
Definition finish_commit (p : pendingBlock) (id : Identifier) (b : Blockchain) : Blockchain :=
  mkBlockchain (b_storage b) p (b_clock b) (b_vmCtx b) (b_transactionValidator b)
    (b_systemTransactions b) (b_serviceKey b) (b_activeDebuggingSession b) (b_debugger b)
    (b_currentCode b) (b_currentScriptID b) (b_conf b) (b_sourceFileMap b) id
    (b_computationReport b) (b_published b + 1).

(** An operation of the store, of the pending block. *)
Definition on_storage {A} (m : ST error S A) : ST error Blockchain A := λ b,
  match m (b_storage b) with (r, s) => (r, set_storage s b) end.
Definition on_pending {A} (m : ST error pendingBlock A) : ST error Blockchain A := λ b,
  match m (b_pendingBlock b) with (r, p) => (r, set_pendingBlock p b) end.

(** ** emulator/blocks.go *)

Definition HeaderByID (s : S) (id : Identifier) : result (option Header) :=
  match BlockByID id s with
  | Ok block => Ok (Some (ToHeader block))
  | Err err => if is_not_found err then Ok None else Err err
  end.
Definition FinalizedHeader (s : S) : result Header := ToHeader <$> LatestBlock s.
Definition SealedHeader (s : S) : result Header := ToHeader <$> LatestBlock s.
Definition IndexedHeight (s : S) : result Z := Block_Height <$> LatestBlock s.
Definition ByHeightFrom (s : S) (height : Z) (header : Header) : result Header :=
  if bool_decide (hb_Height (Header_HeaderBody header) < height)
  then Err ErrNotFound
  else ToHeader <$> BlockByHeight height s.
(** The height that the VM asks for is a [uint64]. *)
Definition blocks_view (s : S) : BlocksView :=
  mkBlocksView (HeaderByID s) (FinalizedHeader s) (SealedHeader s) (IndexedHeight s)
    (λ height, ByHeightFrom s (u64 height)).

(** [vm.Run] on the blockchain's blocks and entropy source. *)
Definition b_Run (ctx : Context) (proc : Procedure) (snap : StorageSnapshot) (b : Blockchain)
    : result (ExecutionSnapshot * ProcedureOutput) :=
  vm_Run ctx (b_entropy b) (blocks_view (b_storage b)) proc snap.

(** ** Configuration of the virtual machine, the ledger and the validator *)

Definition configureFVM (conf : config) : Context :=
  mkContext (GetChainID conf) None (negb (conf_ContractRemovalEnabled conf))
    (conf_ScriptGasLimit conf) (conf_StorageLimitEnabled conf) (conf_TransactionFeesEnabled conf)
    (conf_EVMTestHelpersEnabled conf) (conf_TransactionValidationEnabled conf)
    (conf_TransactionValidationEnabled conf) false.

Definition configureBootstrapProcedure (conf : config) : BootstrapOptions :=
  mkBootstrapOptions (conf_GenesisTokenSupply conf) (conf_SetupVMBridgeEnabled conf)
    (conf_EVMTestHelpersEnabled conf)
    (if conf_StorageLimitEnabled conf
     then Some (conf_MinimumStorageReservation conf, conf_MinimumStorageReservation conf,
                conf_StorageMBPerFLOW conf)
     else None).

Definition bootstrapLedger (conf : config) (ctx : Context) (entropy : Identifier)
    (ledger : StorageSnapshot) (s : S) : result (ExecutionSnapshot * ProcedureOutput) :=
  run ← vm_Run (WithAccountStorageLimit false ctx) entropy (blocks_view s)
          (fvm_Bootstrap (configureBootstrapProcedure conf)) ledger;
  match po_Err run.2 with
  | Some e => Err (fvm_CodedError e)
  | None => Ok run
  end.

Definition Genesis (chainID : ChainID) : Block :=
  mkBlock (mkHeaderBody chainID ZeroID 0 (u64 (time_UnixMilli GenesisTime)) 0) NewEmptyPayload.

Definition genesis_commit (conf : config) (es : ExecutionSnapshot) (events : list Event)
    : BlockCommit :=
  mkBlockCommit (Genesis (GetChainID conf)) [] ∅ ∅ [] ∅ ∅ es events ∅.

Definition configureNewLedger (conf : config) (ctx : Context) (entropy : Identifier)
    : ST error S (Block * StorageSnapshot) :=
  ledger ← st_read (LedgerByHeight 0);
  run ← st_read (λ s, map_err (Errorf_w "failed to bootstrap execution state: ")
                        (bootstrapLedger conf ctx entropy ledger s));
  CommitBlock (genesis_commit conf run.1 (po_Events run.2)) ;;
  ledger' ← st_read (LedgerByHeight 0);
  mret (Genesis (GetChainID conf), ledger').

Definition configureExistingLedger (latestBlock : Block) : ST error S (Block * StorageSnapshot) :=
  latestLedger ← st_read (LedgerByHeight (Block_Height latestBlock));
  mret (latestBlock, latestLedger).

Definition configureLedger (conf : config) (ctx : Context) (entropy : Identifier)
    : ST error S (Block * StorageSnapshot) := λ s,
  match LatestBlock s with
  | Ok latestBlock => configureExistingLedger latestBlock s
  | Err err => if is_not_found err then configureNewLedger conf ctx entropy s else (Err err, s)
  end.

Definition configureTransactionValidator (conf : config) : TransactionValidationOptions :=
  mkValidationOptions (conf_TransactionExpiry conf) (bool_decide (conf_TransactionExpiry conf = 0))
    (conf_TransactionMaxGasLimit conf).

Definition ReloadBlockchain (w : World) : ST error Blockchain unit :=
  conf ← st_get b_conf;
  st_modify (set_vmCtx (configureFVM conf)) ;;
  entropy ← st_get b_entropy;
  latest ← on_storage (configureLedger conf (configureFVM conf) entropy);
  clock ← st_get b_clock;
  st_modify (set_pendingBlock (newPendingBlock latest.1 latest.2 clock w)) ;;
  st_modify (set_validator (configureTransactionValidator conf)).

Definition EnableAutoMine : ST error Blockchain unit :=
  st_modify (λ b, set_conf (set_AutoMine true (b_conf b)) b).
Definition DisableAutoMine : ST error Blockchain unit :=
  st_modify (λ b, set_conf (set_AutoMine false (b_conf b)) b).
(** The debugger that is returned is the field, [nil] or not. *)
Definition StartDebugger : ST error Blockchain (option interpreter_Debugger) :=
  st_modify (set_debugging true) ;;
  st_get b_debugger.
Definition EndDebugging : ST error Blockchain unit := st_modify (set_debugging false).
Definition SetClock (clock : Clock) (w : World) : ST error Blockchain unit :=
  st_modify (λ b, set_pendingBlock (pending_SetClock clock w (b_pendingBlock b)) (set_clock clock b)).

Definition setFVMContextFromHeader (header : Header) : ST error Blockchain Context :=
  st_modify (λ b, set_vmCtx (WithBlockHeader header (b_vmCtx b)) b) ;;
  st_get b_vmCtx.

(** ** Adding a transaction *)

Definition addTransaction (tx : TransactionBody) : ST error Blockchain unit := λ b,
  let p := b_pendingBlock b in
  if ExecutionStarted p then (Err (PendingBlockMidExecutionError (pending_ID p)), b)
  else if ContainsTransaction (Transaction_ID tx) p
  then (Err (DuplicateTransactionError (Transaction_ID tx)), b)
  else match TransactionByID (Transaction_ID tx) (b_storage b) with
  | Ok _ => (Err (DuplicateTransactionError (Transaction_ID tx)), b)
  | Err err =>
      if negb (is_not_found err)
      then (Err (Errorf_w "failed to check storage for transaction " err), b)
      else match validator_Validate (b_transactionValidator b) (GetChainID (b_conf b))
                   (blocks_view (b_storage b)) tx with
      | Err err => (Err (ConvertAccessError err), b)
      | Ok _ => (Ok (), set_pendingBlock (AddTransaction tx p) b)
      end
  end.

(** ** Examining a failed signature *)

Definition getLatestBlock (b : Blockchain) : result Block := LatestBlock (b_storage b).

Definition getAccountAtBlock (address : Address) (blockHeight : Z) (b : Blockchain) : result Account :=
  ledger ← LedgerByHeight blockHeight (b_storage b);
  match fvm_GetAccount (b_vmCtx b) address ledger with
  | Err err => if IsAccountNotFoundError err then Err (AccountNotFoundError address) else Err err
  | Ok account => Ok account
  end.

Definition getAccount (address : Address) (b : Blockchain) : result Account :=
  latestBlock ← getLatestBlock b;
  getAccountAtBlock address (Block_Height latestBlock) b.

Definition NewTransactionInvalidHashAlgo (key : AccountPublicKey) (address : Address)
    (invalidAlgo : HashingAlgorithm) : TransactionResultDebug :=
  mkDebug ("invalid hashing algorithm signature: public key " +:+ show_int (apk_Index key)
           +:+ " on account " +:+ show_address address
           +:+ " does not have a valid signature: key requires " +:+ algo_String (apk_HashAlgo key)
           +:+ " hashing algorithm, but " +:+ algo_String invalidAlgo +:+ " was used") ∅.

Definition NewTransactionInvalidSignature (tx : TransactionBody) : TransactionResultDebug :=
  mkDebug "" (list_to_map
    [("payer", show_address (tx_Payer tx));
     ("proposer", show_address (pk_Address (tx_ProposalKey tx)));
     ("proposerKeyIndex", show_int (pk_KeyIndex (tx_ProposalKey tx)));
     ("authorizers", show_strings (show_address <$> tx_Authorizers tx));
     ("gasLimit", show_int (tx_GasLimit tx))]%string).

(** The loop over the two algorithms; the key's own is skipped. *)
Definition alternative_algo (key : AccountPublicKey) (sig msg : Bytes) : option HashingAlgorithm :=
  head (filter (λ algo, same_algo (apk_HashAlgo key) algo = false ∧
                        Verify (apk_PublicKey key) sig msg algo = true) [SHA2_256; SHA3_256]).

(** [acc.Keys[sig.KeyIndex]] panics on an index out of range. *)
Definition testAlternativeHashAlgo (sig : TransactionSignature) (msg : Bytes) (b : Blockchain)
    : result (option TransactionResultDebug) :=
  match getAccount (sig_Address sig) b with
  | Err _ => Ok None
  | Ok acc =>
      key ← of_option (Panic "index out of range") (acc_Keys acc !! Z.to_nat (sig_KeyIndex sig));
      Ok (NewTransactionInvalidHashAlgo key (acc_Address acc)
            <$> alternative_algo key (sig_Signature sig) msg)
  end.

Fixpoint test_signatures (sigs : list TransactionSignature) (msg : Bytes) (b : Blockchain)
    : result (option TransactionResultDebug) :=
  match sigs with
  | [] => Ok None
  | sig :: sigs =>
      debug ← testAlternativeHashAlgo sig msg b;
      match debug with Some d => Ok (Some d) | None => test_signatures sigs msg b end
  end.

Definition HasErrorCode (err : error) (code : Z) : bool :=
  match err with FVMError e => bool_decide (coded_Code e = code) | _ => false end.

Definition debugSignatureError (err : error) (tx : TransactionBody) (b : Blockchain)
    : result TransactionResultDebug :=
  envelope ← (if HasErrorCode err ErrCodeInvalidEnvelopeSignatureError
              then test_signatures (tx_EnvelopeSignatures tx) (EnvelopeMessage tx) b else Ok None);
  payload ← match envelope with
            | Some d => Ok (Some d)
            | None => if HasErrorCode err ErrCodeInvalidPayloadSignatureError
                      then test_signatures (tx_PayloadSignatures tx) (PayloadMessage tx) b
                      else Ok None
            end;
  Ok (default (NewTransactionInvalidSignature tx) payload).

Definition set_debug (d : option TransactionResultDebug) (r : TransactionResult) : TransactionResult :=
  mkTransactionResult (tr_TransactionID r) (tr_ComputationUsed r) (tr_MemoryEstimate r) (tr_Error r)
    (tr_Logs r) (tr_Events r) d.

(** ** Executing transactions *)

(** The source map entry of a procedure, then its report. *)
Definition record_source (l : Location) (pragmas : list Pragma) : ST error Blockchain unit :=
  if Contains PragmaSourceFile pragmas
  then f ← st_res (of_option (Panic "nil pragma") (first_argument PragmaSourceFile pragmas));
       st_modify (set_sourceFile l f)
  else mret ().

Definition source_file (l : Location) (b : Blockchain) : string :=
  default ""%string (b_sourceFileMap b !! l).

(** [b.debugger.RequestPause()]: a method of a nil pointer that reads a field. *)
Definition nil_pointer : error := Panic "invalid memory address or nil pointer dereference".
Definition requestPause : ST error Blockchain unit := λ b,
  match b_debugger b with
  | None => (Err nil_pointer, b)
  | Some d => (Ok (), set_debugger (debugger_RequestPause d) b)
  end.

(** A run is to be paused: a debugging session is active and the code asks for it. *)
Definition pauses (code : string) (b : Blockchain) : bool :=
  b_activeDebuggingSession b && Contains PragmaDebug (ExtractPragmas code).

(** The steps before a run, of a transaction or a script. *)
Definition start_run (code id : string) : ST error Blockchain unit :=
  st_modify (set_current code id) ;;
  pause ← st_get (pauses code);
  if (pause : bool) then requestPause else mret ().

Definition executeNextTransaction (ctx : Context) : ST error Blockchain TransactionResult :=
  p ← st_get b_pendingBlock;
  if ExecutionComplete p
  then st_fail (PendingBlockTransactionsExhaustedError (pending_ID p))
  else
    txnBody ← st_res (of_option (Panic "nil transaction") (NextTransaction p));
    let txnID := Transaction_ID txnBody in
    let code := string_of_bytes (tx_Script txnBody) in
    let pragmas := ExtractPragmas code in
    start_run code (show_id txnID) ;;
    entropy ← st_get b_entropy;
    blocks ← st_get (λ b, blocks_view (b_storage b));
    output ← on_pending (ExecuteNextTransaction ctx entropy blocks);
    tr ← st_res (VMTransactionResultToEmulator txnID output);
    tr ← match tr_Error tr with
         | None => mret tr
         | Some err => d ← st_read (debugSignatureError err txnBody); mret (set_debug (Some d) tr)
         end;
    record_source (TransactionLocation (tr_TransactionID tr)) pragmas ;;
    reporting ← st_get (λ b, conf_ComputationReportingEnabled (b_conf b));
    (if (reporting : bool)
     then st_modify (λ b, set_report
            (ReportTransaction (show_id (tr_TransactionID tr)) (tr_ComputationUsed tr)
               (tr_MemoryEstimate tr) (source_file (TransactionLocation (tr_TransactionID tr)) b)
               (b_currentCode b) (string_of_bytes <$> tx_Arguments txnBody)
               (po_ComputationIntensities output) (b_computationReport b)) b)
     else mret ()) ;;
    mret tr.

(** The loop of [executeBlock]; [fuel] bounds its iterations. *)
Fixpoint execute_loop (fuel : nat) (ctx : Context) (results : list TransactionResult)
    : ST error Blockchain (list TransactionResult) := λ b,
  if negb (ExecutionComplete (b_pendingBlock b)) && negb (Empty (b_pendingBlock b))
  then match fuel with
       | O => (Err (Panic "loop bound"), b)
       | Datatypes.S fuel =>
           (result ← executeNextTransaction ctx; execute_loop fuel ctx (results ++ [result])) b
       end
  else (Ok results, b).

Definition executeBlock : ST error Blockchain (list TransactionResult) :=
  header ← st_get (λ b, ToHeader (pending_Block (b_pendingBlock b)));
  blockContext ← setFVMContextFromHeader header;
  p ← st_get b_pendingBlock;
  if ExecutionComplete p && negb (Empty p)
  then st_fail (PendingBlockTransactionsExhaustedError (pending_ID p))
  else execute_loop (length (pb_transactionIDs p)) blockContext [].

Definition ExecuteNextTransaction : ST error Blockchain TransactionResult :=
  header ← st_get (λ b, ToHeader (pending_Block (b_pendingBlock b)));
  blockContext ← setFVMContextFromHeader header;
  executeNextTransaction blockContext.

(** ** System transactions *)

(** The script is the template with the addresses of the chain; there is no
    reference block. *)
Definition systemChunkTransaction (b : Blockchain) : result TransactionBody :=
  let serviceAddress := ServiceAddress (ctx_Chain (b_vmCtx b)) in
  Build (mkTransactionBody ZeroID (ReplaceAddresses serviceAddress) []
           DefaultMaxTransactionGasLimit (mkProposalKey EmptyAddress 0 0) serviceAddress
           [serviceAddress] [] []).

Definition executeSystemChunkTransaction (txIndex : Z)
    : ST error Blockchain (TransactionBody * IndexedTransactionResult) :=
  txn ← st_read systemChunkTransaction;
  ctx ← st_get (λ b, WithBlockHeader (ToHeader (pending_Block (b_pendingBlock b)))
                       (WithRandomSourceHistoryCallAllowed true
                         (WithSequenceNumberCheckAndIncrementEnabled false
                           (WithAuthorizationChecksEnabled false (b_vmCtx b)))));
  run ← st_read (λ b, b_Run ctx (fvm_Transaction txn txIndex)
                        (es_Get (pb_ledgerState (b_pendingBlock b))) b);
  match po_Err run.2 with
  | Some e => st_fail (fvm_CodedError e)
  | None =>
      on_pending (st_modify (add_events (po_Events run.2))) ;;
      on_pending (merge_ledger run.1) ;;
      mret (txn, mkIndexedResult run.2 txIndex)
  end.

(** emulator/scheduled_transactions.go; [ids] are printed numbers. *)
Fixpoint parseScheduledIDs (eventType : string) (events : list Event) : result (list Bytes) :=
  match events with
  | [] => Ok []
  | event :: events =>
      if decide (eventType ≠ ev_Type event) then parseScheduledIDs eventType events
      else
        eventData ← map_err (Errorf_w "failed to decode event: ") (ccf_Decode (ev_Payload event));
        cadenceEvent ← of_option (Errorf "event data is not a cadence event") (as_Event eventData);
        id ← of_option (Errorf "id is not uint64")
               (SearchFieldByName cadenceEvent "id" ≫= as_UInt64);
        ids ← parseScheduledIDs eventType events;
        Ok (show_dec id :: ids)
  end.

(** What the scheduled transactions leave: bodies, results, the map of the
    scheduled IDs, and the transaction IDs in execution order. *)
Record Scheduled := mkScheduled {
  sch_bodies : gmap Identifier TransactionBody;
  sch_results : gmap Identifier IndexedTransactionResult;
  sch_ids : gmap Z Identifier;
  sch_ordered : list Identifier
}.

Definition record_execution (tx : TransactionBody) (index : Z) (output : ProcedureOutput)
    (scheduledID : option Z) (acc : Scheduled) : Scheduled :=
  let id := Transaction_ID tx in
  mkScheduled (<[id := tx]> (sch_bodies acc))
    (<[id := mkIndexedResult output index]> (sch_results acc))
    (match scheduledID with Some n => <[n := id]> (sch_ids acc) | None => sch_ids acc end)
    (sch_ordered acc ++ [id]).

(** The loop over the transactions of the callbacks. *)
Fixpoint execute_callbacks (ctx : Context) (base : Z) (scheduledIDs : list Bytes) (idx : nat)
    (txs : list TransactionBody) (acc : Scheduled) : ST error Blockchain Scheduled :=
  match txs with
  | [] => mret acc
  | tx :: txs =>
      let index := base +32 (1 + Z.of_nat idx) in
      run ← st_read (λ b, b_Run ctx (fvm_Transaction tx index)
                            (es_Get (pb_ledgerState (b_pendingBlock b))) b);
      let acc := record_execution tx index run.2 (scheduledIDs !! idx ≫= sscanf_u64) acc in
      _ ← st_res (VMTransactionResultToEmulator (Transaction_ID tx) run.2);
      on_pending (st_modify (add_events (po_Events run.2))) ;;
      on_pending (merge_ledger run.1) ;;
      execute_callbacks ctx base scheduledIDs (Datatypes.S idx) txs acc
  end.

Definition executeScheduledTransactions (blockContext : Context) : ST error Blockchain Scheduled :=
  let ctx := WithTransactionFeesEnabled false
               (WithSequenceNumberCheckAndIncrementEnabled false
                 (WithAuthorizationChecksEnabled false blockContext)) in
  base ← st_get (λ b, u32 (Z.of_nat (size (pb_transactions (b_pendingBlock b)))));
  chain ← st_get (λ b, ctx_Chain (b_vmCtx b));
  processTx ← st_res (ProcessCallbacksTransaction chain);
  run ← st_read (λ b, b_Run ctx (fvm_Transaction processTx base)
                        (es_Get (pb_ledgerState (b_pendingBlock b))) b);
  let acc := record_execution processTx base run.2 None (mkScheduled ∅ ∅ ∅ []) in
  on_pending (st_modify (add_events (po_Events run.2))) ;;
  on_pending (merge_ledger run.1) ;;
  executeTxs ← st_res (ExecuteCallbacksTransactions chain (po_Events run.2));
  scheduledIDs ← st_res (parseScheduledIDs (PendingExecutionEventType chain) (po_Events run.2));
  execute_callbacks ctx base scheduledIDs 0 executeTxs acc.

(** ** Committing *)

Definition convertToSealedResults (results : gmap Identifier IndexedTransactionResult)
    (blockID : Identifier) (blockHeight : Z) (collectionID : Identifier)
    : result (gmap Identifier StorableTransactionResult) :=
  map_results (λ r, ToStorableResult (itr_ProcedureOutput r) blockID blockHeight collectionID)
    results.

Definition no_scheduled : Scheduled := mkScheduled ∅ ∅ ∅ [].

(** What the system transactions of a commit leave. *)
Record SystemRuns := mkSystemRuns {
  sr_transactionResults : gmap Identifier StorableTransactionResult;
  sr_scheduled : Scheduled;
  sr_scheduledResults : gmap Identifier StorableTransactionResult;
  sr_chunk : TransactionBody;
  sr_chunkResult : StorableTransactionResult
}.

(** The first part of [commitBlock]: the results of the pending block are
    converted, the scheduled transactions and the system chunk are executed. *)
Definition executeSystem (p : pendingBlock) : ST error Blockchain SystemRuns :=
  let block := pending_Block p in
  let collectionID := default ZeroID (LightCollection_ID <$> head (Collections p)) in
  transactionResults ← st_res (convertToSealedResults (pb_transactionResults p) (pending_ID p)
                                 (pb_height p) collectionID);
  blockContext ← st_get (λ b, WithBlockHeader (ToHeader block) (b_vmCtx b));
  enabled ← st_get (λ b, conf_ScheduledTransactionsEnabled (b_conf b));
  sch ← (if (enabled : bool) then executeScheduledTransactions blockContext else mret no_scheduled);
  scheduledResults ← st_res (convertToSealedResults (sch_results sch) (pending_ID p)
                               (pb_height p) ZeroID);
  let systemChunkIndex :=
    u32 (Z.of_nat (size (pb_transactions p))) +32 u32 (Z.of_nat (length (sch_ordered sch))) in
  chunk ← executeSystemChunkTransaction systemChunkIndex;
  systemResult ← st_res (ToStorableResult (itr_ProcedureOutput chunk.2) (pending_ID p)
                           (pb_height p) ZeroID);
  mret (mkSystemRuns transactionResults sch scheduledResults chunk.1 systemResult).

(** What [CommitBlock] is called with. *)
Definition assembled (p : pendingBlock) (sr : SystemRuns) (es : ExecutionSnapshot)
    (events : list Event) : BlockCommit :=
  let systemTxID := Transaction_ID (sr_chunk sr) in
  mkBlockCommit (pending_Block p) (Collections p) (pb_transactions p) (sr_transactionResults sr)
    (sch_ordered (sr_scheduled sr) ++ [systemTxID])
    (<[systemTxID := sr_chunk sr]> (sch_bodies (sr_scheduled sr)))
    (<[systemTxID := sr_chunkResult sr]> (sr_scheduledResults sr))
    es events (sch_ids (sr_scheduled sr)).

(** Then the working ledger is finalized, and what is committed is put together. *)
Definition prepareCommit (p : pendingBlock) : ST error Blockchain BlockCommit :=
  sr ← executeSystem p;
  executionSnapshot ← on_pending Finalize;
  events ← st_get (λ b, pb_events (b_pendingBlock b));
  mret (assembled p sr executionSnapshot events).

(** The indexes of the scheduled transactions; the static system transactions
    are not indexed. *)
Definition indexCommit (c : BlockCommit) : ST error Blockchain unit :=
  let blockID := Block_ID (bc_block c) in
  st_iter (λ q : Z * Identifier,
             st_map_err (Errorf_w ("failed to index scheduled transaction "
                                   +:+ show_int q.1 +:+ ": "))
               (on_storage (IndexScheduledTransactionID q.1 blockID)))
    (map_range (bc_scheduledTransactionIDs c)) ;;
  cached ← st_get b_systemTransactions;
  st_iter (λ q : Identifier * StorableTransactionResult,
             match (cached : gmap Identifier TransactionBody) !! q.1 with
             | Some _ => mret ()
             | None => st_map_err (Errorf_w ("failed to index scheduled transaction "
                                             +:+ show_id q.1 +:+ ": "))
                         (on_storage (IndexScheduledTransactionBlockID q.1 blockID))
             end)
    (map_range (bc_systemTransactionResults c)).

Definition commitBlock (w : World) : ST error Blockchain Block :=
  p ← st_get b_pendingBlock;
  if negb (ExecutionStarted p) && negb (Empty p)
  then st_fail (PendingBlockCommitBeforeExecutionError (pending_ID p))
  else if ExecutionStarted p && negb (ExecutionComplete p)
  then st_fail (PendingBlockMidExecutionError (pending_ID p))
  else
    c ← prepareCommit p;
    on_storage (CommitBlock c) ;;
    indexCommit c ;;
    let block := bc_block c in
    ledger ← st_read (λ b, LedgerByHeight (Block_Height block) (b_storage b));
    clock ← st_get b_clock;
    st_modify (finish_commit (newPendingBlock block ledger clock w) (Block_ID block)) ;;
    mret block.

Definition executeAndCommitBlock (w : World) : ST error Blockchain (Block * list TransactionResult) :=
  results ← executeBlock;
  block ← commitBlock w;
  mret (block, results).

Definition SendTransaction (tx : TransactionBody) (w : World) : ST error Blockchain unit :=
  addTransaction tx ;;
  autoMine ← st_get (λ b, conf_AutoMine (b_conf b));
  if (autoMine : bool) then _ ← executeAndCommitBlock w; mret () else mret ().

Definition ResetPendingBlock (w : World) : ST error Blockchain unit :=
  latestBlock ← st_read (λ b, LatestBlock (b_storage b));
  latestLedger ← st_read (λ b, LedgerByHeight (Block_Height latestBlock) (b_storage b));
  clock ← st_get b_clock;
  st_modify (set_pendingBlock (newPendingBlock latestBlock latestLedger clock w)).

(** emulator/blockTicker.go: one tick; the errors are dropped. *)
Definition tick (w : World) (b : Blockchain) : Blockchain :=
  (commitBlock w (executeBlock b).2).2.

(** ** Creation *)

Definition GetServiceKey (conf : config) : ServiceKey :=
  let k := conf_ServiceKey conf in
  mkServiceKey (sk_Index k) (ServiceAddress (GetChainID conf)) (sk_SequenceNumber k)
    (sk_PrivateKey k) (sk_PublicKey k) (sk_HashAlgo k) (sk_SigAlgo k) AccountKeyWeightThreshold.

(** The service key with the sequence number and weight of the account. *)
Definition currentServiceKey : ST error Blockchain ServiceKey := λ b,
  match getAccount (sk_Address (b_serviceKey b)) b with
  | Err _ => (Ok (b_serviceKey b), b)
  | Ok account =>
      match acc_Keys account with
      | [] => (Ok (b_serviceKey b), b)
      | key :: _ =>
          let k := mkServiceKey 0 (sk_Address (b_serviceKey b)) (apk_SeqNumber key)
                     (sk_PrivateKey (b_serviceKey b)) (sk_PublicKey (b_serviceKey b))
                     (sk_HashAlgo (b_serviceKey b)) (sk_SigAlgo (b_serviceKey b))
                     (apk_Weight key) in
          (Ok k, set_serviceKey k b)
      end
  end.

Definition deployContract (name : string) (contract : Bytes) (w : World)
    : ST error Blockchain unit :=
  serviceKey ← currentServiceKey;
  if negb (has_private_key serviceKey)
  then st_fail (Errorf "not able to deploy contracts without set private key")
  else
    latestBlock ← st_read getLatestBlock;
    tx ← st_res (deploy_transaction serviceKey (Block_ID latestBlock) name contract);
    addTransaction (SDKTransactionToFlow tx) ;;
    done ← executeAndCommitBlock w;
    lastResult ← st_res (of_option (Panic "index out of range") (list.last done.2));
    match tr_Error lastResult with
    | Some err => st_fail err
    | None => mret ()
    end.

Definition DeployContracts (deployments : list (ContractDescription * World))
    : ST error Blockchain unit :=
  st_iter (λ c, deployContract (cd_Name c.1) (cd_Source c.1) c.2) deployments.

(** The state before [ReloadBlockchain]; its pending block and context are the
    ones [ReloadBlockchain] sets. *)
Definition initial (conf : config) (storage : S) (w : World) : Blockchain :=
  mkBlockchain storage
    (newPendingBlock (Genesis (GetChainID conf)) (λ _, Ok []) SystemClock w)
    SystemClock (configureFVM conf) (configureTransactionValidator conf) ∅ (GetServiceKey conf)
    false None "" "" conf ∅ ZeroID (mkComputationReport ∅ ∅) 0.

(** A blueprint or a build that fails leaves the cache as it is. *)
Definition cache_if (m : result TransactionBody) (b : Blockchain) : Blockchain :=
  match m with Ok tx => cache_systemTransaction tx b | Err _ => b end.

(** [ws] are the worlds of the deployments. *)
Definition New (conf : config) (storage : S) (w : World) (ws : nat → World)
    : res error unit * Blockchain :=
  (ReloadBlockchain w ;;
   st_modify (cache_if (ProcessCallbacksTransaction (conf_ChainID conf))) ;;
   st_modify (λ b, cache_if (systemChunkTransaction b) b) ;;
   DeployContracts (imap (λ i c, (c, ws i)) (conf_Contracts conf))) (initial conf storage w).
End blockchain.
