(* ===== verification/Config.v ===== *)
(** The configuration of a chain: the options of emulator/blockchain.go, the
    default configuration, and the default service key of emulator/emulator.go.

    The options of the fields that the model leaves out (the loggers, the store,
    the execution effort weights, coverage and profile) have no definition. *)
From S2P Require Import Prelude FlowTypes Errors Storage Report Convert Pragma Vm PendingBlock.
From S2P Require Import Blockchain.

(** What the defaults take from flow-go, Cadence and the crypto library. *)
Class ConfigDefaults {CR : Crypto} := {
  (** [cadence.NewUFix64] *)
  cadence_NewUFix64 : string → result Z;
  DefaultMinimumStorageReservation : Z;
  DefaultStorageMBPerFLOW : Z;
  ECDSA_P256 : SigningAlgorithm;
  GeneratePrivateKey : SigningAlgorithm → Bytes → result PrivateKey
}.

(** [flowgo.Emulator] *)
Definition flow_Emulator : ChainID := "flow-emulator".

(** * Options *)

Module Options.
Section options.
Context {CR : Crypto}.

Definition set_ServiceKey (k : ServiceKey) (c : config) : config :=
  mkConfig k (conf_SimpleAddresses c) (conf_GenesisTokenSupply c)
    (conf_TransactionMaxGasLimit c) (conf_ScriptGasLimit c) (conf_TransactionExpiry c)
    (conf_StorageLimitEnabled c) (conf_TransactionFeesEnabled c) (conf_ContractRemovalEnabled c)
    (conf_MinimumStorageReservation c) (conf_StorageMBPerFLOW c)
    (conf_TransactionValidationEnabled c) (conf_ChainID c) (conf_AutoMine c) (conf_Contracts c)
    (conf_ComputationReportingEnabled c) (conf_ScheduledTransactionsEnabled c)
    (conf_SetupVMBridgeEnabled c) (conf_EVMTestHelpersEnabled c).
Definition WithServicePublicKey (servicePublicKey : PublicKey) (sigAlgo : SigningAlgorithm)
    (hashAlgo : HashingAlgorithm) : config → config :=
  set_ServiceKey (mkServiceKey 0 EmptyAddress 0 None (Some servicePublicKey) hashAlgo sigAlgo 0).
Definition WithServicePrivateKey (privateKey : PrivateKey) (sigAlgo : SigningAlgorithm)
    (hashAlgo : HashingAlgorithm) : config → config :=
  set_ServiceKey (mkServiceKey 0 EmptyAddress 0 (Some privateKey) (Some (public_key privateKey))
                    hashAlgo sigAlgo 0).
Definition WithSimpleAddresses (c : config) : config :=
  mkConfig (conf_ServiceKey c) true (conf_GenesisTokenSupply c) (conf_TransactionMaxGasLimit c)
    (conf_ScriptGasLimit c) (conf_TransactionExpiry c) (conf_StorageLimitEnabled c)
    (conf_TransactionFeesEnabled c) (conf_ContractRemovalEnabled c)
    (conf_MinimumStorageReservation c) (conf_StorageMBPerFLOW c)
    (conf_TransactionValidationEnabled c) (conf_ChainID c) (conf_AutoMine c) (conf_Contracts c)
    (conf_ComputationReportingEnabled c) (conf_ScheduledTransactionsEnabled c)
    (conf_SetupVMBridgeEnabled c) (conf_EVMTestHelpersEnabled c).
Definition WithGenesisTokenSupply (supply : Z) (c : config) : config :=
  mkConfig (conf_ServiceKey c) (conf_SimpleAddresses c) supply (conf_TransactionMaxGasLimit c)
    (conf_ScriptGasLimit c) (conf_TransactionExpiry c) (conf_StorageLimitEnabled c)
    (conf_TransactionFeesEnabled c) (conf_ContractRemovalEnabled c)
    (conf_MinimumStorageReservation c) (conf_StorageMBPerFLOW c)
    (conf_TransactionValidationEnabled c) (conf_ChainID c) (conf_AutoMine c) (conf_Contracts c)
    (conf_ComputationReportingEnabled c) (conf_ScheduledTransactionsEnabled c)
    (conf_SetupVMBridgeEnabled c) (conf_EVMTestHelpersEnabled c).
Definition WithTransactionMaxGasLimit (maxLimit : Z) (c : config) : config :=
  mkConfig (conf_ServiceKey c) (conf_SimpleAddresses c) (conf_GenesisTokenSupply c) maxLimit
    (conf_ScriptGasLimit c) (conf_TransactionExpiry c) (conf_StorageLimitEnabled c)
    (conf_TransactionFeesEnabled c) (conf_ContractRemovalEnabled c)
    (conf_MinimumStorageReservation c) (conf_StorageMBPerFLOW c)
    (conf_TransactionValidationEnabled c) (conf_ChainID c) (conf_AutoMine c) (conf_Contracts c)
    (conf_ComputationReportingEnabled c) (conf_ScheduledTransactionsEnabled c)
    (conf_SetupVMBridgeEnabled c) (conf_EVMTestHelpersEnabled c).
Definition WithScriptGasLimit (limit : Z) (c : config) : config :=
  mkConfig (conf_ServiceKey c) (conf_SimpleAddresses c) (conf_GenesisTokenSupply c)
    (conf_TransactionMaxGasLimit c) limit (conf_TransactionExpiry c)
    (conf_StorageLimitEnabled c) (conf_TransactionFeesEnabled c) (conf_ContractRemovalEnabled c)
    (conf_MinimumStorageReservation c) (conf_StorageMBPerFLOW c)
    (conf_TransactionValidationEnabled c) (conf_ChainID c) (conf_AutoMine c) (conf_Contracts c)
    (conf_ComputationReportingEnabled c) (conf_ScheduledTransactionsEnabled c)
    (conf_SetupVMBridgeEnabled c) (conf_EVMTestHelpersEnabled c).
Definition WithTransactionExpiry (expiry : Z) (c : config) : config :=
  mkConfig (conf_ServiceKey c) (conf_SimpleAddresses c) (conf_GenesisTokenSupply c)
    (conf_TransactionMaxGasLimit c) (conf_ScriptGasLimit c) expiry (conf_StorageLimitEnabled c)
    (conf_TransactionFeesEnabled c) (conf_ContractRemovalEnabled c)
    (conf_MinimumStorageReservation c) (conf_StorageMBPerFLOW c)
    (conf_TransactionValidationEnabled c) (conf_ChainID c) (conf_AutoMine c) (conf_Contracts c)
    (conf_ComputationReportingEnabled c) (conf_ScheduledTransactionsEnabled c)
    (conf_SetupVMBridgeEnabled c) (conf_EVMTestHelpersEnabled c).
Definition WithStorageLimitEnabled (enabled : bool) (c : config) : config :=
  mkConfig (conf_ServiceKey c) (conf_SimpleAddresses c) (conf_GenesisTokenSupply c)
    (conf_TransactionMaxGasLimit c) (conf_ScriptGasLimit c) (conf_TransactionExpiry c) enabled
    (conf_TransactionFeesEnabled c) (conf_ContractRemovalEnabled c)
    (conf_MinimumStorageReservation c) (conf_StorageMBPerFLOW c)
    (conf_TransactionValidationEnabled c) (conf_ChainID c) (conf_AutoMine c) (conf_Contracts c)
    (conf_ComputationReportingEnabled c) (conf_ScheduledTransactionsEnabled c)
    (conf_SetupVMBridgeEnabled c) (conf_EVMTestHelpersEnabled c).
Definition WithMinimumStorageReservation (reservation : Z) (c : config) : config :=
  mkConfig (conf_ServiceKey c) (conf_SimpleAddresses c) (conf_GenesisTokenSupply c)
    (conf_TransactionMaxGasLimit c) (conf_ScriptGasLimit c) (conf_TransactionExpiry c)
    (conf_StorageLimitEnabled c) (conf_TransactionFeesEnabled c) (conf_ContractRemovalEnabled c)
    reservation (conf_StorageMBPerFLOW c) (conf_TransactionValidationEnabled c) (conf_ChainID c)
    (conf_AutoMine c) (conf_Contracts c) (conf_ComputationReportingEnabled c)
    (conf_ScheduledTransactionsEnabled c) (conf_SetupVMBridgeEnabled c)
    (conf_EVMTestHelpersEnabled c).
Definition WithStorageMBPerFLOW (storageMBPerFLOW : Z) (c : config) : config :=
  mkConfig (conf_ServiceKey c) (conf_SimpleAddresses c) (conf_GenesisTokenSupply c)
    (conf_TransactionMaxGasLimit c) (conf_ScriptGasLimit c) (conf_TransactionExpiry c)
    (conf_StorageLimitEnabled c) (conf_TransactionFeesEnabled c) (conf_ContractRemovalEnabled c)
    (conf_MinimumStorageReservation c) storageMBPerFLOW (conf_TransactionValidationEnabled c)
    (conf_ChainID c) (conf_AutoMine c) (conf_Contracts c) (conf_ComputationReportingEnabled c)
    (conf_ScheduledTransactionsEnabled c) (conf_SetupVMBridgeEnabled c)
    (conf_EVMTestHelpersEnabled c).
Definition WithTransactionFeesEnabled (enabled : bool) (c : config) : config :=
  mkConfig (conf_ServiceKey c) (conf_SimpleAddresses c) (conf_GenesisTokenSupply c)
    (conf_TransactionMaxGasLimit c) (conf_ScriptGasLimit c) (conf_TransactionExpiry c)
    (conf_StorageLimitEnabled c) enabled (conf_ContractRemovalEnabled c)
    (conf_MinimumStorageReservation c) (conf_StorageMBPerFLOW c)
    (conf_TransactionValidationEnabled c) (conf_ChainID c) (conf_AutoMine c) (conf_Contracts c)
    (conf_ComputationReportingEnabled c) (conf_ScheduledTransactionsEnabled c)
    (conf_SetupVMBridgeEnabled c) (conf_EVMTestHelpersEnabled c).
Definition WithContractRemovalEnabled (enabled : bool) (c : config) : config :=
  mkConfig (conf_ServiceKey c) (conf_SimpleAddresses c) (conf_GenesisTokenSupply c)
    (conf_TransactionMaxGasLimit c) (conf_ScriptGasLimit c) (conf_TransactionExpiry c)
    (conf_StorageLimitEnabled c) (conf_TransactionFeesEnabled c) enabled
    (conf_MinimumStorageReservation c) (conf_StorageMBPerFLOW c)
    (conf_TransactionValidationEnabled c) (conf_ChainID c) (conf_AutoMine c) (conf_Contracts c)
    (conf_ComputationReportingEnabled c) (conf_ScheduledTransactionsEnabled c)
    (conf_SetupVMBridgeEnabled c) (conf_EVMTestHelpersEnabled c).
Definition WithTransactionValidationEnabled (enabled : bool) (c : config) : config :=
  mkConfig (conf_ServiceKey c) (conf_SimpleAddresses c) (conf_GenesisTokenSupply c)
    (conf_TransactionMaxGasLimit c) (conf_ScriptGasLimit c) (conf_TransactionExpiry c)
    (conf_StorageLimitEnabled c) (conf_TransactionFeesEnabled c) (conf_ContractRemovalEnabled c)
    (conf_MinimumStorageReservation c) (conf_StorageMBPerFLOW c) enabled (conf_ChainID c)
    (conf_AutoMine c) (conf_Contracts c) (conf_ComputationReportingEnabled c)
    (conf_ScheduledTransactionsEnabled c) (conf_SetupVMBridgeEnabled c)
    (conf_EVMTestHelpersEnabled c).
Definition WithChainID (chainID : ChainID) (c : config) : config :=
  mkConfig (conf_ServiceKey c) (conf_SimpleAddresses c) (conf_GenesisTokenSupply c)
    (conf_TransactionMaxGasLimit c) (conf_ScriptGasLimit c) (conf_TransactionExpiry c)
    (conf_StorageLimitEnabled c) (conf_TransactionFeesEnabled c) (conf_ContractRemovalEnabled c)
    (conf_MinimumStorageReservation c) (conf_StorageMBPerFLOW c)
    (conf_TransactionValidationEnabled c) chainID (conf_AutoMine c) (conf_Contracts c)
    (conf_ComputationReportingEnabled c) (conf_ScheduledTransactionsEnabled c)
    (conf_SetupVMBridgeEnabled c) (conf_EVMTestHelpersEnabled c).
Definition WithComputationReporting (enabled : bool) (c : config) : config :=
  mkConfig (conf_ServiceKey c) (conf_SimpleAddresses c) (conf_GenesisTokenSupply c)
    (conf_TransactionMaxGasLimit c) (conf_ScriptGasLimit c) (conf_TransactionExpiry c)
    (conf_StorageLimitEnabled c) (conf_TransactionFeesEnabled c) (conf_ContractRemovalEnabled c)
    (conf_MinimumStorageReservation c) (conf_StorageMBPerFLOW c)
    (conf_TransactionValidationEnabled c) (conf_ChainID c) (conf_AutoMine c) (conf_Contracts c)
    enabled (conf_ScheduledTransactionsEnabled c) (conf_SetupVMBridgeEnabled c)
    (conf_EVMTestHelpersEnabled c).
Definition WithScheduledTransactions (enabled : bool) (c : config) : config :=
  mkConfig (conf_ServiceKey c) (conf_SimpleAddresses c) (conf_GenesisTokenSupply c)
    (conf_TransactionMaxGasLimit c) (conf_ScriptGasLimit c) (conf_TransactionExpiry c)
    (conf_StorageLimitEnabled c) (conf_TransactionFeesEnabled c) (conf_ContractRemovalEnabled c)
    (conf_MinimumStorageReservation c) (conf_StorageMBPerFLOW c)
    (conf_TransactionValidationEnabled c) (conf_ChainID c) (conf_AutoMine c) (conf_Contracts c)
    (conf_ComputationReportingEnabled c) enabled (conf_SetupVMBridgeEnabled c)
    (conf_EVMTestHelpersEnabled c).
Definition WithSetupVMBridgeEnabled (enabled : bool) (c : config) : config :=
  mkConfig (conf_ServiceKey c) (conf_SimpleAddresses c) (conf_GenesisTokenSupply c)
    (conf_TransactionMaxGasLimit c) (conf_ScriptGasLimit c) (conf_TransactionExpiry c)
    (conf_StorageLimitEnabled c) (conf_TransactionFeesEnabled c) (conf_ContractRemovalEnabled c)
    (conf_MinimumStorageReservation c) (conf_StorageMBPerFLOW c)
    (conf_TransactionValidationEnabled c) (conf_ChainID c) (conf_AutoMine c) (conf_Contracts c)
    (conf_ComputationReportingEnabled c) (conf_ScheduledTransactionsEnabled c) enabled
    (conf_EVMTestHelpersEnabled c).
Definition WithEVMTestHelpersEnabled (enabled : bool) (c : config) : config :=
  mkConfig (conf_ServiceKey c) (conf_SimpleAddresses c) (conf_GenesisTokenSupply c)
    (conf_TransactionMaxGasLimit c) (conf_ScriptGasLimit c) (conf_TransactionExpiry c)
    (conf_StorageLimitEnabled c) (conf_TransactionFeesEnabled c) (conf_ContractRemovalEnabled c)
    (conf_MinimumStorageReservation c) (conf_StorageMBPerFLOW c)
    (conf_TransactionValidationEnabled c) (conf_ChainID c) (conf_AutoMine c) (conf_Contracts c)
    (conf_ComputationReportingEnabled c) (conf_ScheduledTransactionsEnabled c)
    (conf_SetupVMBridgeEnabled c) enabled.
Definition Contracts (contracts : list ContractDescription) (c : config) : config :=
  mkConfig (conf_ServiceKey c) (conf_SimpleAddresses c) (conf_GenesisTokenSupply c)
    (conf_TransactionMaxGasLimit c) (conf_ScriptGasLimit c) (conf_TransactionExpiry c)
    (conf_StorageLimitEnabled c) (conf_TransactionFeesEnabled c) (conf_ContractRemovalEnabled c)
    (conf_MinimumStorageReservation c) (conf_StorageMBPerFLOW c)
    (conf_TransactionValidationEnabled c) (conf_ChainID c) (conf_AutoMine c) contracts
    (conf_ComputationReportingEnabled c) (conf_ScheduledTransactionsEnabled c)
    (conf_SetupVMBridgeEnabled c) (conf_EVMTestHelpersEnabled c).
End options.
End Options.

(** * Defaults *)

Section config.
Context {FM : FlowModel} {CA : Cadence} {VM : VirtualMachine} {CR : Crypto} {SG : Signing}
        {CD : ConfigDefaults}.

Definition defaultServiceKeyPrivateKeySeed : string :=
  "elephant ears space cowboy octopus rodeo potato cannon pineapple".
(** A key that cannot be generated is a panic. *)
Definition GenerateDefaultServiceKey (sigAlgo : SigningAlgorithm) (hashAlgo : HashingAlgorithm)
    : result ServiceKey :=
  privateKey ← map_err (λ _, Panic "Failed to generate default service key")
                 (GeneratePrivateKey sigAlgo (bytes_of_string defaultServiceKeyPrivateKeySeed));
  Ok (mkServiceKey 0 EmptyAddress 0 (Some privateKey) (Some (public_key privateKey))
        hashAlgo sigAlgo 0).
Definition DefaultServiceKey : result ServiceKey := GenerateDefaultServiceKey ECDSA_P256 SHA3_256.

Definition defaultGenesisTokenSupply : string := "1000000000.0".
Definition defaultScriptGasLimit : Z := 100000.

Definition defaultConfig : result config :=
  genesisTokenSupply ← map_err (λ _, Panic "Failed to parse default genesis token supply")
                         (cadence_NewUFix64 defaultGenesisTokenSupply);
  serviceKey ← DefaultServiceKey;
  Ok (mkConfig serviceKey false genesisTokenSupply DefaultMaxTransactionGasLimit
        defaultScriptGasLimit 0 true false false DefaultMinimumStorageReservation
        DefaultStorageMBPerFLOW true flow_Emulator false [] false true true false).

(** [for _, opt := range opts { opt(&conf) }] *)
Definition apply_options (opts : list (config → config)) (conf : config) : config :=
  foldl (λ c opt, opt c) conf opts.
End config.
