(* ===== verification/ServerConfig.v ===== *)
(** The configuration of the server: server/server.go, [Config],
    [sanitizeConfig], [configureStorage] and [configureBlockchain].

    The constructors of the stores are the interface [StorageUtil]; the fields
    that only the gRPC and HTTP servers read are left out. *)
From S2P Require Import Prelude FlowTypes Errors Storage Report Convert Pragma Vm PendingBlock.
From S2P Require Import Blockchain Config.
#[local] Open Scope string_scope.

Record HTTPHeader := mkHTTPHeader { hh_Key : string; hh_Value : string }.

Record Config {CR : Crypto} := mkServerConfig {
  sc_GRPCPort : Z;
  sc_AdminPort : Z;
  sc_DebuggerPort : Z;
  sc_RESTPort : Z;
  sc_HTTPHeaders : option (list HTTPHeader);
  sc_BlockTime : Duration;
  sc_ServicePublicKey : option PublicKey;
  sc_ServicePrivateKey : option PrivateKey;
  sc_ServiceKeySigAlgo : SigningAlgorithm;
  sc_ServiceKeyHashAlgo : HashingAlgorithm;
  sc_GenesisTokenSupply : Z;
  sc_TransactionExpiry : Z;
  sc_StorageLimitEnabled : bool;
  sc_MinimumStorageReservation : Z;
  sc_StorageMBPerFLOW : Z;
  sc_TransactionFeesEnabled : bool;
  sc_TransactionMaxGasLimit : Z;
  sc_ScriptGasLimit : Z;
  sc_Persist : bool;
  sc_Snapshot : bool;
  sc_ContractRemovalEnabled : bool;
  sc_DBPath : string;
  sc_ForkCacheDir : string;
  sc_LivenessCheckTolerance : Duration;
  sc_WithContracts : bool;
  sc_SimpleAddressesEnabled : bool;
  sc_SkipTransactionValidation : bool;
  sc_Host : string;
  sc_ChainID : ChainID;
  sc_RedisURL : string;
  sc_SqliteURL : string;
  sc_ForkHost : string;
  sc_ForkHeight : Z;
  sc_CheckpointPath : string;
  sc_StateHash : string;
  sc_ComputationReportingEnabled : bool;
  sc_ScheduledTransactionsEnabled : bool;
  sc_SetupVMBridgeEnabled : bool;
  sc_NumAccounts : Z;
  sc_EVMTestHelpersEnabled : bool;
  sc_GRPCDebug : bool;
  sc_RESTDebug : bool
}.
Arguments mkServerConfig {CR}.

Definition defaultGRPCPort : Z := 3569.
Definition defaultRESTPort : Z := 8888.
Definition defaultAdminPort : Z := 8080.
Definition defaultLivenessCheckTolerance : Duration := 1000000000.
Definition defaultHTTPHeaders : list HTTPHeader :=
  [mkHTTPHeader "Access-Control-Allow-Origin" "*";
   mkHTTPHeader "Access-Control-Allow-Methods" "POST, GET, OPTIONS, PUT, DELETE";
   mkHTTPHeader "Access-Control-Allow-Headers" "*"].

(** The constructors of the stores that [configureStorage] calls, and the
    dynamic types it asks for. *)
Class StorageUtil (S : Type) := {
  NewRedisStorage : string → result S;
  NewSqliteStorage : string → result S;
  checkpoint_New : string → string → ChainID → result S;
  (** [storageProvider.( *sqlite.Store)] *)
  is_sqlite : S → bool;
  (** [remote.New] with the host, the height and the cache directory options. *)
  remote_New : S → string → Z → option string → result S;
  (** [storageProvider.(storage.SnapshotProvider)] and its
      [SupportSnapshotsWithCurrentConfig]. *)
  snapshot_support : S → option bool
}.

(** [sqlite.InMemory] *)
Definition sqlite_InMemory : string := ":memory:".

(** [strings.Contains(s, ":")] *)
Fixpoint contains_colon (s : string) : bool :=
  match s with
  | EmptyString => false
  | String c s => if decide (c = Ascii.ascii_of_nat 58) then true else contains_colon s
  end.

Definition nonempty (s : string) : bool := negb (bool_decide (s = "")).

Section server_config.
Context {FM : FlowModel} {CA : Cadence} {VM : VirtualMachine} {CR : Crypto} {SG : Signing}
        {CD : ConfigDefaults}.

(** [if v == 0 { v = d }] *)
Definition or_default (d v : Z) : Z := if bool_decide (v = 0) then d else v.

Definition sanitizeConfig (c : Config) : Config :=
  mkServerConfig (or_default defaultGRPCPort (sc_GRPCPort c))
    (or_default defaultAdminPort (sc_AdminPort c)) (sc_DebuggerPort c)
    (or_default defaultRESTPort (sc_RESTPort c))
    (Some (default defaultHTTPHeaders (sc_HTTPHeaders c)))
    (sc_BlockTime c) (sc_ServicePublicKey c) (sc_ServicePrivateKey c) (sc_ServiceKeySigAlgo c)
    (sc_ServiceKeyHashAlgo c) (sc_GenesisTokenSupply c) (sc_TransactionExpiry c)
    (sc_StorageLimitEnabled c) (sc_MinimumStorageReservation c) (sc_StorageMBPerFLOW c)
    (sc_TransactionFeesEnabled c) (sc_TransactionMaxGasLimit c) (sc_ScriptGasLimit c)
    (sc_Persist c) (sc_Snapshot c) (sc_ContractRemovalEnabled c) (sc_DBPath c) (sc_ForkCacheDir c)
    (or_default defaultLivenessCheckTolerance (sc_LivenessCheckTolerance c))
    (sc_WithContracts c) (sc_SimpleAddressesEnabled c) (sc_SkipTransactionValidation c) (sc_Host c)
    (if bool_decide (sc_ChainID c = "") then flow_Emulator else sc_ChainID c)
    (sc_RedisURL c) (sc_SqliteURL c) (sc_ForkHost c) (sc_ForkHeight c) (sc_CheckpointPath c)
    (sc_StateHash c) (sc_ComputationReportingEnabled c) (sc_ScheduledTransactionsEnabled c)
    (sc_SetupVMBridgeEnabled c) (sc_NumAccounts c) (sc_EVMTestHelpersEnabled c) (sc_GRPCDebug c)
    (sc_RESTDebug c).

(** * The store *)

Section storage.
Context {S : Type} {SU : StorageUtil S}.

(** Each part of [configureStorage] takes the provider so far. *)
Definition redis_part (c : Config) : result (option S) :=
  if nonempty (sc_RedisURL c) then Some <$> NewRedisStorage (sc_RedisURL c) else Ok None.

Definition sqlite_part (c : Config) (p : option S) : result (option S) :=
  if nonempty (sc_SqliteURL c)
  then match p with
       | Some _ => Err (Errorf "you cannot define more than one storage")
       | None => Some <$> NewSqliteStorage (sc_SqliteURL c)
       end
  else Ok p.

Definition checkpoint_part (c : Config) (p : option S) : result (option S) :=
  if nonempty (sc_CheckpointPath c) || nonempty (sc_StateHash c)
  then if negb (nonempty (sc_CheckpointPath c)) || negb (nonempty (sc_StateHash c))
       then Err (Errorf "both checkpoint path and state hash should be provided")
       else if sc_Persist c then Err (Errorf "you cannot use persist with checkpoint")
       else match p with
            | Some _ => Err (Errorf "you cannot define more than one storage")
            | None => Some <$> checkpoint_New (sc_CheckpointPath c) (sc_StateHash c) (sc_ChainID c)
            end
  else Ok p.

Definition persist_part (c : Config) (p : option S) : result (option S) :=
  if sc_Persist c
  then match p with
       | Some _ => Err (Errorf "you cannot use persist with current configuration")
       | None => Some <$> NewSqliteStorage (sc_DBPath c)
       end
  else Ok p.

Definition memory_part (p : option S) : result S :=
  match p with Some s => Ok s | None => NewSqliteStorage sqlite_InMemory end.

Definition fork_part (c : Config) (s : S) : result S :=
  if nonempty (sc_ForkHost c)
  then if negb (contains_colon (sc_ForkHost c))
       then Err (Errorf "fork-host must include port (e.g., access.mainnet.nodes.onflow.org:9000)")
       else if negb (is_sqlite s)
       then Err (Errorf "only sqlite is supported with forked networks")
       else remote_New s (sc_ForkHost c) (sc_ForkHeight c)
              (if nonempty (sc_ForkCacheDir c) && bool_decide (0 < sc_ForkHeight c)
               then Some (sc_ForkCacheDir c) else None)
  else Ok s.

Definition snapshot_part (c : Config) (s : S) : result S :=
  if sc_Snapshot c
  then match snapshot_support s with
       | None => Err (Errorf "selected storage provider does not support snapshots")
       | Some false => Err (Errorf "selected storage provider does not support snapshots with current configuration")
       | Some true => Ok s
       end
  else Ok s.

Definition configureStorage (c : Config) : result S :=
  p ← redis_part c;
  p ← sqlite_part c p;
  p ← checkpoint_part c p;
  p ← persist_part c p;
  s ← memory_part p;
  s ← fork_part c s;
  snapshot_part c s.
End storage.

(** * The options of the chain *)

Definition when (b : bool) (opts : list (config → config)) : list (config → config) :=
  if b then opts else [].

Definition blockchain_options (chainID : ChainID) (c : Config) : list (config → config) :=
  [Options.WithGenesisTokenSupply (sc_GenesisTokenSupply c);
   Options.WithTransactionMaxGasLimit (sc_TransactionMaxGasLimit c);
   Options.WithScriptGasLimit (sc_ScriptGasLimit c);
   Options.WithTransactionExpiry (sc_TransactionExpiry c);
   Options.WithStorageLimitEnabled (sc_StorageLimitEnabled c);
   Options.WithMinimumStorageReservation (sc_MinimumStorageReservation c);
   Options.WithStorageMBPerFLOW (sc_StorageMBPerFLOW c);
   Options.WithTransactionFeesEnabled (sc_TransactionFeesEnabled c);
   Options.WithChainID chainID;
   Options.WithContractRemovalEnabled (sc_ContractRemovalEnabled c);
   Options.WithSetupVMBridgeEnabled (sc_SetupVMBridgeEnabled c);
   Options.WithEVMTestHelpersEnabled (sc_EVMTestHelpersEnabled c)] ++
  when (sc_SkipTransactionValidation c) [Options.WithTransactionValidationEnabled false] ++
  when (sc_SimpleAddressesEnabled c) [Options.WithSimpleAddresses] ++
  match sc_ServicePrivateKey c, sc_ServicePublicKey c with
  | Some privateKey, _ =>
      [Options.WithServicePrivateKey privateKey (sc_ServiceKeySigAlgo c) (sc_ServiceKeyHashAlgo c)]
  | None, Some publicKey =>
      [Options.WithServicePublicKey publicKey (sc_ServiceKeySigAlgo c) (sc_ServiceKeyHashAlgo c)]
  | None, None => []
  end ++
  when (sc_ComputationReportingEnabled c) [Options.WithComputationReporting true] ++
  when (sc_ScheduledTransactionsEnabled c) [Options.WithScheduledTransactions true].

(** The configuration [emulator.New] makes of them. *)
Definition chain_config (chainID : ChainID) (c : Config) : result config :=
  apply_options (blockchain_options chainID c) <$> defaultConfig.
End server_config.
