(* ===== verification/Queries.v ===== *)
(** The queries of emulator/blockchain.go: blocks, collections, transactions and
    their results, system and scheduled transactions, events, registers,
    scripts, and the operations that go through an optional interface of the
    store (rollback, snapshots). *)
From S2P Require Import Prelude FlowTypes Errors Storage Report Convert Pragma Vm PendingBlock.
From S2P Require Import Blockchain.

Record BlockEvents := mkBlockEvents {
  be_BlockID : Identifier; be_BlockHeight : Z; be_BlockTimestamp : Time; be_Events : list Event
}.

(** types/result.go *)
Record ScriptResult {CA : Cadence} := mkScriptResult {
  scr_ScriptID : sdk_Identifier;
  scr_Value : option cadence_Value;
  scr_Error : option error;
  scr_Logs : list string;
  scr_Events : list sdk_Event;
  scr_ComputationUsed : Z;
  scr_MemoryEstimate : Z
}.
Arguments mkScriptResult {CA}.

Section queries.
Context {FM : FlowModel} {CA : Cadence} {VM : VirtualMachine} {CK : Clocks} {CR : Crypto}
        {SG : Signing} {CP : CadenceParser} {KS : KindString} {GO : GoMapOrder}
        {S : Type} `{!Store S} {OI : OptionalInterfaces S}.

(** [if errors.Is(err, storage.ErrNotFound) { return nil, e }; return nil, err] *)
Definition not_found_as {A} (e : error) (m : result A) : result A :=
  match m with
  | Ok a => Ok a
  | Err err => if is_not_found err then Err e else Err err
  end.

(** ** Blocks, collections, transactions *)

Definition PendingBlockTimestamp (b : Blockchain (S := S)) : Time :=
  time_of_UnixMilli (i64 (Block_Timestamp (pending_Block (b_pendingBlock b)))).

Definition getBlockByID (id : Identifier) (b : Blockchain) : result Block :=
  not_found_as (BlockNotFoundByIDError id) (BlockByID id (b_storage b)).
Definition getBlockByHeight (height : Z) (b : Blockchain) : result Block :=
  not_found_as (BlockNotFoundByHeightError height) (BlockByHeight height (b_storage b)).
Definition getCollectionByID (colID : Identifier) (b : Blockchain) : result LightCollection :=
  not_found_as (CollectionNotFoundError colID) (CollectionByID colID (b_storage b)).
Definition getFullCollectionByID (colID : Identifier) (b : Blockchain) : result Collection :=
  not_found_as (CollectionNotFoundError colID) (FullCollectionByID colID (b_storage b)).

Definition getTransaction (txID : Identifier) (b : Blockchain) : result TransactionBody :=
  match pending_GetTransaction txID (b_pendingBlock b) with
  | Some tx => Ok tx
  | None =>
      match TransactionByID txID (b_storage b) with
      | Ok tx => Ok tx
      | Err err =>
          if negb (is_not_found err) then Err err
          else of_option (TransactionNotFoundError txID) (b_systemTransactions b !! txID)
      end
  end.

Definition status_result (st : TransactionStatus) : access_TransactionResult :=
  mkAccessResult st 0 "" [] ZeroID 0 ZeroID ZeroID.
Definition sealed_result (txID : Identifier) (r : StorableTransactionResult)
    : access_TransactionResult :=
  mkAccessResult StatusSealed (if bool_decide (0 < str_ErrorCode r) then 1 else 0)
    (str_ErrorMessage r) (str_Events r) txID (str_BlockHeight r) (str_BlockID r)
    (str_CollectionID r).

Definition getSystemTransactionResult (blockID txID : Identifier) (b : Blockchain)
    : result access_TransactionResult :=
  match SystemTransactionResultByID blockID txID (b_storage b) with
  | Ok storedResult => Ok (sealed_result txID storedResult)
  | Err err => if is_not_found err then Ok (status_result StatusUnknown) else Err err
  end.

Definition getTransactionResult (txID : Identifier) (b : Blockchain)
    : result access_TransactionResult :=
  if ContainsTransaction txID (b_pendingBlock b) then Ok (status_result StatusPending)
  else match TransactionResultByID txID (b_storage b) with
  | Ok storedResult => Ok (sealed_result txID storedResult)
  | Err err =>
      if is_not_found err
      then match ScheduledTransactionBlockIDByTxID txID (b_storage b) with
           | Ok blockID => getSystemTransactionResult blockID txID b
           | Err _ => Ok (status_result StatusUnknown)
           end
      else Err err
  end.

Definition GetLogs (id : Identifier) (b : Blockchain) : result (list string) :=
  str_Logs <$> TransactionResultByID id (b_storage b).

(** ** The transactions and the results of a block *)

Definition wrap_index {A} (text : string) (j : nat) (id : Identifier) (m : result A) : result A :=
  map_err (Errorf_w (text +:+ " [" +:+ show_int (Z.of_nat j) +:+ "] " +:+ show_id id +:+ ": ")) m.

(** The entries [f] gives for the user transactions, then [g] for the system
    transactions of a block. *)
Definition by_block {A} (what syswhat : string) (f : Identifier → result A) (g : Identifier → result A)
    (blockID : Identifier) (b : Blockchain) : result (list A) :=
  block ← map_err (Errorf_w ("failed to get block " +:+ show_id blockID +:+ ": "))
            (getBlockByID blockID b);
  user ← res_map (λ q : nat * CollectionGuarantee,
           c ← wrap_index "failed to get collection" q.1 (CollectionID q.2)
                 (getCollectionByID (CollectionID q.2) b);
           res_map (λ t : nat * Identifier, wrap_index what t.1 t.2 (f t.2))
             (imap pair (lc_Transactions c)))
         (imap pair (Guarantees (Block_Payload block)));
  st ← map_err (Errorf_w "failed to get system transactions ")
         (SystemTransactionsForBlockID blockID (b_storage b));
  system ← res_map (λ t : nat * Identifier, wrap_index syswhat t.1 t.2 (g t.2))
             (imap pair (st_Transactions st));
  Ok (concat user ++ system).

Definition GetTransactionsByBlockID (blockID : Identifier) (b : Blockchain)
    : result (list TransactionBody) :=
  by_block "failed to get transaction" "failed to get transaction"
    (λ t, getTransaction t b) (λ t, getTransaction t b) blockID b.

Definition GetTransactionResultsByBlockID (blockID : Identifier) (b : Blockchain)
    : result (list access_TransactionResult) :=
  by_block "failed to get transaction result" "failed to get system transaction result"
    (λ t, getTransactionResult t b) (λ t, getSystemTransactionResult blockID t b) blockID b.

(** ** System and scheduled transactions *)

Definition wrap_system (blockID : Identifier) (err : error) : error :=
  Errorf_w ("failed to get system transactions for block " +:+ show_id blockID +:+ ": ") err.

Definition GetSystemTransactionsForBlock (blockID : Identifier) (b : Blockchain)
    : result (list Identifier) :=
  match SystemTransactionsForBlockID blockID (b_storage b) with
  | Ok systemTxs => Ok (st_Transactions systemTxs)
  | Err err => if is_not_found err then Ok [] else Err (wrap_system blockID err)
  end.

(** The system transactions of the block, or the error for [txID]. *)
Definition system_txs (txID blockID : Identifier) (b : Blockchain) : result SystemTransactions :=
  match SystemTransactionsForBlockID blockID (b_storage b) with
  | Ok systemTxs => Ok systemTxs
  | Err err => if is_not_found err then Err (TransactionNotFoundError txID)
               else Err (wrap_system blockID err)
  end.

(** The zero ID stands for the last system transaction of the block. *)
Definition system_txID (txID blockID : Identifier) (b : Blockchain) : result Identifier :=
  systemTxs ← system_txs txID blockID b;
  if decide (txID = ZeroID)
  then of_option (TransactionNotFoundError txID) (list.last (st_Transactions systemTxs))
  else if decide (txID ∈ st_Transactions systemTxs) then Ok txID
  else Err (TransactionNotFoundError txID).

Definition GetSystemTransaction (txID blockID : Identifier) (b : Blockchain) : result TransactionBody :=
  id ← system_txID txID blockID b; getTransaction id b.
Definition GetSystemTransactionResult (txID blockID : Identifier) (b : Blockchain)
    : result access_TransactionResult :=
  id ← system_txID txID blockID b; getSystemTransactionResult blockID id b.

Definition scheduled_txID (n : Z) (blockID : Identifier) (b : Blockchain) : result Identifier :=
  systemTxs ← system_txs ZeroID blockID b;
  of_option (TransactionNotFoundError ZeroID) (st_ScheduledTransactionIDs systemTxs !! n).

Definition GetScheduledTransactionByBlockID (n : Z) (blockID : Identifier) (b : Blockchain)
    : result TransactionBody :=
  id ← scheduled_txID n blockID b; getTransaction id b.
Definition GetScheduledTransactionResultByBlockID (n : Z) (blockID : Identifier) (b : Blockchain)
    : result access_TransactionResult :=
  id ← scheduled_txID n blockID b; getSystemTransactionResult blockID id b.

(** The global index. *)
Definition scheduled_block (n : Z) (b : Blockchain) : result Identifier :=
  match BlockIDByScheduledTransactionID n (b_storage b) with
  | Ok blockID => Ok blockID
  | Err err =>
      if is_not_found err then Err (TransactionNotFoundError ZeroID)
      else Err (Errorf_w ("failed to find block for scheduled transaction " +:+ show_int n
                          +:+ ": ") err)
  end.
Definition GetScheduledTransaction (n : Z) (b : Blockchain) : result TransactionBody :=
  blockID ← scheduled_block n b; GetScheduledTransactionByBlockID n blockID b.
Definition GetScheduledTransactionResult (n : Z) (b : Blockchain)
    : result access_TransactionResult :=
  blockID ← scheduled_block n b; GetScheduledTransactionResultByBlockID n blockID b.

(** ** Events and registers *)

Definition block_events (block : Block) (events : list Event) : BlockEvents :=
  mkBlockEvents (Block_ID block) (Block_Height block)
    (time_of_UnixMilli (i64 (Block_Timestamp block))) events.

(** A look-up that fails ends the loop; the error variable of the loop hides
    the result's, so that no error is returned. *)
Fixpoint GetEventsForBlockIDs (eventType : string) (blockIDs : list Identifier) (b : Blockchain)
    : list BlockEvents :=
  match blockIDs with
  | [] => []
  | blockID :: blockIDs =>
      match BlockByID blockID (b_storage b) with
      | Err _ => []
      | Ok block =>
          match EventsByHeight (Block_Height block) eventType (b_storage b) with
          | Err _ => []
          | Ok events => block_events block events :: GetEventsForBlockIDs eventType blockIDs b
          end
      end
  end.

(** The loop over the heights; [fuel] bounds its iterations. *)
Fixpoint events_loop (fuel : nat) (eventType : string) (blockHeight endHeight : Z) (b : Blockchain)
    : option (list BlockEvents) :=
  if bool_decide (blockHeight ≤ endHeight)
  then match fuel with
       | O => None
       | Datatypes.S fuel =>
           match BlockByHeight blockHeight (b_storage b) with
           | Err _ => Some []
           | Ok block =>
               match EventsByHeight blockHeight eventType (b_storage b) with
               | Err _ => Some []
               | Ok events =>
                   cons (block_events block events)
                     <$> events_loop fuel eventType (blockHeight +64 1) endHeight b
               end
           end
       end
  else Some [].
Definition GetEventsForHeightRange := events_loop.

Definition GetEventsByHeight (blockHeight : Z) (eventType : string) (b : Blockchain)
    : result (list Event) :=
  EventsByHeight blockHeight eventType (b_storage b).

Definition GetRegisterValues (registerIDs : list RegisterID) (height : Z) (b : Blockchain)
    : result (list RegisterValue) :=
  ledger ← LedgerByHeight height (b_storage b);
  res_map ledger registerIDs.

(** ** Scripts *)

Definition executeScriptAtBlockID (script : Bytes) (arguments : list Bytes) (id : Identifier)
    : ST error Blockchain ScriptResult :=
  requestedBlock ← st_read (λ b, BlockByID id (b_storage b));
  snapshot ← st_read (λ b, LedgerByHeight (Block_Height requestedBlock) (b_storage b));
  blockContext ← st_get (λ b, WithBlockHeader (ToHeader requestedBlock) (b_vmCtx b));
  let code := string_of_bytes script in
  let scriptID := Script_ID script in
  let pragmas := ExtractPragmas code in
  start_run code (show_id (ScriptProcedure_ID script arguments)) ;;
  run ← st_read (b_Run blockContext (fvm_Script script arguments) snapshot);
  let output := run.2 in
  events ← st_res (FlowEventsToSDK (po_Events output));
  record_source (ScriptLocation scriptID) pragmas ;;
  let scriptResult := mkScriptResult scriptID
    (match po_Err output with None => po_Value output | Some _ => None end)
    (VMErrorToEmulator (po_Err output)) (po_Logs output) events (po_ComputationUsed output)
    (po_MemoryEstimate output) in
  reporting ← st_get (λ b, conf_ComputationReportingEnabled (b_conf b));
  (if (reporting : bool)
   then st_modify (λ b, set_report
          (ReportScript (show_id scriptID) (scr_ComputationUsed scriptResult)
             (scr_MemoryEstimate scriptResult) (source_file (ScriptLocation scriptID) b)
             (b_currentCode b) (string_of_bytes <$> arguments)
             (po_ComputationIntensities output) (b_computationReport b)) b)
   else mret ()) ;;
  mret scriptResult.

Definition ExecuteScript (script : Bytes) (arguments : list Bytes)
    : ST error Blockchain ScriptResult :=
  latestBlock ← st_read getLatestBlock;
  executeScriptAtBlockID script arguments (Block_ID latestBlock).

Definition ExecuteScriptAtBlockHeight (script : Bytes) (arguments : list Bytes) (height : Z)
    : ST error Blockchain ScriptResult :=
  requestedBlock ← st_read (getBlockByHeight height);
  executeScriptAtBlockID script arguments (Block_ID requestedBlock).

(** ** Rollback and snapshots *)

(** [b.storage.(storage.RollbackProvider)] *)
Definition rollbackProvider (b : Blockchain (S := S)) : result (Z → ST error S unit) :=
  of_option (Errorf "storage doesn't support rollback") (as_RollbackProvider (b_storage b)).

Definition RollbackToBlockHeight (height : Z) (w : World) : ST error Blockchain unit :=
  rollback ← st_read rollbackProvider;
  on_storage (rollback height) ;; ReloadBlockchain w.

(** [b.storage.(storage.SnapshotProvider)] *)
Definition snapshotProvider (b : Blockchain (S := S)) : result (SnapshotProvider S) :=
  match as_SnapshotProvider (b_storage b) with
  | Some sp => if sp_Supported sp (b_storage b) then Ok sp
               else Err (Errorf "storage doesn't support snapshots")
  | None => Err (Errorf "storage doesn't support snapshots")
  end.

Definition Snapshots (b : Blockchain) : result (list string) :=
  sp ← snapshotProvider b; sp_Snapshots sp (b_storage b).
Definition CreateSnapshot (name : string) (w : World) : ST error Blockchain unit :=
  sp ← st_read snapshotProvider;
  on_storage (sp_CreateSnapshot sp name) ;; ReloadBlockchain w.
Definition LoadSnapshot (name : string) (w : World) : ST error Blockchain unit :=
  sp ← st_read snapshotProvider;
  on_storage (sp_LoadSnapshot sp name) ;; ReloadBlockchain w.
End queries.
