(* ===== verification/Logging.v ===== *)
(** What the emulator prints of the results of scripts and transactions
    (utils/logging.go) and of what Cadence programs log ([CadenceHook] of
    emulator/blockchain.go).  An entry has its level, its fields and its message;
    colours and the text of an event are parameters. *)
From S2P Require Import Prelude FlowTypes Errors Storage Report Convert Pragma Vm PendingBlock.
From S2P Require Import Blockchain Queries.
#[local] Open Scope string_scope.

Inductive log_level := LDebug | LInfo | LWarn.
#[global] Instance log_level_eq_dec : EqDecision log_level.
Proof. solve_decision. Defined.
Record log_entry := mkLog { log_Level : log_level; log_Fields : list (string * string); log_Msg : string }.

Inductive color := RedFg | GreenFg | BlueFg | FaintFm.
(** [aurora.Colorize], with bold for the foreground colours; [%s] on an event. *)
Class LogTexts {CA : Cadence} := { Colorize : color → string → string; event_String : sdk_Event → string }.

Section logging.
Context {CA : Cadence} {LT : LibraryTexts} {LX : LogTexts}.

(** [id.String()[:6]] *)
Definition short_id (id : sdk_Identifier) : string :=
  string_of_bytes (take 6 (bytes_of_string (show_id id))).
Definition logPrefix (prefix : string) (id : sdk_Identifier) (c : color) : string :=
  Colorize c prefix +:+ " " +:+ Colorize FaintFm ("[" +:+ short_id id +:+ "]").

(** The entry that a result opens with. *)
Definition headline (succeeded : bool) (fields : list (string * string)) (done failed : string) : log_entry :=
  if succeeded then mkLog LDebug fields done else mkLog LWarn fields failed.
Definition error_line (prefix : string) (id : sdk_Identifier) (err : option error) : list log_entry :=
  match err with
  | Some e => [mkLog LWarn [] (logPrefix prefix id RedFg +:+ " " +:+ Error_text e)]
  | None => []
  end.
Definition event_lines (prefix : string) (id : sdk_Identifier) (events : list sdk_Event) : list log_entry :=
  (λ e, mkLog LDebug [] (logPrefix prefix id GreenFg +:+ " " +:+ event_String e)) <$> events.

Definition script_succeeded (r : ScriptResult) : bool :=
  match scr_Error r with None => true | Some _ => false end.

Definition PrintScriptResult (r : ScriptResult) : list log_entry :=
  headline (script_succeeded r)
    [("scriptID", show_id (scr_ScriptID r)); ("computeUnitsUsed", show_u64 (scr_ComputationUsed r));
     ("memoryEstimate", show_u64 (scr_MemoryEstimate r))] "⭐  Script executed" "❗  Script reverted"
  :: error_line "ERR" (scr_ScriptID r) (scr_Error r).

Definition PrintTransactionResult (r : TransactionResult) : list log_entry :=
  (headline (Succeeded r)
     [("txID", show_id (tr_TransactionID r)); ("computeUnitsUsed", show_u64 (tr_ComputationUsed r));
      ("memoryEstimate", show_u64 (tr_MemoryEstimate r))] "⭐  Transaction executed" "❗  Transaction reverted"
   :: event_lines "EVT" (tr_TransactionID r) (tr_Events r)
   ++ error_line "ERR" (tr_TransactionID r) (tr_Error r)
   ++ match tr_Error r, tr_Debug r with
      | Some _, Some d => [mkLog LDebug (map_to_list (dbg_Meta d)) ("❗  Transaction Signature Error " +:+ dbg_Message d)]
      | _, _ => []
      end)%list.

Definition PrintScheduledTransactionResult (r : TransactionResult) (scheduledTxID : string) : list log_entry :=
  (headline (Succeeded r)
     [("systemTxId", show_id (tr_TransactionID r)); ("scheduledTxId", scheduledTxID);
      ("computeUnitsUsed", show_u64 (tr_ComputationUsed r));
      ("memoryEstimate", show_u64 (tr_MemoryEstimate r)); ("kind", "scheduled")]
     "⏱️  Scheduled transaction executed" "❗  Scheduled transaction reverted"
   :: event_lines "EVT-SYS" (tr_TransactionID r) (tr_Events r)
   ++ error_line "ERR-SYS" (tr_TransactionID r) (tr_Error r))%list.

(** [CadenceHook.Run]: what the main logger prints for an entry of Cadence's
    logger; an entry without a level has none.  The first place of the prefix is
    the start of the message. *)
Definition CadenceHook_Run (level : option log_level) (msg : string) : list log_entry :=
  let logPrefix := "Cadence log:" in
  if bool_decide (is_Some level) && String.prefix logPrefix msg
  then [mkLog LInfo [] (Colorize BlueFg "LOG:" +:+
                        String.substring (String.length logPrefix) (String.length msg) msg)]
  else [].

(** * Theorems *)

Definition warnings (l : list log_entry) : nat := length (filter (λ e, log_Level e = LWarn) l).

Lemma events_no_warning prefix id events : filter (λ e, log_Level e = LWarn) (event_lines prefix id events) = [].
Proof. by induction events. Qed.

(** A result that succeeded is printed without a warning, one that failed with
    exactly two: that it was reverted, and its error. *)
Theorem warnings_of_results :
  (∀ r, warnings (PrintScriptResult r) = if script_succeeded r then 0%nat else 2%nat) ∧
  (∀ r, warnings (PrintTransactionResult r) = if Succeeded r then 0%nat else 2%nat) ∧
  (∀ r id, warnings (PrintScheduledTransactionResult r id) = if Succeeded r then 0%nat else 2%nat).
Proof.
  unfold warnings, PrintScriptResult, PrintTransactionResult, PrintScheduledTransactionResult,
    script_succeeded, Succeeded.
  split_and!; intros r; intros; [destruct (scr_Error r); done| |].
  all: rewrite filter_cons, !list.filter_app, events_no_warning.
  all: destruct (tr_Error r); simpl; [|done].
  - by destruct (tr_Debug r).
  - done.
Qed.

Lemma substring_all s n : (String.length s ≤ n)%nat → String.substring 0 n s = s.
Proof.
  revert n; induction s as [|c s IH]; intros [|n] H; simpl in *; try done; [lia|].
  by rewrite IH by lia.
Qed.

Lemma prefix_text p s : String.prefix p (p +:+ s) = true.
Proof. induction p as [|c p IH]; simpl; [by destruct s|]. by destruct (Ascii.ascii_dec c c). Qed.

(** What a program logs is printed once, with its own text whatever it contains,
    and nothing else of Cadence's log is. *)
Theorem cadence_log_printed level :
  (∀ text, CadenceHook_Run (Some level) ("Cadence log:" +:+ text) =
           [mkLog LInfo [] (Colorize BlueFg "LOG:" +:+ text)]) ∧
  (∀ msg, String.prefix "Cadence log:" msg = false → CadenceHook_Run (Some level) msg = []) ∧
  (∀ msg, CadenceHook_Run None msg = []).
Proof.
  split_and!; intros text; unfold CadenceHook_Run.
  - rewrite prefix_text; simpl. by rewrite substring_all by lia.
  - intros ->. by rewrite andb_false_r.
  - done.
Qed.
End logging.
