(* ===== verification/BlockchainCorrect.v ===== *)
(** The invariant of the emulated chain and what its operations do.

    The chain state is described by the log of its store.  [chain_inv b l] says
    that the store of [b] is an image of [l] and that the pending block extends
    it: its height is the next one, its parent the latest block, its view one to
    three above, and none of its transactions is already in the log.  Every
    operation keeps the invariant, on its error paths too. *)
From S2P Require Import Prelude FlowTypes Errors Storage Report Convert Pragma Vm PendingBlock.
From S2P Require Import Blockchain Queries.

(** A store that accepts every write of a well-formed log: the in-memory store and
    the log itself.  SQLite refuses a write whose ID is taken, and is not one; the
    chain on it is the subject of [Lives], [StoreIndependence] and
    [ServerSimulation]. *)
Class TotalStore {FM : FlowModel} (S : Type) `{!Store S} {OI : OptionalInterfaces S} {SC : StoreCorrect S} : Prop :=
  store_total s l w : store_writable s l w.

Section chain.
Context {FM : FlowModel} {CA : Cadence} {VM : VirtualMachine} {CK : Clocks} {CR : Crypto}
        {SG : Signing} {CP : CadenceParser} {KS : KindString} {GO : GoMapOrder}
        {S : Type} `{!Store S} {OI : OptionalInterfaces S} {SC : StoreCorrect S} {TS : TotalStore S}.
Implicit Types b : Blockchain (S := S).

Definition world_ok (w : World) : Prop := 0 ≤ Intn w < MaxViewIncrease.

(** The pending block extends the block [prev]. *)
Record extends (prev : Block) (p : pendingBlock) : Prop := {
  ext_height : pb_height p = Block_Height prev +64 1;
  ext_parent : pb_parentID p = Block_ID prev;
  ext_view : ∃ k, 1 ≤ k ≤ MaxViewIncrease ∧ pb_view p = Block_View prev +64 k
}.

(** The user transactions the blocks of a log contain. *)
Fixpoint user_ids (l : log) : list Identifier :=
  match l with
  | [] => []
  | WCommit c :: l => concat (lc_Transactions <$> bc_collections c) ++ user_ids l
  | _ :: l => user_ids l
  end.

(** The transactions of a commit are under their IDs, and its results are those
    of the transactions of its collections. *)
Record keyed (c : BlockCommit) : Prop := {
  keyed_transaction id tx :
    bc_transactions c !! id = Some tx ∨ bc_systemTransactionBodies c !! id = Some tx →
    Transaction_ID tx = id;
  keyed_result id :
    is_Some (bc_transactionResults c !! id) → id ∈ concat (lc_Transactions <$> bc_collections c)
}.

(** No user transaction is in two blocks, all of them are found, and every commit
    has its entries under the right IDs. *)
Definition once (l : log) : Prop :=
  NoDup (user_ids l) ∧ (∀ id, id ∈ user_ids l → is_Ok (log_TransactionByID id l) = true) ∧
  ∀ c, WCommit c ∈ l → keyed c.

(** A block refers to its parent and has a view one to three above. *)
Definition follows (parent blk : Block) : Prop :=
  Block_ParentID blk = Block_ID parent ∧
  ∃ k, 1 ≤ k ≤ MaxViewIncrease ∧ Block_View blk = Block_View parent +64 k.

(** Every block of the log but the first follows the one below. *)
Definition linked (l : log) : Prop :=
  ∀ h blk, 0 < h → log_BlockByHeight h l = Ok blk →
    ∃ parent, log_BlockByHeight (h - 1) l = Ok parent ∧ follows parent blk.

Record chain_inv (b : Blockchain) (l : log) : Prop := {
  ci_store : store_rel (b_storage b) l;
  ci_log : log_ok l;
  ci_latest : ∃ prev, log_LatestBlock l = Ok prev ∧ extends prev (b_pendingBlock b);
  ci_pending : pb_ok (b_pendingBlock b);
  ci_fresh id : id ∈ pb_transactionIDs (b_pendingBlock b) →
    log_TransactionByID id l = Err ErrNotFound;
  ci_once : once l;
  ci_linked : linked l
}.

(** ** Small facts *)

Lemma new_extends prev snap clock w : world_ok w → extends prev (newPendingBlock prev snap clock w).
Proof.
  intros Hw. split; [done|done|]. exists (Intn w + 1). unfold world_ok, MaxViewIncrease in *.
  split; [lia|done].
Qed.

Lemma extends_same prev p p' : extends prev p → same_block p p' → extends prev p'.
Proof. intros [? ? (k & ? & ?)] []. split; [congruence..|]. exists k. split; [done|congruence]. Qed.

Lemma latest_height l prev :
  log_ok l → log_LatestBlock l = Ok prev → Block_Height prev = next_height l - 1.
Proof.
  unfold log_LatestBlock, log_LatestBlockHeight, next_height. intros Hl.
  destruct (newest (on_commit c_height) l) as [h|]; [|done]. simpl.
  intros Hb. rewrite (log_block_height l h prev Hb). lia.
Qed.

(** The height of the pending block is the next height of the log. *)
Lemma pending_height b l :
  chain_inv b l → next_height l < two64 → pb_height (b_pendingBlock b) = next_height l.
Proof.
  intros [_ Hl (prev & Hp & [Hh _ _]) _ _ _ _] Hn. rewrite Hh, (latest_height l prev Hl Hp).
  pose proof (next_height_nonneg l Hl). rewrite u64_small by (unfold is_u64; lia). lia.
Qed.

(** The invariant depends on the store and the pending block alone. *)
Lemma chain_inv_ext b b' l :
  b_storage b' = b_storage b → b_pendingBlock b' = b_pendingBlock b → chain_inv b l → chain_inv b' l.
Proof. intros Hs Hp [H1 H2 H3 H4 H5 H6 H7]. split; rewrite ?Hs, ?Hp; done. Qed.

Lemma chain_inv_pending b l p :
  chain_inv b l → same_block (b_pendingBlock b) p → pb_ok p → chain_inv (set_pendingBlock p b) l.
Proof.
  intros [H1 H2 (prev & Hp & He) H4 H5 H6 H7] Hs Hok. split; simpl; [done|done| |done| |done|done].
  - exists prev. split; [done|]. by eapply extends_same.
  - intros id. rewrite (sb_transactionIDs _ _ Hs). apply H5.
Qed.

(** ** Adding a transaction *)

(** What stands in the way of a transaction, in the order of the checks. *)
Definition admits (tx : TransactionBody) (b : Blockchain) : result unit :=
  let p := b_pendingBlock b in
  if ExecutionStarted p then Err (PendingBlockMidExecutionError (pending_ID p))
  else if ContainsTransaction (Transaction_ID tx) p
  then Err (DuplicateTransactionError (Transaction_ID tx))
  else match TransactionByID (Transaction_ID tx) (b_storage b) with
  | Ok _ => Err (DuplicateTransactionError (Transaction_ID tx))
  | Err err =>
      if negb (is_not_found err) then Err (Errorf_w "failed to check storage for transaction " err)
      else map_err ConvertAccessError
             (validator_Validate (b_transactionValidator b) (GetChainID (b_conf b))
                (blocks_view (b_storage b)) tx)
  end.

Lemma addTransaction_state tx b :
  addTransaction tx b =
  match admits tx b with
  | Ok _ => (Ok (), set_pendingBlock (AddTransaction tx (b_pendingBlock b)) b)
  | Err e => (Err e, b)
  end.
Proof.
  unfold addTransaction, admits. destruct (ExecutionStarted _); [done|].
  destruct (ContainsTransaction _ _); [done|]. destruct (TransactionByID _ _); [done|].
  destruct (negb _); [done|]. by destruct (validator_Validate _ _ _ _).
Qed.

Lemma admits_fresh tx b l :
  chain_inv b l → admits tx b = Ok () →
  ExecutionStarted (b_pendingBlock b) = false ∧
  ContainsTransaction (Transaction_ID tx) (b_pendingBlock b) = false ∧
  log_TransactionByID (Transaction_ID tx) l = Err ErrNotFound.
Proof.
  intros HI. unfold admits. rewrite (ref_TransactionByID _ _ (store_rel_refines _ _ (ci_store b l HI))).
  destruct (ExecutionStarted _); [done|]. destruct (ContainsTransaction _ _); [done|].
  unfold log_TransactionByID. destruct (newest _ l); [done|]. done.
Qed.

Lemma addTransaction_inv tx b l :
  chain_inv b l → Size (b_pendingBlock b) + 1 < two32 →
  chain_inv (addTransaction tx b).2 l.
Proof.
  intros HI Hs. rewrite addTransaction_state. destruct (admits tx b) as [[]|e] eqn:Ha; [|done].
  destruct (admits_fresh tx b l HI Ha) as (Hst & Hc & Hf).
  destruct HI as [H1 H2 (prev & Hp & He) H4 H5 H6 H7]. split; simpl; [done|done| | | |done|done].
  - exists prev. split; [done|]. destruct He. by split.
  - apply AddTransaction_ok; try done. unfold ExecutionStarted in Hst.
    apply bool_decide_eq_false in Hst. pose proof (ok_index _ H4). lia.
  - intros id [Hid|Hid]%elem_of_app; [by apply H5|].
    apply list_elem_of_singleton in Hid as ->. done.
Qed.

(** ** Executing transactions *)

(** The parts of the chain that executing a transaction can change. *)
Lemma record_source_keeps (P : Blockchain → Prop) loc pragmas :
  (∀ b f, P b → P (set_sourceFile loc f b)) → keeps P (record_source loc pragmas).
Proof.
  intros HP. unfold record_source. apply keeps_if; [|apply keeps_ret].
  apply keeps_res_bind. intros f _. apply keeps_modify. intros b. apply HP.
Qed.

Lemma on_pending_run {A} (m : ST error pendingBlock A) b r p :
  m (b_pendingBlock b) = (r, p) → on_pending m b = (r, set_pendingBlock p b).
Proof. intros Hm. unfold on_pending. by rewrite Hm. Qed.

Lemma on_storage_run {A} (m : ST error S A) b r s :
  m (b_storage b) = (r, s) → on_storage m b = (r, set_storage s b).
Proof. intros Hm. unfold on_storage. by rewrite Hm. Qed.

(** The steps before a run: the current code is set; the run is paused when a
    debugging session is active and the code asks for it, which needs a debugger. *)
Lemma start_run_cases code id b :
  let b1 := set_current code id b in
  start_run code id b =
  if pauses code b
  then match b_debugger b with
       | None => (Err nil_pointer, b1)
       | Some d => (Ok (), set_debugger (debugger_RequestPause d) b1)
       end
  else (Ok (), b1).
Proof.
  cbn zeta. unfold start_run. erewrite ST_bind_step by reflexivity.
  erewrite ST_bind_step by reflexivity.
  change (pauses code (set_current code id b)) with (pauses code b).
  destruct (pauses code b); [|done]. unfold requestPause.
  change (b_debugger (set_current code id b)) with (b_debugger b). by destruct (b_debugger b).
Qed.

(** What a property keeps that depends on neither the current code nor the debugger. *)
Lemma start_run_keeps (P : Blockchain (S := S) → Prop) code id :
  (∀ code id b, P b → P (set_current code id b)) →
  (∀ d d' b, b_debugger b = Some d → P b → P (set_debugger d' b)) →
  keeps P (start_run code id).
Proof.
  intros Hc Hd b Hb. rewrite start_run_cases. cbn zeta.
  destruct (pauses code b); [|by apply Hc]. destruct (b_debugger b) as [d|] eqn:E; simpl; [|by apply Hc].
  apply (Hd d); [done|by apply Hc].
Qed.

Lemma start_run_ok (P : Blockchain (S := S) → Prop) code id :
  (∀ code id b, P b → P (set_current code id b)) →
  (∀ d d' b, b_debugger b = Some d → P b → P (set_debugger d' b)) →
  keeps_ok P (start_run code id).
Proof.
  intros Hc Hd b a b' Hb H. pose proof (start_run_keeps P code id Hc Hd b Hb) as HP. by rewrite H in HP.
Qed.

(** An execution of the next transaction changes the store not at all, and
    the pending block as its own operation does, unless the run does not start. *)
Lemma executeNextTransaction_state ctx b :
  ExecutionComplete (b_pendingBlock b) = false → pb_ok (b_pendingBlock b) →
  let r := executeNextTransaction ctx b in
  let q := PendingBlock.ExecuteNextTransaction ctx (b_entropy b) (blocks_view (b_storage b))
             (b_pendingBlock b) in
  b_storage r.2 = b_storage b ∧
  (b_pendingBlock r.2 = q.2 ∧ (is_Ok r.1 = true → is_Ok q.1 = true) ∨
   b_pendingBlock r.2 = b_pendingBlock b ∧ r.1 = Err nil_pointer).
Proof.
  intros Hc Hok r q. subst r. unfold executeNextTransaction.
  erewrite ST_bind_step by reflexivity. rewrite Hc.
  destruct (NextTransaction_Some (b_pendingBlock b) Hok) as (tx & Htx & _).
  { pose proof (complete_iff _ Hok) as Hiff. pose proof (ok_index _ Hok).
    destruct (decide (pb_index (b_pendingBlock b) = Size (b_pendingBlock b))) as [He|He]; [|lia].
    apply Hiff in He. congruence. }
  erewrite ST_bind_step by (unfold st_res; by rewrite Htx). cbn zeta.
  match goal with |- context [start_run ?code ?id] =>
    destruct (start_run code id b) as [[[]|e0] b1] eqn:Hstart; rewrite start_run_cases in Hstart;
    cbn zeta in Hstart
  end.
  2:{ erewrite ST_bind_fail by (rewrite start_run_cases; exact Hstart).
      destruct (pauses _ b), (b_debugger b); try done. injection Hstart as <- <-. auto. }
  erewrite ST_bind_step by (rewrite start_run_cases; exact Hstart).
  assert (b_storage b1 = b_storage b ∧ b_pendingBlock b1 = b_pendingBlock b ∧ b_entropy b1 = b_entropy b)
    as (Hs1 & Hp1 & He1)
    by (destruct (pauses _ b), (b_debugger b); try done; by injection Hstart as <-).
  erewrite ST_bind_step by reflexivity. erewrite ST_bind_step by reflexivity. rewrite He1, Hs1.
  subst q. rewrite <- Hp1. set (q := PendingBlock.ExecuteNextTransaction _ _ _ _).
  set (P := λ b' : Blockchain, b_storage b' = b_storage b ∧ b_pendingBlock b' = q.2).
  destruct q as [[out|e] p'] eqn:Hq.
  2:{ erewrite ST_bind_fail by (by apply (on_pending_run _ b1)). split; [done|]. by left. }
  erewrite ST_bind_step by (by apply (on_pending_run _ b1)).
  match goal with |- _ (?op ?s).2 = _ ∧ _ => cut (keeps P op) end.
  { intros Hk. match goal with |- _ (?op ?s).2 = _ ∧ _ => specialize (Hk s) end.
    assert (P (set_pendingBlock p' b1)) as HP by (by split).
    destruct (Hk HP) as [Hs Hp]. split; [done|]. by left. }
  apply keeps_bind; [apply keeps_res|intros tr].
  apply keeps_bind.
  { destruct (tr_Error tr); [|apply keeps_ret].
    apply keeps_bind; [apply keeps_read|intros d; apply keeps_ret]. }
  intros tr'. apply keeps_bind; [by apply record_source_keeps|intros _].
  apply keeps_bind; [apply keeps_get|intros rep].
  apply keeps_bind; [|intros _; apply keeps_ret].
  destruct rep; [|apply keeps_ret]. apply keeps_modify. done.
Qed.

Lemma executeNextTransaction_complete ctx b :
  ExecutionComplete (b_pendingBlock b) = true →
  executeNextTransaction ctx b =
  (Err (PendingBlockTransactionsExhaustedError (pending_ID (b_pendingBlock b))), b).
Proof.
  intros Hc. unfold executeNextTransaction. erewrite ST_bind_step by reflexivity. by rewrite Hc.
Qed.

Lemma not_complete b :
  pb_ok (b_pendingBlock b) → ExecutionComplete (b_pendingBlock b) = false →
  pb_index (b_pendingBlock b) < Size (b_pendingBlock b).
Proof.
  intros Hok Hc. pose proof (complete_iff _ Hok) as Hiff. pose proof (ok_index _ Hok).
  destruct (decide (pb_index (b_pendingBlock b) = Size (b_pendingBlock b))) as [He|He]; [|lia].
  apply Hiff in He. congruence.
Qed.

(** One execution: the block is the same, its index has not gone back. *)
Record exec_step b b' : Prop := {
  es_storage : b_storage b' = b_storage b;
  es_same : same_block (b_pendingBlock b) (b_pendingBlock b');
  es_ok : pb_ok (b_pendingBlock b');
  es_index : pb_index (b_pendingBlock b) ≤ pb_index (b_pendingBlock b')
}.

Lemma executeNextTransaction_step ctx b :
  pb_ok (b_pendingBlock b) → ExecutionComplete (b_pendingBlock b) = false →
  exec_step b (executeNextTransaction ctx b).2 ∧
  (is_Ok (executeNextTransaction ctx b).1 = true →
   pb_index (b_pendingBlock (executeNextTransaction ctx b).2) = pb_index (b_pendingBlock b) + 1 ∧
   (all_results (b_pendingBlock b) →
    all_results (b_pendingBlock (executeNextTransaction ctx b).2))).
Proof.
  intros Hok Hc. pose proof (not_complete b Hok Hc) as Hi.
  destruct (executeNextTransaction_state ctx b Hc Hok) as (Hs & [[Hp Hr]|[Hp Hr]]).
  2:{ split; [by split; rewrite ?Hp|]. by rewrite Hr. }
  destruct (ExecuteNextTransaction_ok ctx (b_entropy b) (blocks_view (b_storage b))
              (b_pendingBlock b) Hok Hi) as (Hok' & Hsame & Hidx & Hall).
  split; [split; rewrite ?Hp; try done; lia|]. rewrite Hp. auto.
Qed.

Lemma executeNextTransaction_inv ctx b l :
  chain_inv b l → chain_inv (executeNextTransaction ctx b).2 l.
Proof.
  intros HI. pose proof (ci_pending b l HI) as Hok.
  destruct (ExecutionComplete (b_pendingBlock b)) eqn:Hc;
    [by rewrite executeNextTransaction_complete|].
  destruct (executeNextTransaction_step ctx b Hok Hc) as [[Hs Hsame Hok' _] _].
  apply (chain_inv_ext (set_pendingBlock (b_pendingBlock (executeNextTransaction ctx b).2) b));
    [done|done|]. by apply chain_inv_pending.
Qed.

(** The result of an execution is the one of the transaction at the index. *)
Lemma executeNextTransaction_id ctx b tr b' :
  executeNextTransaction ctx b = (Ok tr, b') →
  ∃ tx, NextTransaction (b_pendingBlock b) = Some tx ∧ tr_TransactionID tr = Transaction_ID tx.
Proof.
  unfold executeNextTransaction. intros H.
  apply ST_bind_Ok in H as (p & s1 & [= <- <-] & H).
  destruct (ExecutionComplete _); [done|].
  apply ST_bind_Ok in H as (tx & s2 & Htx & H). unfold st_res in Htx.
  destruct (NextTransaction (b_pendingBlock b)) as [tx'|]; [|done]. injection Htx as -> <-.
  exists tx. split; [done|]. cbn zeta in H.
  apply ST_bind_Ok in H as (? & ? & _ & H). apply ST_bind_Ok in H as (? & ? & _ & H).
  apply ST_bind_Ok in H as (? & ? & _ & H). apply ST_bind_Ok in H as (out & s3 & _ & H).
  apply ST_bind_Ok in H as (tr0 & s4 & Htr & H). unfold st_res in Htr.
  injection Htr as Htr <-. unfold VMTransactionResultToEmulator in Htr.
  apply bind_Ok in Htr as (evs & _ & [= <-]).
  apply ST_bind_Ok in H as (tr1 & s5 & Htr1 & H).
  assert (tr_TransactionID tr1 = Transaction_ID tx) as Hid.
  { revert Htr1. simpl. destruct (VMErrorToEmulator _); [|by intros [= <- <-]].
    intros Hd. apply ST_bind_Ok in Hd as (d & s6 & _ & [= <- <-]). done. }
  apply ST_bind_Ok in H as (? & ? & _ & H). apply ST_bind_Ok in H as (? & ? & _ & H).
  apply ST_bind_Ok in H as (? & ? & _ & H). injection H as <- <-. done.
Qed.

(** ** The loop of executeBlock *)

Definition remaining b : nat :=
  Z.to_nat (Size (b_pendingBlock b) - pb_index (b_pendingBlock b)).

Lemma same_size p p' : same_block p p' → Size p' = Size p.
Proof. intros Hs. unfold Size. by rewrite (sb_transactionIDs _ _ Hs). Qed.

Lemma loop_guard b :
  pb_ok (b_pendingBlock b) →
  negb (ExecutionComplete (b_pendingBlock b)) && negb (Empty (b_pendingBlock b))
  = negb (ExecutionComplete (b_pendingBlock b)).
Proof.
  intros Hok. destruct (ExecutionComplete (b_pendingBlock b)) eqn:Hc; [done|].
  pose proof (not_complete b Hok Hc). pose proof (ok_index _ Hok). unfold Empty.
  by rewrite bool_decide_eq_false_2 by lia.
Qed.

Lemma step_remaining ctx b :
  pb_ok (b_pendingBlock b) → ExecutionComplete (b_pendingBlock b) = false →
  is_Ok (executeNextTransaction ctx b).1 = true →
  remaining b = Datatypes.S (remaining (executeNextTransaction ctx b).2).
Proof.
  intros Hok Hc Ho. destruct (executeNextTransaction_step ctx b Hok Hc) as [[_ Hs _ _] Hi].
  destruct (Hi Ho) as [Hidx _]. pose proof (not_complete b Hok Hc). unfold remaining.
  rewrite (same_size _ _ Hs), Hidx. lia.
Qed.

Lemma remaining_pos b :
  pb_ok (b_pendingBlock b) → ExecutionComplete (b_pendingBlock b) = false → (0 < remaining b)%nat.
Proof. intros Hok Hc. pose proof (not_complete b Hok Hc). unfold remaining. lia. Qed.

(** Any bound of at least the number of remaining transactions gives the same
    result: the loop ends by itself. *)
Lemma execute_loop_fuel fuel fuel' ctx acc b :
  pb_ok (b_pendingBlock b) → (remaining b ≤ fuel)%nat → (remaining b ≤ fuel')%nat →
  execute_loop fuel ctx acc b = execute_loop fuel' ctx acc b.
Proof.
  revert fuel' acc b. induction fuel as [|fuel IH]; intros fuel' acc b Hok H1 H2.
  - destruct (ExecutionComplete (b_pendingBlock b)) eqn:Hc.
    + destruct fuel'; simpl; by rewrite Hc.
    + pose proof (remaining_pos b Hok Hc). lia.
  - destruct (ExecutionComplete (b_pendingBlock b)) eqn:Hc.
    + destruct fuel'; simpl; by rewrite Hc.
    + pose proof (remaining_pos b Hok Hc). pose proof (step_remaining ctx b Hok Hc) as Hr.
      destruct fuel' as [|fuel']; [lia|]. simpl. rewrite loop_guard, Hc by done. simpl.
      destruct (executeNextTransaction_step ctx b Hok Hc) as [[_ _ Hok' _] _].
      unfold mbind, ST_bind.
      destruct (executeNextTransaction ctx b) as [[tr|e] b1]; simpl in *; [|done].
      specialize (Hr eq_refl). apply IH; [done|lia|lia].
Qed.

(** What the loop does: it keeps the store and the block; when it returns, the
    block is executed completely and the results are those of the remaining
    transactions, in order. *)
Lemma execute_loop_spec fuel ctx acc b :
  pb_ok (b_pendingBlock b) → (remaining b ≤ fuel)%nat →
  let r := execute_loop fuel ctx acc b in
  b_storage r.2 = b_storage b ∧ same_block (b_pendingBlock b) (b_pendingBlock r.2) ∧
  pb_ok (b_pendingBlock r.2) ∧
  ∀ rs, r.1 = Ok rs →
    ExecutionComplete (b_pendingBlock r.2) = true ∧
    (all_results (b_pendingBlock b) → all_results (b_pendingBlock r.2)) ∧
    tr_TransactionID <$> rs =
      (tr_TransactionID <$> acc) ++
      drop (Z.to_nat (pb_index (b_pendingBlock b))) (pb_transactionIDs (b_pendingBlock b)).
Proof.
  revert acc b. induction fuel as [|fuel IH]; intros acc b Hok Hf.
  - destruct (ExecutionComplete (b_pendingBlock b)) eqn:Hc;
      [|pose proof (remaining_pos b Hok Hc); lia].
    simpl. rewrite Hc. simpl. split; [done|]. split; [done|]. split; [done|].
    intros rs [= <-]. split; [done|]. split; [done|].
    apply complete_iff in Hc; [|done]. rewrite drop_ge; [by rewrite app_nil_r|].
    unfold Size in Hc. lia.
  - cbn [execute_loop]. rewrite loop_guard by done.
    destruct (ExecutionComplete (b_pendingBlock b)) eqn:Hc; cbn [negb].
    + split; [done|]. split; [done|]. split; [done|].
      intros rs [= <-]. split; [done|]. split; [done|].
      apply complete_iff in Hc; [|done]. rewrite drop_ge; [by rewrite app_nil_r|].
      unfold Size in Hc. lia.
    + pose proof (step_remaining ctx b Hok Hc) as Hr.
      destruct (executeNextTransaction_step ctx b Hok Hc) as [[Hst Hsame Hok' _] Hall].
      destruct (NextTransaction_Some _ Hok (not_complete b Hok Hc)) as (tx & Htx & Hid).
      destruct (executeNextTransaction ctx b) as [[tr|e] b1] eqn:He; simpl in *.
      2:{ erewrite ST_bind_fail by exact He. done. }
      erewrite ST_bind_step by exact He.
      specialize (Hr eq_refl). destruct (Hall eq_refl) as [Hidx Hall'].
      destruct (IH (acc ++ [tr]) b1 Hok' ltac:(lia)) as (H1 & H2 & H3 & H4).
      split; [congruence|]. split; [by eapply same_block_trans|]. split; [done|].
      intros rs Hrs. destruct (H4 rs Hrs) as (Hcomp & Hres & Hids).
      split; [done|]. split; [auto|]. rewrite Hids, fmap_app, <- app_assoc. f_equal. simpl.
      destruct (executeNextTransaction_id ctx b tr b1 He) as (tx' & Htx' & Htr).
      rewrite Htx in Htx'. injection Htx' as <-.
      rewrite Htr, Hidx, (sb_transactionIDs _ _ Hsame).
      pose proof (ok_index _ Hok). rewrite (drop_S _ _ _ Hid). do 2 f_equal. lia.
Qed.

(** A property of the chain that does not depend on the pending block, the
    current code, the source map or the report is kept by an execution. *)
Section execution_keeps.
Context (P : Blockchain (S := S) → Prop).
Hypothesis (Hpending : ∀ p b, P b → P (set_pendingBlock p b)).
Hypothesis (Hcurrent : ∀ code id b, P b → P (set_current code id b)).
Hypothesis (Hdebugger : ∀ d d' b, b_debugger b = Some d → P b → P (set_debugger d' b)).
Hypothesis (Hsource : ∀ loc f b, P b → P (set_sourceFile loc f b)).
Hypothesis (Hreport : ∀ r b, P b → P (set_report r b)).

Lemma on_pending_keeps {A} (m : ST error pendingBlock A) : keeps P (on_pending m).
Proof. intros b Hb. unfold on_pending. destruct (m _). by apply Hpending. Qed.

Lemma executeNextTransaction_keeps ctx : keeps P (executeNextTransaction ctx).
Proof.
  unfold executeNextTransaction. apply keeps_bind; [apply keeps_get|intros p].
  apply keeps_if; [apply keeps_fail|]. apply keeps_bind; [apply keeps_res|intros tx]. cbn zeta.
  apply keeps_bind; [by apply start_run_keeps|intros _]. apply keeps_bind; [apply keeps_get|intros e].
  apply keeps_bind; [apply keeps_get|intros bl]. apply keeps_bind; [apply on_pending_keeps|].
  intros out. apply keeps_bind; [apply keeps_res|intros tr]. apply keeps_bind.
  { destruct (tr_Error tr); [|apply keeps_ret].
    apply keeps_bind; [apply keeps_read|intros d; apply keeps_ret]. }
  intros tr'. apply keeps_bind; [apply record_source_keeps; auto|intros _].
  apply keeps_bind; [apply keeps_get|intros rep].
  apply keeps_bind; [destruct rep; [apply keeps_modify; auto|apply keeps_ret]|intros _; apply keeps_ret].
Qed.
End execution_keeps.

(** What a run keeps, the loop keeps. *)
Lemma execute_loop_keeps (P : Blockchain → Prop) fuel ctx acc :
  keeps P (executeNextTransaction ctx) → keeps P (execute_loop fuel ctx acc).
Proof.
  intros HP. revert acc. induction fuel as [|fuel IH]; intros acc b Hb; simpl.
  - by destruct (negb _ && negb _).
  - destruct (negb _ && negb _); [|done].
    exact (keeps_bind P (executeNextTransaction ctx) _ HP (λ r, IH (acc ++ [r])) b Hb).
Qed.

(** ** executeBlock *)

Definition block_context b : Context :=
  WithBlockHeader (ToHeader (pending_Block (b_pendingBlock b))) (b_vmCtx b).

Lemma executeBlock_state b :
  executeBlock b =
  let p := b_pendingBlock b in
  if ExecutionComplete p && negb (Empty p)
  then (Err (PendingBlockTransactionsExhaustedError (pending_ID p)), set_vmCtx (block_context b) b)
  else execute_loop (length (pb_transactionIDs p)) (block_context b) [] (set_vmCtx (block_context b) b).
Proof.
  unfold executeBlock, setFVMContextFromHeader. rewrite (ST_bind_step _ _ b _ b) by reflexivity.
  unfold mbind at 1, ST_bind at 1. unfold mbind at 1, ST_bind at 1. simpl.
  unfold mbind, ST_bind. simpl. by destruct (ExecutionComplete _ && _).
Qed.

Lemma executeBlock_props b :
  pb_ok (b_pendingBlock b) →
  let r := executeBlock b in
  b_storage r.2 = b_storage b ∧ same_block (b_pendingBlock b) (b_pendingBlock r.2) ∧
  pb_ok (b_pendingBlock r.2) ∧
  ∀ rs, r.1 = Ok rs →
    ExecutionComplete (b_pendingBlock r.2) = true ∧
    (all_results (b_pendingBlock b) → all_results (b_pendingBlock r.2)) ∧
    tr_TransactionID <$> rs =
      drop (Z.to_nat (pb_index (b_pendingBlock b))) (pb_transactionIDs (b_pendingBlock b)).
Proof.
  intros Hok. rewrite executeBlock_state. cbn zeta.
  destruct (ExecutionComplete (b_pendingBlock b) && _) eqn:Hg.
  { split; [done|]. split; [done|]. by split. }
  pose proof (execute_loop_spec (length (pb_transactionIDs (b_pendingBlock b))) (block_context b) []
                (set_vmCtx (block_context b) b) Hok) as H.
  apply H. unfold remaining, Size. pose proof (ok_index _ Hok). simpl. lia.
Qed.

Lemma executeBlock_inv b l : chain_inv b l → chain_inv (executeBlock b).2 l.
Proof.
  intros HI. destruct (executeBlock_props b (ci_pending b l HI)) as (H1 & H2 & H3 & _).
  apply (chain_inv_ext (set_pendingBlock (b_pendingBlock (executeBlock b).2) b)); [done|done|].
  by apply chain_inv_pending.
Qed.

(** ** The system transactions of a commit *)

(** What the system transactions leave as it is: everything but the events and
    the working ledger of the pending block. *)
Record quiet b b' : Prop := {
  q_storage : b_storage b' = b_storage b;
  q_clock : b_clock b' = b_clock b;
  q_cached : b_systemTransactions b' = b_systemTransactions b;
  q_conf : b_conf b' = b_conf b;
  q_vmCtx : b_vmCtx b' = b_vmCtx b;
  q_entropy : b_entropy b' = b_entropy b;
  q_published : b_published b' = b_published b;
  q_same : same_block (b_pendingBlock b) (b_pendingBlock b');
  q_index : pb_index (b_pendingBlock b') = pb_index (b_pendingBlock b);
  q_results : pb_transactionResults (b_pendingBlock b') = pb_transactionResults (b_pendingBlock b);
  q_debugger : b_debugger b' = b_debugger b
}.

Lemma quiet_refl b : quiet b b.
Proof. done. Qed.

Lemma quiet_ok b b' : quiet b b' → pb_ok (b_pendingBlock b) → pb_ok (b_pendingBlock b').
Proof.
  intros Hq [H1 H2 H3 H4 H5 H6]. destruct (q_same _ _ Hq) as [_ _ _ _ Ht Hi].
  split; rewrite ?Ht, ?Hi, ?(q_index _ _ Hq), ?(q_results _ _ Hq); try done.
  - unfold Size. by rewrite Hi.
  - unfold Size. by rewrite Hi.
Qed.

Lemma quiet_inv b b' l : quiet b b' → chain_inv b l → chain_inv b' l.
Proof.
  intros Hq HI. apply (chain_inv_ext (set_pendingBlock (b_pendingBlock b') b)); [apply Hq|done|].
  apply chain_inv_pending; [done|apply Hq|]. eapply quiet_ok; [done|]. apply HI.
Qed.

Lemma events_quiet b0 evs : keeps (quiet b0) (on_pending (st_modify (add_events evs))).
Proof. intros b [? ? ? ? ? ? ? [] ? ? ?]. by split. Qed.

Lemma merge_quiet b0 es : keeps (quiet b0) (on_pending (merge_ledger es)).
Proof.
  intros b [? ? ? ? ? ? ? [] ? ? ?]. unfold on_pending, merge_ledger.
  destruct (es_Merge es _) as [r st]. by split.
Qed.

Lemma execute_callbacks_quiet b0 ctx base ids idx txs acc :
  keeps (quiet b0) (execute_callbacks ctx base ids idx txs acc).
Proof.
  revert idx acc. induction txs as [|tx txs IH]; intros idx acc; simpl; [apply keeps_ret|].
  apply keeps_bind; [apply keeps_read|intros run].
  apply keeps_bind; [apply keeps_res|intros _].
  apply keeps_bind; [apply events_quiet|intros _].
  apply keeps_bind; [apply merge_quiet|intros _]. apply IH.
Qed.

Lemma executeScheduledTransactions_quiet b0 ctx :
  keeps (quiet b0) (executeScheduledTransactions ctx).
Proof.
  unfold executeScheduledTransactions.
  apply keeps_bind; [apply keeps_get|intros base]. apply keeps_bind; [apply keeps_get|intros chain].
  apply keeps_bind; [apply keeps_res|intros tx]. apply keeps_bind; [apply keeps_read|intros run].
  apply keeps_bind; [apply events_quiet|intros _]. apply keeps_bind; [apply merge_quiet|intros _].
  apply keeps_bind; [apply keeps_res|intros txs]. apply keeps_bind; [apply keeps_res|intros ids].
  apply execute_callbacks_quiet.
Qed.

Lemma executeSystemChunkTransaction_quiet b0 i :
  keeps (quiet b0) (executeSystemChunkTransaction i).
Proof.
  unfold executeSystemChunkTransaction.
  apply keeps_bind; [apply keeps_read|intros tx]. apply keeps_bind; [apply keeps_get|intros ctx].
  apply keeps_bind; [apply keeps_read|intros run]. destruct (po_Err run.2); [apply keeps_fail|].
  apply keeps_bind; [apply events_quiet|intros _]. apply keeps_bind; [apply merge_quiet|intros _].
  apply keeps_ret.
Qed.

(** The scheduled IDs are read from their printed form: they are 64-bit. *)
Lemma dec_value_nonneg cs n : dec_value cs = Some n → 0 ≤ n.
Proof.
  unfold dec_value. revert n. induction cs as [|c cs IH] using rev_ind; intros n.
  - by intros [= <-].
  - rewrite foldl_app. cbn [foldl]. unfold dec_step at 1.
    destruct (foldl dec_step (Some 0) cs) as [acc|]; [|done]. simpl.
    case_bool_decide; [|done]. intros [= <-]. specialize (IH acc eq_refl). lia.
Qed.

Lemma sscanf_u64_range cs n : sscanf_u64 cs = Some n → is_u64 n.
Proof.
  unfold sscanf_u64. destruct (take_digits _) as [|d ds]; [done|].
  destruct (dec_value (d :: ds)) as [m|] eqn:Hd; [|done]. simpl.
  case_bool_decide; [|done]. intros [= <-]. apply dec_value_nonneg in Hd. split; lia.
Qed.

(** What the scheduled transactions leave is well formed: bodies under their
    IDs, one body and one result for each transaction that was run, and the
    scheduled IDs are 64-bit numbers that stand for transactions that were run. *)
Record sch_ok (acc : Scheduled) : Prop := {
  so_bodies id tx : sch_bodies acc !! id = Some tx → Transaction_ID tx = id;
  so_dom id : is_Some (sch_bodies acc !! id) ↔ id ∈ sch_ordered acc;
  so_results id : is_Some (sch_results acc !! id) ↔ id ∈ sch_ordered acc;
  so_u64 n id : sch_ids acc !! n = Some id → is_u64 n;
  so_ids n id : sch_ids acc !! n = Some id → id ∈ sch_ordered acc
}.

Lemma sch_ok_empty : sch_ok no_scheduled.
Proof.
  split; simpl; intros *; rewrite ?lookup_empty, ?elem_of_nil; try done;
    split; try done; by intros [].
Qed.

Lemma record_sch_ok tx i out o acc :
  sch_ok acc → (∀ n, o = Some n → is_u64 n) → sch_ok (record_execution tx i out o acc).
Proof.
  intros [H1 H2 H3 H4 H5] Ho. split; simpl.
  - intros id tx' [[<- <-]|[_ H]]%lookup_insert_Some; [done|by apply H1].
  - intros id. rewrite lookup_insert_is_Some', elem_of_app, list_elem_of_singleton, H2.
    split; intros [?|?]; auto.
  - intros id. rewrite lookup_insert_is_Some', elem_of_app, list_elem_of_singleton, H3.
    split; intros [?|?]; auto.
  - intros n id. destruct o as [m|]; [|by apply H4].
    intros [[<- _]|[_ H]]%lookup_insert_Some; [by apply Ho|by eapply H4].
  - intros n id Hn. apply elem_of_app. destruct o as [m|]; [|left; by eapply H5].
    apply lookup_insert_Some in Hn as [[_ <-]|[_ Hn]]; [right; by apply list_elem_of_singleton|].
    left. by eapply H5.
Qed.

Lemma execute_callbacks_ok ctx base ids idx txs acc b sch b' :
  sch_ok acc → execute_callbacks ctx base ids idx txs acc b = (Ok sch, b') → sch_ok sch.
Proof.
  revert idx acc b. induction txs as [|tx txs IH]; intros idx acc b Ha; simpl; [by intros [= <- <-]|].
  intros H. apply ST_bind_Ok in H as (run & b1 & _ & H).
  apply ST_bind_Ok in H as (? & b2 & _ & H). apply ST_bind_Ok in H as (? & b3 & _ & H).
  apply ST_bind_Ok in H as (? & b4 & _ & H). eapply IH; [|exact H].
  apply record_sch_ok; [done|]. intros n Hn. destruct (ids !! idx) as [t|]; [|done].
  by apply sscanf_u64_range in Hn.
Qed.

Lemma executeScheduledTransactions_ok ctx b sch b' :
  executeScheduledTransactions ctx b = (Ok sch, b') → sch_ok sch.
Proof.
  unfold executeScheduledTransactions. intros H.
  apply ST_bind_Ok in H as (? & ? & _ & H). apply ST_bind_Ok in H as (? & ? & _ & H).
  apply ST_bind_Ok in H as (? & ? & _ & H). apply ST_bind_Ok in H as (? & ? & _ & H).
  apply ST_bind_Ok in H as (? & ? & _ & H). apply ST_bind_Ok in H as (? & ? & _ & H).
  apply ST_bind_Ok in H as (? & ? & _ & H). apply ST_bind_Ok in H as (? & ? & _ & H).
  eapply execute_callbacks_ok; [|exact H]. apply record_sch_ok; [apply sch_ok_empty|done].
Qed.

(** ** The commit that is prepared *)

Definition sealed (r : IndexedTransactionResult) (blockID : Identifier) (h : Z) (colID : Identifier)
    : StorableTransactionResult :=
  mkStorableResult
    (match po_Err (itr_ProcedureOutput r) with Some e => coded_Code e | None => 0 end)
    (match po_Err (itr_ProcedureOutput r) with Some e => coded_Error e | None => "" end)
    (po_Logs (itr_ProcedureOutput r)) (po_Events (itr_ProcedureOutput r)) blockID h colID.

Lemma convertToSealedResults_ok results id h col :
  convertToSealedResults results id h col = Ok ((λ r, sealed r id h col) <$> results).
Proof.
  unfold convertToSealedResults, map_results.
  rewrite (res_map_total _ (λ p, (p.1, sealed p.2 id h col))) by (by intros []).
  simpl. f_equal. apply map_eq. intros i. rewrite lookup_fmap.
  destruct (results !! i) as [r|] eqn:Hr; simpl.
  - apply elem_of_list_to_map_1.
    + assert (((λ p : Identifier * IndexedTransactionResult, (p.1, sealed p.2 id h col))
                <$> map_range results).*1 = (map_range results).*1) as ->
        by (rewrite <- list_fmap_compose; done).
      apply map_range_NoDup.
    + apply list_elem_of_fmap. exists (i, r). split; [done|]. by apply elem_of_map_range.
  - apply not_elem_of_list_to_map_1. rewrite <- list_fmap_compose.
    intros ((i' & r) & -> & Hin)%list_elem_of_fmap. apply elem_of_map_range in Hin.
    simpl in Hr. congruence.
Qed.

Definition collection_id (p : pendingBlock) : Identifier :=
  default ZeroID (LightCollection_ID <$> head (Collections p)).

(** What the prepared commit says about the pending block. *)
Record prepared (p : pendingBlock) (c : BlockCommit) : Prop := {
  prep_block : bc_block c = pending_Block p;
  prep_collections : bc_collections c = Collections p;
  prep_transactions : bc_transactions c = pb_transactions p;
  prep_results : bc_transactionResults c =
    (λ r, sealed r (pending_ID p) (pb_height p) (collection_id p)) <$> pb_transactionResults p;
  prep_ids n id : bc_scheduledTransactionIDs c !! n = Some id → is_u64 n;
  prep_scheduled n id :
    bc_scheduledTransactionIDs c !! n = Some id → id ∈ bc_systemTransactions c;
  prep_bodies id tx : bc_systemTransactionBodies c !! id = Some tx → Transaction_ID tx = id;
  prep_system id : id ∈ bc_systemTransactions c → is_Some (bc_systemTransactionBodies c !! id);
  prep_systemResults id r :
    bc_systemTransactionResults c !! id = Some r →
    str_BlockID r = pending_ID p ∧ str_BlockHeight r = pb_height p;
  prep_systemResult id :
    id ∈ bc_systemTransactions c → is_Some (bc_systemTransactionResults c !! id)
}.

(** The system chunk transaction is the last system transaction. *)
Definition chunk_last (chunk : TransactionBody) (c : BlockCommit) : Prop :=
  list.last (bc_systemTransactions c) = Some (Transaction_ID chunk) ∧
  bc_systemTransactionBodies c !! Transaction_ID chunk = Some chunk.

Lemma finalize_quiet b0 : keeps (quiet b0) (on_pending Finalize).
Proof.
  intros b [? ? ? ? ? ? ? [] ? ? ?]. unfold on_pending, Finalize.
  destruct (es_Finalize _) as [es st]. by split.
Qed.

Lemma executeSystem_quiet b0 p : keeps (quiet b0) (executeSystem p).
Proof.
  unfold executeSystem. cbn zeta.
  apply keeps_bind; [apply keeps_res|intros rs]. apply keeps_bind; [apply keeps_get|intros ctx].
  apply keeps_bind; [apply keeps_get|intros en].
  apply keeps_bind; [destruct en; [apply executeScheduledTransactions_quiet|apply keeps_ret]|intros sch].
  apply keeps_bind; [apply keeps_res|intros srs].
  apply keeps_bind; [apply executeSystemChunkTransaction_quiet|intros chunk].
  apply keeps_bind; [apply keeps_res|intros sr]. apply keeps_ret.
Qed.

Lemma prepareCommit_quiet b : keeps (quiet b) (prepareCommit (b_pendingBlock b)).
Proof.
  unfold prepareCommit. apply keeps_bind; [apply executeSystem_quiet|intros sr].
  apply keeps_bind; [apply finalize_quiet|intros es].
  apply keeps_bind; [apply keeps_get|intros evs]. apply keeps_ret.
Qed.

(** What is committed is put together from what the system transactions leave,
    the finalized ledger and the events. *)
Lemma prepareCommit_Ok p b c b' :
  prepareCommit p b = (Ok c, b') →
  ∃ sr b1, executeSystem p b = (Ok sr, b1) ∧
    c = assembled p sr (es_Finalize (pb_ledgerState (b_pendingBlock b1))).1
          (pb_events (b_pendingBlock b1)).
Proof.
  unfold prepareCommit. intros H. apply ST_bind_Ok in H as (sr & b1 & Hsr & H).
  exists sr, b1. split; [done|]. apply ST_bind_Ok in H as (es & b2 & Hes & H).
  apply ST_bind_Ok in H as (evs & b3 & [= <- <-] & H). injection H as <- <-.
  unfold on_pending, Finalize in Hes. destruct (es_Finalize _) as [es' st]. by injection Hes as <- <-.
Qed.

Lemma executeSystem_prepared p b sr b' es evs :
  executeSystem p b = (Ok sr, b') →
  let c := assembled p sr es evs in
  prepared p c ∧ ∃ chunk, chunk_last chunk c ∧ systemChunkTransaction b = Ok chunk.
Proof.
  unfold executeSystem. cbn zeta. intros H.
  apply ST_bind_Ok in H as (rs & b0 & Hrs & H). unfold st_res in Hrs.
  rewrite convertToSealedResults_ok in Hrs. injection Hrs as <- <-.
  apply ST_bind_Ok in H as (? & ? & [= <- <-] & H). apply ST_bind_Ok in H as (en & ? & [= <- <-] & H).
  apply ST_bind_Ok in H as (sch & b2 & Hsch & H).
  assert (sch_ok sch ∧ b_vmCtx b2 = b_vmCtx b) as [[Hb Hd Hr Hu Hi] Hctx].
  { destruct (conf_ScheduledTransactionsEnabled _).
    - split; [by eapply executeScheduledTransactions_ok|].
      match type of Hsch with executeScheduledTransactions ?ctx _ = _ =>
        pose proof (executeScheduledTransactions_quiet b ctx b (quiet_refl b)) as Hq end.
      rewrite Hsch in Hq. apply (q_vmCtx _ _ Hq).
    - injection Hsch as <- <-. split; [apply sch_ok_empty|done]. }
  apply ST_bind_Ok in H as (srs & b3 & Hsrs & H). unfold st_res in Hsrs.
  rewrite convertToSealedResults_ok in Hsrs. injection Hsrs as <- <-.
  apply ST_bind_Ok in H as (chunk & b4 & Hch & H).
  apply ST_bind_Ok in H as (r & b5 & Hsr & H). injection Hsr as <- <-. injection H as <- <-.
  split; [split; simpl; try done|].
  - intros n id Hn. apply elem_of_app. left. by eapply Hi.
  - intros id tx [[<- <-]|[_ Ht]]%lookup_insert_Some; [done|by apply Hb].
  - intros id. rewrite elem_of_app, list_elem_of_singleton, lookup_insert_is_Some', <- Hd. intuition.
  - intros id r [[<- <-]|[_ Ht]]%lookup_insert_Some; [done|].
    rewrite lookup_fmap in Ht. by apply fmap_Some in Ht as (r' & _ & ->).
  - intros id. rewrite elem_of_app, list_elem_of_singleton, lookup_insert_is_Some'.
    rewrite lookup_fmap, fmap_is_Some, Hr. intuition.
  - exists chunk.1. split; [split; simpl; [by rewrite list.last_snoc|by rewrite lookup_insert_eq]|].
    unfold executeSystemChunkTransaction in Hch.
    apply ST_bind_Ok in Hch as (txn & b8 & Htx & Hch). unfold st_read in Htx. injection Htx as Htx <-.
    apply ST_bind_Ok in Hch as (ctx & b9 & _ & Hch). apply ST_bind_Ok in Hch as (run & b10 & _ & Hch).
    destruct (po_Err run.2); [done|].
    apply ST_bind_Ok in Hch as (? & ? & _ & Hch). apply ST_bind_Ok in Hch as (? & ? & _ & Hch).
    injection Hch as <- <-. simpl. rewrite <- Htx. unfold systemChunkTransaction. by rewrite Hctx.
Qed.

Lemma prepareCommit_prepared p b c b' :
  prepareCommit p b = (Ok c, b') →
  prepared p c ∧ ∃ chunk, chunk_last chunk c ∧ systemChunkTransaction b = Ok chunk.
Proof. intros (sr & b1 & Hsr & ->)%prepareCommit_Ok. by eapply executeSystem_prepared. Qed.

(** ** The index writes *)

Definition is_index (w : write) : Prop :=
  match w with WCommit _ => False | WIndexScheduled n _ => is_u64 n | WIndexTx _ _ => True end.

Lemma newest_index {A} (f : BlockCommit → option A) ws l :
  Forall is_index ws → newest (on_commit f) (ws ++ l) = newest (on_commit f) l.
Proof. induction 1 as [|w ws Hw _ IH]; [done|]. simpl. rewrite IH. by destruct w. Qed.

Lemma next_height_index ws l : Forall is_index ws → next_height (ws ++ l) = next_height l.
Proof. intros H. unfold next_height. by rewrite newest_index. Qed.

Lemma log_latest_index ws l : Forall is_index ws → log_LatestBlock (ws ++ l) = log_LatestBlock l.
Proof.
  intros H. unfold log_LatestBlock, log_LatestBlockHeight, log_BlockByHeight.
  rewrite newest_index by done. destruct (newest _ l); [|done]. simpl. by rewrite newest_index.
Qed.

Lemma log_register_index ws l h r :
  Forall is_index ws → log_Register h r (ws ++ l) = log_Register h r l.
Proof. intros H. unfold log_Register. by rewrite newest_index. Qed.

(** A loop of index writes succeeds, and extends the log. *)
Lemma index_loop {A} (f : A → option write) (op : A → ST error Blockchain unit) qs b l :
  (∀ q b s, match f q with
            | None => op q b = (Ok (), b)
            | Some w => apply_write w (b_storage b) = (Ok (), s) → op q b = (Ok (), set_storage s b)
            end) →
  Forall (λ q, ∀ w, f q = Some w → is_index w) qs →
  store_rel (b_storage b) l → log_ok l →
  ∃ s, st_iter op qs b = (Ok (), set_storage s b) ∧
       Forall is_index (reverse (omap f qs)) ∧
       store_rel s (reverse (omap f qs) ++ l) ∧ log_ok (reverse (omap f qs) ++ l).
Proof.
  intros Hop Hqs. revert b l. induction Hqs as [|q qs Hq _ IH]; intros b l R Hl.
  - exists (b_storage b). split; [by destruct b|]. split; [constructor|]. done.
  - pose proof (Hop q b) as Hstep. simpl. destruct (f q) as [w|] eqn:Hf.
    + assert (is_index w) as Hw by (by apply Hq).
      assert (log_ok (w :: l)) as Hwl.
      { constructor; [done|]. by destruct w. }
      destruct (store_rel_step (b_storage b) l w R Hwl (store_total _ _ _)) as (s1 & Hs1 & R1).
      specialize (Hstep s1 Hs1).
      destruct (IH (set_storage s1 b) (w :: l) R1 Hwl) as (s2 & Hs2 & Hi & R2 & Hl2).
      exists s2. rewrite (ST_bind_step (op q) _ b () _ Hstep).
      rewrite reverse_cons, <- app_assoc. split; [done|]. split; [|done].
      apply Forall_app. split; [done|]. by repeat constructor.
    + rewrite (ST_bind_step (op q) _ b () _ (Hstep (b_storage b))). by apply IH.
Qed.

Definition scheduled_write (c : BlockCommit) (q : Z * Identifier) : option write :=
  Some (WIndexScheduled q.1 (Block_ID (bc_block c))).
Definition system_write (c : BlockCommit) (cached : gmap Identifier TransactionBody)
    (q : Identifier * StorableTransactionResult) : option write :=
  match cached !! q.1 with
  | Some _ => None
  | None => Some (WIndexTx q.1 (Block_ID (bc_block c)))
  end.

(** The index writes of a commit, newest first. *)
Definition index_writes (c : BlockCommit) (cached : gmap Identifier TransactionBody) : list write :=
  reverse (omap (system_write c cached) (map_range (bc_systemTransactionResults c))) ++
  reverse (omap (scheduled_write c) (map_range (bc_scheduledTransactionIDs c))).

Lemma indexCommit_run c b l :
  (∀ n id, bc_scheduledTransactionIDs c !! n = Some id → is_u64 n) →
  store_rel (b_storage b) l → log_ok l →
  let ws := index_writes c (b_systemTransactions b) in
  ∃ s, indexCommit c b = (Ok (), set_storage s b) ∧ Forall is_index ws ∧
       store_rel s (ws ++ l) ∧ log_ok (ws ++ l).
Proof.
  intros Hids R Hl. unfold indexCommit, index_writes. cbn zeta.
  destruct (index_loop (scheduled_write c)
    (λ q : Z * Identifier,
       st_map_err (Errorf_w ("failed to index scheduled transaction " +:+ show_int q.1 +:+ ": "))
         (on_storage (IndexScheduledTransactionID q.1 (Block_ID (bc_block c)))))
    (map_range (bc_scheduledTransactionIDs c)) b l) as (s1 & H1 & Hi1 & R1 & Hl1); [..|done|done|].
  { intros q b0 s. simpl. intros Hs. unfold st_map_err, on_storage. by rewrite Hs. }
  { apply list.Forall_forall. intros [n id] Hin%elem_of_map_range w [= <-]. by apply (Hids n id). }
  rewrite (ST_bind_step _ _ b () _ H1). rewrite (ST_bind_step _ _ _ (b_systemTransactions b) (set_storage s1 b))
    by reflexivity.
  destruct (index_loop (system_write c (b_systemTransactions b))
    (λ q : Identifier * StorableTransactionResult,
       match b_systemTransactions b !! q.1 with
       | Some _ => mret ()
       | None => st_map_err (Errorf_w ("failed to index scheduled transaction " +:+ show_id q.1 +:+ ": "))
                   (on_storage (IndexScheduledTransactionBlockID q.1 (Block_ID (bc_block c))))
       end)
    (map_range (bc_systemTransactionResults c)) (set_storage s1 b)
    (reverse (omap (scheduled_write c) (map_range (bc_scheduledTransactionIDs c))) ++ l)) as (s2 & H2 & Hi2 & R2 & Hl2);
    [.. |exact R1|done|].
  { intros q b0 s. unfold system_write. destruct (_ !! q.1); [done|]. simpl. intros Hs.
    unfold st_map_err, on_storage. by rewrite Hs. }
  { apply list.Forall_forall. intros q _ w. unfold system_write. destruct (_ !! q.1); [done|].
    by intros [= <-]. }
  exists s2. rewrite <- app_assoc. split; [exact H2|]. split; [|done]. by apply Forall_app.
Qed.

(** ** The commit *)

Lemma prepared_log_ok p c l b :
  chain_inv b l → p = b_pendingBlock b → prepared p c → next_height l < two64 → counts_match c →
  log_ok (WCommit c :: l).
Proof.
  intros HI -> Hp Hn Hc. constructor; [apply HI|].
  assert (bc_height c = next_height l) as Hh.
  { unfold bc_height. rewrite (prep_block _ _ Hp). by apply pending_height. }
  split; [done|]. split; [|done]. rewrite Hh. pose proof (next_height_nonneg l (ci_log b l HI)).
  split; lia.
Qed.

Definition commit_log (c : BlockCommit) (cached : gmap Identifier TransactionBody) (l : log) : log :=
  index_writes c cached ++ WCommit c :: l.

(** Once the commit is prepared with matching counts, it goes through. *)
Lemma finish_run w b b1 c l :
  chain_inv b l → quiet b b1 → prepared (b_pendingBlock b) c → next_height l < two64 →
  counts_match c →
  let l' := commit_log c (b_systemTransactions b) l in
  ∃ s snap,
    (on_storage (CommitBlock c) ;; indexCommit c ;;
     let block := bc_block c in
     ledger ← st_read (λ b, LedgerByHeight (Block_Height block) (b_storage b));
     clock ← st_get b_clock;
     st_modify (finish_commit (newPendingBlock block ledger clock w) (Block_ID block)) ;;
     mret block) b1 =
    (Ok (pending_Block (b_pendingBlock b)),
     finish_commit (newPendingBlock (bc_block c) snap (b_clock b1) w) (Block_ID (bc_block c))
       (set_storage s b1)) ∧
    store_rel s l' ∧ log_ok l' ∧ Forall is_index (index_writes c (b_systemTransactions b)) ∧
    LedgerByHeight (bc_height c) s = Ok snap ∧
    (∀ r, snap r = Ok (log_Register (bc_height c) r l')).
Proof.
  intros HI Hq Hp Hn Hc l'. pose proof (prepared_log_ok _ c l b HI eq_refl Hp Hn Hc) as Hok.
  destruct (store_rel_step (b_storage b) l (WCommit c) (ci_store b l HI) Hok (store_total _ _ _))
    as (s1 & Hs1 & R1). simpl in Hs1.
  assert (on_storage (CommitBlock c) b1 = (Ok (), set_storage s1 b1)) as H1.
  { apply on_storage_run. by rewrite (q_storage _ _ Hq). }
  destruct (indexCommit_run c (set_storage s1 b1) (WCommit c :: l) (prep_ids _ _ Hp) R1 Hok)
    as (s2 & H2 & Hi & R2 & Hl2). simpl in H2, Hi, R2, Hl2. rewrite (q_cached _ _ Hq) in Hi, R2, Hl2.
  pose proof (store_rel_refines _ _ R2) as Q2.
  destruct (ref_LedgerByHeight _ _ Q2 (bc_height c)) as (snap & Hsnap & Hread).
  { rewrite next_height_index, next_height_commit by done.
    pose proof (log_ok_tail _ _ Hok) as [Hl (_ & Hu & _)]. destruct Hu. lia. }
  exists s2, snap. split; [|done].
  rewrite (ST_bind_step _ _ b1 () _ H1). rewrite (ST_bind_step _ _ _ () _ H2). cbn zeta.
  rewrite (ST_bind_step _ _ _ snap (set_storage s2 (set_storage s1 b1)))
    by (unfold st_read; simpl; f_equal; exact Hsnap).
  rewrite (ST_bind_step _ _ _ (b_clock b1) (set_storage s2 (set_storage s1 b1))) by reflexivity.
  unfold mbind, ST_bind. simpl. by rewrite (prep_block _ _ Hp).
Qed.

(** ** The log after a commit *)

Lemma user_ids_index ws l : Forall is_index ws → user_ids (ws ++ l) = user_ids l.
Proof. induction 1 as [|x ws Hx _ IH]; [done|]. simpl. by destruct x. Qed.

Lemma log_tx_index ws l id :
  Forall is_index ws → log_TransactionByID id (ws ++ l) = log_TransactionByID id l.
Proof. intros H. unfold log_TransactionByID. by rewrite newest_index. Qed.

Lemma Collections_ids p : concat (lc_Transactions <$> Collections p) = pb_transactionIDs p.
Proof. unfold Collections. destruct (pb_transactionIDs p) as [|id ids]; [done|]. simpl. by rewrite app_nil_r. Qed.

Lemma prepared_keyed b l c : chain_inv b l → prepared (b_pendingBlock b) c → keyed c.
Proof.
  intros HI Hp. pose proof (ci_pending b l HI) as Hok. split.
  - intros id tx [Htx|Htx]; [|by apply (prep_bodies _ _ Hp)].
    rewrite (prep_transactions _ _ Hp) in Htx. by apply (ok_id _ Hok).
  - intros id. rewrite (prep_results _ _ Hp), lookup_fmap, fmap_is_Some.
    intros Hr%(ok_results _ Hok). rewrite (prep_collections _ _ Hp), Collections_ids.
    by eapply subseteq_take.
Qed.

Lemma once_commit b l c ws :
  chain_inv b l → prepared (b_pendingBlock b) c → Forall is_index ws → once (ws ++ WCommit c :: l).
Proof.
  intros HI Hp Hi. pose proof (prepared_keyed b l c HI Hp) as Hkey.
  destruct HI as [_ _ _ Hok Hf (Hnd & Hkn & Hks) _]. unfold once.
  rewrite user_ids_index by done. simpl. rewrite (prep_collections _ _ Hp), Collections_ids.
  split; [|split].
  - apply list.NoDup_app. split; [apply Hok|]. split; [|done].
    intros id Hid Hin. specialize (Hkn id Hin). by rewrite (Hf id Hid) in Hkn.
  - intros id Hid. rewrite log_tx_index by done. unfold log_TransactionByID. simpl.
    unfold c_transaction. rewrite (prep_transactions _ _ Hp).
    destruct (bc_systemTransactionBodies c !! id); [done|].
    destruct (pb_transactions (b_pendingBlock b) !! id) eqn:Ht; [done|].
    apply elem_of_app in Hid as [Hid|Hid]; [|by apply (Hkn id)].
    apply (ok_dom _ Hok) in Hid as [tx Htx]. congruence.
  - intros c' [Hw|[[= ->]|Hw]%elem_of_cons]%elem_of_app; [|done|by apply Hks].
    rewrite list.Forall_forall in Hi. by specialize (Hi _ Hw).
Qed.

Lemma log_block_index ws l h :
  Forall is_index ws → log_BlockByHeight h (ws ++ l) = log_BlockByHeight h l.
Proof. intros H. unfold log_BlockByHeight. by rewrite newest_index. Qed.

(** The block that is committed follows the latest one. *)
Lemma linked_commit b l c ws :
  chain_inv b l → prepared (b_pendingBlock b) c → next_height l < two64 → Forall is_index ws →
  linked (ws ++ WCommit c :: l).
Proof.
  intros HI Hp Hn Hi h blk Hh. rewrite !log_block_index, !log_block_commit by done.
  pose proof (pending_height b l HI Hn) as Hnh.
  assert (bc_height c = next_height l) as Hc by (unfold bc_height; by rewrite (prep_block _ _ Hp)).
  pose proof (log_block_dom l h (ci_log b l HI)) as Hdom.
  destruct HI as [_ Hl (prev & Hlat & [_ Hpar Hview]) _ _ _ Hlink].
  case_decide as Hd.
  - intros [= <-]. rewrite decide_False by lia. exists prev. split.
    + pose proof Hlat as Hlat'. unfold log_LatestBlock in Hlat'. apply bind_Ok in Hlat' as (h' & _ & Hb).
      rewrite <- (log_block_height l h' prev Hb), (latest_height l prev Hl Hlat) in Hb.
      by replace (h - 1) with (next_height l - 1) by lia.
    + rewrite (prep_block _ _ Hp). by split.
  - intros Hb. pose proof Hb as Hb'. rewrite Hb in Hdom. destruct Hdom as [Hdom _].
    specialize (Hdom eq_refl). rewrite decide_False by lia. by apply Hlink.
Qed.

(** What a successful commit leaves. *)
Record committed_as (b : Blockchain (S := S)) (l : log) (c : BlockCommit)
    (b' : Blockchain (S := S)) : Prop := {
  ca_prepared : prepared (b_pendingBlock b) c;
  ca_chunk : ∃ chunk, chunk_last chunk c ∧ systemChunkTransaction b = Ok chunk;
  ca_counts : counts_match c;
  ca_inv : chain_inv b' (commit_log c (b_systemTransactions b) l);
  ca_index : Forall is_index (index_writes c (b_systemTransactions b));
  ca_pending : ∃ snap clock w, b_pendingBlock b' = newPendingBlock (bc_block c) snap clock w ∧
    ∀ r, snap r = Ok (log_Register (bc_height c) r (commit_log c (b_systemTransactions b) l));
  ca_entropy : b_entropy b' = Block_ID (bc_block c);
  ca_published : b_published b' = b_published b + 1
}.

Definition commit_guard (p : pendingBlock) : option error :=
  if negb (ExecutionStarted p) && negb (Empty p)
  then Some (PendingBlockCommitBeforeExecutionError (pending_ID p))
  else if ExecutionStarted p && negb (ExecutionComplete p)
  then Some (PendingBlockMidExecutionError (pending_ID p))
  else None.

(** A successful commit commits what was prepared. *)
Lemma commitBlock_run w b l c b1 :
  chain_inv b l → next_height l < two64 → world_ok w →
  prepareCommit (b_pendingBlock b) b = (Ok c, b1) →
  ∀ blk b', commitBlock w b = (Ok blk, b') → blk = pending_Block (b_pendingBlock b) ∧ committed_as b l c b'.
Proof.
  intros HI Hn Hw Hprep blk b'. unfold commitBlock.
  rewrite (ST_bind_step _ _ b (b_pendingBlock b) b) by reflexivity.
  destruct (negb _ && negb _); [done|]. destruct (_ && negb _); [done|].
  pose proof (prepareCommit_quiet b b (quiet_refl b)) as Hq. rewrite Hprep in Hq. simpl in Hq.
  rewrite (ST_bind_step _ _ b c b1 Hprep). apply prepareCommit_prepared in Hprep as [Hp Hchunk].
  destruct (decide (counts_match c)) as [Hc|Hc].
  2:{ pose proof (store_counts (b_storage b1) c Hc) as He.
      rewrite (ST_bind_fail _ _ b1 _ (set_storage (b_storage b1) b1)) by (by apply on_storage_run). done. }
  destruct (finish_run w b b1 c l HI Hq Hp Hn Hc) as (s & snap & Hrun & R & Hl & Hi & Hs & Hr).
  intros H. pose proof (eq_trans (eq_sym Hrun) H) as [= <- <-]. split; [done|].
  split; [done|done|done| |done| |done|simpl; by rewrite (q_published _ _ Hq)].
  - split; simpl; [exact R|exact Hl| |apply newPendingBlock_ok|by intros id ?%not_elem_of_nil| |].
    + exists (bc_block c). split; [|by apply new_extends].
      unfold commit_log. rewrite log_latest_index by done. apply log_latest_commit.
    + by eapply once_commit.
    + by eapply linked_commit.
  - eexists _, _, _. split; [done|]. exact Hr.
Qed.

Lemma commitBlock_guard w b e :
  commit_guard (b_pendingBlock b) = Some e → commitBlock w b = (Err e, b).
Proof.
  unfold commit_guard, commitBlock. rewrite (ST_bind_step _ _ b (b_pendingBlock b) b) by reflexivity.
  destruct (negb _ && negb _); [by intros [= <-]|]. destruct (_ && negb _); [by intros [= <-]|]. done.
Qed.

(** The outcomes of a commit: it fails and the store is untouched, or the
    prepared block is committed. *)
Lemma commitBlock_cases w b l :
  chain_inv b l → next_height l < two64 → world_ok w →
  (∃ e b', commitBlock w b = (Err e, b') ∧ quiet b b') ∨
  (∃ c b', commitBlock w b = (Ok (pending_Block (b_pendingBlock b)), b') ∧ committed_as b l c b').
Proof.
  intros HI Hn Hw. destruct (commit_guard (b_pendingBlock b)) as [e|] eqn:Hg.
  { left. exists e, b. split; [by apply commitBlock_guard|done]. }
  unfold commit_guard in Hg. unfold commitBlock.
  rewrite (ST_bind_step _ _ b (b_pendingBlock b) b) by reflexivity.
  destruct (negb _ && negb _) eqn:Hg1; [done|]. destruct (_ && negb (ExecutionComplete _)) eqn:Hg2; [done|].
  clear Hg. pose proof (prepareCommit_quiet b b (quiet_refl b)) as Hq.
  destruct (prepareCommit (b_pendingBlock b) b) as [[c|e] b1] eqn:Hprep; simpl in Hq.
  2:{ left. exists e, b1. split; [by apply ST_bind_fail|done]. }
  rewrite (ST_bind_step _ _ b c b1 Hprep). pose proof (prepareCommit_prepared _ _ _ _ Hprep) as [Hp _].
  destruct (decide (counts_match c)) as [Hc|Hc].
  2:{ left. pose proof (store_counts (b_storage b1) c Hc) as He.
      exists (counts_error c), (set_storage (b_storage b1) b1). split; [|by destruct b1].
      apply ST_bind_fail. by apply on_storage_run. }
  destruct (finish_run w b b1 c l HI Hq Hp Hn Hc) as (s & snap & Hrun & _).
  right. eexists c, _. split; [exact Hrun|].
  eapply (commitBlock_run w b l c b1 HI Hn Hw Hprep). unfold commitBlock.
  rewrite (ST_bind_step _ _ b (b_pendingBlock b) b), Hg1, Hg2 by reflexivity.
  rewrite (ST_bind_step _ _ b c b1 Hprep). exact Hrun.
Qed.
End chain.
