(* ===== verification/Chain.v ===== *)
(** The life of the emulated chain: its creation, its operations as steps, and
    the theorems about every chain that is reached from genesis. *)
From S2P Require Import Prelude FlowTypes Errors Storage Report Convert Pragma Vm PendingBlock.
From S2P Require Import Blockchain Queries BlockchainCorrect.

Section chain_life.
Context {FM : FlowModel} {CA : Cadence} {VM : VirtualMachine} {CK : Clocks} {CR : Crypto}
        {SG : Signing} {CP : CadenceParser} {KS : KindString} {GO : GoMapOrder}
        {S : Type} `{!Store S} {OI : OptionalInterfaces S} {SC : StoreCorrect S} {TS : TotalStore S}.
Implicit Types b : Blockchain (S := S).

(** ** A pending block on top of the latest block *)

Lemma latest_refines b l prev :
  store_rel (b_storage b) l → log_LatestBlock l = Ok prev → LatestBlock (b_storage b) = Ok prev.
Proof. intros R H. by rewrite (ref_LatestBlock _ _ (store_rel_refines _ _ R)). Qed.

Lemma fresh_pending_inv b l prev snap clock w :
  store_rel (b_storage b) l → log_ok l → once l → linked l → log_LatestBlock l = Ok prev → world_ok w →
  b_pendingBlock b = newPendingBlock prev snap clock w → chain_inv b l.
Proof.
  intros R Hl Ho Hk Hp Hw Hpb. split; try done; rewrite Hpb.
  - exists prev. split; [done|]. by apply new_extends.
  - apply newPendingBlock_ok.
  - by intros id ?%not_elem_of_nil.
Qed.

Lemma ResetPendingBlock_run w b l :
  chain_inv b l → world_ok w →
  ∃ prev snap, log_LatestBlock l = Ok prev ∧
    ResetPendingBlock w b = (Ok (), set_pendingBlock (newPendingBlock prev snap (b_clock b) w) b) ∧
    LedgerByHeight (Block_Height prev) (b_storage b) = Ok snap ∧
    chain_inv (ResetPendingBlock w b).2 l.
Proof.
  intros HI Hw. destruct (ci_latest b l HI) as (prev & Hp & _).
  destruct (ref_LedgerByHeight_total _ _ (store_rel_refines _ _ (ci_store b l HI))
              (Block_Height prev)) as [snap Hs].
  exists prev, snap. split; [done|].
  assert (ResetPendingBlock w b
          = (Ok (), set_pendingBlock (newPendingBlock prev snap (b_clock b) w) b)) as Hrun.
  { unfold ResetPendingBlock.
    rewrite (ST_bind_step _ _ b prev b)
      by (unfold st_read; by rewrite (latest_refines b l prev (ci_store b l HI) Hp)).
    rewrite (ST_bind_step _ _ b snap b) by (unfold st_read; by rewrite Hs). done. }
  split; [done|]. split; [done|]. rewrite Hrun. simpl.
  eapply (fresh_pending_inv _ l prev snap (b_clock b) w); try done; apply HI.
Qed.

Lemma ReloadBlockchain_run w b l :
  chain_inv b l → world_ok w →
  (ReloadBlockchain w b).1 = Ok () ∧ chain_inv (ReloadBlockchain w b).2 l.
Proof.
  intros HI Hw. destruct (ci_latest b l HI) as (prev & Hp & _).
  destruct (ref_LedgerByHeight_total _ _ (store_rel_refines _ _ (ci_store b l HI))
              (Block_Height prev)) as [snap Hs].
  unfold ReloadBlockchain, mbind, ST_bind, st_get, st_modify, on_storage. simpl.
  unfold configureLedger. rewrite (latest_refines b l prev (ci_store b l HI) Hp).
  unfold configureExistingLedger, mbind, ST_bind, st_read. rewrite Hs. simpl. split; [done|].
  eapply (fresh_pending_inv _ l prev snap (b_clock b) w); simpl; try done; apply HI.
Qed.

(** ** Genesis *)

Lemma genesis_log_ok conf es evs : log_ok [WCommit (genesis_commit conf es evs)].
Proof. constructor; [constructor|]. split; [done|]. split; [by split|]. by split. Qed.

Lemma genesis_keyed conf es evs : keyed (genesis_commit conf es evs).
Proof. split; [by intros id tx [H|H]|by intros id [? ?]]. Qed.

(** The reload on an empty store commits genesis, or fails with nothing written. *)
Lemma ReloadBlockchain_empty w b :
  store_rel (b_storage b) [] → world_ok w →
  (∃ e, (ReloadBlockchain w b).1 = Err e ∧ b_storage (ReloadBlockchain w b).2 = b_storage b) ∨
  (∃ es evs, (ReloadBlockchain w b).1 = Ok () ∧
     chain_inv (ReloadBlockchain w b).2 [WCommit (genesis_commit (b_conf b) es evs)]).
Proof.
  intros R Hw. pose proof (store_rel_refines _ _ R) as Q.
  unfold ReloadBlockchain, mbind, ST_bind, st_get, st_modify, on_storage. simpl.
  unfold configureLedger. rewrite (ref_LatestBlock _ _ Q). simpl.
  unfold configureNewLedger, mbind, ST_bind, st_read. simpl.
  destruct (ref_LedgerByHeight_total _ _ Q 0) as [snap Hs]. rewrite Hs.
  destruct (bootstrapLedger _ _ _ snap _) as [[es out]|e]; simpl; [|left; by eexists].
  pose proof (genesis_log_ok (b_conf b) es (po_Events out)) as Hok.
  destruct (store_rel_step _ [] _ R Hok (store_total _ _ _)) as (s1 & Hs1 & R1). simpl in Hs1.
  rewrite Hs1. destruct (ref_LedgerByHeight_total _ _ (store_rel_refines _ _ R1) 0) as [snap1 Hs2].
  rewrite Hs2. simpl. right. exists es, (po_Events out). split; [done|].
  eapply (fresh_pending_inv _ _ (Genesis (GetChainID (b_conf b))) snap1 (b_clock b) w); simpl; try done.
  - split_and!; simpl; [constructor|by intros id ?%not_elem_of_nil|].
    intros c [= ->]%list_elem_of_singleton. apply genesis_keyed.
  - intros h blk Hh. rewrite log_block_commit, decide_False; [done|]. intros Heq. change (0 = h) in Heq. lia.
Qed.

(** ** The operations as steps *)

Inductive op :=
  | OAddTransaction (tx : TransactionBody)
  | OSendTransaction (tx : TransactionBody) (w : World)
  | OExecuteNextTransaction
  | OExecuteBlock
  | OCommitBlock (w : World)
  | OExecuteAndCommitBlock (w : World)
  | OResetPendingBlock (w : World)
  | OTick (w : World)
  | OReload (w : World)
  | OSetClock (clock : Clock) (w : World)
  | OAutoMine (on : bool)
  | ODebugging (on : bool)
  | OExecuteScript (script : Bytes) (arguments : list Bytes) (id : Identifier)
  | OServiceKey
  | ORollback (height : Z) (w : World)
  | OCreateSnapshot (name : string) (w : World)
  | OLoadSnapshot (name : string) (w : World).

Definition step (o : op) b : Blockchain :=
  match o with
  | OAddTransaction tx => (addTransaction tx b).2
  | OSendTransaction tx w => (SendTransaction tx w b).2
  | OExecuteNextTransaction => (ExecuteNextTransaction b).2
  | OExecuteBlock => (executeBlock b).2
  | OCommitBlock w => (commitBlock w b).2
  | OExecuteAndCommitBlock w => (executeAndCommitBlock w b).2
  | OResetPendingBlock w => (ResetPendingBlock w b).2
  | OTick w => tick w b
  | OReload w => (ReloadBlockchain w b).2
  | OSetClock c w => (SetClock c w b).2
  | OAutoMine on => ((if on then EnableAutoMine else DisableAutoMine) b).2
  | ODebugging on => if on then (StartDebugger b).2 else (EndDebugging b).2
  | OExecuteScript script args id => (executeScriptAtBlockID script args id b).2
  | OServiceKey => (currentServiceKey b).2
  | ORollback h w => (RollbackToBlockHeight h w b).2
  | OCreateSnapshot name w => (CreateSnapshot name w b).2
  | OLoadSnapshot name w => (LoadSnapshot name w b).2
  end.

Definition op_world (o : op) : option World :=
  match o with
  | OSendTransaction _ w | OCommitBlock w | OExecuteAndCommitBlock w | OResetPendingBlock w
  | OTick w | OReload w | ORollback _ w | OCreateSnapshot _ w | OLoadSnapshot _ w => Some w
  | _ => None
  end.

(** The operations that go through an optional interface of the store; such an
    operation is offered when the store has the interface and supports it. *)
Definition optional (o : op) : bool :=
  match o with ORollback _ _ | OCreateSnapshot _ _ | OLoadSnapshot _ _ => true | _ => false end.
Definition offered (o : op) b : bool :=
  match o with
  | ORollback _ _ => is_Ok (rollbackProvider b)
  | OCreateSnapshot _ _ | OLoadSnapshot _ _ => is_Ok (snapshotProvider b)
  | _ => false
  end.

(** The bounds of the machine integers, and the range of the random source.  A
    rollback, and a snapshot that is created or loaded, are operations on every
    chain, but where the store offers them they replace the history; here they
    are taken where the store does not. *)
Definition op_ok (o : op) b : Prop :=
  Size (b_pendingBlock b) + 1 < two32 ∧
  (∀ h, LatestBlockHeight (b_storage b) = Ok h → h + 1 < two64) ∧
  match op_world o with Some w => world_ok w | None => True end ∧
  offered o b = false.

(** An operation that is not offered is refused, and nothing changes. *)
Lemma not_offered o b : optional o = true → offered o b = false → step o b = b.
Proof.
  destruct o as [| | | | | | | | | | | | | |h w|n w|n w]; try done; intros _; simpl.
  - unfold RollbackToBlockHeight, mbind, ST_bind, st_read. by destruct (rollbackProvider b).
  - unfold CreateSnapshot, mbind at 1, ST_bind at 1, st_read. by destruct (snapshotProvider b).
  - unfold LoadSnapshot, mbind at 1, ST_bind at 1, st_read. by destruct (snapshotProvider b).
Qed.

Lemma latest_log_height l prev :
  log_ok l → log_LatestBlock l = Ok prev → log_LatestBlockHeight l = Ok (next_height l - 1).
Proof.
  unfold log_LatestBlock, log_LatestBlockHeight, next_height. intros Hl.
  destruct (newest (on_commit c_height) l) as [h|]; [|done]. simpl. intros _. f_equal. lia.
Qed.

Lemma api_latest_height b l :
  chain_inv b l → LatestBlockHeight (b_storage b) = Ok (next_height l - 1).
Proof.
  intros HI. destruct (ci_latest b l HI) as (prev & Hp & _).
  rewrite (ref_LatestBlockHeight _ _ (store_rel_refines _ _ (ci_store b l HI))).
  by apply (latest_log_height l prev); [apply HI|].
Qed.

Lemma op_ok_height o b l : chain_inv b l → op_ok o b → next_height l < two64.
Proof. intros HI (_ & Hh & _). specialize (Hh _ (api_latest_height b l HI)). lia. Qed.

(** ** Transactions the chain knows: pending or committed *)

Definition known (id : Identifier) b (l : log) : Prop :=
  id ∈ pb_transactionIDs (b_pendingBlock b) ∨ is_Ok (log_TransactionByID id l) = true.

Lemma log_tx_mono id ws l :
  is_Ok (log_TransactionByID id l) = true → is_Ok (log_TransactionByID id (ws ++ l)) = true.
Proof.
  unfold log_TransactionByID. rewrite newest_app. by destruct (newest _ ws).
Qed.

(** The outcome of an operation: the invariant for a longer log, and no
    transaction is forgotten. *)
Definition advances b (l : log) b' : Prop :=
  ∃ ws, chain_inv b' (ws ++ l) ∧ ∀ id, known id b l → known id b' (ws ++ l).

Lemma advances_same b l b' :
  chain_inv b' l → pb_transactionIDs (b_pendingBlock b') = pb_transactionIDs (b_pendingBlock b) →
  advances b l b'.
Proof. intros HI Hids. exists []. split; [done|]. intros id. unfold known. by rewrite Hids. Qed.

Lemma advances_trans b1 l b2 b3 :
  (∀ id, known id b1 l → known id b2 l) → advances b2 l b3 → advances b1 l b3.
Proof. intros Hk (ws & HI & Hk'). exists ws. split; [done|]. auto. Qed.

Lemma committed_known b l c b' id :
  chain_inv b l → committed_as b l c b' → known id b l →
  is_Ok (log_TransactionByID id (commit_log c (b_systemTransactions b) l)) = true.
Proof.
  intros HI Hc Hk. unfold commit_log. apply log_tx_mono. destruct Hk as [Hid|Hid].
  - apply (ok_dom _ (ci_pending b l HI)) in Hid as [tx Htx].
    unfold log_TransactionByID. simpl. unfold c_transaction.
    rewrite (prep_transactions _ _ (ca_prepared _ _ _ _ Hc)), Htx.
    by destruct (bc_systemTransactionBodies c !! id).
  - by apply (log_tx_mono id [WCommit c]).
Qed.

Lemma commitBlock_step w b l :
  chain_inv b l → next_height l < two64 → world_ok w → advances b l (commitBlock w b).2.
Proof.
  intros HI Hn Hw. destruct (commitBlock_cases w b l HI Hn Hw)
    as [(e & b' & -> & Hq)|(c & b' & -> & Hc)]; simpl.
  - apply advances_same; [by eapply quiet_inv|]. by apply (sb_transactionIDs _ _ (q_same _ _ Hq)).
  - exists (index_writes c (b_systemTransactions b) ++ [WCommit c]). rewrite <- app_assoc.
    split; [apply Hc|]. intros id Hk. right. by eapply committed_known.
Qed.

Lemma executeBlock_known b l id :
  chain_inv b l → known id b l → known id (executeBlock b).2 l.
Proof.
  intros HI. destruct (executeBlock_props b (ci_pending b l HI)) as (_ & Hsame & _).
  unfold known. by rewrite (sb_transactionIDs _ _ Hsame).
Qed.

Lemma executeAndCommitBlock_step w b l :
  chain_inv b l → next_height l < two64 → world_ok w → advances b l (executeAndCommitBlock w b).2.
Proof.
  intros HI Hn Hw. pose proof (executeBlock_inv b l HI) as HI1.
  pose proof (λ id, executeBlock_known b l id HI) as Hk.
  unfold executeAndCommitBlock, mbind at 1, ST_bind at 1.
  destruct (executeBlock b) as [[rs|e] b1]; simpl in HI1, Hk |- *; [|by exists []].
  apply (advances_trans b l b1); [done|].
  pose proof (commitBlock_step w b1 l HI1 Hn Hw) as Hws.
  unfold mbind, ST_bind. by destruct (commitBlock w b1) as [[blk|e] b2].
Qed.

Lemma addTransaction_known tx b l id : known id b l → known id (addTransaction tx b).2 l.
Proof.
  rewrite addTransaction_state. destruct (admits tx b); [|done]. unfold known. simpl.
  rewrite elem_of_app. tauto.
Qed.

Lemma script_keeps script args id b0 :
  keeps (λ b, b_storage b = b_storage b0 ∧ b_pendingBlock b = b_pendingBlock b0)
    (executeScriptAtBlockID (S := S) script args id).
Proof.
  unfold executeScriptAtBlockID. cbn zeta.
  apply keeps_bind; [apply keeps_read|intros blk]. apply keeps_bind; [apply keeps_read|intros snap].
  apply keeps_bind; [apply keeps_get|intros ctx]. apply keeps_bind; [by apply start_run_keeps|intros _].
  apply keeps_bind; [apply keeps_read|intros run]. apply keeps_bind; [apply keeps_res|intros evs].
  apply keeps_bind; [by apply record_source_keeps|intros _].
  apply keeps_bind; [apply keeps_get|intros rep].
  apply keeps_bind; [destruct rep; [by apply keeps_modify|apply keeps_ret]|intros _].
  apply keeps_ret.
Qed.

Lemma currentServiceKey_keeps b0 :
  keeps (λ b, b_storage b = b_storage b0 ∧ b_pendingBlock b = b_pendingBlock b0)
    (currentServiceKey (S := S)).
Proof.
  intros b [H1 H2]. unfold currentServiceKey. destruct (getAccount _ b); [|done].
  by destruct (acc_Keys _).
Qed.

(** The operations that discard the pending block. *)
Definition resets (o : op) : bool :=
  match o with OResetPendingBlock _ | OReload _ => true | _ => false end.

Lemma resets_step o b l : resets o = true → chain_inv b l → op_ok o b → chain_inv (step o b) l.
Proof.
  intros Hr HI (_ & _ & Hw & _). destruct o as [| | | | | |w| |w| | | | | | | |]; try done; simpl in *.
  - by destruct (ResetPendingBlock_run w b l HI Hw) as (? & ? & _ & _ & _ & ?).
  - by apply ReloadBlockchain_run.
Qed.

Lemma executeNextTransaction_ids ctx b :
  pb_ok (b_pendingBlock b) →
  pb_transactionIDs (b_pendingBlock (executeNextTransaction ctx b).2)
  = pb_transactionIDs (b_pendingBlock b).
Proof.
  intros Hok. destruct (ExecutionComplete (b_pendingBlock b)) eqn:Hc;
    [by rewrite executeNextTransaction_complete|].
  destruct (executeNextTransaction_step ctx b Hok Hc) as [[_ Hs _ _] _].
  apply (sb_transactionIDs _ _ Hs).
Qed.

(** Every operation keeps the invariant and only adds to the log; those that do
    not discard the pending block forget no transaction. *)
Lemma step_advances o b l : resets o = false → chain_inv b l → op_ok o b → advances b l (step o b).
Proof.
  intros Hr HI Hop. pose proof (op_ok_height o b l HI Hop) as Hn. destruct Hop as (Hs & _ & Hw & Hoff).
  destruct (optional o) eqn:Hopt.
  { exists []. by rewrite (not_offered o b Hopt Hoff). }
  destruct o as [tx|tx w| | |w|w|w|w|w|c w|on|on|sc args id| | | |]; try done; simpl in Hw |- *.
  - exists []. split; [by apply addTransaction_inv|]. intros id. apply addTransaction_known.
  - pose proof (addTransaction_inv tx b l HI Hs) as HI1.
    pose proof (addTransaction_known tx b l) as Hk.
    unfold SendTransaction, mbind at 1, ST_bind at 1.
    destruct (addTransaction tx b) as [[[]|e] b1]; simpl in HI1, Hk |- *; [|by exists []].
    apply (advances_trans b l b1); [done|].
    unfold mbind at 1, ST_bind at 1. simpl.
    destruct (conf_AutoMine (b_conf b1)); [|by apply advances_same].
    pose proof (executeAndCommitBlock_step w b1 l HI1 Hn Hw) as Hws.
    unfold mbind, ST_bind. by destruct (executeAndCommitBlock w b1) as [[r|e] b2].
  - apply advances_same; [|by apply (executeNextTransaction_ids _ (set_vmCtx _ b)), HI].
    apply (executeNextTransaction_inv _ (set_vmCtx _ b)). by apply (chain_inv_ext b).
  - exists []. split; [by apply executeBlock_inv|]. intros id. by apply executeBlock_known.
  - by apply commitBlock_step.
  - by apply executeAndCommitBlock_step.
  - pose proof (executeBlock_inv b l HI) as HI1.
    apply (advances_trans b l (executeBlock b).2); [intros id; by apply executeBlock_known|].
    by apply commitBlock_step.
  - apply advances_same; [|done].
    destruct HI as [H1 H2 (prev & Hp & [? ? ?]) [? ? ? ? ? ?] H5 H6 H7]. split; simpl; try done.
    exists prev. by split.
  - apply advances_same; [|by destruct on]. destruct on; by apply (chain_inv_ext b).
  - apply advances_same; [|by destruct on]. destruct on; by apply (chain_inv_ext b).
  - destruct (script_keeps sc args id b b) as [H1 H2]; [done|].
    apply advances_same; [by apply (chain_inv_ext b)|by rewrite H2].
  - destruct (currentServiceKey_keeps b b) as [H1 H2]; [done|].
    apply advances_same; [by apply (chain_inv_ext b)|by rewrite H2].
Qed.

Lemma step_inv o b l : chain_inv b l → op_ok o b → ∃ ws, chain_inv (step o b) (ws ++ l).
Proof.
  intros HI Hop. destruct (resets o) eqn:Hr.
  - exists []. by apply resets_step.
  - destruct (step_advances o b l Hr HI Hop) as (ws & H & _). by exists ws.
Qed.

(** ** Sequences of operations *)

Definition chain_step b b' : Prop := ∃ o, op_ok o b ∧ b' = step o b.
(** The operations that keep the pending block's transactions. *)
Definition keep_step b b' : Prop := ∃ o, resets o = false ∧ op_ok o b ∧ b' = step o b.

Lemma steps_inv b b' l :
  rtc chain_step b b' → chain_inv b l → ∃ ws, chain_inv b' (ws ++ l).
Proof.
  intros Hs. revert l. induction Hs as [|b b1 b2 (o & Hop & ->) _ IH]; intros l HI; [by exists []|].
  destruct (step_inv o b l HI Hop) as [ws HI1]. destruct (IH _ HI1) as [ws' HI2].
  exists (ws' ++ ws). by rewrite <- app_assoc.
Qed.

Lemma keep_steps_advances b b' l : rtc keep_step b b' → chain_inv b l → advances b l b'.
Proof.
  intros Hs. revert l. induction Hs as [|b b1 b2 (o & Hr & Hop & ->) _ IH]; intros l HI; [by exists []|].
  destruct (step_advances o b l Hr HI Hop) as (ws & HI1 & Hk1).
  destruct (IH _ HI1) as (ws' & HI2 & Hk2). exists (ws' ++ ws). rewrite <- app_assoc. auto.
Qed.

(** ** Creation *)

Lemma executeAndCommitBlock_Ok w b l blk rs b' :
  chain_inv b l → next_height l < two64 → world_ok w →
  executeAndCommitBlock w b = (Ok (blk, rs), b') →
  ∃ b1 c, executeBlock b = (Ok rs, b1) ∧ chain_inv b1 l ∧ commitBlock w b1 = (Ok blk, b') ∧
          blk = pending_Block (b_pendingBlock b1) ∧ committed_as b1 l c b'.
Proof.
  intros HI Hn Hw H. unfold executeAndCommitBlock in H.
  apply ST_bind_Ok in H as (rs1 & b1 & He & H). apply ST_bind_Ok in H as (blk1 & b2 & Hc & H).
  injection H as -> -> ->. pose proof (executeBlock_inv b l HI) as HI1. rewrite He in HI1.
  destruct (commitBlock_cases w b1 l HI1 Hn Hw) as [(e & b3 & Hf & _)|(c & b3 & Hs & Hca)];
    [congruence|].
  rewrite Hs in Hc. injection Hc as <- <-. by exists b1, c.
Qed.

Lemma committed_next b l c b' :
  chain_inv b l → next_height l < two64 → committed_as b l c b' →
  next_height (commit_log c (b_systemTransactions b) l) = next_height l + 1 ∧
  Size (b_pendingBlock b') = 0.
Proof.
  intros HI Hn Hc. split.
  - unfold commit_log. rewrite next_height_index by apply Hc. rewrite next_height_commit.
    unfold bc_height. rewrite (prep_block _ _ (ca_prepared _ _ _ _ Hc)).
    f_equal. by apply (pending_height b l).
  - by destruct (ca_pending _ _ _ _ Hc) as (? & ? & ? & -> & _).
Qed.

Lemma deployContract_inv name contract w b l b' :
  chain_inv b l → Size (b_pendingBlock b) = 0 → next_height l < two64 → world_ok w →
  deployContract name contract w b = (Ok (), b') →
  ∃ ws, chain_inv b' (ws ++ l) ∧ Size (b_pendingBlock b') = 0 ∧
        next_height (ws ++ l) = next_height l + 1.
Proof.
  intros HI Hs Hn Hw H. unfold deployContract in H.
  apply ST_bind_Ok in H as (k & b1 & Hk & H).
  destruct (currentServiceKey_keeps b b) as [H1 H2]; [done|]. rewrite Hk in H1, H2. simpl in H1, H2.
  destruct (negb _); [done|].
  apply ST_bind_Ok in H as (blk & b2 & Hb & H). unfold st_read in Hb. injection Hb as _ <-.
  apply ST_bind_Ok in H as (tx & b3 & Ht & H). unfold st_res in Ht. injection Ht as _ <-.
  apply ST_bind_Ok in H as ([] & b4 & Ha & H).
  assert (chain_inv b1 l) as HI1 by (by apply (chain_inv_ext b)).
  pose proof (addTransaction_inv (SDKTransactionToFlow tx) b1 l HI1) as HI4.
  rewrite Ha in HI4. specialize (HI4 ltac:(rewrite H2, Hs; done)). simpl in HI4.
  apply ST_bind_Ok in H as ([blk' rs] & b5 & He & H).
  destruct (executeAndCommitBlock_Ok w b4 l blk' rs b5 HI4 Hn Hw He) as (b6 & c & _ & HI6 & _ & _ & Hc).
  apply ST_bind_Ok in H as (r & b7 & Hl & H). unfold st_res in Hl. injection Hl as _ <-.
  destruct (tr_Error r); [done|]. injection H as <-.
  destruct (committed_next b6 l c b5 HI6 Hn Hc) as [Hnext Hsize].
  exists (index_writes c (b_systemTransactions b6) ++ [WCommit c]). rewrite <- app_assoc.
  split; [apply Hc|]. split; [done|]. exact Hnext.
Qed.

Lemma DeployContracts_inv ds b l b' :
  chain_inv b l → Size (b_pendingBlock b) = 0 → next_height l + Z.of_nat (length ds) ≤ two64 →
  Forall (λ d : ContractDescription * World, world_ok d.2) ds →
  DeployContracts ds b = (Ok (), b') → ∃ ws, chain_inv b' (ws ++ l).
Proof.
  intros HI Hs Hn Hw. revert b l HI Hs Hn. induction Hw as [|d ds Hd _ IH]; intros b l HI Hs Hn H.
  - injection H as <-. by exists [].
  - simpl in H, Hn. apply ST_bind_Ok in H as ([] & b1 & H1 & H2).
    destruct (deployContract_inv _ _ _ b l b1 HI Hs ltac:(lia) Hd H1) as (ws & HI1 & Hs1 & Hn1).
    destruct (IH b1 (ws ++ l) HI1 Hs1 ltac:(lia) H2) as [ws' HI2].
    exists (ws' ++ ws). by rewrite <- app_assoc.
Qed.

(** Contracts that are not deployed leave a chain too. *)
Lemma deployContract_log name contract w b l :
  chain_inv b l → Size (b_pendingBlock b) = 0 → next_height l < two64 → world_ok w →
  ∃ ws, chain_inv (deployContract name contract w b).2 (ws ++ l).
Proof.
  intros HI Hs Hn Hw. unfold deployContract.
  destruct (currentServiceKey_keeps b b) as [H1 H2]; [done|].
  destruct (currentServiceKey b) as [[k|e] b1] eqn:Hk; simpl in H1, H2.
  2:{ erewrite ST_bind_fail by exact Hk. exists []. by apply (chain_inv_ext b). }
  rewrite (ST_bind_step _ _ b k b1 Hk). assert (chain_inv b1 l) as HI1 by (by apply (chain_inv_ext b)).
  destruct (negb _); [by exists []|]. unfold mbind at 1, ST_bind at 1, st_read.
  destruct (getLatestBlock b1) as [blk|]; [|by exists []]. unfold mbind at 1, ST_bind at 1, st_res at 1.
  destruct (deploy_transaction _ _ _ _) as [tx|]; [|by exists []].
  pose proof (addTransaction_inv (SDKTransactionToFlow tx) b1 l HI1 ltac:(by rewrite H2, Hs)) as HI2.
  unfold mbind at 1, ST_bind at 1.
  destruct (addTransaction (SDKTransactionToFlow tx) b1) as [[[]|e] b2]; [|by exists []]. simpl in HI2.
  destruct (executeAndCommitBlock_step w b2 l HI2 Hn Hw) as (ws & HI3 & _). exists ws.
  unfold mbind at 1, ST_bind at 1. destruct (executeAndCommitBlock w b2) as [[d|e] b3]; [|done].
  unfold mbind, ST_bind, st_res. destruct (list.last d.2) as [r|]; [|done]. simpl. by destruct (tr_Error r).
Qed.

Lemma DeployContracts_log ds b l :
  chain_inv b l → Size (b_pendingBlock b) = 0 → next_height l + Z.of_nat (length ds) ≤ two64 →
  Forall (λ d : ContractDescription * World, world_ok d.2) ds →
  ∃ ws, chain_inv (DeployContracts ds b).2 (ws ++ l).
Proof.
  intros HI Hs Hn Hw. revert b l HI Hs Hn. induction Hw as [|d ds Hd _ IH]; intros b l HI Hs Hn.
  - by exists [].
  - simpl in Hn. unfold DeployContracts. simpl. unfold mbind, ST_bind.
    destruct (deployContract_log (cd_Name d.1) (cd_Source d.1) d.2 b l HI Hs ltac:(lia) Hd) as [ws HI1].
    destruct (deployContract _ _ _ b) as [[[]|e] b1] eqn:Hb; [|by exists ws].
    destruct (deployContract_inv _ _ _ b l b1 HI Hs ltac:(lia) Hd Hb) as (ws' & HI1' & Hs1 & Hn1).
    destruct (IH b1 (ws' ++ l) HI1' Hs1 ltac:(lia)) as [ws2 HI2]. exists (ws2 ++ ws').
    rewrite <- app_assoc. exact HI2.
Qed.

Lemma cache_if_inv (m : Blockchain → result TransactionBody) b l :
  chain_inv b l → chain_inv (cache_if (m b) b) l.
Proof. intros HI. unfold cache_if. destruct (m b); [|done]. by apply (chain_inv_ext b). Qed.

(** The conditions on the creation of a chain. *)
Definition start_ok (conf : config) (s : S) (w : World) (ws : nat → World) : Prop :=
  store_rel s [] ∧ world_ok w ∧ (∀ i, world_ok (ws i)) ∧
  Z.of_nat (length (conf_Contracts conf)) + 1 < two64.

Lemma New_inv conf s w ws b :
  start_ok conf s w ws → New conf s w ws = (Ok (), b) →
  ∃ l es evs, chain_inv b (l ++ [WCommit (genesis_commit conf es evs)]).
Proof.
  intros (R & Hw & Hws & Hlen) H. unfold New in H.
  apply ST_bind_Ok in H as ([] & b1 & Hr & H).
  destruct (ReloadBlockchain_empty w (initial conf s w) R Hw) as [(e & He & _)|(es & evs & _ & HI)];
    [by rewrite Hr in He|]. rewrite Hr in HI. simpl in HI.
  assert (Size (b_pendingBlock b1) = 0) as Hs.
  { clear -Hr. unfold ReloadBlockchain in Hr. inv_binds. unfold st_modify, st_get in *. by simplify_eq. }
  apply ST_bind_Ok in H as ([] & b2 & [= <-] & H). apply ST_bind_Ok in H as ([] & b3 & [= <-] & H).
  eapply DeployContracts_inv in H as [l HI']; [by exists l, es, evs|..].
  - apply cache_if_inv. by apply (cache_if_inv (λ _, _)).
  - unfold cache_if. by repeat case_match.
  - rewrite length_imap, next_height_commit. simpl. unfold bc_height. simpl.
    unfold Block_Height, Genesis. simpl. lia.
  - apply list.Forall_forall. intros d (i & c & -> & _)%elem_of_lookup_imap_1. apply Hws.
Qed.

(** Whatever the outcome of the creation, the store is described by a log. *)
Lemma New_log conf s w ws :
  start_ok conf s w ws → ∃ l, log_ok l ∧ store_rel (b_storage (New conf s w ws).2) l.
Proof.
  intros (R & Hw & Hws & Hlen). unfold New, mbind at 1, ST_bind at 1.
  destruct (ReloadBlockchain_empty w (initial conf s w) R Hw) as [(e & He & Hs)|(es & evs & Ho & HI)].
  { exists []. split; [constructor|]. destruct (ReloadBlockchain _ _) as [r b] eqn:Hr. simpl in He, Hs. subst r.
    simpl. by rewrite Hs. }
  destruct (ReloadBlockchain w (initial conf s w)) as [r b1] eqn:Hr. simpl in Ho, HI. subst r.
  assert (Size (b_pendingBlock b1) = 0) as Hs.
  { clear -Hr. unfold ReloadBlockchain in Hr. inv_binds. unfold st_modify, st_get in *. by simplify_eq. }
  unfold mbind, ST_bind. simpl.
  match goal with |- context [DeployContracts ?ds ?b] => set (b2 := b);
    destruct (DeployContracts_log ds b2 [WCommit (genesis_commit conf es evs)]) as [ws' HI'] end.
  - apply cache_if_inv. by apply (cache_if_inv (λ _, _)).
  - subst b2. unfold cache_if. by repeat case_match.
  - rewrite length_imap, next_height_commit. simpl. unfold bc_height. simpl.
    unfold Block_Height, Genesis. simpl. lia.
  - apply list.Forall_forall. intros d (i & c & -> & _)%elem_of_lookup_imap_1. apply Hws.
  - eexists. split; [apply HI'|apply HI'].
Qed.

(** A chain that was created and operated on. *)
Definition reachable (conf : config) b : Prop :=
  ∃ s w ws b0, start_ok conf s w ws ∧ New conf s w ws = (Ok (), b0) ∧ rtc chain_step b0 b.

Lemma reachable_inv conf b :
  reachable conf b → ∃ l es evs, chain_inv b (l ++ [WCommit (genesis_commit conf es evs)]).
Proof.
  intros (s & w & ws & b0 & Hok & Hnew & Hs).
  destruct (New_inv conf s w ws b0 Hok Hnew) as (l & es & evs & HI).
  destruct (steps_inv b0 b _ Hs HI) as [ws' HI']. exists (ws' ++ l), es, evs.
  by rewrite <- app_assoc.
Qed.
End chain_life.
