(* ===== verification/SourceFiles.v ===== *)
(** Where a procedure's source comes from: [GetSourceFile] and
    [NewScriptEnvironment] of emulator/blockchain.go, over the map that the
    execution of transactions and scripts fills from their pragmas. *)
From S2P Require Import Prelude FlowTypes Errors Storage Report Convert Pragma Vm PendingBlock.
From S2P Require Import Blockchain Queries BlockchainCorrect Chain.
#[local] Open Scope string_scope.

(** [location.ID()], and the code of a contract in the environment of a script on
    a view of the registers. *)
Class SourceLibrary {FM : FlowModel} {CA : Cadence} := {
  Location_ID : Location → string;
  ContractLocation_ID : Address → string → string;
  GetAccountContractCode : Context → StorageSnapshot → Address → string → result Bytes
}.

(** A place that is asked for: a transaction, a script or a contract. *)
Inductive code_location := Procedure_location (l : Location) | AddressLocation (address : Address) (name : string).

Section source_files.
Context {FM : FlowModel} {CA : Cadence} {VM : VirtualMachine} {CK : Clocks} {CR : Crypto}
        {SG : Signing} {CP : CadenceParser} {KS : KindString} {GO : GoMapOrder}
        {SL : SourceLibrary} {S : Type} `{!Store S} {OI : OptionalInterfaces S}.

(** The registers that a script environment reads: those of the pending block. *)
Definition NewScriptEnvironment (b : Blockchain (S := S)) : Context * StorageSnapshot :=
  (b_vmCtx b, es_Get (pb_ledgerState (b_pendingBlock b))).

Definition GetSourceFile (location : code_location) (b : Blockchain (S := S)) : string :=
  match location with
  | Procedure_location l => default (Location_ID l) (b_sourceFileMap b !! l)
  | AddressLocation address name =>
      let '(ctx, registers) := NewScriptEnvironment b in
      match GetAccountContractCode ctx registers address name with
      | Err _ => ContractLocation_ID address name
      | Ok code =>
          let pragmas := ExtractPragmas (string_of_bytes code) in
          if Contains PragmaSourceFile pragmas
          then default "" (first_argument PragmaSourceFile pragmas)
          else ContractLocation_ID address name
      end
  end.

(** * Theorems *)

(** The source file that a code declares. *)
Definition declared (code : Bytes) : option string :=
  first_argument PragmaSourceFile (ExtractPragmas (string_of_bytes code)).

Lemma declared_contains code :
  Contains PragmaSourceFile (ExtractPragmas (string_of_bytes code)) = true ↔ is_Some (declared code).
Proof.
  unfold declared, first_argument. split.
  - intros (p & Hp & _)%Contains_first. rewrite Hp. by eexists.
  - intros [f Hf]. apply fmap_Some in Hf as (p & Hp & _). apply Contains_elem. exists p.
    unfold First, FilterByName in Hp. apply head_Some_elem_of in Hp. apply list_elem_of_filter in Hp. tauto.
Qed.

(** What recording does to the map. *)
Definition recorded (l : Location) (code : Bytes) (m : gmap Location string) : gmap Location string :=
  match declared code with Some f => <[l := f]> m | None => m end.

Lemma record_source_run l code (b : Blockchain (S := S)) :
  ∃ b', record_source l (ExtractPragmas (string_of_bytes code)) b = (Ok (), b') ∧
    b_sourceFileMap b' = recorded l code (b_sourceFileMap b).
Proof.
  unfold record_source, recorded. pose proof (declared_contains code) as Hd. unfold declared in *.
  destruct (Contains _ _).
  - destruct Hd as [[f Hf] _]; [done|]. rewrite Hf. by eexists.
  - destruct (first_argument _ _); [|by eexists]. destruct Hd as [_ Hd]. by specialize (Hd ltac:(by eexists)).
Qed.

Lemma start_run_source code id b b' :
  start_run (S := S) code id b = (Ok (), b') → b_sourceFileMap b' = b_sourceFileMap b.
Proof.
  apply (start_run_ok (λ b', b_sourceFileMap b' = b_sourceFileMap b)); done.
Qed.

Lemma script_source script args id b r b' :
  executeScriptAtBlockID (S := S) script args id b = (Ok r, b') →
  b_sourceFileMap b' = recorded (ScriptLocation (Script_ID script)) script (b_sourceFileMap b).
Proof.
  intros H. unfold executeScriptAtBlockID in H. cbn zeta in H.
  apply ST_bind_Ok in H as (blk & b1 & H1 & H). apply ST_bind_Ok in H as (snap & b2 & H2 & H).
  apply ST_bind_Ok in H as (ctx & b3 & H3 & H). apply ST_bind_Ok in H as ([] & b4 & H4 & H).
  apply start_run_source in H4. apply ST_bind_Ok in H as (rn & b5 & H5 & H). apply ST_bind_Ok in H as (evs & b6 & H6 & H).
  apply ST_bind_Ok in H as (? & b7 & H7 & H). apply ST_bind_Ok in H as (rep & b8 & H8 & H).
  apply ST_bind_Ok in H as (? & b9 & H9 & H).
  assert (b_sourceFileMap b6 = b_sourceFileMap b) as <-.
  { unfold st_read, st_get, st_modify, st_res in *. repeat case_match; simplify_eq; done. }
  destruct (record_source_run (ScriptLocation (Script_ID script)) script b6) as (b7' & H7' & <-).
  replace b7 with b7' in * by congruence. clear H7 H7'.
  unfold st_get, mret, ST_ret in H, H8. simplify_eq.
  destruct (conf_ComputationReportingEnabled _); unfold st_modify, mret, ST_ret in H9; by simplify_eq.
Qed.

Lemma transaction_source ctx b r b' txn :
  executeNextTransaction (S := S) ctx b = (Ok r, b') → NextTransaction (b_pendingBlock b) = Some txn →
  b_sourceFileMap b' = recorded (TransactionLocation (tr_TransactionID r)) (tx_Script txn) (b_sourceFileMap b).
Proof.
  intros H Htx. unfold executeNextTransaction in H.
  apply ST_bind_Ok in H as (p & b1 & H1 & H). injection H1 as <- <-.
  destruct (ExecutionComplete _); [done|]. rewrite Htx in H. cbn zeta in H.
  apply ST_bind_Ok in H as (txn' & b2 & H2 & H). injection H2 as <- <-.
  apply ST_bind_Ok in H as ([] & b3 & H3 & H). apply start_run_source in H3.
  apply ST_bind_Ok in H as (ent & b4 & H4 & H).
  apply ST_bind_Ok in H as (blocks & b5 & H5 & H). apply ST_bind_Ok in H as (out & b6 & H6 & H).
  apply ST_bind_Ok in H as (tr & b7 & H7 & H). apply ST_bind_Ok in H as (tr' & b8 & H8 & H).
  apply ST_bind_Ok in H as (? & b9 & H9 & H). apply ST_bind_Ok in H as (rep & b10 & H10 & H).
  apply ST_bind_Ok in H as (? & b11 & H11 & H).
  assert (b_sourceFileMap b8 = b_sourceFileMap b) as <-.
  { unfold on_pending, st_get, st_modify, st_res, st_read in *. destruct (tr_Error tr).
    - apply ST_bind_Ok in H8 as (dd & b8' & H8 & H8'). injection H8' as _ <-.
      repeat case_match; simplify_eq; done.
    - injection H8 as _ <-. repeat case_match; simplify_eq; done. }
  destruct (record_source_run (TransactionLocation (tr_TransactionID tr')) (tx_Script txn) b8) as (b9' & H9' & Hm).
  assert (b9 = b9') as -> by congruence. clear H9 H9'.
  unfold st_get, mret, ST_ret in H, H10. simplify_eq. rewrite <- Hm.
  destruct (conf_ComputationReportingEnabled _); unfold st_modify, mret, ST_ret in H11; by simplify_eq.
Qed.

Lemma recorded_GetSourceFile l code (b b' : Blockchain (S := S)) :
  b_sourceFileMap b' = recorded l code (b_sourceFileMap b) →
  GetSourceFile (Procedure_location l) b' = default (GetSourceFile (Procedure_location l) b) (declared code) ∧
  ∀ l', l' ≠ l → GetSourceFile (Procedure_location l') b' = GetSourceFile (Procedure_location l') b.
Proof.
  intros Hm. unfold GetSourceFile. rewrite Hm. unfold recorded. destruct (declared code) as [f|]; [|done].
  split; [by rewrite lookup_insert_eq|]. intros l' Hl. by rewrite lookup_insert_ne by done.
Qed.

(** The source file of a transaction that ran, or of a script, is the one that its
    pragma names; without the pragma it stays what it was, and so do the files of
    the other procedures. *)
Theorem source_files_recorded b b' :
  (∀ script args id r, executeScriptAtBlockID (S := S) script args id b = (Ok r, b') →
     let l := ScriptLocation (Script_ID script) in
     GetSourceFile (Procedure_location l) b' = default (GetSourceFile (Procedure_location l) b) (declared script) ∧
     ∀ l', l' ≠ l → GetSourceFile (Procedure_location l') b' = GetSourceFile (Procedure_location l') b) ∧
  (∀ ctx txn r, NextTransaction (b_pendingBlock b) = Some txn →
     executeNextTransaction (S := S) ctx b = (Ok r, b') →
     let l := TransactionLocation (tr_TransactionID r) in
     GetSourceFile (Procedure_location l) b' = default (GetSourceFile (Procedure_location l) b) (declared (tx_Script txn)) ∧
     ∀ l', l' ≠ l → GetSourceFile (Procedure_location l') b' = GetSourceFile (Procedure_location l') b).
Proof.
  split.
  - intros script args id r H l. by eapply recorded_GetSourceFile, script_source.
  - intros ctx txn r Htx H l. by eapply recorded_GetSourceFile, transaction_source.
Qed.

(** The file of a contract is the one its code declares, its identifier otherwise. *)
Lemma contract_source address name b :
  GetSourceFile (AddressLocation address name) b =
  match GetAccountContractCode (b_vmCtx b) (es_Get (pb_ledgerState (b_pendingBlock b))) address name with
  | Ok code => default (ContractLocation_ID address name) (declared code)
  | Err _ => ContractLocation_ID address name
  end.
Proof.
  unfold GetSourceFile. simpl. destruct (GetAccountContractCode _ _ _ _) as [code|]; [|done]. simpl.
  pose proof (declared_contains code) as Hd. unfold declared in *. destruct (Contains _ _).
  - by destruct Hd as [[f ->] _].
  - destruct (first_argument _ _); [|done]. destruct Hd as [_ Hd]. by specialize (Hd ltac:(by eexists)).
Qed.
End source_files.
