(* ===== verification/Consistency.v ===== *)
(** When the writes of a chain are consistent.

    SQLite asks of the writes that a key outside of the global table is rewritten
    with the same bytes only ([consistent_log]).  On a chain this follows when no
    two different blocks, collections or transactions of it have the same ID, and
    a scheduled transaction is executed in one block: the other keys are heights,
    or belong to one block. *)
From S2P Require Import Prelude FlowTypes Errors Storage Keys DefaultStore DefaultStoreCorrect.
From S2P Require Import Sqlite SqliteCorrect Report Convert Pragma Vm PendingBlock.
From S2P Require Import Blockchain Queries BlockchainCorrect Chain.

Section consistency.
Import DefaultKeyGenerator.
Context {FM : FlowModel} {FL : FlowModelLaws FM} {CD : Codecs} {GO : GoMapOrder}.

(** The transactions of a commit, of the users and of the system. *)
Definition has_transaction (c : BlockCommit) (tx : TransactionBody) : Prop :=
  ∃ id, bc_transactions c !! id = Some tx ∨ bc_systemTransactionBodies c !! id = Some tx.

Record collision_free (l : log) : Prop := {
  cf_block c c' : WCommit c ∈ l → WCommit c' ∈ l →
    Block_ID (bc_block c) = Block_ID (bc_block c') → bc_block c = bc_block c';
  cf_transaction c c' tx tx' : WCommit c ∈ l → WCommit c' ∈ l →
    has_transaction c tx → has_transaction c' tx' → Transaction_ID tx = Transaction_ID tx' → tx = tx';
  cf_collection c c' col col' : WCommit c ∈ l → WCommit c' ∈ l →
    col ∈ bc_collections c → col' ∈ bc_collections c' →
    LightCollection_ID col = LightCollection_ID col' → col = col';
  cf_scheduled n b b' : WIndexScheduled n b ∈ l → WIndexScheduled n b' ∈ l → b = b';
  cf_index t b b' : WIndexTx t b ∈ l → WIndexTx t b' ∈ l → b = b';
  cf_height : next_height l ≤ two64 / 2
}.

(** ** The rows of a commit *)

Inductive commit_row (c : BlockCommit) : string → Bytes → Bytes → Prop :=
  | row_block : commit_row c BlockStoreName (BlockHeight (bc_height c)) (enc (bc_block c))
  | row_blockID : commit_row c BlockIndexStoreName (IdentifierKey (Block_ID (bc_block c))) (enc (bc_height c))
  | row_latest k v : commit_row c globalStoreName k v
  | row_system : commit_row c SystemTransactionName (IdentifierKey (Block_ID (bc_block c)))
                   (enc (commit_metadata c))
  | row_collection col : col ∈ bc_collections c →
      commit_row c CollectionStoreName (IdentifierKey (LightCollection_ID col)) (enc col)
  | row_transaction id tx :
      bc_transactions c !! id = Some tx ∨ bc_systemTransactionBodies c !! id = Some tx →
      commit_row c TransactionStoreName (IdentifierKey id) (enc tx)
  | row_result id r : bc_transactionResults c !! id = Some r →
      commit_row c TransactionResultStoreName (IdentifierKey id) (enc r)
  | row_systemResult id (r : StorableTransactionResult) :
      commit_row c TransactionResultStoreName
        (SystemTransactionResult (Block_ID (bc_block c)) id) (enc r)
  | row_events : commit_row c EventStoreName (BlockHeight (bc_height c)) (enc (bc_events c)).

Lemma seg_inv {A} st (f : A → Bytes * Bytes) xs st' k v :
  ((st', k), v) ∈ seg st f xs → ∃ x, x ∈ xs ∧ st' = st ∧ k = (f x).1 ∧ v = (f x).2.
Proof. intros (x & [= -> -> ->] & Hx)%list_elem_of_fmap. by exists x. Qed.

Lemma commit_rows c st k v : ((st, k), v) ∈ plain_writes (WCommit c) → commit_row c st k v.
Proof.
  unfold plain_writes, commit_writes, event_writes. rewrite !elem_of_app.
  intros [[H|[H|[H|[H|[H|[H|[H|[H|H]]]]]]]]|H]; apply seg_inv in H as (x & Hx & -> & -> & ->); simpl.
  - apply list_elem_of_singleton in Hx as ->. constructor.
  - apply list_elem_of_singleton in Hx as ->. constructor.
  - constructor.
  - destruct (has_systemTransactions c); [|by apply not_elem_of_nil in Hx].
    apply list_elem_of_singleton in Hx as ->. constructor.
  - apply list_elem_of_fmap in Hx as (col & -> & Hcol). by constructor.
  - destruct x as [id tx]. apply elem_of_map_range in Hx. constructor. by left.
  - destruct x as [id r]. apply elem_of_map_range in Hx. by constructor.
  - destruct x as [id tx]. apply elem_of_map_range in Hx. constructor. by right.
  - constructor.
  - apply list_elem_of_singleton in Hx as ->. constructor.
Qed.

Lemma user_ids_elem l c id :
  WCommit c ∈ l → id ∈ concat (lc_Transactions <$> bc_collections c) → id ∈ user_ids l.
Proof.
  intros Hc Hid. induction l as [|w l IH]; [by apply not_elem_of_nil in Hc|].
  apply elem_of_cons in Hc as [<-|Hc]; [simpl; apply elem_of_app; by left|].
  destruct w as [c'| |]; simpl; [apply elem_of_app; right|..]; by apply IH.
Qed.

(** Two commits of the log at different heights have no row in common, but for
    rows that are the same. *)
Lemma rows_agree l c c' st k v st' k' v' :
  collision_free l → WCommit c ∈ l → WCommit c' ∈ l → keyed c → keyed c' →
  is_u64 (bc_height c) → is_u64 (bc_height c') → bc_height c ≠ bc_height c' →
  (∀ id, is_Some (bc_transactionResults c !! id) → is_Some (bc_transactionResults c' !! id) → False) →
  st ≠ globalStoreName → commit_row c st k v → commit_row c' st' k' v' → st = st' → k = k' → v = v'.
Proof.
  intros HF Hc Hc' K K' Hu Hu' Hh Hr Hst Hrow Hrow'.
  assert (Block_ID (bc_block c) = Block_ID (bc_block c') → False) as Hid.
  { intros Hid. apply Hh. unfold bc_height. by rewrite (cf_block _ HF c c' Hc Hc' Hid). }
  intros Hs Hk. destruct Hrow as [| |k v| |col Hcol|id tx Htx|id r Hres|id r|];
    destruct Hrow' as [| |k' v'| |col' Hcol'|id' tx' Htx'|id' r' Hres'|id' r'|];
    try discriminate Hs; try done; clear Hs.
  - exfalso. by apply Hh, BlockHeight_inj.
  - exfalso. by apply Hid, (inj hex_id).
  - exfalso. by apply Hid, (inj hex_id).
  - f_equal. by apply (cf_collection _ HF c c'), (inj hex_id).
  - f_equal. apply (inj hex_id) in Hk as ->.
    apply (cf_transaction _ HF c c'); [done..|by exists id'|by exists id'|].
    by rewrite (keyed_transaction _ K id'), (keyed_transaction _ K' id').
  - exfalso. apply (inj hex_id) in Hk as ->. by apply (Hr id').
  - exfalso. by apply (SystemTransactionResult_Identifier (Block_ID (bc_block c')) id' id).
  - exfalso. by apply (SystemTransactionResult_Identifier (Block_ID (bc_block c)) id id').
  - exfalso. by apply SystemTransactionResult_inj in Hk as [? _]; apply Hid.
  - exfalso. by apply Hh, BlockHeight_inj.
Qed.

Lemma log_ok_scheduled l n b : log_ok l → WIndexScheduled n b ∈ l → is_u64 n.
Proof.
  induction 1 as [|w l _ IH Hw]; [by intros ?%not_elem_of_nil|].
  by intros [<-|Hin]%elem_of_cons; [|apply IH].
Qed.

Lemma consistent_write l0 w l :
  collision_free l0 → NoDup (user_ids l0) → (∀ c, WCommit c ∈ l0 → keyed c) → log_ok l0 →
  l0 = w :: l → consistent l w.
Proof.
  intros HF Hnd Hkey Hok ->. pose proof (log_ok_tail _ _ Hok) as [Hl Hw]. split.
  - intros st k v w' v' Hst Hin Hw' Hin'.
    assert (w' ∈ w :: l) as Hw2 by (by right). assert (w ∈ w :: l) as Hw1 by left.
    destruct w as [c|n b|t b], w' as [c'|n' b'|t' b'];
      try (apply seg_inv in Hin as (p & ->%list_elem_of_singleton & -> & -> & ->));
      try (apply seg_inv in Hin' as (p' & ->%list_elem_of_singleton & Hs & Hk & ->)); try discriminate Hs;
      try apply commit_rows in Hin; try apply commit_rows in Hin'.
    + destruct Hw as (Hc & Hu & _). pose proof (log_heights l c' Hl Hw') as Hh.
      pose proof (next_height_le l Hl).
      apply (rows_agree (WCommit c :: l) c c' st k v st k v'); try done;
        [by apply Hkey..|unfold is_u64 in *; lia|lia|].
      intros id Hr Hr'. simpl in Hnd. apply list.NoDup_app in Hnd as (_ & Hnd & _).
      apply (Hnd id); [by apply (keyed_result _ (Hkey c Hw1))|].
      apply (user_ids_elem l c'); [done|]. by apply (keyed_result _ (Hkey c' Hw2)).
    + inversion Hin; simplify_eq.
    + inversion Hin; simplify_eq.
    + inversion Hin'; simplify_eq.
    + simpl in Hk |- *. f_equal. apply ScheduledTransactionID_inj in Hk as ->;
        [by apply (cf_scheduled _ HF n')|done|by apply (log_ok_scheduled l _ b')].
    + inversion Hin'; simplify_eq.
    + simpl in Hk |- *. f_equal. apply (inj hex_id) in Hk as ->. by apply (cf_index _ HF t').
  - destruct w as [c| |]; [|done..]. pose proof (cf_height _ HF) as Hh.
    rewrite next_height_commit in Hh. destruct Hw as (Hc & _). pose proof (next_height_nonneg l Hl).
    unfold Sqlite.small. lia.
Qed.

Lemma collision_free_tail w l : log_ok (w :: l) → collision_free (w :: l) → collision_free l.
Proof.
  intros Hok [H1 H2 H3 H4 H5 H6]. pose proof (next_height_mono l w Hok).
  assert (∀ x, x ∈ l → x ∈ w :: l) as Hi by (intros; by right). split; [..|lia].
  - intros c c' Hc Hc'. apply H1; auto.
  - intros c c' tx tx' Hc Hc'. apply (H2 c c'); auto.
  - intros c c' col col' Hc Hc'. apply (H3 c c'); auto.
  - intros n b b' Hb Hb'. apply (H4 n); auto.
  - intros t b b' Hb Hb'. apply (H5 t); auto.
Qed.

(** The writes of a chain without collisions are consistent. *)
Lemma collision_free_consistent l :
  log_ok l → NoDup (user_ids l) → (∀ c, WCommit c ∈ l → keyed c) → collision_free l → consistent_log l.
Proof.
  induction l as [|w l IH]; intros Hok Hnd Hk HF; [done|]. split.
  - by apply (consistent_write (w :: l)).
  - pose proof (log_ok_tail _ _ Hok) as [Hl _]. apply IH; [done|..].
    + destruct w; [by apply list.NoDup_app in Hnd as (_ & _ & ?)|done..].
    + intros c Hc. apply Hk. by right.
    + by eapply collision_free_tail.
Qed.
End consistency.
