(* ===== verification/Composition.v ===== *)
(** Programs over the chain: what the adapters and the server do is a sequence of
    the chain's operations.

    [within n m] says that the state transformer [m] consists of at most [n]
    operations of the chain, whatever it returns: from a reachable chain it takes
    steps of the chain as long as the machine integers have room for [n] more
    blocks and transactions.
    The lemmas follow the monad, so that a program's proof follows its text. *)
From S2P Require Import Prelude FlowTypes Errors Storage Report Convert Pragma Vm PendingBlock.
From S2P Require Import Blockchain Queries BlockchainCorrect Chain.

Section composition.
Context {FM : FlowModel} {CA : Cadence} {VM : VirtualMachine} {CK : Clocks} {CR : Crypto}
        {SG : Signing} {CP : CadenceParser} {KS : KindString} {GO : GoMapOrder}
        {S : Type} `{!Store S} {OI : OptionalInterfaces S} {SC : StoreCorrect S} {TS : TotalStore S}.
Implicit Types b : Blockchain (S := S).

(** ** An operation adds at most one block and one pending transaction *)

Definition grows b (l : log) b' : Prop :=
  ∃ ws, chain_inv b' (ws ++ l) ∧ next_height (ws ++ l) ≤ next_height l + 1 ∧
        Size (b_pendingBlock b') ≤ Size (b_pendingBlock b) + 1.

Lemma grows_same b l b' :
  chain_inv b' l → Size (b_pendingBlock b') ≤ Size (b_pendingBlock b) + 1 → grows b l b'.
Proof. intros HI Hs. exists []. split; [done|]. split; [simpl; lia|done]. Qed.

Lemma same_block_Size p p' : same_block p p' → Size p' = Size p.
Proof. intros Hs. unfold Size. by rewrite (sb_transactionIDs _ _ Hs). Qed.

Lemma Size_nonneg p : 0 ≤ Size p.
Proof. unfold Size. lia. Qed.

Lemma commitBlock_grows w b b0 l :
  chain_inv b l → next_height l < two64 → world_ok w →
  Size (b_pendingBlock b) ≤ Size (b_pendingBlock b0) + 1 → grows b0 l (commitBlock w b).2.
Proof.
  intros HI Hn Hw Hs. destruct (commitBlock_cases w b l HI Hn Hw)
    as [(e & b' & -> & Hq)|(c & b' & -> & Hc)]; simpl.
  - apply grows_same; [by eapply quiet_inv|]. by rewrite (same_block_Size _ _ (q_same _ _ Hq)).
  - destruct (committed_next b l c b' HI Hn Hc) as [Hnext Hsize].
    exists (index_writes c (b_systemTransactions b) ++ [WCommit c]). rewrite <- app_assoc.
    split; [apply Hc|]. change (_ ++ [WCommit c] ++ l) with (commit_log c (b_systemTransactions b) l).
    pose proof (Size_nonneg (b_pendingBlock b0)). lia.
Qed.

Lemma executeAndCommitBlock_grows w b b0 l :
  chain_inv b l → next_height l < two64 → world_ok w →
  Size (b_pendingBlock b) ≤ Size (b_pendingBlock b0) + 1 → grows b0 l (executeAndCommitBlock w b).2.
Proof.
  intros HI Hn Hw Hs. pose proof (executeBlock_inv b l HI) as HI1.
  destruct (executeBlock_props b (ci_pending b l HI)) as (_ & Hsame & _).
  apply same_block_Size in Hsame. unfold executeAndCommitBlock, mbind at 1, ST_bind at 1.
  destruct (executeBlock b) as [[rs|e] b1]; simpl in HI1, Hsame |- *.
  - pose proof (commitBlock_grows w b1 b0 l HI1 Hn Hw ltac:(lia)) as Hg.
    unfold mbind, ST_bind. by destruct (commitBlock w b1) as [[blk|e] b2].
  - apply grows_same; [done|lia].
Qed.

Lemma addTransaction_Size tx b :
  Size (b_pendingBlock (addTransaction tx b).2) ≤ Size (b_pendingBlock b) + 1.
Proof.
  rewrite addTransaction_state. destruct (admits tx b); simpl; [|lia].
  unfold Size. simpl. rewrite length_app. simpl. lia.
Qed.

Lemma keeps_grows {A} (m : ST error (Blockchain (S := S)) A) b l :
  keeps (λ b', b_storage b' = b_storage b ∧ b_pendingBlock b' = b_pendingBlock b) m →
  chain_inv b l → grows b l (m b).2.
Proof.
  intros Hk HI. destruct (Hk b) as [H1 H2]; [done|].
  apply grows_same; [by apply (chain_inv_ext b)|]. rewrite H2. lia.
Qed.

Lemma step_grows o b l : chain_inv b l → op_ok o b → grows b l (step o b).
Proof.
  intros HI Hop. pose proof (op_ok_height o b l HI Hop) as Hn. destruct Hop as (Hs & Hh & Hw & Hoff).
  pose proof (executeBlock_inv b l HI) as HIx.
  destruct (executeBlock_props b (ci_pending b l HI)) as (_ & Hsame & _).
  apply same_block_Size in Hsame.
  destruct (optional o) eqn:Hopt.
  { rewrite (not_offered o b Hopt Hoff). apply grows_same; [done|lia]. }
  destruct o as [tx|tx w| | |w|w|w|w|w|c w|on|on|sc args id| | | |]; try done; simpl in Hw |- *.
  - apply grows_same; [by apply addTransaction_inv|apply addTransaction_Size].
  - pose proof (addTransaction_inv tx b l HI Hs) as HI1. pose proof (addTransaction_Size tx b) as Hs1.
    unfold SendTransaction, mbind at 1, ST_bind at 1.
    destruct (addTransaction tx b) as [[[]|e] b1]; simpl in HI1, Hs1 |- *; [|by apply grows_same].
    unfold mbind at 1, ST_bind at 1. simpl.
    destruct (conf_AutoMine (b_conf b1)); [|by apply grows_same].
    pose proof (executeAndCommitBlock_grows w b1 b l HI1 Hn Hw Hs1) as Hg.
    unfold mbind, ST_bind. by destruct (executeAndCommitBlock w b1) as [[r|e] b2].
  - apply grows_same.
    + apply (executeNextTransaction_inv _ (set_vmCtx _ b)). by apply (chain_inv_ext b).
    + change (Blockchain.ExecuteNextTransaction b)
        with (executeNextTransaction (block_context b) (set_vmCtx (block_context b) b)).
      unfold Size. rewrite executeNextTransaction_ids by apply HI. simpl. lia.
  - apply grows_same; [done|lia].
  - apply commitBlock_grows; try done. lia.
  - apply executeAndCommitBlock_grows; try done. lia.
  - destruct (ResetPendingBlock_run w b l HI Hw) as (? & ? & _ & Hrun & _ & HI').
    apply grows_same; [done|]. rewrite Hrun. simpl. pose proof (Size_nonneg (b_pendingBlock b)).
    unfold Size in *. simpl. lia.
  - apply commitBlock_grows; try done. lia.
  - destruct (ReloadBlockchain_run w b l HI Hw) as [Hok HI']. apply grows_same; [done|].
    destruct (ReloadBlockchain w b) as [r b'] eqn:Hr. simpl in Hok, HI' |- *. subst r.
    assert (Size (b_pendingBlock b') = 0) as ->; [|pose proof (Size_nonneg (b_pendingBlock b)); lia].
    unfold ReloadBlockchain in Hr. inv_binds. unfold st_modify, st_get in *. by simplify_eq.
  - destruct (step_advances (OSetClock c w) b l eq_refl HI) as ([|w' ws] & HI' & _);
      [by split_and!|by apply grows_same; [|simpl; unfold Size; simpl; lia]|].
    apply grows_same; [|simpl; unfold Size; simpl; lia].
    destruct HI as [H1 H2 (prev & Hp & [? ? ?]) [? ? ? ? ? ?] H5 H6 H7]. split; simpl; try done.
    exists prev. by split.
  - apply grows_same; [destruct on; by apply (chain_inv_ext b)|destruct on; simpl; lia].
  - apply grows_same; [destruct on; by apply (chain_inv_ext b)|destruct on; simpl; lia].
  - by apply keeps_grows, HI; apply script_keeps.
  - by apply keeps_grows, HI; apply currentServiceKey_keeps.
Qed.

(** ** Room for more operations *)

Definition room (n : nat) b : Prop :=
  Size (b_pendingBlock b) + Z.of_nat n < two32 ∧
  (∀ h, LatestBlockHeight (b_storage b) = Ok h → h + Z.of_nat n < two64).

Lemma room_le n m b : (n ≤ m)%nat → room m b → room n b.
Proof. intros Hle [H1 H2]. split; [lia|]. intros h Hh. specialize (H2 h Hh). lia. Qed.

Definition world_of_ok (o : op) : Prop :=
  match op_world o with Some w => world_ok w | None => True end.

Lemma offered_optional o b : optional o = false → offered o b = false.
Proof. by destruct o. Qed.

Lemma room_op_ok n o b :
  world_of_ok o → offered o b = false → room (Datatypes.S n) b → op_ok o b.
Proof.
  intros Hw Ho [H1 H2]. split; [lia|]. split; [|done]. intros h Hh. specialize (H2 h Hh). lia.
Qed.

Lemma reachable_steps conf b b' : reachable conf b → rtc chain_step b b' → reachable conf b'.
Proof.
  intros (s & w & ws & b0 & Hok & Hnew & Hs) Hs'. exists s, w, ws, b0. split_and!; [done..|].
  by etrans.
Qed.

Lemma room_step n o conf b :
  reachable conf b → world_of_ok o → offered o b = false → room (Datatypes.S n) b →
  rtc chain_step b (step o b) ∧ room n (step o b).
Proof.
  intros HR Hw Ho Hroom. pose proof (room_op_ok n o b Hw Ho Hroom) as Hop. split.
  - apply rtc_once. by exists o.
  - destruct (reachable_inv conf b HR) as (l & es & evs & HI).
    destruct (step_grows o b _ HI Hop) as (ws & HI' & Hn & Hs). destruct Hroom as [H1 H2].
    specialize (H2 _ (api_latest_height b _ HI)). split; [lia|].
    intros h. rewrite (api_latest_height _ _ HI'). intros [= <-]. lia.
Qed.

(** ** Programs *)

Definition within {A} (n : nat) (m : ST error (Blockchain (S := S)) A) : Prop :=
  ∀ conf b k, reachable conf b → room (n + k) b → rtc chain_step b (m b).2 ∧ room k (m b).2.

Lemma within_le {A} n n' (m : ST error (Blockchain (S := S)) A) :
  (n ≤ n')%nat → within n m → within n' m.
Proof.
  intros Hle Hm conf b k HR Hroom. destruct (Hm conf b (n' - n + k)%nat HR) as [H1 H2].
  - by replace (n + (n' - n + k))%nat with (n' + k)%nat by lia.
  - split; [done|]. eapply room_le; [|exact H2]. lia.
Qed.

Lemma within_bind {A B} n1 n2 (m : ST error (Blockchain (S := S)) A)
    (f : A → ST error (Blockchain (S := S)) B) :
  within n1 m → (∀ a, within n2 (f a)) → within (n1 + n2) (m ≫= f).
Proof.
  intros Hm Hf conf b k HR Hroom. unfold mbind, ST_bind.
  destruct (Hm conf b (n2 + k)%nat HR) as [H1 H2].
  { by replace (n1 + (n2 + k))%nat with (n1 + n2 + k)%nat by lia. }
  destruct (m b) as [[a|e] b1]; simpl in *.
  { destruct (Hf a conf b1 k (reachable_steps conf b b1 HR H1) H2) as [H3 H4]. split; [by etrans|done]. }
  split; [done|]. eapply room_le; [|exact H2]. lia.
Qed.

(** A program that does not change the state. *)
Lemma within_pure {A} n (m : ST error (Blockchain (S := S)) A) :
  (∀ b, (m b).2 = b) → within n m.
Proof. intros Hm conf b k HR Hroom. rewrite Hm. split; [done|]. eapply room_le; [|exact Hroom]. lia. Qed.

Lemma within_ret {A} n (a : A) : within n (mret a).
Proof. by apply within_pure. Qed.
Lemma within_fail {A} n e : within n (st_fail (A := A) e).
Proof. by apply within_pure. Qed.
Lemma within_read {A} n (f : Blockchain (S := S) → result A) : within n (st_read f).
Proof. by apply within_pure. Qed.
Lemma within_get {A} n (f : Blockchain (S := S) → A) : within n (st_get f).
Proof. by apply within_pure. Qed.
Lemma within_res {A} n (r : result A) : within n (st_res (S := Blockchain (S := S)) r).
Proof. by apply within_pure. Qed.

(** One operation of the chain. *)
Lemma within_op {A} o (m : ST error (Blockchain (S := S)) A) :
  world_of_ok o → (∀ b, offered o b = false) → (∀ b, (m b).2 = step o b) → within 1 m.
Proof.
  intros Hw Ho Hm conf b k HR Hroom. rewrite Hm. by apply (room_step k o conf b HR Hw (Ho b)).
Qed.

Lemma within_iter {X} n (f : X → ST error (Blockchain (S := S)) unit) (xs : list X) :
  (∀ x, x ∈ xs → within n (f x)) → within (length xs * n) (st_iter f xs).
Proof.
  induction xs as [|x xs IH]; intros Hf; simpl; [apply within_ret|].
  apply within_bind; [apply Hf; by left|]. intros _. apply IH. intros y Hy. apply Hf. by right.
Qed.

(** A failure that the program drops. *)
Lemma within_state {A B} n (m : ST error (Blockchain (S := S)) A)
    (m' : ST error (Blockchain (S := S)) B) :
  (∀ b, (m' b).2 = (m b).2) → within n m → within n m'.
Proof. intros Heq Hm conf b k HR Hroom. rewrite Heq. exact (Hm conf b k HR Hroom). Qed.

Lemma within_map_err {A} n g (m : ST error (Blockchain (S := S)) A) :
  within n m → within n (st_map_err g m).
Proof.
  apply within_state. intros b. unfold st_map_err. by destruct (m b) as [[?|?] ?].
Qed.
End composition.

(** The operations of the chain, one by one. *)
Create HintDb chain_ops.
#[export] Hint Resolve within_ret within_fail within_read within_get within_res : chain_ops.

Section chain_operations.
Context {FM : FlowModel} {CA : Cadence} {VM : VirtualMachine} {CK : Clocks} {CR : Crypto}
        {SG : Signing} {CP : CadenceParser} {KS : KindString} {GO : GoMapOrder}
        {S : Type} `{!Store S} {OI : OptionalInterfaces S} {SC : StoreCorrect S} {TS : TotalStore S}.

Lemma within_addTransaction tx : within 1 (addTransaction (S := S) tx).
Proof. by apply (within_op (OAddTransaction tx)). Qed.
Lemma within_SendTransaction tx w : world_ok w → within 1 (SendTransaction (S := S) tx w).
Proof. intros. by apply (within_op (OSendTransaction tx w)). Qed.
Lemma within_executeBlock : within 1 (executeBlock (S := S)).
Proof. by apply (within_op OExecuteBlock). Qed.
Lemma within_executeNext : within 1 (Blockchain.ExecuteNextTransaction (S := S)).
Proof. by apply (within_op OExecuteNextTransaction). Qed.
Lemma within_commitBlock w : world_ok w → within 1 (commitBlock (S := S) w).
Proof. intros. by apply (within_op (OCommitBlock w)). Qed.
Lemma within_executeAndCommit w : world_ok w → within 1 (executeAndCommitBlock (S := S) w).
Proof. intros. by apply (within_op (OExecuteAndCommitBlock w)). Qed.
Lemma within_serviceKey : within 1 (currentServiceKey (S := S)).
Proof. by apply (within_op OServiceKey). Qed.
Lemma within_autoMine (on : bool) :
  within 1 (if on then EnableAutoMine (S := S) else DisableAutoMine).
Proof. apply (within_op (OAutoMine on)); [done..|]. intros b. by destruct on. Qed.
Lemma within_script script args id : within 1 (executeScriptAtBlockID (S := S) script args id).
Proof. by apply (within_op (OExecuteScript script args id)). Qed.

Lemma within_deployContract name contract w :
  world_ok w → within 3 (deployContract (S := S) name contract w).
Proof.
  intros Hw. unfold deployContract. apply (within_bind 1 2); [apply within_serviceKey|intros k].
  destruct (negb _); [apply within_fail|].
  apply (within_bind 0 2); [apply within_read|intros blk].
  apply (within_bind 0 2); [apply within_res|intros tx].
  apply (within_bind 1 1); [apply within_addTransaction|intros _].
  apply (within_bind 1 0); [by apply within_executeAndCommit|intros r].
  apply (within_bind 0 0); [apply within_res|intros last].
  destruct (tr_Error last); [apply within_fail|apply within_ret].
Qed.

Lemma within_DeployContracts ds :
  Forall (λ d : ContractDescription * World, world_ok d.2) ds →
  within (length ds * 3) (DeployContracts (S := S) ds).
Proof.
  intros Hw. apply within_iter. intros d Hd. apply within_deployContract.
  by apply (proj1 (list.Forall_forall _ ds) Hw d).
Qed.
End chain_operations.

#[export] Hint Resolve within_addTransaction within_SendTransaction within_executeBlock
  within_executeNext within_commitBlock within_executeAndCommit within_serviceKey within_autoMine
  within_script : chain_ops.

(** * What the operations do to the store *)

Section store_writes.
Context {FM : FlowModel} {CA : Cadence} {VM : VirtualMachine} {CK : Clocks} {CR : Crypto}
        {SG : Signing} {CP : CadenceParser} {KS : KindString} {GO : GoMapOrder}
        {S : Type} `{!Store S} {OI : OptionalInterfaces S}.
Implicit Types b : Blockchain (S := S).

(** A property of the store that its writes keep. *)
Context (P : S → Prop).
Hypothesis (Hwrite : ∀ w, keeps P (apply_write w)).
Let Q b : Prop := P (b_storage b).

Lemma on_storage_keeps {A} (m : ST error S A) : keeps P m → keeps Q (on_storage m).
Proof.
  intros Hm b Hb. unfold on_storage. specialize (Hm (b_storage b) Hb). by destruct (m (b_storage b)).
Qed.

Lemma executeBlock_store : keeps Q (executeBlock (S := S)).
Proof.
  intros b Hb. rewrite executeBlock_state. cbn zeta. destruct (ExecutionComplete _ && _); [done|].
  apply (execute_loop_keeps Q); [by apply executeNextTransaction_keeps|done].
Qed.

Lemma indexCommit_store c : keeps Q (indexCommit (S := S) c).
Proof.
  unfold indexCommit. cbn zeta. apply keeps_bind.
  - apply keeps_iter. intros q _ b Hb. unfold st_map_err.
    pose proof (on_storage_keeps _ (Hwrite (WIndexScheduled q.1 (Block_ID (bc_block c)))) b Hb) as H.
    simpl in H. by destruct (on_storage _ b) as [[?|?] ?].
  - intros _. apply keeps_bind; [apply keeps_get|intros cached]. apply keeps_iter. intros q _.
    destruct (cached !! q.1); [apply keeps_ret|]. intros b Hb. unfold st_map_err.
    pose proof (on_storage_keeps _ (Hwrite (WIndexTx q.1 (Block_ID (bc_block c)))) b Hb) as H.
    simpl in H. by destruct (on_storage _ b) as [[?|?] ?].
Qed.

Lemma commitBlock_store w : keeps Q (commitBlock (S := S) w).
Proof.
  intros b Hb. unfold commitBlock, mbind at 1, ST_bind at 1. simpl.
  destruct (negb _ && _); [done|]. destruct (_ && _); [done|].
  pose proof (q_storage _ _ (prepareCommit_quiet b b (quiet_refl b))) as Hq.
  unfold mbind at 1, ST_bind at 1.
  destruct (prepareCommit (b_pendingBlock b) b) as [[c|e] b1]; simpl in Hq |- *; [|by unfold Q; rewrite Hq].
  assert (Q b1) as Hb1 by (unfold Q; by rewrite Hq). clear Hq Hb. revert b1 Hb1.
  match goal with |- ∀ b1, Q b1 → Q (?m b1).2 => change (keeps Q m) end.
  apply keeps_bind; [apply on_storage_keeps, (Hwrite (WCommit c))|intros _].
  apply keeps_bind; [apply indexCommit_store|intros _].
  apply keeps_bind; [apply keeps_read|intros ledger]. apply keeps_bind; [apply keeps_get|intros clock].
  apply keeps_bind; [by apply keeps_modify|intros _]. apply keeps_ret.
Qed.

Lemma executeAndCommitBlock_store w : keeps Q (executeAndCommitBlock (S := S) w).
Proof.
  unfold executeAndCommitBlock. apply keeps_bind; [apply executeBlock_store|intros rs].
  apply keeps_bind; [apply commitBlock_store|intros blk; apply keeps_ret].
Qed.

Lemma ReloadBlockchain_store w : keeps Q (ReloadBlockchain (S := S) w).
Proof.
  unfold ReloadBlockchain. apply keeps_bind; [apply keeps_get|intros conf].
  apply keeps_bind; [by apply keeps_modify|intros _]. apply keeps_bind; [apply keeps_get|intros e].
  apply keeps_bind.
  { apply on_storage_keeps. intros s Hs. unfold configureLedger.
    destruct (LatestBlock s) as [blk|err].
    - unfold configureExistingLedger. by apply (keeps_bind P); [apply keeps_read|intros; apply keeps_ret|].
    - destruct (is_not_found err); [|done]. unfold configureNewLedger.
      apply (keeps_bind P); [apply keeps_read|intros ledger|done].
      apply keeps_bind; [apply keeps_read|intros run].
      apply keeps_bind; [apply (Hwrite (WCommit _))|intros _].
      apply keeps_bind; [apply keeps_read|intros; apply keeps_ret]. }
  intros latest. apply keeps_bind; [apply keeps_get|intros clock].
  apply keeps_bind; by apply keeps_modify || (intros _; by apply keeps_modify).
Qed.

(** The method of an optional interface that an operation calls. *)
Definition interface_call (o : op) b : option (ST error S unit) :=
  match o with
  | ORollback h _ => (λ rollback, rollback h) <$> as_RollbackProvider (b_storage b)
  | OCreateSnapshot name _ => (λ sp, sp_CreateSnapshot sp name) <$> as_SnapshotProvider (b_storage b)
  | OLoadSnapshot name _ => (λ sp, sp_LoadSnapshot sp name) <$> as_SnapshotProvider (b_storage b)
  | _ => None
  end.

Lemma snapshot_call_store (f : SnapshotProvider S → ST error S unit) w b :
  (∀ sp, as_SnapshotProvider (b_storage b) = Some sp → keeps P (f sp)) → Q b →
  Q ((sp ← st_read snapshotProvider; on_storage (f sp) ;; ReloadBlockchain w) b).2.
Proof.
  intros Hf Hb. unfold mbind at 1, ST_bind at 1, st_read, snapshotProvider.
  destruct (as_SnapshotProvider _) as [sp|]; [|done]. destruct (sp_Supported _ _); [|done].
  apply (keeps_bind Q); [by apply on_storage_keeps, Hf|intros _; apply ReloadBlockchain_store|done].
Qed.

(** Every operation of the chain changes the store by its writes and by the
    methods of the optional interfaces alone. *)
Lemma step_store o b : (∀ m, interface_call o b = Some m → keeps P m) → Q b → Q (step o b).
Proof.
  intros Hm Hb. destruct o as [tx|tx w| | |w|w|w|w|w|c w|on|on|sc args id| |h w|n w|n w]; simpl in *; [clear Hm..| | |].
  - rewrite addTransaction_state. by destruct (admits tx b).
  - unfold SendTransaction. apply (keeps_bind Q); [|intros _|done].
    + intros b' Hb'. rewrite addTransaction_state. by destruct (admits tx b').
    + apply keeps_bind; [apply keeps_get|intros am]. destruct am; [|apply keeps_ret].
      apply keeps_bind; [apply executeAndCommitBlock_store|intros; apply keeps_ret].
  - unfold Blockchain.ExecuteNextTransaction, setFVMContextFromHeader.
    apply (keeps_bind Q); [apply keeps_get|intros h|done].
    apply keeps_bind; [|intros ctx; by apply executeNextTransaction_keeps].
    apply keeps_bind; [by apply keeps_modify|intros _; apply keeps_get].
  - by apply executeBlock_store.
  - by apply commitBlock_store.
  - by apply executeAndCommitBlock_store.
  - unfold ResetPendingBlock. apply (keeps_bind Q); [apply keeps_read|intros blk|done].
    apply keeps_bind; [apply keeps_read|intros led]. apply keeps_bind; [apply keeps_get|intros cl].
    by apply keeps_modify.
  - apply commitBlock_store. by apply executeBlock_store.
  - by apply ReloadBlockchain_store.
  - done.
  - by destruct on.
  - by destruct on.
  - destruct (script_keeps sc args id b b) as [H _]; [done|]. unfold Q. by rewrite H.
  - destruct (currentServiceKey_keeps b b) as [H _]; [done|]. unfold Q. by rewrite H.
  - unfold RollbackToBlockHeight, rollbackProvider, mbind at 1, ST_bind at 1, st_read.
    destruct (as_RollbackProvider _) as [rb|]; [|done].
    apply (keeps_bind Q); [apply on_storage_keeps; by apply Hm|intros _; apply ReloadBlockchain_store|done].
  - apply snapshot_call_store; [|done]. intros sp Hsp. apply Hm. by rewrite Hsp.
  - apply snapshot_call_store; [|done]. intros sp Hsp. apply Hm. by rewrite Hsp.
Qed.
End store_writes.
