(* ===== verification/ChainTheorems.v ===== *)
(** The theorems about every chain that was created and operated on, in the
    terms of the emulator's own queries. *)
From S2P Require Import Prelude FlowTypes Errors Storage Report Convert Pragma Vm PendingBlock.
From S2P Require Import Blockchain Queries BlockchainCorrect Chain.

Section chain_theorems.
Context {FM : FlowModel} {CA : Cadence} {VM : VirtualMachine} {CK : Clocks} {CR : Crypto}
        {SG : Signing} {CP : CadenceParser} {KS : KindString} {GO : GoMapOrder}
        {S : Type} `{!Store S} {OI : OptionalInterfaces S} {SC : StoreCorrect S} {TS : TotalStore S}.
Implicit Types b : Blockchain (S := S).

(** ** The queries on a chain described by a log *)

Lemma inv_refines b l : chain_inv b l → refines (b_storage b) l.
Proof. intros HI. apply store_rel_refines, HI. Qed.

Lemma getBlockByHeight_log b l h :
  chain_inv b l → is_u64 h →
  getBlockByHeight h b = not_found_as (BlockNotFoundByHeightError h) (log_BlockByHeight h l).
Proof. intros HI Hu. unfold getBlockByHeight. by rewrite (ref_BlockByHeight _ _ (inv_refines b l HI)). Qed.

Lemma getBlockByHeight_Ok b l h blk :
  chain_inv b l → is_u64 h → getBlockByHeight h b = Ok blk ↔ log_BlockByHeight h l = Ok blk.
Proof.
  intros HI Hu. rewrite (getBlockByHeight_log b l h HI Hu). unfold not_found_as.
  destruct (log_BlockByHeight h l) as [x|e]; [done|]. by destruct (is_not_found e).
Qed.

Lemma getLatestBlock_log b l : chain_inv b l → getLatestBlock b = log_LatestBlock l.
Proof. intros HI. apply (ref_LatestBlock _ _ (inv_refines b l HI)). Qed.

Lemma GetRegisterValues_log b l ids h :
  chain_inv b l → 0 ≤ h < next_height l →
  GetRegisterValues ids h b = Ok ((λ r, log_Register h r l) <$> ids).
Proof.
  intros HI Hh. unfold GetRegisterValues.
  destruct (ref_LedgerByHeight _ _ (inv_refines b l HI) h Hh) as (snap & -> & Hr). simpl.
  by apply res_map_total.
Qed.

Lemma latest_Block b l prev :
  chain_inv b l → getLatestBlock b = Ok prev → Block_Height prev = next_height l - 1.
Proof. intros HI. rewrite (getLatestBlock_log b l HI). by apply latest_height, HI. Qed.

Lemma genesis_block conf b l es evs :
  chain_inv b (l ++ [WCommit (genesis_commit conf es evs)]) →
  getBlockByHeight 0 b = Ok (Genesis (GetChainID conf)).
Proof.
  intros HI. apply (getBlockByHeight_Ok b _ 0 _ HI); [done|].
  rewrite log_block_stable; [|apply HI|done]. by rewrite log_block_commit.
Qed.

(** A chain described by a log that begins with genesis is a chain of blocks. *)
Lemma inv_well_formed conf b l es evs :
  chain_inv b (l ++ [WCommit (genesis_commit conf es evs)]) →
  ∃ latest, getLatestBlock b = Ok latest ∧
    getBlockByHeight 0 b = Ok (Genesis (GetChainID conf)) ∧
    (∀ h, is_u64 h → is_Ok (getBlockByHeight h b) = true ↔ h ≤ Block_Height latest) ∧
    (∀ h blk, is_u64 h → 0 < h → getBlockByHeight h b = Ok blk →
       Block_Height blk = h ∧
       ∃ parent, getBlockByHeight (h - 1) b = Ok parent ∧ follows parent blk) ∧
    extends latest (b_pendingBlock b).
Proof.
  intros HI. destruct (ci_latest b _ HI) as (latest & Hlat & Hext). exists latest.
  pose proof (ci_log b _ HI) as Hok. pose proof (latest_height _ latest Hok Hlat) as Hh.
  rewrite (getLatestBlock_log b _ HI). split; [done|]. split; [|split; [|split; [|done]]].
  - by eapply genesis_block.
  - intros h Hu. rewrite Hh.
    rewrite (getBlockByHeight_log b _ h HI Hu). pose proof (log_block_dom _ h Hok) as Hd.
    destruct Hu as [Hu _]. unfold not_found_as.
    destruct (log_BlockByHeight h _) as [blk|e]; [|destruct (is_not_found e)].
    + simpl. split; [intros _|done]. destruct Hd as [Hd _]. specialize (Hd eq_refl). lia.
    + simpl in *. split; [done|]. intros. apply Hd. lia.
    + simpl in *. split; [done|]. intros. apply Hd. lia.
  - intros h blk Hu H0 Hb%(getBlockByHeight_Ok b _ h blk HI Hu).
    split; [by eapply log_block_height|].
    destruct (ci_linked b _ HI h blk H0 Hb) as (par & Hp & Hf). exists par. split; [|done].
    apply (getBlockByHeight_Ok b _ (h - 1) _ HI); [|done]. unfold is_u64 in *. lia.
Qed.

(** C17 (type): the pending block of a chain is well formed whatever was done to
    it: its list of transactions has no duplicates and names exactly those of its
    map, each under its own ID; the index stays within the list and the list
    within 32 bits; only transactions before the index have results; and while
    the execution is not complete there is a next transaction, without a result.
    (On a store whose writes succeed.) *)
Theorem pending_block_well_formed conf b :
  reachable conf b →
  let p := b_pendingBlock b in
  NoDup (pb_transactionIDs p) ∧
  (∀ id, ContainsTransaction id p = true ↔ id ∈ pb_transactionIDs p) ∧
  (∀ id tx, pending_GetTransaction id p = Some tx → Transaction_ID tx = id) ∧
  0 ≤ pb_index p ≤ Size p ∧ is_u32 (Size p) ∧
  (∀ id, is_Some (pb_transactionResults p !! id) →
     ∃ i, pb_transactionIDs p !! i = Some id ∧ Z.of_nat i < pb_index p) ∧
  (ExecutionComplete p = false →
     ∃ tx, NextTransaction p = Some tx ∧ ContainsTransaction (Transaction_ID tx) p = true ∧
           pb_transactionResults p !! Transaction_ID tx = None).
Proof.
  intros (l & es & evs & HI)%reachable_inv p. pose proof (ci_pending b _ HI) as Hok. fold p in Hok.
  pose proof (ok_size p Hok) as Hs. pose proof (ok_index p Hok) as Hi.
  assert (∀ id, is_Some (pb_transactionResults p !! id) →
    ∃ i, pb_transactionIDs p !! i = Some id ∧ Z.of_nat i < pb_index p) as Hres.
  { intros id (i & Hl)%(ok_results p Hok)%list_elem_of_lookup. exists i.
    apply lookup_take_Some in Hl as [Hl Hlt]. split; [done|lia]. }
  split_and!; try lia; [apply Hok|intros id; by apply contains_iff|apply (ok_id p Hok)
    |unfold is_u32, Size in *; lia|exact Hres|].
  intros Hc. assert (pb_index p < Size p) as Hlt.
  { destruct (decide (pb_index p = Size p)) as [He|]; [|lia].
    apply (complete_iff p Hok) in He. congruence. }
  destruct (NextTransaction_Some p Hok Hlt) as (tx & Htx & Hid). exists tx. split; [done|]. split.
  { apply contains_iff; [done|]. by eapply list_elem_of_lookup_2. }
  apply eq_None_not_Some. intros (i & Hl & Hlti)%Hres.
  pose proof (NoDup_lookup _ _ _ _ (ok_NoDup p Hok) Hid Hl). lia.
Qed.

(** What is committed stays: a longer log says the same of the heights of the
    shorter one. *)
Lemma inv_history b l b' ws latest :
  chain_inv b l → chain_inv b' (ws ++ l) → getLatestBlock b = Ok latest →
  (∀ h ty ids, 0 ≤ h ≤ Block_Height latest →
     getBlockByHeight h b' = getBlockByHeight h b ∧
     GetEventsByHeight h ty b' = GetEventsByHeight h ty b ∧
     GetRegisterValues ids h b' = GetRegisterValues ids h b) ∧
  ∃ latest', getLatestBlock b' = Ok latest' ∧ Block_Height latest ≤ Block_Height latest'.
Proof.
  intros HI HI' Hlat.
  pose proof (latest_Block b l latest HI Hlat) as Hh. pose proof (ci_log b' _ HI') as Hok'.
  pose proof (next_height_le l (ci_log b l HI)) as Hle.
  assert (next_height l ≤ next_height (ws ++ l)) as Hmono by (by apply next_height_app).
  split.
  - intros h ty ids Hb. assert (is_u64 h) as Hu by (unfold is_u64; lia).
    rewrite (getBlockByHeight_log b' _ h HI' Hu), (getBlockByHeight_log b _ h HI Hu).
    rewrite (GetRegisterValues_log b' _ ids h HI'), (GetRegisterValues_log b _ ids h HI) by lia.
    unfold GetEventsByHeight. rewrite (ref_EventsByHeight _ _ (inv_refines b' _ HI')) by done.
    rewrite (ref_EventsByHeight _ _ (inv_refines b _ HI)) by done.
    rewrite log_block_stable, log_events_stable by (done || lia). split; [done|]. split; [done|].
    f_equal. apply list_fmap_ext. intros _ r _. apply log_register_stable_app; [done|lia].
  - destruct (ci_latest b' _ HI') as (latest' & Hl' & _). exists latest'.
    rewrite (getLatestBlock_log b' _ HI'). split; [done|].
    rewrite Hh, (latest_height _ latest' Hok' Hl'). lia.
Qed.

Lemma steps_keep_history conf b b' latest :
  reachable conf b → rtc chain_step b b' → getLatestBlock b = Ok latest →
  (∀ h ty ids, 0 ≤ h ≤ Block_Height latest →
     getBlockByHeight h b' = getBlockByHeight h b ∧
     GetEventsByHeight h ty b' = GetEventsByHeight h ty b ∧
     GetRegisterValues ids h b' = GetRegisterValues ids h b) ∧
  ∃ latest', getLatestBlock b' = Ok latest' ∧ Block_Height latest ≤ Block_Height latest'.
Proof.
  intros (l & es & evs & HI)%reachable_inv Hs Hlat. destruct (steps_inv b b' _ Hs HI) as [ws HI'].
  by eapply inv_history.
Qed.

(** ** Transactions *)

(** C7 (addTransaction): a transaction is accepted exactly when the execution of
    the pending block has not started, the transaction is neither in the pending
    block nor in a committed one, and the validator accepts it; it is then the
    last transaction of the pending block and its status is pending.  When it is
    refused the chain is left as it was.
    (On a store whose writes succeed.) *)
Theorem addTransaction_accepts conf tx b :
  reachable conf b →
  (is_Ok (addTransaction tx b).1 = true ↔
     pb_index (b_pendingBlock b) = 0 ∧
     Transaction_ID tx ∉ pb_transactionIDs (b_pendingBlock b) ∧
     TransactionByID (Transaction_ID tx) (b_storage b) = Err ErrNotFound ∧
     is_Ok (validator_Validate (b_transactionValidator b) (GetChainID (b_conf b))
              (blocks_view (b_storage b)) tx) = true) ∧
  (is_Ok (addTransaction tx b).1 = true →
     pb_transactionIDs (b_pendingBlock (addTransaction tx b).2) =
       pb_transactionIDs (b_pendingBlock b) ++ [Transaction_ID tx] ∧
     getTransaction (Transaction_ID tx) (addTransaction tx b).2 = Ok tx ∧
     getTransactionResult (Transaction_ID tx) (addTransaction tx b).2 =
       Ok (status_result StatusPending)) ∧
  (is_Ok (addTransaction tx b).1 = false → (addTransaction tx b).2 = b).
Proof.
  intros (l0 & es & evs & HI)%reachable_inv. pose proof (ci_pending b _ HI) as Hok.
  split; [|split].
  - rewrite addTransaction_state. unfold admits, ExecutionStarted.
    pose proof (ok_index _ Hok) as Hidx.
    pose proof (contains_iff _ (Transaction_ID tx) Hok) as Hci.
    rewrite (ref_TransactionByID _ _ (inv_refines b _ HI)).
    case_bool_decide as Hst; [simpl; split; [done|lia]|].
    destruct (ContainsTransaction _ _); simpl; [split; [done|]; intros (_ & Hn & _); by destruct Hn; apply Hci|].
    unfold log_TransactionByID. destruct (newest _ _); simpl; [by split; [|intros (_ & _ & ? & _)]|].
    destruct (validator_Validate _ _ _ _); simpl; [|by split; [|intros (_ & _ & _ & ?)]].
    split; [|done]. intros _. split; [lia|]. split; [|done]. intros Hin. by apply Hci in Hin.
  - rewrite addTransaction_state. destruct (admits tx b); [|done]. simpl. intros _. split; [done|].
    unfold getTransaction, getTransactionResult, pending_GetTransaction, ContainsTransaction. simpl.
    by rewrite lookup_insert_eq.
  - rewrite addTransaction_state. by destruct (admits tx b).
Qed.

(** A transaction that was accepted is not accepted again, whatever is done to
    the chain after that, as long as the pending block is not reset: it is
    refused as a duplicate, or because a block is being executed. *)
Theorem accepted_once conf tx b b1 b2 :
  reachable conf b → Size (b_pendingBlock b) + 1 < two32 →
  addTransaction tx b = (Ok (), b1) → rtc keep_step b1 b2 →
  ∃ e, addTransaction tx b2 = (Err e, b2) ∧
    (e = DuplicateTransactionError (Transaction_ID tx) ∨
     e = PendingBlockMidExecutionError (pending_ID (b_pendingBlock b2))).
Proof.
  intros (l0 & es & evs & HI)%reachable_inv Hs Hadd Hk.
  pose proof (addTransaction_inv tx b _ HI Hs) as HI1. rewrite Hadd in HI1. simpl in HI1.
  destruct (keep_steps_advances b1 b2 _ Hk HI1) as (ws & HI2 & Hknown).
  specialize (Hknown (Transaction_ID tx)).
  assert (known (Transaction_ID tx) b1 (l0 ++ [WCommit (genesis_commit conf es evs)])) as Hk1.
  { left. rewrite addTransaction_state in Hadd. destruct (admits tx b); [|done].
    injection Hadd as <-. simpl. apply elem_of_app. right. by apply list_elem_of_singleton. }
  specialize (Hknown Hk1). rewrite addTransaction_state. unfold admits.
  destruct (ExecutionStarted _); [by eexists; split; [|right]|].
  pose proof (contains_iff _ (Transaction_ID tx) (ci_pending b2 _ HI2)) as Hci.
  destruct (ContainsTransaction _ _); [by eexists; split; [|left]|].
  rewrite (ref_TransactionByID _ _ (inv_refines b2 _ HI2)).
  destruct Hknown as [Hin|Hin]; [by apply Hci in Hin|].
  destruct (log_TransactionByID _ _); [|done]. by eexists; split; [|left].
Qed.

(** C6: in the history of a chain no user transaction is twice: not in two blocks,
    not twice in a block, and not both in a block and in the pending block.
    (On a store whose writes succeed.) *)
Theorem transactions_committed_once conf b :
  reachable conf b →
  ∃ l, store_rel (b_storage b) l ∧ log_ok l ∧
       NoDup (pb_transactionIDs (b_pendingBlock b) ++ user_ids l).
Proof.
  intros (l0 & es & evs & HI)%reachable_inv. eexists. split; [apply HI|]. split; [apply HI|].
  destruct (ci_once b _ HI) as (Hnd & Hkn & _).
  apply list.NoDup_app. split; [apply HI|]. split; [|done].
  intros id Hin Hu%Hkn. by rewrite (ci_fresh b _ HI id Hin) in Hu.
Qed.

(** ** Execution *)

(** C16 (executeBlock): the loop over the transactions of the pending block ends
    by itself: any bound of at least their number gives the same outcome as the
    bound of the definition; and a block whose transactions are all executed is
    refused.
    (On a store whose writes succeed.) *)
Theorem executeBlock_terminates conf b fuel :
  reachable conf b → (length (pb_transactionIDs (b_pendingBlock b)) ≤ fuel)%nat →
  executeBlock b =
  if negb (Empty (b_pendingBlock b)) && bool_decide (pb_index (b_pendingBlock b) = Size (b_pendingBlock b))
  then (Err (PendingBlockTransactionsExhaustedError (pending_ID (b_pendingBlock b))),
        set_vmCtx (block_context b) b)
  else execute_loop fuel (block_context b) [] (set_vmCtx (block_context b) b).
Proof.
  intros (l0 & es & evs & HI)%reachable_inv Hf. pose proof (ci_pending b _ HI) as Hok.
  rewrite executeBlock_state. cbn zeta. rewrite andb_comm.
  pose proof (complete_iff _ Hok) as Hiff.
  assert (ExecutionComplete (b_pendingBlock b)
          = bool_decide (pb_index (b_pendingBlock b) = Size (b_pendingBlock b))) as ->.
  { apply eq_bool_prop_intro. rewrite bool_decide_spec, Is_true_true. done. }
  destruct (negb _ && _); [done|]. pose proof (ok_index _ Hok).
  apply execute_loop_fuel; [done|unfold remaining, Size; simpl; lia..].
Qed.

(** (executeBlock): when it returns, the transactions that were left have been
    run, one result for each of them in the order they were added, the block is
    executed completely; the store, the header and the transactions of the
    block are as before, with or without an error. *)
Theorem executeBlock_runs_remaining conf b :
  reachable conf b →
  b_storage (executeBlock b).2 = b_storage b ∧
  pending_Block (b_pendingBlock (executeBlock b).2) = pending_Block (b_pendingBlock b) ∧
  pb_transactionIDs (b_pendingBlock (executeBlock b).2) = pb_transactionIDs (b_pendingBlock b) ∧
  ∀ rs, (executeBlock b).1 = Ok rs →
    ExecutionComplete (b_pendingBlock (executeBlock b).2) = true ∧
    tr_TransactionID <$> rs =
      drop (Z.to_nat (pb_index (b_pendingBlock b))) (pb_transactionIDs (b_pendingBlock b)).
Proof.
  intros (l0 & es & evs & HI)%reachable_inv.
  destruct (executeBlock_props b (ci_pending b _ HI)) as (H1 & H2 & _ & H4).
  split; [done|]. split; [by apply same_block_Block|]. split; [by apply sb_transactionIDs|].
  intros rs Hrs. destruct (H4 rs Hrs) as (? & _ & ?). done.
Qed.

(** ** Committing *)

(** With as many results as transactions, every transaction has its result. *)
Lemma all_have_results (p : pendingBlock) id :
  pb_ok p → size (pb_transactions p) = size (pb_transactionResults p) →
  id ∈ pb_transactionIDs p → is_Some (pb_transactionResults p !! id).
Proof.
  intros Hok Hs Hin.
  assert (dom (pb_transactionResults p) = dom (pb_transactions p)) as Hd.
  { apply set_subseteq_size_eq; [|rewrite !size_dom; lia].
    intros i Hi%elem_of_dom. apply elem_of_dom. apply (ok_dom p Hok).
    apply (ok_results p Hok) in Hi. apply elem_of_take in Hi as (n & Hn & _). by eapply list_elem_of_lookup_2. }
  apply elem_of_dom. rewrite Hd. apply elem_of_dom. by apply (ok_dom p Hok).
Qed.

Lemma prepared_results p c id :
  pb_ok p → prepared p c → counts_match c → id ∈ pb_transactionIDs p →
  ∃ r, pb_transactionResults p !! id = Some r ∧
       bc_transactionResults c !! id = Some (sealed r (pending_ID p) (pb_height p) (collection_id p)).
Proof.
  intros Hok Hp [Hc _] Hin. rewrite (prep_transactions _ _ Hp), (prep_results _ _ Hp), map_size_fmap in Hc.
  destruct (all_have_results p id Hok Hc Hin) as [r Hr]. exists r. split; [done|].
  by rewrite (prep_results _ _ Hp), lookup_fmap, Hr.
Qed.

(** A pending block with transactions that were not run cannot
    be committed: the commit is refused with the error for a block whose
    execution has not started, or is not complete, and nothing changes. *)
Theorem unexecuted_block_refused conf w b :
  reachable conf b → pb_index (b_pendingBlock b) < Size (b_pendingBlock b) →
  commitBlock w b =
  (Err (if bool_decide (pb_index (b_pendingBlock b) = 0)
        then PendingBlockCommitBeforeExecutionError (pending_ID (b_pendingBlock b))
        else PendingBlockMidExecutionError (pending_ID (b_pendingBlock b))), b).
Proof.
  intros (l0 & es & evs & HI)%reachable_inv Hlt. pose proof (ci_pending b _ HI) as Hok.
  apply commitBlock_guard. unfold commit_guard. pose proof (ok_index _ Hok).
  assert (Empty (b_pendingBlock b) = false) as -> by (apply bool_decide_eq_false; lia).
  assert (ExecutionComplete (b_pendingBlock b) = false) as ->.
  { destruct (ExecutionComplete _) eqn:Hc; [|done]. apply complete_iff in Hc; [lia|done]. }
  unfold ExecutionStarted. case_bool_decide; case_bool_decide; try lia; done.
Qed.

(** A successful commit, in the terms of the queries. *)
Lemma commit_success b l c b' latest :
  chain_inv b l → next_height l < two64 → committed_as b l c b' → getLatestBlock b = Ok latest →
  let blk := pending_Block (b_pendingBlock b) in
  Block_Height blk = Block_Height latest + 1 ∧
  follows latest blk ∧ getLatestBlock b' = Ok blk ∧
  getBlockByHeight (Block_Height blk) b' = Ok blk ∧ getBlockByID (Block_ID blk) b' = Ok blk ∧
  extends blk (b_pendingBlock b') ∧ Size (b_pendingBlock b') = 0 ∧ b_entropy b' = Block_ID blk.
Proof.
  intros HI Hn Hca Hlat blk. pose proof (latest_Block b l latest HI Hlat) as Hh.
  pose proof (ca_prepared _ _ _ _ Hca) as Hp.
  assert (bc_block c = blk) as Hblk by apply (prep_block _ _ Hp).
  assert (Block_Height blk = Block_Height latest + 1) as Hbh.
  { etrans; [exact (pending_height b l HI ltac:(lia))|lia]. }
  assert (is_u64 (Block_Height blk)) as Hu.
  { pose proof (next_height_nonneg l (ci_log b l HI)). unfold is_u64. lia. }
  assert (∀ h, log_BlockByHeight h (commit_log c (b_systemTransactions b) l) =
               if decide (Block_Height blk = h) then Ok blk else log_BlockByHeight h l) as Hb.
  { intros h. unfold commit_log. rewrite log_block_index by apply Hca. by rewrite log_block_commit, <- Hblk. }
  pose proof (ca_inv _ _ _ _ Hca) as HI'.
  assert (getLatestBlock b' = Ok blk) as Hl'.
  { rewrite (getLatestBlock_log b' _ HI'). unfold commit_log. rewrite log_latest_index by apply Hca.
    by rewrite log_latest_commit, Hblk. }
  split; [done|]. split.
  { destruct (ci_latest b l HI) as (prev & Hprev & [_ Hpar Hview]).
    rewrite (getLatestBlock_log b l HI), Hprev in Hlat. injection Hlat as ->. by split. }
  split; [done|]. split; [|split; [|split; [|split]]].
  - apply (getBlockByHeight_Ok b' _ _ _ HI' Hu). by rewrite Hb, decide_True.
  - unfold getBlockByID. rewrite (ref_BlockByID _ _ (inv_refines b' _ HI')). unfold log_BlockByID.
    assert (newest (on_commit (c_blockID (Block_ID blk))) (commit_log c (b_systemTransactions b) l)
            = Some (Block_Height blk)) as ->.
    { unfold commit_log. rewrite newest_index by apply Hca. simpl. unfold c_blockID.
      by rewrite decide_True, <- Hblk by (by rewrite Hblk). }
    simpl. by rewrite Hb, decide_True.
  - destruct (ci_latest b' _ HI') as (prev & Hprev & He).
    rewrite (getLatestBlock_log b' _ HI'), Hprev in Hl'. by injection Hl' as ->.
  - by destruct (ca_pending _ _ _ _ Hca) as (? & ? & ? & -> & _).
  - by rewrite (ca_entropy _ _ _ _ Hca), Hblk.
Qed.

(** The results of a committed block, read back. *)
Lemma committed_result b b' l c id :
  chain_inv b l → committed_as b l c b' → id ∈ pb_transactionIDs (b_pendingBlock b) →
  ∃ r, pb_transactionResults (b_pendingBlock b) !! id = Some r ∧
    getTransactionResult id b' =
    Ok (sealed_result id (sealed r (pending_ID (b_pendingBlock b)) (pb_height (b_pendingBlock b))
                            (collection_id (b_pendingBlock b)))).
Proof.
  intros HI Hca Hid.
  destruct (prepared_results _ c id (ci_pending b l HI) (ca_prepared _ _ _ _ Hca) (ca_counts _ _ _ _ Hca) Hid)
    as (r & Hr & Hcr).
  exists r. split; [done|].
  unfold getTransactionResult. destruct (ca_pending _ _ _ _ Hca) as (? & ? & ? & -> & _).
  unfold ContainsTransaction. simpl. rewrite lookup_empty.
  rewrite (ref_TransactionResultByID _ _ (inv_refines b' _ (ca_inv _ _ _ _ Hca))).
  unfold log_TransactionResultByID, commit_log. rewrite newest_index by apply Hca. simpl.
  unfold c_result. by rewrite Hcr.
Qed.

End chain_theorems.
