(* ===== verification/Recovery.v ===== *)
(** A run that fails inside the virtual machine, and the way out.

    [ExecuteNextTransaction] advances the index of the pending block before the
    run, so that a run that fails leaves a transaction without a result.  Such a
    block cannot be committed any more; [ResetPendingBlock] replaces it. *)
From S2P Require Import Prelude FlowTypes Errors Storage Report Convert Pragma Vm PendingBlock.
From S2P Require Import Blockchain Queries BlockchainCorrect Chain ChainTheorems.

Section recovery.
Context {FM : FlowModel} {CA : Cadence} {VM : VirtualMachine} {CK : Clocks} {CR : Crypto}
        {SG : Signing} {CP : CadenceParser} {KS : KindString} {GO : GoMapOrder}
        {S : Type} `{!Store S} {OI : OptionalInterfaces S} {SC : StoreCorrect S} {TS : TotalStore S}.
Implicit Types b : Blockchain (S := S).

(** The store is [s0], and the transaction [id] of the pending block, which the
    index has passed, has no result. *)
Record stuck (s0 : S) (id : Identifier) b : Prop := {
  stuck_store : b_storage b = s0;
  stuck_ok : pb_ok (b_pendingBlock b);
  stuck_at : id ∈ take (Z.to_nat (pb_index (b_pendingBlock b))) (pb_transactionIDs (b_pendingBlock b));
  stuck_none : pb_transactionResults (b_pendingBlock b) !! id = None
}.

Lemma stuck_started s0 id b : stuck s0 id b → ExecutionStarted (b_pendingBlock b) = true.
Proof.
  intros [_ Hok Hat _]. apply bool_decide_eq_true. pose proof (ok_index _ Hok).
  destruct (decide (pb_index (b_pendingBlock b) = 0)) as [H0|]; [|lia].
  rewrite H0 in Hat. by apply not_elem_of_nil in Hat.
Qed.

(** A run of the next transaction sets the result of that one only. *)
Lemma pending_run_results ctx e bl (p : pendingBlock) id :
  pb_ok p → pb_index p < Size p → id ∈ take (Z.to_nat (pb_index p)) (pb_transactionIDs p) →
  pb_transactionResults (PendingBlock.ExecuteNextTransaction ctx e bl p).2 !! id
  = pb_transactionResults p !! id.
Proof.
  intros Hok Hi (n & Hn & Hlt)%elem_of_take.
  destruct (ExecuteNextTransaction_cases ctx e bl p Hok Hi) as (tx & Htx & ->).
  destruct (NextTransaction_Some p Hok Hi) as (tx' & Htx' & Hid).
  rewrite Htx in Htx'. injection Htx' as <-.
  destruct (vm_Run _ _ _ _ _) as [[es out]|err]; [|done].
  destruct (es_Merge es (pb_ledgerState p)) as [[[]|err] st]; [|done]. simpl.
  rewrite lookup_insert_ne; [done|]. intros <-.
  pose proof (NoDup_lookup _ _ _ _ (ok_NoDup p Hok) Hn Hid). lia.
Qed.

Lemma executeNextTransaction_stuck s0 id ctx : keeps (stuck s0 id) (executeNextTransaction ctx).
Proof.
  intros b Hst. pose proof (stuck_ok _ _ _ Hst) as Hok.
  destruct (ExecutionComplete (b_pendingBlock b)) eqn:Hc;
    [by rewrite executeNextTransaction_complete|].
  destruct (executeNextTransaction_state ctx b Hc Hok) as (Hs & Hp).
  destruct (executeNextTransaction_step ctx b Hok Hc) as [[_ Hsame Hok' Hidx] _].
  pose proof (not_complete b Hok Hc) as Hi. destruct Hst as [H1 _ Hat Hnone].
  split; [congruence|done| |].
  - rewrite (sb_transactionIDs _ _ Hsame). pose proof (ok_index _ Hok).
    apply elem_of_take in Hat as (n & Hn & Hlt). apply elem_of_take. exists n. split; [done|lia].
  - destruct Hp as [[-> _]|[-> _]]; [by rewrite pending_run_results|done].
Qed.

Lemma stuck_ext s0 id b b' :
  b_storage b' = b_storage b → b_pendingBlock b' = b_pendingBlock b → stuck s0 id b → stuck s0 id b'.
Proof. intros Hs Hp []. split; rewrite ?Hs, ?Hp; done. Qed.

Lemma executeBlock_stuck s0 id : keeps (stuck s0 id) (executeBlock (S := S)).
Proof.
  intros b Hst. rewrite executeBlock_state. cbn zeta.
  destruct (ExecutionComplete _ && _); [by apply (stuck_ext s0 id b)|].
  apply execute_loop_keeps; [apply executeNextTransaction_stuck|]. by apply (stuck_ext s0 id b).
Qed.

(** The commit of a stuck block fails: the counts do not match. *)
Lemma commitBlock_stuck s0 id w b l :
  chain_inv b l → next_height l < two64 → world_ok w → stuck s0 id b →
  (∃ e, (commitBlock w b).1 = Err e) ∧ stuck s0 id (commitBlock w b).2.
Proof.
  intros HI Hn Hw Hst. destruct (commitBlock_cases w b l HI Hn Hw)
    as [(e & b' & -> & Hq)|(c & b' & -> & Hca)]; simpl.
  - split; [by exists e|]. destruct Hst as [H1 H2 H3 H4].
    split; rewrite ?(q_storage _ _ Hq), ?(q_index _ _ Hq), ?(q_results _ _ Hq); try done.
    + by apply (quiet_ok _ _ Hq).
    + by rewrite (sb_transactionIDs _ _ (q_same _ _ Hq)).
  - exfalso. destruct Hst as [_ Hok Hat Hnone]. apply elem_of_take in Hat as (n & Hat & _).
    destruct (prepared_results _ c id Hok (ca_prepared _ _ _ _ Hca) (ca_counts _ _ _ _ Hca))
      as (r & Hr & _); [by eapply list_elem_of_lookup_2|]. congruence.
Qed.

Lemma executeAndCommitBlock_stuck s0 id w b l :
  chain_inv b l → next_height l < two64 → world_ok w → stuck s0 id b →
  stuck s0 id (executeAndCommitBlock w b).2.
Proof.
  intros HI Hn Hw Hst. pose proof (executeBlock_inv b l HI) as HI1.
  pose proof (executeBlock_stuck s0 id b Hst) as Hst1.
  unfold executeAndCommitBlock, mbind at 1, ST_bind at 1.
  destruct (executeBlock b) as [[rs|e] b1]; simpl in HI1, Hst1 |- *; [|done].
  destruct (commitBlock_stuck s0 id w b1 l HI1 Hn Hw Hst1) as [_ Hst2].
  unfold mbind, ST_bind. by destruct (commitBlock w b1) as [[blk|e] b2].
Qed.

Lemma addTransaction_stuck s0 id tx b : stuck s0 id b → addTransaction tx b = ((addTransaction tx b).1, b) ∧ is_Ok (addTransaction tx b).1 = false.
Proof.
  intros Hst. rewrite addTransaction_state. unfold admits. by rewrite (stuck_started s0 id b Hst).
Qed.

(** No operation but a reset gets a stuck block unstuck. *)
Lemma step_stuck s0 id o b l :
  chain_inv b l → op_ok o b → resets o = false → stuck s0 id b → stuck s0 id (step o b).
Proof.
  intros HI Hop Hr Hst. pose proof (op_ok_height o b l HI Hop) as Hn. destruct Hop as (_ & _ & Hw & Hoff).
  destruct (optional o) eqn:Hopt; [by rewrite (not_offered o b Hopt Hoff)|].
  destruct o as [tx|tx w| | |w|w|w|w|w|c w|on|on|sc args i| | | |]; try done; simpl in Hw |- *.
  - by destruct (addTransaction_stuck s0 id tx b Hst) as [-> _].
  - destruct (addTransaction_stuck s0 id tx b Hst) as [Ha Hf].
    unfold SendTransaction, mbind at 1, ST_bind at 1. rewrite Ha.
    by destruct (addTransaction tx b).1.
  - apply (executeNextTransaction_stuck s0 id _ (set_vmCtx _ b)). by apply (stuck_ext s0 id b).
  - by apply executeBlock_stuck.
  - by eapply commitBlock_stuck.
  - by eapply executeAndCommitBlock_stuck.
  - eapply commitBlock_stuck; [by apply executeBlock_inv|done|done|by apply executeBlock_stuck].
  - destruct Hst as [H1 [? ? ? ? ? ?] H3 H4]. by split.
  - destruct on; by apply (stuck_ext s0 id b).
  - destruct on; by apply (stuck_ext s0 id b).
  - destruct (script_keeps sc args i b b) as [H1 H2]; [done|]. by apply (stuck_ext s0 id b).
  - destruct (currentServiceKey_keeps b b) as [H1 H2]; [done|]. by apply (stuck_ext s0 id b).
Qed.

Lemma keep_steps_stuck s0 id b b' l :
  rtc keep_step b b' → chain_inv b l → stuck s0 id b → stuck s0 id b'.
Proof.
  intros Hs. revert l. induction Hs as [|b b1 b2 (o & Hr & Hop & ->) _ IH]; intros l HI Hst; [done|].
  destruct (step_inv o b l HI Hop) as [ws HI1]. apply (IH _ HI1). by eapply step_stuck.
Qed.

Lemma failed_run_state b tx err :
  pb_ok (b_pendingBlock b) → pb_index (b_pendingBlock b) < Size (b_pendingBlock b) →
  NextTransaction (b_pendingBlock b) = Some tx →
  pauses (string_of_bytes (tx_Script tx)) b = false →
  vm_Run (block_context b) (b_entropy b) (blocks_view (b_storage b))
    (fvm_Transaction tx (pb_index (b_pendingBlock b)))
    (es_Get (pb_ledgerState (b_pendingBlock b))) = Err err →
  (ExecuteNextTransaction b).1 = Err err ∧
  stuck (b_storage b) (Transaction_ID tx) (ExecuteNextTransaction b).2.
Proof.
  intros Hok Hi Htx Hpa Hrun. set (b0 := set_vmCtx (block_context b) b).
  change (ExecuteNextTransaction b) with (executeNextTransaction (block_context b) b0).
  assert (ExecutionComplete (b_pendingBlock b0) = false) as Hc.
  { destruct (ExecutionComplete _) eqn:Hc; [|done]. apply complete_iff in Hc; [simpl in Hc; lia|done]. }
  destruct (ExecuteNextTransaction_cases (block_context b) (b_entropy b) (blocks_view (b_storage b))
              (b_pendingBlock b) Hok Hi) as (tx' & Htx' & Hcase).
  rewrite Htx in Htx'. injection Htx' as <-. cbn zeta in Hcase. rewrite Hrun in Hcase.
  destruct (NextTransaction_Some _ Hok Hi) as (tx' & Htx' & Hid). rewrite Htx in Htx'. injection Htx' as <-.
  assert (∃ b1, executeNextTransaction (block_context b) b0 = (Err err, b1) ∧ b_storage b1 = b_storage b ∧
            b_pendingBlock b1 = set_index (pb_index (b_pendingBlock b) +32 1) (b_pendingBlock b))
    as (b1 & -> & Hs & Hp).
  { eexists. split.
    - unfold executeNextTransaction. erewrite ST_bind_step by reflexivity. rewrite Hc.
      erewrite ST_bind_step by (unfold st_res; simpl; by rewrite Htx). cbn zeta.
      erewrite ST_bind_step by (rewrite start_run_cases; cbn zeta;
        change (pauses _ b0) with (pauses (string_of_bytes (tx_Script tx)) b); by rewrite Hpa).
      erewrite ST_bind_step by reflexivity. erewrite ST_bind_step by reflexivity.
      erewrite ST_bind_fail by (apply on_pending_run; exact Hcase). reflexivity.
    - done. }
  destruct (ExecuteNextTransaction_ok (block_context b) (b_entropy b) (blocks_view (b_storage b))
              (b_pendingBlock b) Hok Hi) as (Hok' & _ & Hidx & _).
  rewrite Hcase in Hok', Hidx. simpl in Hok', Hidx.
  split; [done|]. simpl. pose proof (ok_index _ Hok). split; rewrite ?Hp; [done|done| |].
  - rewrite Hidx. simpl. apply elem_of_take.
    exists (Z.to_nat (pb_index (b_pendingBlock b))). split; [done|lia].
  - simpl. apply eq_None_not_Some. intros Hsome%(ok_results _ Hok).
    apply elem_of_take in Hsome as (n & Hn & Hlt).
    pose proof (NoDup_lookup _ _ _ _ (ok_NoDup _ Hok) Hn Hid). lia.
Qed.

(** C18 (ExecuteNextTransaction, commitBlock): a run that the virtual machine
    itself fails (as opposed to a transaction that is reverted) is returned as
    an error, and from then on no operation but a reset of the pending block
    commits anything: whatever else is done, the store stays as it was, and
    every commit fails.  (The run starts: no debugging session is active, or the
    code does not ask for the debugger.)
    (On a store whose writes succeed.) *)
Theorem failed_run_blocks_commit conf b tx err b2 :
  reachable conf b → pb_index (b_pendingBlock b) < Size (b_pendingBlock b) →
  op_ok OExecuteNextTransaction b →
  NextTransaction (b_pendingBlock b) = Some tx →
  pauses (string_of_bytes (tx_Script tx)) b = false →
  vm_Run (block_context b) (b_entropy b) (blocks_view (b_storage b))
    (fvm_Transaction tx (pb_index (b_pendingBlock b)))
    (es_Get (pb_ledgerState (b_pendingBlock b))) = Err err →
  rtc keep_step (ExecuteNextTransaction b).2 b2 →
  (ExecuteNextTransaction b).1 = Err err ∧ b_storage b2 = b_storage b ∧
  ∀ w, op_ok (OCommitBlock w) b2 → ∃ e, (commitBlock w b2).1 = Err e.
Proof.
  intros (l0 & es & evs & HI)%reachable_inv Hi Hop Htx Hpa Hrun Hs.
  destruct (failed_run_state b tx err (ci_pending b _ HI) Hi Htx Hpa Hrun) as [He Hst].
  destruct (step_inv OExecuteNextTransaction b _ HI Hop) as [ws HI1]. simpl in HI1.
  pose proof (keep_steps_stuck _ _ _ b2 _ Hs HI1 Hst) as Hst2.
  destruct (keep_steps_advances _ b2 _ Hs HI1) as (ws2 & HI2 & _).
  split; [done|]. split; [apply Hst2|]. intros w Hw.
  pose proof (op_ok_height _ b2 _ HI2 Hw) as Hn. destruct Hw as (_ & _ & Hw & _).
  by eapply commitBlock_stuck.
Qed.

(** (ResetPendingBlock): it always succeeds on a chain that was created; the
    store is untouched, the new pending block is empty, extends the latest block
    and reads the registers as of the latest block, so that transactions are
    accepted again. *)
Theorem reset_recovers {VL : VirtualMachineLaws VM} conf w b latest :
  reachable conf b → world_ok w → getLatestBlock b = Ok latest →
  ∃ b', ResetPendingBlock w b = (Ok (), b') ∧ b_storage b' = b_storage b ∧
    pb_transactionIDs (b_pendingBlock b') = [] ∧ pb_index (b_pendingBlock b') = 0 ∧
    extends latest (b_pendingBlock b') ∧
    ∀ r, ∃ v, GetRegisterValues [r] (Block_Height latest) b = Ok [v] ∧
              es_Get (pb_ledgerState (b_pendingBlock b')) r = Ok v.
Proof.
  intros (l0 & es & evs & HI)%reachable_inv Hw Hlat. revert HI.
  generalize (l0 ++ [WCommit (genesis_commit conf es evs)]). clear l0. intros l HI.
  destruct (ResetPendingBlock_run w b l HI Hw) as (prev & snap & Hp & Hrun & Hsnap & HI').
  rewrite (getLatestBlock_log b l HI), Hp in Hlat. injection Hlat as ->.
  eexists. split; [exact Hrun|]. split; [done|]. split; [done|]. split; [done|].
  split; [by apply new_extends|]. intros r.
  pose proof (latest_height l latest (ci_log b l HI) Hp) as Hh.
  assert (0 ≤ Block_Height latest < next_height l) as Hb.
  { split; [|lia]. pose proof (log_block_dom l (Block_Height latest) (ci_log b l HI)) as Hd.
    unfold log_LatestBlock in Hp. apply bind_Ok in Hp as (h & _ & Hb).
    rewrite <- (log_block_height l h latest Hb) in Hb. rewrite Hb in Hd. by apply Hd. }
  exists (log_Register (Block_Height latest) r l). split; [by rewrite (GetRegisterValues_log b l)|].
  simpl. rewrite Get_New.
  destruct (ref_LedgerByHeight _ _ (inv_refines b l HI) _ Hb) as (snap' & Hs' & Hr).
  rewrite Hs' in Hsnap. injection Hsnap as <-. apply Hr.
Qed.
End recovery.
