(* ===== verification/QueryTheorems.v ===== *)
(** What the queries of a chain answer after a commit, and over its history. *)
From S2P Require Import Prelude FlowTypes Errors Storage Report Convert Pragma Vm PendingBlock.
From S2P Require Import Blockchain Queries BlockchainCorrect Chain ChainTheorems.

Section query_theorems.
Context {FM : FlowModel} {CA : Cadence} {VM : VirtualMachine} {CK : Clocks} {CR : Crypto}
        {SG : Signing} {CP : CadenceParser} {KS : KindString} {GO : GoMapOrder}
        {S : Type} `{!Store S} {OI : OptionalInterfaces S} {SC : StoreCorrect S} {TS : TotalStore S}.
Implicit Types b : Blockchain (S := S).

(** ** After a commit *)

Section after_commit.
Context (b b' : Blockchain (S := S)) (l : log) (c : BlockCommit)
        (HI : chain_inv b l) (Hc : committed_as b l c b').

Let l' := commit_log c (b_systemTransactions b) l.
Let p := b_pendingBlock b.

Lemma after_refines : refines (b_storage b') l'.
Proof. apply inv_refines, Hc. Qed.

Lemma after_commit_query {A} (f : BlockCommit → option A) a :
  f c = Some a → newest (on_commit f) l' = Some a.
Proof. intros Hf. unfold l', commit_log. rewrite newest_index by apply Hc. simpl. by rewrite Hf. Qed.

Lemma after_pending id : pending_GetTransaction id (b_pendingBlock b') = None.
Proof.
  destruct (ca_pending _ _ _ _ Hc) as (? & ? & ? & -> & _). unfold pending_GetTransaction. simpl.
  apply lookup_empty.
Qed.

Lemma after_getTransaction id tx :
  c_transaction id c = Some tx → getTransaction id b' = Ok tx.
Proof.
  intros Htx. unfold getTransaction. rewrite after_pending, (ref_TransactionByID _ _ after_refines).
  unfold log_TransactionByID. by rewrite (after_commit_query _ _ Htx).
Qed.

(** A transaction of the block, of a user or of the system, is found under its ID. *)
Lemma after_transaction id :
  id ∈ pb_transactionIDs p ∨ id ∈ bc_systemTransactions c →
  ∃ tx, getTransaction id b' = Ok tx ∧ Transaction_ID tx = id.
Proof.
  intros Hid. pose proof (ca_prepared _ _ _ _ Hc) as Hp.
  assert (∃ tx, c_transaction id c = Some tx ∧ Transaction_ID tx = id) as (tx & Htx & He).
  { unfold c_transaction. destruct (bc_systemTransactionBodies c !! id) as [tx|] eqn:Hb.
    - exists tx. split; [done|]. by apply (prep_bodies _ _ Hp).
    - rewrite (prep_transactions _ _ Hp). destruct Hid as [Hid|Hid].
      + pose proof (ci_pending b l HI) as Hok. apply (ok_dom _ Hok) in Hid as [tx Htx].
        exists tx. split; [done|]. by apply (ok_id _ Hok).
      + apply (prep_system _ _ Hp) in Hid as [tx Htx]. congruence. }
  exists tx. split; [by apply after_getTransaction|done].
Qed.

Lemma after_block : getBlockByID (Block_ID (pending_Block p)) b' = Ok (pending_Block p).
Proof.
  pose proof (prep_block _ _ (ca_prepared _ _ _ _ Hc)) as Hb.
  unfold getBlockByID. rewrite (ref_BlockByID _ _ after_refines). unfold log_BlockByID.
  rewrite (after_commit_query (c_blockID (Block_ID (pending_Block p))) (bc_height c))
    by (unfold c_blockID; by rewrite Hb, decide_True).
  simpl. unfold log_BlockByHeight. unfold l', commit_log. rewrite newest_index by apply Hc. simpl.
  unfold c_block. by rewrite decide_True, Hb.
Qed.

Lemma after_collection col :
  Collections p = [col] → getCollectionByID (LightCollection_ID col) b' = Ok col.
Proof.
  intros Hcol. unfold getCollectionByID. rewrite (ref_CollectionByID _ _ after_refines).
  unfold log_CollectionByID. rewrite (after_commit_query (c_collection (LightCollection_ID col)) col); [done|].
  unfold c_collection. rewrite (prep_collections _ _ (ca_prepared _ _ _ _ Hc)). fold p. rewrite Hcol.
  apply last_write_NoDup; [apply NoDup_singleton|by left].
Qed.

Lemma after_system :
  SystemTransactionsForBlockID (Block_ID (pending_Block p)) (b_storage b') = Ok (commit_metadata c).
Proof.
  pose proof (prep_block _ _ (ca_prepared _ _ _ _ Hc)) as Hb.
  rewrite (ref_SystemTransactionsForBlockID _ _ after_refines). unfold log_SystemTransactionsForBlockID.
  rewrite (after_commit_query _ (commit_metadata c)); [done|].
  unfold c_systemTransactions. rewrite Hb, decide_True by done.
  destruct (ca_chunk _ _ _ _ Hc) as (chunk & [Hl _] & _). unfold has_systemTransactions.
  destruct (bc_systemTransactions c); [done|]. by rewrite bool_decide_eq_true_2 by (simpl; lia).
Qed.

Lemma after_systemResult id :
  id ∈ bc_systemTransactions c →
  ∃ r, getSystemTransactionResult (Block_ID (pending_Block p)) id b' = Ok r ∧
       ar_Status r = StatusSealed ∧ ar_TransactionID r = id ∧
       ar_BlockID r = Block_ID (pending_Block p) ∧ ar_BlockHeight r = pb_height p.
Proof.
  intros Hid. pose proof (ca_prepared _ _ _ _ Hc) as Hp.
  destruct (prep_systemResult _ _ Hp id Hid) as [r Hr]. exists (sealed_result id r).
  destruct (prep_systemResults _ _ Hp id r Hr) as [H1 H2]. split; [|done].
  unfold getSystemTransactionResult. rewrite (ref_SystemTransactionResultByID _ _ after_refines).
  unfold log_SystemTransactionResultByID. rewrite (after_commit_query _ r); [done|].
  unfold c_systemResult. by rewrite (prep_block _ _ Hp), decide_True.
Qed.

Lemma after_scheduled_block n id :
  bc_scheduledTransactionIDs c !! n = Some id →
  BlockIDByScheduledTransactionID n (b_storage b') = Ok (Block_ID (pending_Block p)).
Proof.
  intros Hn. pose proof (ca_prepared _ _ _ _ Hc) as Hp.
  rewrite (ref_BlockIDByScheduledTransactionID _ _ after_refines) by (by apply (prep_ids _ _ Hp n id)).
  unfold log_BlockIDByScheduledTransactionID, l', commit_log. rewrite newest_app.
  rewrite (newest_same _ _ (WIndexScheduled n (Block_ID (bc_block c))) (Block_ID (bc_block c)));
    [by rewrite (prep_block _ _ Hp)|..].
  - unfold index_writes. apply elem_of_app. right. apply elem_of_reverse, list_elem_of_omap.
    exists (n, id). split; [by apply elem_of_map_range|done].
  - by rewrite decide_True.
  - intros w a. unfold index_writes.
    rewrite elem_of_app, !elem_of_reverse, !list_elem_of_omap.
    intros [([t r] & _ & Hw)|([m t] & _ & Hw)].
    + unfold system_write in Hw. cbn [fst] in Hw. destruct (b_systemTransactions b !! t); [discriminate Hw|]. by injection Hw as <-.
    + injection Hw as <-. simpl. case_decide; [|done]. by intros [= <-].
Qed.
End after_commit.

(** The successful commits of a chain that was created. *)
Lemma reachable_commit conf w b latest blk b' :
  reachable conf b → world_ok w → getLatestBlock b = Ok latest → Block_Height latest + 1 < two64 →
  commitBlock w b = (Ok blk, b') →
  ∃ l c, chain_inv b l ∧ committed_as b l c b' ∧ blk = pending_Block (b_pendingBlock b).
Proof.
  intros (l0 & es & evs & HI)%reachable_inv Hw Hlat Hn Hcommit. revert HI.
  generalize (l0 ++ [WCommit (genesis_commit conf es evs)]). clear l0. intros l HI.
  pose proof (latest_Block b l latest HI Hlat) as Hh.
  destruct (commitBlock_cases w b l HI ltac:(lia) Hw) as [(e & b1 & He & _)|(c & b1 & Hb & Hc)];
    [congruence|].
  rewrite Hcommit in Hb. injection Hb as -> ->. by exists l, c.
Qed.

Lemma imap_pair_elem {A} (l : list A) q : q ∈ imap pair l → q.2 ∈ l.
Proof. intros (i & x & -> & Hx)%elem_of_lookup_imap_1. by eapply list_elem_of_lookup_2. Qed.

Lemma imap_pair_snd {A} (l : list A) : (imap pair l).*2 = l.
Proof.
  apply list_eq. intros i. rewrite list_lookup_fmap, list_lookup_imap. by destruct (l !! i).
Qed.

Lemma res_map_single {A B} (f : A → result B) x : res_map f [x] = (y ← f x; Ok [y]).
Proof. done. Qed.

Lemma wrap_index_Ok {A} text j id (a : A) : wrap_index text j id (Ok a) = Ok a.
Proof. done. Qed.

(** The transactions with given IDs, fetched one by one. *)
Lemma fetch_all what (f : Identifier → result TransactionBody) ids :
  (∀ id, id ∈ ids → ∃ tx, f id = Ok tx ∧ Transaction_ID tx = id) →
  ∃ txs, res_map (λ t : nat * Identifier, wrap_index what t.1 t.2 (f t.2)) (imap pair ids) = Ok txs ∧
         Transaction_ID <$> txs = ids.
Proof.
  intros Hf. destruct (res_map_Forall2
    (λ t : nat * Identifier, wrap_index what t.1 t.2 (f t.2))
    (λ t tx, Transaction_ID tx = t.2) (imap pair ids)) as (txs & Htxs & HF).
  { intros t Ht%imap_pair_elem. destruct (Hf _ Ht) as (tx & Htx & Hid). exists tx.
    unfold wrap_index. by rewrite Htx. }
  exists txs. split; [done|]. rewrite <- (imap_pair_snd ids).
  clear Htxs Hf. induction HF as [|t tx ts txs' Ht _ IH]; [done|]. rewrite !fmap_cons. by f_equal.
Qed.


(** (GetSystemTransaction): on a block that was just committed the zero ID
    stands for the last system transaction, the system chunk transaction (the
    comment on the method says the first), and its result is sealed with the
    block. *)
Theorem zero_id_is_last_system_transaction conf w b latest blk b' :
  reachable conf b → world_ok w → getLatestBlock b = Ok latest → Block_Height latest + 1 < two64 →
  commitBlock w b = (Ok blk, b') →
  ∃ chunk r, systemChunkTransaction b = Ok chunk ∧
    GetSystemTransaction ZeroID (Block_ID blk) b' = Ok chunk ∧
    GetSystemTransactionResult ZeroID (Block_ID blk) b' = Ok r ∧
    ar_Status r = StatusSealed ∧ ar_TransactionID r = Transaction_ID chunk ∧
    ar_BlockID r = Block_ID blk.
Proof.
  intros HR Hw Hlat Hn Hcommit.
  destruct (reachable_commit conf w b latest blk b' HR Hw Hlat Hn Hcommit) as (l & c & HI & Hc & ->).
  destruct (ca_chunk _ _ _ _ Hc) as (chunk & [Hlast Hbody] & Hch).
  destruct (after_systemResult b b' l c Hc (Transaction_ID chunk)) as (r & Hr & Hst & Hid & Hblk & _).
  { rewrite last_lookup in Hlast. by eapply list_elem_of_lookup_2. }
  exists chunk, r. split; [done|].
  assert (system_txID ZeroID (Block_ID (pending_Block (b_pendingBlock b))) b' = Ok (Transaction_ID chunk)) as Hz.
  { unfold system_txID, system_txs. rewrite (after_system b b' l c Hc). simpl.
    unfold of_option. by rewrite Hlast. }
  unfold GetSystemTransaction, GetSystemTransactionResult. rewrite Hz. cbn [mbind res_bind].
  split; [|done]. apply (after_getTransaction b b' l c Hc). unfold c_transaction. by rewrite Hbody.
Qed.

(** C30 (GetScheduledTransaction, GetScheduledTransactionResult): every scheduled
    transaction that the metadata of a committed block lists is found under its
    scheduled number alone, with the body that was run and a result that is
    sealed with that block.
    (On a store whose writes succeed.) *)
Theorem scheduled_transactions_found conf w b latest blk b' st n id :
  reachable conf b → world_ok w → getLatestBlock b = Ok latest → Block_Height latest + 1 < two64 →
  commitBlock w b = (Ok blk, b') →
  SystemTransactionsForBlockID (Block_ID blk) (b_storage b') = Ok st →
  st_ScheduledTransactionIDs st !! n = Some id →
  ∃ tx r, GetScheduledTransaction n b' = Ok tx ∧ Transaction_ID tx = id ∧
          GetScheduledTransactionResult n b' = Ok r ∧ ar_Status r = StatusSealed ∧
          ar_TransactionID r = id ∧ ar_BlockID r = Block_ID blk.
Proof.
  intros HR Hw Hlat Hn Hcommit.
  destruct (reachable_commit conf w b latest blk b' HR Hw Hlat Hn Hcommit) as (l & c & HI & Hc & ->).
  pose proof (after_system b b' l c Hc) as Hsys. rewrite Hsys. intros [= <-] Hid. simpl in Hid.
  pose proof (prep_scheduled _ _ (ca_prepared _ _ _ _ Hc) n id Hid) as Hin.
  destruct (after_transaction b b' l c HI Hc id (or_intror Hin)) as (tx & Htx & Htid).
  destruct (after_systemResult b b' l c Hc id Hin) as (r & Hr & Hst & Hrid & Hblk & _).
  exists tx, r. unfold GetScheduledTransaction, GetScheduledTransactionResult, scheduled_block.
  rewrite (after_scheduled_block b b' l c Hc n id Hid). cbn [mbind res_bind].
  unfold GetScheduledTransactionByBlockID, GetScheduledTransactionResultByBlockID, scheduled_txID,
    system_txs. rewrite Hsys. cbn [mbind res_bind commit_metadata st_ScheduledTransactionIDs].
  rewrite Hid. done.
Qed.

(** ** Events *)

(** The events of the block at a height. *)
Definition events_at b (ty : string) (h : Z) (be : BlockEvents) : Prop :=
  ∃ blk evs, getBlockByHeight h b = Ok blk ∧ GetEventsByHeight h ty b = Ok evs ∧
             be = block_events blk evs.

Lemma events_loop_exact b l ty e fuel h :
  chain_inv b l → is_u64 h → is_u64 e → next_height l < two64 →
  (Z.to_nat (next_height l - h) < fuel)%nat →
  ∃ bes, events_loop fuel ty h e b = Some bes ∧
         Forall2 (events_at b ty) (seqZ h (Z.min e (next_height l - 1) - h + 1)) bes.
Proof.
  intros HI Hh He Hn. revert h Hh. induction fuel as [|fuel IH]; intros h Hh Hf; [lia|].
  simpl. case_bool_decide as Hle.
  2:{ exists []. split; [done|]. rewrite seqZ_nil by lia. constructor. }
  rewrite (ref_BlockByHeight _ _ (inv_refines b l HI)) by done.
  pose proof (log_block_dom l h (ci_log b l HI)) as Hd.
  destruct (log_BlockByHeight h l) as [blk|err] eqn:Hb.
  - destruct Hd as [Hd _]. specialize (Hd eq_refl).
    rewrite (ref_EventsByHeight _ _ (inv_refines b l HI)) by done. unfold log_EventsByHeight at 1.
    unfold is_u64 in *. rewrite (u64_small (h + 1)) by (unfold is_u64; lia).
    destruct (IH (h + 1) ltac:(lia) ltac:(lia)) as (bes & Hbes & HF). rewrite Hbes.
    eexists. split; [done|]. rewrite seqZ_cons by lia. constructor.
    + exists blk. eexists. split; [|split; [|reflexivity]].
      * apply (getBlockByHeight_Ok b l); [done|unfold is_u64; lia|done].
      * unfold GetEventsByHeight. by rewrite (ref_EventsByHeight _ _ (inv_refines b l HI)).
    + replace (Z.succ h) with (h + 1) by lia.
      replace (Z.pred _) with (Z.min e (next_height l - 1) - (h + 1) + 1) by lia. done.
  - exists []. split; [done|]. rewrite seqZ_nil; [constructor|].
    unfold is_u64 in *. destruct (decide (h < next_height l)); [|lia].
    destruct Hd as [_ Hd]. by specialize (Hd ltac:(lia)).
Qed.

(** C33 (GetEventsForHeightRange): the loop over the heights ends, for every range
    of 64-bit heights, even one that ends at the greatest; it returns the events of exactly
    the blocks from the start to the end, or to the latest block when the end is
    beyond it, in increasing order.  The heights beyond the latest block are
    left out silently.
    (On a store whose writes succeed.) *)
Theorem events_for_height_range conf b latest ty first last fuel :
  reachable conf b → getLatestBlock b = Ok latest → Block_Height latest + 1 < two64 →
  is_u64 first → is_u64 last → (Z.to_nat (Block_Height latest + 1 - first) < fuel)%nat →
  ∃ bes, GetEventsForHeightRange fuel ty first last b = Some bes ∧
         Forall2 (events_at b ty) (seqZ first (Z.min last (Block_Height latest) - first + 1)) bes.
Proof.
  intros (l0 & es & evs & HI)%reachable_inv Hlat Hn Hs He Hf. revert HI.
  generalize (l0 ++ [WCommit (genesis_commit conf es evs)]). clear l0. intros l HI.
  pose proof (latest_Block b l latest HI Hlat) as Hh. rewrite Hh.
  apply events_loop_exact; try done; lia.
Qed.

(** (GetEventsForBlockIDs): an unknown block ID ends the list silently: the IDs
    before it get their events, those after it are not looked up, and there is
    no error. *)
Theorem events_for_block_ids_truncated conf b ty known unknown rest :
  reachable conf b →
  (∀ id, id ∈ known → is_Ok (getBlockByID id b) = true) →
  is_Ok (getBlockByID unknown b) = false →
  GetEventsForBlockIDs ty (known ++ unknown :: rest) b = GetEventsForBlockIDs ty known b ∧
  be_BlockHeight <$> GetEventsForBlockIDs ty known b =
    omap (λ id, match getBlockByID id b with Ok blk => Some (Block_Height blk) | Err _ => None end) known.
Proof.
  intros (l0 & es & evs & HI)%reachable_inv Hk Hu. pose proof (inv_refines b _ HI) as R.
  induction known as [|id known IH]; simpl.
  - split; [|done]. unfold getBlockByID, not_found_as in Hu.
    destruct (BlockByID unknown (b_storage b)) as [blk|e]; [done|done].
  - pose proof (Hk id ltac:(left)) as Hid. unfold getBlockByID, not_found_as in Hid |- *.
    destruct (BlockByID id (b_storage b)) as [blk|e] eqn:Hb; [|by destruct (is_not_found e)].
    assert (∃ x, EventsByHeight (Block_Height blk) ty (b_storage b) = Ok x) as [x ->].
    { eexists. rewrite (ref_EventsByHeight _ _ R); [reflexivity|].
      rewrite (ref_BlockByID _ _ R) in Hb. unfold log_BlockByID in Hb.
      apply bind_Ok in Hb as (h & _ & Hb). rewrite (log_block_height _ _ _ Hb).
      pose proof (proj1 (log_block_dom _ h (ci_log b _ HI)) ltac:(by rewrite Hb)).
      pose proof (next_height_le _ (ci_log b _ HI)). unfold is_u64. lia. }
    destruct IH as [IH1 IH2]; [intros; apply Hk; by right|]. rewrite IH1. split; [done|].
    rewrite fmap_cons, IH2. done.
Qed.

(** (getTransactionResult): asking for a result never fails on a chain that was
    created; the status is pending exactly for the transactions of the pending
    block, and unknown for a transaction that is neither pending, nor was
    committed with a result, nor indexed as a scheduled one. *)
Theorem transaction_status conf b id :
  reachable conf b →
  ∃ r, getTransactionResult id b = Ok r ∧
    (ar_Status r = StatusPending ↔ id ∈ pb_transactionIDs (b_pendingBlock b)) ∧
    (ar_Status r = StatusUnknown ∨ ar_Status r = StatusPending ∨ ar_Status r = StatusSealed) ∧
    (id ∉ pb_transactionIDs (b_pendingBlock b) →
     TransactionResultByID id (b_storage b) = Err ErrNotFound →
     ScheduledTransactionBlockIDByTxID id (b_storage b) = Err ErrNotFound →
     ar_Status r = StatusUnknown) ∧
    (ar_Status r = StatusSealed → ar_TransactionID r = id).
Proof.
  intros (l0 & es & evs & HI)%reachable_inv. pose proof (inv_refines b _ HI) as R.
  pose proof (contains_iff _ id (ci_pending b _ HI)) as Hci. unfold getTransactionResult.
  destruct (ContainsTransaction id (b_pendingBlock b)).
  { eexists. split; [done|]. split; [by rewrite <- Hci|]. split; [auto|]. split; [|done].
    intros Hn. by destruct Hn; apply Hci. }
  assert (id ∉ pb_transactionIDs (b_pendingBlock b)) as Hnot by (intros Hin; by apply Hci in Hin).
  rewrite (ref_TransactionResultByID _ _ R). unfold log_TransactionResultByID.
  destruct (newest _ _) as [r|]; simpl.
  { eexists. split; [done|]. split; [done|]. split; [auto|]. done. }
  rewrite (ref_ScheduledTransactionBlockIDByTxID _ _ R). unfold log_ScheduledTransactionBlockIDByTxID.
  destruct (newest _ _) as [blk|]; simpl.
  2:{ eexists. split; [done|]. split; [done|]. split; [auto|]. done. }
  unfold getSystemTransactionResult. rewrite (ref_SystemTransactionResultByID _ _ R).
  unfold log_SystemTransactionResultByID. destruct (newest _ _) as [r|]; simpl;
    (eexists; split; [done|]; split; [done|]; split; [auto|]; done).
Qed.

(** C31 (executeScriptAtBlockID): a script, on whatever block, with whatever
    outcome, changes neither the store nor the pending block; when it returns,
    its result is the one of a single run of the virtual machine on the
    registers of the block it was asked for, under the header of that block.
    (On a store whose writes succeed.) *)
Theorem scripts_read_only conf script args id b r b' :
  reachable conf b → executeScriptAtBlockID script args id b = (r, b') →
  b_storage b' = b_storage b ∧ b_pendingBlock b' = b_pendingBlock b ∧
  ∀ sr, r = Ok sr →
    ∃ blk snap es out,
      getBlockByID id b = Ok blk ∧
      (∀ reg, GetRegisterValues [reg] (Block_Height blk) b = (v ← snap reg; Ok [v])) ∧
      vm_Run (WithBlockHeader (ToHeader blk) (b_vmCtx b)) (b_entropy b) (blocks_view (b_storage b))
        (fvm_Script script args) snap = Ok (es, out) ∧
      scr_Error sr = VMErrorToEmulator (po_Err out) ∧
      scr_Value sr = (if po_Err out then None else po_Value out) ∧
      scr_Logs sr = po_Logs out.
Proof.
  intros HR H. destruct (script_keeps script args id b b) as [H1 H2]; [done|]. rewrite H in H1, H2.
  split; [done|]. split; [done|]. intros sr ->. clear H1 H2. unfold executeScriptAtBlockID in H.
  apply ST_bind_Ok in H as (blk & b1 & Hblk & H). unfold st_read in Hblk. injection Hblk as Hblk <-.
  apply ST_bind_Ok in H as (snap & b2 & Hsnap & H). unfold st_read in Hsnap. injection Hsnap as Hsnap <-.
  apply ST_bind_Ok in H as (ctx & b3 & [= <- <-] & H). cbn zeta in H.
  apply ST_bind_Ok in H as ([] & b4 & H4 & H).
  apply (start_run_ok (λ b', b_entropy b' = b_entropy b ∧ b_storage b' = b_storage b)) in H4 as [He4 Hs4]; [|done..].
  apply ST_bind_Ok in H as ([es out] & b5 & Hrun & H). unfold st_read, b_Run in Hrun.
  rewrite He4, Hs4 in Hrun. injection Hrun as Hrun <-.
  apply ST_bind_Ok in H as (evs & b6 & _ & H). apply ST_bind_Ok in H as ([] & b7 & _ & H).
  apply ST_bind_Ok in H as (rep & b8 & _ & H). apply ST_bind_Ok in H as ([] & b9 & _ & H).
  injection H as <- <-. exists blk, snap, es, out.
  unfold getBlockByID, GetRegisterValues. rewrite Hblk, Hsnap. split; [done|]. split; [done|].
  split; [exact Hrun|]. split; [done|]. split; [|done]. simpl. by destruct (po_Err out).
Qed.
End query_theorems.
