(* ===== verification/Liveness.v ===== *)
(** With automatic mining, a chain commits every transaction it accepts, unless
    the virtual machine or a system transaction fails. *)
From S2P Require Import Prelude FlowTypes Errors Storage Report Convert Pragma Vm PendingBlock.
From S2P Require Import Blockchain Queries BlockchainCorrect Chain ChainTheorems.

Section liveness.
Context {FM : FlowModel} {CA : Cadence} {VM : VirtualMachine} {CK : Clocks} {CR : Crypto}
        {SG : Signing} {CP : CadenceParser} {KS : KindString} {GO : GoMapOrder}
        {S : Type} `{!Store S} {OI : OptionalInterfaces S} {SC : StoreCorrect S} {TS : TotalStore S}.
Implicit Types b : Blockchain (S := S).

(** A block that is executed completely, with all its results, has a result for
    each of its transactions. *)
Lemma complete_counts p c :
  pb_ok p → ExecutionComplete p = true → all_results p → prepared p c →
  size (bc_transactions c) = size (bc_transactionResults c).
Proof.
  intros Hok Hcomp Hall Hp. rewrite (prep_transactions _ _ Hp), (prep_results _ _ Hp), map_size_fmap.
  rewrite <- !size_dom. f_equal. apply set_eq. intros id. rewrite !elem_of_dom.
  apply complete_iff in Hcomp as Hidx; [|done].
  assert (take (Z.to_nat (pb_index p)) (pb_transactionIDs p) = pb_transactionIDs p) as Htake
    by (apply take_ge; unfold Size in Hidx; lia).
  rewrite (ok_dom _ Hok). split.
  - intros Hin. apply Hall. by rewrite Htake.
  - intros Hr%(ok_results _ Hok). by rewrite Htake in Hr.
Qed.

(** One body and one result for every system transaction: no two of them have
    the same ID. *)
Definition system_counts (c : BlockCommit) : Prop :=
  length (bc_systemTransactions c) = size (bc_systemTransactionResults c).
#[global] Instance system_counts_dec c : Decision (system_counts c) := _.

(** The commit of a block that is executed completely, with all its results:
    its outcome is the one of the system transactions. *)
Lemma commit_complete w b l :
  chain_inv b l → next_height l < two64 → world_ok w →
  ExecutionComplete (b_pendingBlock b) = true → all_results (b_pendingBlock b) →
  match prepareCommit (b_pendingBlock b) b with
  | (Err e, b1) => commitBlock w b = (Err e, b1)
  | (Ok c, b1) =>
      if decide (system_counts c) then ∃ blk b', commitBlock w b = (Ok blk, b')
      else (commitBlock w b).1 = Err (system_count_error (length (bc_systemTransactions c))
                                        (size (bc_systemTransactionResults c)))
  end.
Proof.
  intros HI Hn Hw Hcomp Hall. pose proof (ci_pending b l HI) as Hok.
  assert (commitBlock w b = (c ← prepareCommit (b_pendingBlock b);
    on_storage (CommitBlock c) ;; indexCommit c ;;
    ledger ← st_read (λ b, LedgerByHeight (Block_Height (bc_block c)) (b_storage b));
    clock ← st_get b_clock;
    st_modify (finish_commit (newPendingBlock (bc_block c) ledger clock w) (Block_ID (bc_block c))) ;;
    mret (bc_block c)) b) as ->.
  { unfold commitBlock. rewrite (ST_bind_step _ _ b (b_pendingBlock b) b) by reflexivity.
    rewrite Hcomp, andb_false_r.
    assert (negb (ExecutionStarted (b_pendingBlock b)) && negb (Empty (b_pendingBlock b)) = false) as ->;
      [|done].
    apply complete_iff in Hcomp; [|done]. unfold ExecutionStarted, Empty. pose proof (ok_index _ Hok).
    case_bool_decide; [done|]. by rewrite bool_decide_eq_true_2 by lia. }
  pose proof (prepareCommit_quiet b b (quiet_refl b)) as Hq.
  destruct (prepareCommit (b_pendingBlock b) b) as [[c|e] b1] eqn:Hprep; simpl in Hq.
  2:{ by rewrite (ST_bind_fail _ _ b e b1 Hprep). }
  pose proof (prepareCommit_prepared _ _ _ _ Hprep) as [Hp _].
  pose proof (complete_counts _ c Hok Hcomp Hall Hp) as Hcnt.
  rewrite (ST_bind_step _ _ b c b1 Hprep). case_decide as Hsys.
  - destruct (finish_run w b b1 c l HI Hq Hp Hn (conj Hcnt Hsys)) as (s & snap & Hrun & _).
    eexists _, _. exact Hrun.
  - assert (¬ counts_match c) as Hc by (intros [_ ?]; by apply Hsys).
    pose proof (store_counts (b_storage b1) c Hc) as He.
    rewrite (ST_bind_fail _ _ b1 _ (set_storage (b_storage b1) b1)) by (by apply on_storage_run).
    simpl. f_equal. unfold counts_error. by rewrite decide_True by done.
Qed.

Lemma fresh_all_results (p : pendingBlock) : pb_index p = 0 → all_results p.
Proof. intros Hi id. rewrite Hi. by intros ?%not_elem_of_nil. Qed.

(** C12 (SendTransaction with automatic mining): what becomes of a transaction that
    is accepted.  Either the execution of the pending block fails, and its error is
    returned; or a scheduled transaction or the system chunk of the commit fails,
    and that error is returned; or two system transactions of the block have the
    same ID, and the store refuses the counts; in every other case the transaction
    is committed at once: [SendTransaction] returns no error, the chain is one block
    longer, and the transaction's result, be it reverted or not, is sealed in the new
    block.  (On a store whose writes succeed.) *)
Theorem automine_commits conf tx w b b1 latest :
  reachable conf b → world_ok w → getLatestBlock b = Ok latest → Block_Height latest + 1 < two64 →
  conf_AutoMine (b_conf b) = true → Size (b_pendingBlock b) + 1 < two32 →
  addTransaction tx b = (Ok (), b1) →
  match executeBlock b1 with
  | (Err e, b2) => SendTransaction tx w b = (Err e, b2)
  | (Ok _, b2) =>
      match prepareCommit (b_pendingBlock b2) b2 with
      | (Err e, b3) => SendTransaction tx w b = (Err e, b3)
      | (Ok c, _) =>
          if decide (length (bc_systemTransactions c) = size (bc_systemTransactionResults c))
          then ∃ b' latest' r, SendTransaction tx w b = (Ok (), b') ∧
                 getLatestBlock b' = Ok latest' ∧ Block_Height latest' = Block_Height latest + 1 ∧
                 getTransactionResult (Transaction_ID tx) b' = Ok r ∧ ar_Status r = StatusSealed ∧
                 ar_BlockID r = Block_ID latest'
          else (SendTransaction tx w b).1 =
                 Err (system_count_error (length (bc_systemTransactions c))
                        (size (bc_systemTransactionResults c)))
      end
  end.
Proof.
  intros (l0 & es & evs & HI)%reachable_inv Hw Hlat Hn Hauto Hs Hadd. revert HI.
  generalize (l0 ++ [WCommit (genesis_commit conf es evs)]). clear l0. intros l HI.
  pose proof (latest_Block b l latest HI Hlat) as Hh.
  pose proof (addTransaction_inv tx b l HI Hs) as HI1. rewrite Hadd in HI1. simpl in HI1.
  assert (pb_index (b_pendingBlock b1) = 0 ∧ Transaction_ID tx ∈ pb_transactionIDs (b_pendingBlock b1) ∧
          conf_AutoMine (b_conf b1) = true) as (Hi & Hin & Hauto1).
  { rewrite addTransaction_state in Hadd. destruct (admits tx b) as [[]|e] eqn:Ha; [|done].
    injection Hadd as <-. destruct (admits_fresh tx b l HI Ha) as (Hst & _ & _). simpl.
    apply bool_decide_eq_false in Hst. pose proof (ok_index _ (ci_pending b l HI)).
    split; [lia|]. split; [|done]. apply elem_of_app. right. by apply list_elem_of_singleton. }
  assert (SendTransaction tx w b = (_ ← executeAndCommitBlock w; mret ()) b1) as ->.
  { unfold SendTransaction. rewrite (ST_bind_step _ _ b () b1 Hadd).
    by rewrite (ST_bind_step _ _ b1 true b1) by (unfold st_get; by rewrite Hauto1). }
  clear Hadd Hlat. destruct (executeBlock_props b1 (ci_pending b1 l HI1)) as (_ & Hsame & _ & Hrs).
  pose proof (executeBlock_inv b1 l HI1) as HI2.
  destruct (executeBlock b1) as [[rs|e] b2] eqn:He; simpl in Hsame, Hrs, HI2.
  2:{ erewrite ST_bind_fail; [done|]. unfold executeAndCommitBlock. by apply ST_bind_fail. }
  destruct (Hrs rs eq_refl) as (Hcomp & Hall & _).
  pose proof (commit_complete w b2 l HI2 ltac:(lia) Hw Hcomp (Hall (fresh_all_results _ Hi))) as Hcommit.
  assert (∀ r b', commitBlock w b2 = (r, b') →
            (executeAndCommitBlock w b1).1 = (λ blk, (blk, rs)) <$> r ∧ (executeAndCommitBlock w b1).2 = b') as Hexec.
  { intros r b' Hr. unfold executeAndCommitBlock. rewrite (ST_bind_step _ _ b1 rs b2 He).
    unfold mbind, ST_bind. rewrite Hr. by destruct r. }
  unfold system_counts in Hcommit.
  destruct (prepareCommit (b_pendingBlock b2) b2) as [[c|e] b3].
  2:{ destruct (Hexec _ _ Hcommit) as [H1 H2]. unfold mbind, ST_bind.
      destruct (executeAndCommitBlock w b1) as [r b']. simpl in H1, H2. by rewrite H1, H2. }
  destruct (decide _) as [Hsys|Hsys].
  2:{ destruct (commitBlock w b2) as [r b'] eqn:Hr. simpl in Hcommit. subst r.
      destruct (Hexec _ _ eq_refl) as [H1 H2]. unfold mbind, ST_bind.
      destruct (executeAndCommitBlock w b1) as [r b'']. simpl in H1. by rewrite H1. }
  destruct Hcommit as (blk & b' & Hrun). destruct (Hexec _ _ Hrun) as [H1 H2].
  destruct (executeAndCommitBlock w b1) as [r b''] eqn:Hex. simpl in H1, H2. subst r b''.
  destruct (commitBlock_cases w b2 l HI2 ltac:(lia) Hw) as [(e & b4 & Hf & _)|(c' & b4 & Hc & Hca)];
    [congruence|]. rewrite Hrun in Hc. injection Hc as -> ->.
  destruct (committed_result b2 b4 l c' (Transaction_ID tx) HI2 Hca) as (r & _ & Hres).
  { by rewrite (sb_transactionIDs _ _ Hsame). }
  exists b4, (pending_Block (b_pendingBlock b2)). eexists.
  split; [by rewrite (ST_bind_step _ _ b1 _ b4 Hex)|]. split; [|split; [|by split; [exact Hres|]]].
  - rewrite (getLatestBlock_log b4 _ (ca_inv _ _ _ _ Hca)). unfold commit_log.
    rewrite log_latest_index by apply Hca. rewrite log_latest_commit.
    by rewrite (prep_block _ _ (ca_prepared _ _ _ _ Hca)).
  - etrans; [exact (pending_height b2 l HI2 ltac:(lia))|]. lia.
Qed.
End liveness.
