(* ===== verification/Ledger.v ===== *)
(** The registers a chain's transactions read and write.

    A run reads the working ledger of the pending block: the writes of the
    earlier runs of the block over the registers of the latest block.  A commit
    makes exactly that view the registers of the new height. *)
From S2P Require Import Prelude FlowTypes Errors Storage Report Convert Pragma Vm PendingBlock.
From S2P Require Import Blockchain Queries BlockchainCorrect Chain ChainTheorems.

Section ledger.
Context {FM : FlowModel} {CA : Cadence} {VM : VirtualMachine} {CK : Clocks} {CR : Crypto}
        {SG : Signing} {CP : CadenceParser} {KS : KindString} {GO : GoMapOrder}
        {S : Type} `{!Store S} {OI : OptionalInterfaces S} {SC : StoreCorrect S} {TS : TotalStore S}
        {VL : VirtualMachineLaws VM}.
Implicit Types b : Blockchain (S := S).

(** The snapshot that [Finalize] gives of a working ledger: what it has written. *)
Definition finalized (st : ExecutionState) : ExecutionSnapshot := (es_Finalize st).1.

(** The working ledger is the writes of the block over [base]. *)
Definition overlays (base : RegisterID → RegisterValue) b : Prop :=
  ∀ r, es_Get (pb_ledgerState (b_pendingBlock b)) r =
       Ok (default (base r) (WriteSet (finalized (pb_ledgerState (b_pendingBlock b))) !! r)).

Lemma overlays_ext base b b' :
  pb_ledgerState (b_pendingBlock b') = pb_ledgerState (b_pendingBlock b) →
  overlays base b → overlays base b'.
Proof. intros H Hb r. rewrite H. apply Hb. Qed.

Lemma merge_overlays base es p st b :
  es_Merge es (pb_ledgerState (b_pendingBlock b)) = (Ok (), st) → pb_ledgerState p = st →
  overlays base b → overlays base (set_pendingBlock p b).
Proof.
  intros Hm Hp Hb r. simpl. unfold finalized.
  rewrite Hp, (Get_Merge _ _ _ r Hm), (Finalize_Merge _ _ _ Hm).
  rewrite lookup_union. rewrite Hb. unfold finalized.
  destruct (WriteSet es !! r); simpl; [by destruct (_ !! r)|]. by destruct (_ !! r).
Qed.

Lemma events_overlays base evs : keeps_ok (overlays base) (on_pending (S := S) (st_modify (add_events evs))).
Proof. intros b a b' Hb [= _ <-]. by apply (overlays_ext base b). Qed.

Lemma merge_ledger_overlays base es : keeps_ok (overlays base) (on_pending (S := S) (merge_ledger es)).
Proof.
  intros b a b' Hb. unfold on_pending, merge_ledger.
  destruct (es_Merge es (pb_ledgerState (b_pendingBlock b))) as [[[]|e] st] eqn:Hm; [|done].
  intros [= _ <-]. by eapply merge_overlays.
Qed.

Lemma execute_callbacks_overlays base ctx i ids idx txs acc :
  keeps_ok (overlays base) (execute_callbacks (S := S) ctx i ids idx txs acc).
Proof.
  revert idx acc. induction txs as [|tx txs IH]; intros idx acc; simpl; [apply keeps_ok_ret|].
  repeat first [apply events_overlays|apply merge_ledger_overlays|apply IH|keeps_ok_step].
Qed.

Lemma executeScheduledTransactions_overlays base ctx :
  keeps_ok (overlays base) (executeScheduledTransactions (S := S) ctx).
Proof.
  unfold executeScheduledTransactions.
  repeat first [apply events_overlays|apply merge_ledger_overlays|apply execute_callbacks_overlays
               |keeps_ok_step].
Qed.

Lemma executeSystemChunkTransaction_overlays base i :
  keeps_ok (overlays base) (executeSystemChunkTransaction (S := S) i).
Proof.
  unfold executeSystemChunkTransaction. do 3 keeps_ok_step; [keeps_ok_step..|].
  match goal with |- context [po_Err ?o] => destruct (po_Err o) end; [keeps_ok_step|].
  repeat first [apply events_overlays|apply merge_ledger_overlays|keeps_ok_step].
Qed.

Lemma executeSystem_overlays base p : keeps_ok (overlays base) (executeSystem (S := S) p).
Proof.
  unfold executeSystem. cbn zeta.
  repeat first [apply executeSystemChunkTransaction_overlays|apply executeScheduledTransactions_overlays
               |match goal with |- keeps_ok _ (if ?c then _ else _) => destruct c end|keeps_ok_step].
Qed.

(** A run of the next transaction. *)
Lemma pending_run_overlays base ctx e bl :
  keeps_ok (overlays base) (on_pending (S := S) (PendingBlock.ExecuteNextTransaction ctx e bl)).
Proof.
  intros b a b' Hb. unfold on_pending.
  destruct (PendingBlock.ExecuteNextTransaction ctx e bl (b_pendingBlock b)) as [r p] eqn:Hp.
  intros [= -> <-]. unfold PendingBlock.ExecuteNextTransaction in Hp.
  do 2 (apply ST_bind_Ok in Hp as (? & ? & [= <- <-] & Hp)).
  apply ST_bind_Ok in Hp as (? & ? & [= <- <-] & Hp).
  apply ST_bind_Ok in Hp as (tx & ? & Htx & Hp). injection Htx as _ <-.
  apply ST_bind_Ok in Hp as ([es out] & ? & Hrun & Hp). injection Hrun as _ <-.
  apply ST_bind_Ok in Hp as (? & ? & [= <- <-] & Hp).
  apply ST_bind_Ok in Hp as ([] & p1 & Hm & Hp). unfold merge_ledger in Hm. simpl in Hm.
  destruct (es_Merge es (pb_ledgerState (b_pendingBlock b))) as [r st] eqn:He.
  injection Hm as -> <-. apply ST_bind_Ok in Hp as (? & ? & [= <- <-] & Hp). injection Hp as _ <-.
  by eapply merge_overlays.
Qed.

Lemma record_source_overlays base loc pragmas : keeps_ok (overlays base) (record_source (S := S) loc pragmas).
Proof.
  unfold record_source. destruct (Contains _ _); [|keeps_ok_step]. keeps_ok_step; [keeps_ok_step|].
  apply keeps_ok_modify. intros b. by apply overlays_ext.
Qed.

Lemma executeNextTransaction_overlays base ctx :
  keeps_ok (overlays base) (executeNextTransaction (S := S) ctx).
Proof.
  unfold executeNextTransaction. keeps_ok_step; [keeps_ok_step|].
  match goal with |- context [ExecutionComplete ?p] => destruct (ExecutionComplete p) end; [keeps_ok_step|].
  keeps_ok_step; [keeps_ok_step|]. cbn zeta.
  keeps_ok_step; [apply start_run_ok; intros; by eapply overlays_ext; [|done]|].
  do 4 (keeps_ok_step; [first [apply pending_run_overlays|keeps_ok_step]|]).
  keeps_ok_step.
  { match goal with |- context [tr_Error ?t] => destruct (tr_Error t) end; repeat keeps_ok_step. }
  keeps_ok_step; [apply record_source_overlays|]. keeps_ok_step; [keeps_ok_step|].
  keeps_ok_step; [|keeps_ok_step].
  match goal with |- context [if ?c then _ else _] => destruct c end; [|keeps_ok_step].
  apply keeps_ok_modify. intros b. by apply overlays_ext.
Qed.

Lemma execute_loop_overlays base fuel ctx acc :
  keeps_ok (overlays base) (execute_loop (S := S) fuel ctx acc).
Proof.
  revert acc. induction fuel as [|fuel IH]; intros acc b rs b' Hb; simpl;
    destruct (negb _ && negb _); try (by intros [= _ <-]); try done.
  intros H. apply ST_bind_Ok in H as (tr & b1 & H1 & H). eapply IH; [|exact H].
  by eapply executeNextTransaction_overlays.
Qed.

Lemma executeBlock_overlays base : keeps_ok (overlays base) (executeBlock (S := S)).
Proof.
  intros b rs b' Hb. rewrite executeBlock_state. cbn zeta. destruct (ExecutionComplete _ && _); [done|].
  apply execute_loop_overlays. by apply (overlays_ext base b).
Qed.

(** The working ledger of [b] is the writes of the pending block over the
    registers of the latest block, as [GetRegisterValues] gives them. *)
Definition sees_committed b : Prop :=
  ∃ latest, getLatestBlock b = Ok latest ∧
  ∀ r, ∃ v, GetRegisterValues [r] (Block_Height latest) b = Ok [v] ∧
            es_Get (pb_ledgerState (b_pendingBlock b)) r =
            Ok (default v (WriteSet (finalized (pb_ledgerState (b_pendingBlock b))) !! r)).

Lemma latest_range b l latest :
  chain_inv b l → log_LatestBlock l = Ok latest → 0 ≤ Block_Height latest < next_height l.
Proof.
  intros HI Hp. unfold log_LatestBlock in Hp. apply bind_Ok in Hp as (h & _ & Hb).
  rewrite (log_block_height l h latest Hb). apply (log_block_dom l h (ci_log b l HI)). by rewrite Hb.
Qed.

Lemma sees_overlays b l latest :
  chain_inv b l → log_LatestBlock l = Ok latest →
  sees_committed b ↔ overlays (λ r, log_Register (Block_Height latest) r l) b.
Proof.
  intros HI Hl. pose proof (latest_range b l latest HI Hl) as Hr. unfold sees_committed.
  rewrite (getLatestBlock_log b l HI), Hl. split.
  - intros (x & [= <-] & H) r. destruct (H r) as (v & Hv & ->).
    rewrite (GetRegisterValues_log b l _ _ HI Hr) in Hv. by injection Hv as <-.
  - intros H. exists latest. split; [done|]. intros r. eexists. split; [|apply H].
    by rewrite (GetRegisterValues_log b l _ _ HI Hr).
Qed.

Lemma fresh_sees b l prev snap clock w :
  chain_inv b l → log_LatestBlock l = Ok prev →
  (∀ r, snap r = Ok (log_Register (Block_Height prev) r l)) →
  b_pendingBlock b = newPendingBlock prev snap clock w → sees_committed b.
Proof.
  intros HI Hp Hs Hpb. apply (sees_overlays b l prev HI Hp).
  intros r. unfold finalized. rewrite Hpb. simpl. by rewrite Get_New, Finalize_New, lookup_empty.
Qed.

Lemma reset_sees b l w : chain_inv b l → world_ok w → sees_committed (ResetPendingBlock w b).2.
Proof.
  intros HI Hw. destruct (ResetPendingBlock_run w b l HI Hw) as (prev & snap & Hp & Hrun & Hsnap & HI').
  rewrite Hrun in HI' |- *. simpl in HI' |- *. eapply fresh_sees; [exact HI'|exact Hp| |reflexivity].
  destruct (ref_LedgerByHeight _ _ (inv_refines b l HI) _ (latest_range b l prev HI Hp)) as (s & Hs & Hr).
  rewrite Hs in Hsnap. by injection Hsnap as <-.
Qed.

Lemma execute_sees b l rs b' :
  chain_inv b l → sees_committed b → executeBlock b = (Ok rs, b') → sees_committed b'.
Proof.
  intros HI Hsee He. destruct (ci_latest b l HI) as (prev & Hp & _).
  pose proof (executeBlock_inv b l HI) as HI'. rewrite He in HI'.
  apply (sees_overlays b' l prev HI' Hp). eapply executeBlock_overlays; [|exact He].
  by apply (sees_overlays b l prev HI Hp).
Qed.

Lemma add_sees tx b : sees_committed b → sees_committed (addTransaction tx b).2.
Proof. rewrite addTransaction_state. by destruct (admits tx b). Qed.

Lemma commit_sees b l w blk b' :
  chain_inv b l → next_height l < two64 → world_ok w →
  commitBlock w b = (Ok blk, b') → sees_committed b'.
Proof.
  intros HI Hn Hw Hc.
  destruct (commitBlock_cases w b l HI Hn Hw) as [(e & b1 & He & _)|(c & b1 & Hb & Hca)]; [congruence|].
  rewrite Hc in Hb. injection Hb as -> ->.
  destruct (ca_pending _ _ _ _ Hca) as (snap & clock & w1 & Hpb & Hr).
  eapply fresh_sees; [apply Hca| |exact Hr|exact Hpb].
  unfold commit_log. rewrite log_latest_index by apply Hca. apply log_latest_commit.
Qed.

(** C11 (pendingBlock.go, ledgerState): the transactions of a block read the writes
    of the earlier runs of the block over the registers of the latest block: it
    is so after a reset of the pending block and after a commit, and adding a
    transaction and every successful execution keep it so.
    (On a store whose writes succeed.) *)
Theorem execution_reads_latest_registers conf b w :
  reachable conf b → world_ok w →
  sees_committed (ResetPendingBlock w b).2 ∧
  (∀ tx, sees_committed b → sees_committed (addTransaction tx b).2) ∧
  (∀ rs b', sees_committed b → executeBlock b = (Ok rs, b') → sees_committed b') ∧
  (∀ latest blk b', getLatestBlock b = Ok latest → Block_Height latest + 1 < two64 →
     commitBlock w b = (Ok blk, b') → sees_committed b').
Proof.
  intros (l0 & es & evs & HI)%reachable_inv Hw. revert HI.
  generalize (l0 ++ [WCommit (genesis_commit conf es evs)]). clear l0. intros l HI.
  split; [by eapply reset_sees|]. split; [intros tx; apply add_sees|].
  split; [intros rs b'; by eapply execute_sees|].
  intros latest blk b' Hlat Hn Hc. pose proof (latest_Block b l latest HI Hlat) as Hh.
  eapply (commit_sees b l w); [done|lia|done|exact Hc].
Qed.

(** ** Chains whose executions and commits succeed *)

Lemma sees_ext b b' :
  b_storage b' = b_storage b → pb_ledgerState (b_pendingBlock b') = pb_ledgerState (b_pendingBlock b) →
  sees_committed b → sees_committed b'.
Proof. intros Hs Hl. unfold sees_committed, getLatestBlock, GetRegisterValues. by rewrite Hs, Hl. Qed.

Lemma executeAndCommit_sees w b l r b' :
  chain_inv b l → next_height l < two64 → world_ok w →
  executeAndCommitBlock w b = (Ok r, b') → sees_committed b'.
Proof.
  intros HI Hn Hw H. destruct r as [blk rs].
  destruct (executeAndCommitBlock_Ok w b l blk rs b' HI Hn Hw H) as (b1 & c & _ & HI1 & Hc & _ & _).
  by apply (commit_sees b1 l w blk b').
Qed.

Lemma reload_sees b l w :
  chain_inv b l → world_ok w → sees_committed (ReloadBlockchain w b).2.
Proof.
  intros HI Hw. destruct (ReloadBlockchain_run w b l HI Hw) as [_ HI']. revert HI'.
  destruct (ci_latest b l HI) as (prev & Hp & _).
  destruct (ref_LedgerByHeight _ _ (inv_refines b l HI) _ (latest_range b l prev HI Hp)) as (snap & Hs & Hr).
  unfold ReloadBlockchain, mbind, ST_bind, st_get, st_modify, on_storage. simpl.
  unfold configureLedger. rewrite (latest_refines b l prev (ci_store b l HI) Hp).
  unfold configureExistingLedger, mbind, ST_bind, st_read. rewrite Hs. simpl. intros HI'.
  by eapply (fresh_sees _ l prev snap); [exact HI'|done|done|reflexivity].
Qed.

(** The operation returned no error.  An operation that cannot touch the working
    ledger counts as such. *)
Definition succeeded (o : op) b : bool :=
  match o with
  | OSendTransaction tx w => is_Ok (SendTransaction tx w b).1
  | OExecuteNextTransaction => is_Ok (ExecuteNextTransaction b).1
  | OExecuteBlock => is_Ok (executeBlock b).1
  | OCommitBlock w => is_Ok (commitBlock w b).1
  | OExecuteAndCommitBlock w => is_Ok (executeAndCommitBlock w b).1
  | OTick w => is_Ok (executeBlock b).1 && is_Ok (commitBlock w (executeBlock b).2).1
  | _ => true
  end.

(** A chain that was created, or whose pending block was just replaced, and whose
    executions and commits have succeeded since. *)
Inductive clean (conf : config) : Blockchain (S := S) → Prop :=
  | clean_new s w ws b : start_ok conf s w ws → New conf s w ws = (Ok (), b) → clean conf b
  | clean_reset o b : reachable conf b → op_ok o b → resets o = true → clean conf (step o b)
  | clean_step o b : clean conf b → op_ok o b → succeeded o b = true → clean conf (step o b).

Lemma clean_reachable conf b : clean conf b → reachable conf b.
Proof.
  induction 1 as [s w ws b Hs Hn|o b (s & w & ws & b0 & H1 & H2 & H3) Hop _
                 |o b _ (s & w & ws & b0 & H1 & H2 & H3) Hop _].
  - by exists s, w, ws, b.
  - exists s, w, ws, b0. split_and!; [done..|]. eapply rtc_r; [done|]. by exists o.
  - exists s, w, ws, b0. split_and!; [done..|]. eapply rtc_r; [done|]. by exists o.
Qed.

Lemma reload_empty_sees w b b' :
  store_rel (b_storage b) [] → world_ok w → ReloadBlockchain w b = (Ok (), b') → sees_committed b'.
Proof.
  intros R Hw Hr. destruct (ReloadBlockchain_empty w b R Hw) as [(e & He & _)|(es & evs & _ & HI)];
    [by rewrite Hr in He|]. rewrite Hr in HI. simpl in HI.
  destruct (ci_latest b' _ HI) as (latest & Hl & _). pose proof (latest_range b' _ latest HI Hl) as Hrange.
  assert (latest = Genesis (GetChainID (b_conf b))) as -> by (by injection Hl).
  destruct (ref_LedgerByHeight _ _ (inv_refines b' _ HI) _ Hrange) as (snap & Hs & Hread).
  assert (∃ snap' clock w', LedgerByHeight 0 (b_storage b') = Ok snap' ∧
            b_pendingBlock b' = newPendingBlock (Genesis (GetChainID (b_conf b))) snap' clock w')
    as (snap' & clock & w' & Hs' & Hp).
  { clear -Hr R. unfold ReloadBlockchain, mbind, ST_bind, st_get, st_modify, on_storage in Hr. simpl in Hr.
    unfold configureLedger in Hr. rewrite (ref_LatestBlock _ _ (store_rel_refines _ _ R)) in Hr. simpl in Hr.
    unfold configureNewLedger, mbind, ST_bind, st_read in Hr. simpl in Hr.
    repeat case_match; simplify_eq. unfold mret, ST_ret in *. simplify_eq. simpl. eauto. }
  change (Block_Height (Genesis (GetChainID (b_conf b)))) with 0 in Hs. rewrite Hs' in Hs. injection Hs as ->.
  by eapply (fresh_sees b' _ _ snap clock w').
Qed.

Lemma DeployContracts_sees ds b l b' :
  chain_inv b l → Size (b_pendingBlock b) = 0 → next_height l + Z.of_nat (length ds) ≤ two64 →
  Forall (λ d : ContractDescription * World, world_ok d.2) ds →
  sees_committed b → DeployContracts ds b = (Ok (), b') → sees_committed b'.
Proof.
  intros HI Hs Hn Hw. revert b l HI Hs Hn. induction Hw as [|d ds Hd _ IH]; intros b l HI Hs Hn Hsee H.
  - by injection H as <-.
  - simpl in H, Hn. apply ST_bind_Ok in H as ([] & b1 & H1 & H2).
    destruct (deployContract_inv _ _ _ b l b1 HI Hs ltac:(lia) Hd H1) as (ws & HI1 & Hs1 & Hn1).
    apply (IH b1 (ws ++ l) HI1 Hs1 ltac:(lia)); [|done]. clear IH H2. unfold deployContract in H1.
    apply ST_bind_Ok in H1 as (k & b2 & Hk & H1).
    destruct (currentServiceKey_keeps b b) as [E1 E2]; [done|]. rewrite Hk in E1, E2. simpl in E1, E2.
    assert (chain_inv b2 l) as HI2 by (by apply (chain_inv_ext b)).
    destruct (negb _); [done|]. apply ST_bind_Ok in H1 as (blk & b3 & [= _ <-] & H1).
    apply ST_bind_Ok in H1 as (tx & b3 & [= _ <-] & H1). apply ST_bind_Ok in H1 as ([] & b4 & Ha & H1).
    pose proof (addTransaction_inv (SDKTransactionToFlow tx) b2 l HI2) as HI4.
    rewrite Ha in HI4. specialize (HI4 ltac:(rewrite E2, Hs; done)). simpl in HI4.
    apply ST_bind_Ok in H1 as (r & b5 & He & H1). apply ST_bind_Ok in H1 as (last & b6 & [= _ <-] & H1).
    destruct (tr_Error last); [done|]. injection H1 as <-.
    by apply (executeAndCommit_sees d.2 b4 l r b5 HI4 ltac:(lia) Hd).
Qed.

Lemma New_sees conf s w ws b :
  start_ok conf s w ws → New conf s w ws = (Ok (), b) → sees_committed b.
Proof.
  intros (R & Hw & Hws & Hlen) H. unfold New in H. apply ST_bind_Ok in H as ([] & b1 & Hr & H).
  pose proof (reload_empty_sees w (initial conf s w) b1 R Hw Hr) as Hsee.
  destruct (ReloadBlockchain_empty w (initial conf s w) R Hw) as [(e & He & _)|(es & evs & _ & HI)];
    [by rewrite Hr in He|]. rewrite Hr in HI. simpl in HI.
  assert (Size (b_pendingBlock b1) = 0) as Hs.
  { clear -Hr. unfold ReloadBlockchain in Hr. inv_binds. unfold st_modify, st_get in *. by simplify_eq. }
  apply ST_bind_Ok in H as ([] & b2 & [= <-] & H). apply ST_bind_Ok in H as ([] & b3 & [= <-] & H).
  eapply DeployContracts_sees in H; [done|..].
  - apply cache_if_inv. by apply (cache_if_inv (λ _, _)).
  - unfold cache_if. by repeat case_match.
  - rewrite length_imap, next_height_commit. simpl. unfold bc_height. simpl.
    unfold Block_Height, Genesis. simpl. lia.
  - apply list.Forall_forall. intros d (i & c & -> & _)%elem_of_lookup_imap_1. apply Hws.
  - apply (sees_ext b1); [unfold cache_if; by repeat case_match..|done].
Qed.

Lemma step_sees o b l :
  chain_inv b l → op_ok o b → resets o = false → succeeded o b = true → sees_committed b →
  sees_committed (step o b).
Proof.
  intros HI Hop Hr Hsuc Hsee. pose proof (op_ok_height o b l HI Hop) as Hn.
  destruct Hop as (Hs & _ & Hw & Hoff). destruct (ci_latest b l HI) as (prev & Hp & _).
  destruct (optional o) eqn:Hopt; [by rewrite (not_offered o b Hopt Hoff)|].
  destruct o as [tx|tx w| | |w|w|w|w|w|c w|on|on|sc args i| | | |]; try done; simpl in Hw, Hsuc |- *.
  - by apply add_sees.
  - pose proof (addTransaction_inv tx b l HI Hs) as HI1. pose proof (add_sees tx b Hsee) as Hsee1.
    unfold SendTransaction in Hsuc |- *.
    destruct (addTransaction tx b) as [[[]|e] b1] eqn:Ha; simpl in HI1, Hsee1;
      [|by erewrite ST_bind_fail by exact Ha].
    rewrite (ST_bind_step _ _ b () b1 Ha) in Hsuc |- *.
    rewrite (ST_bind_step (st_get (λ b, conf_AutoMine (b_conf b))) _ b1 _ b1 eq_refl) in Hsuc |- *.
    destruct (conf_AutoMine (b_conf b1)); [|done]. unfold mbind, ST_bind in Hsuc |- *.
    destruct (executeAndCommitBlock w b1) as [[r|e] b2] eqn:He; [|done].
    by apply (executeAndCommit_sees w b1 l r b2).
  - change (ExecuteNextTransaction b)
      with (executeNextTransaction (block_context b) (set_vmCtx (block_context b) b)) in Hsuc |- *.
    assert (chain_inv (set_vmCtx (block_context b) b) l) as HI0 by (by apply (chain_inv_ext b)).
    pose proof (executeNextTransaction_inv (block_context b) _ l HI0) as HI1.
    destruct (executeNextTransaction _ _) as [[tr|e] b1] eqn:He; [|done]. simpl in HI1 |- *.
    apply (sees_overlays b1 l prev HI1 Hp). eapply executeNextTransaction_overlays; [|exact He].
    by apply (sees_overlays b l prev HI Hp).
  - destruct (executeBlock b) as [[rs|e] b1] eqn:He; [|done]. by apply (execute_sees b l rs b1).
  - destruct (commitBlock w b) as [[blk|e] b1] eqn:He; [|done]. by apply (commit_sees b l w blk b1).
  - destruct (executeAndCommitBlock w b) as [[r|e] b1] eqn:He; [|done].
    by apply (executeAndCommit_sees w b l r b1).
  - pose proof (executeBlock_inv b l HI) as HI1. unfold tick. apply andb_prop in Hsuc as [_ Hsuc].
    destruct (commitBlock w (executeBlock b).2) as [[blk|e] b1] eqn:He; [|done].
    by apply (commit_sees (executeBlock b).2 l w blk b1).
  - destruct on; by apply (sees_ext b).
  - destruct on; by apply (sees_ext b).
  - destruct (script_keeps sc args i b b) as [H1 H2]; [done|]. apply (sees_ext b); [done|by rewrite H2|done].
  - destruct (currentServiceKey_keeps b b) as [H1 H2]; [done|]. apply (sees_ext b); [done|by rewrite H2|done].
Qed.

Lemma resets_sees o b l :
  chain_inv b l → op_ok o b → resets o = true → sees_committed (step o b).
Proof.
  intros HI (_ & _ & Hw & _) Hr. destruct o as [| | | | | |w| |w| | | | | | | |]; try done; simpl in *.
  - by apply (reset_sees b l).
  - by apply (reload_sees b l).
Qed.

Lemma clean_sees conf b : clean conf b → sees_committed b.
Proof.
  induction 1 as [s w ws b Hs Hn|o b HR Hop Hr|o b Hc IH Hop Hsuc].
  - by apply (New_sees conf s w ws).
  - destruct (reachable_inv conf b HR) as (l & es & evs & HI). by eapply resets_sees.
  - destruct (reachable_inv conf b (clean_reachable conf b Hc)) as (l & es & evs & HI).
    destruct (resets o) eqn:Hr; [by eapply resets_sees|by eapply step_sees].
Qed.

(** C10 (commitBlock): a commit makes the working ledger, as the user, scheduled and
    system transactions of the block left it, the registers of the new height.  On
    a chain that was created, or whose pending block was replaced, and whose
    executions and commits have succeeded since: every register of the new height
    has the value that the working ledger had when the system transactions had run,
    just before it was finalized, and the first run of the next block reads it.
    (On a store whose writes succeed.) *)
Theorem commit_persists_ledger conf b w latest sr b1 blk b' r :
  clean conf b → world_ok w → getLatestBlock b = Ok latest → Block_Height latest + 1 < two64 →
  executeSystem (b_pendingBlock b) b = (Ok sr, b1) → commitBlock w b = (Ok blk, b') →
  ∃ v, es_Get (pb_ledgerState (b_pendingBlock b1)) r = Ok v ∧
       GetRegisterValues [r] (Block_Height blk) b' = Ok [v] ∧
       es_Get (pb_ledgerState (b_pendingBlock b')) r = Ok v.
Proof.
  intros Hclean Hw Hlat Hn. pose proof (clean_sees conf b Hclean) as Hsee.
  destruct (reachable_inv conf b (clean_reachable conf b Hclean)) as (l0 & es & evs & HI). revert HI.
  generalize (l0 ++ [WCommit (genesis_commit conf es evs)]). clear l0. intros l HI Hsys Hc.
  pose proof (latest_Block b l latest HI Hlat) as Hh. rewrite (getLatestBlock_log b l HI) in Hlat.
  apply (sees_overlays b l latest HI Hlat) in Hsee.
  pose proof (executeSystem_overlays _ _ b sr b1 Hsee Hsys r) as Hread. rewrite Hread. clear Hread.
  eexists. split; [reflexivity|].
  destruct (prepareCommit (b_pendingBlock b) b) as [[c|e] b2] eqn:Hprep.
  2:{ unfold commitBlock in Hc. rewrite (ST_bind_step _ _ b (b_pendingBlock b) b) in Hc by reflexivity.
      destruct (negb _ && negb _); [done|]. destruct (_ && negb _); [done|].
      by rewrite (ST_bind_fail _ _ b e b2 Hprep) in Hc. }
  pose proof (prepareCommit_Ok _ _ _ _ Hprep) as (sr' & b1' & Hsys' & Heq).
  rewrite Hsys in Hsys'. injection Hsys' as <- <-.
  assert (bc_executionSnapshot c = finalized (pb_ledgerState (b_pendingBlock b1))) as Hsnap by (by rewrite Heq).
  clear Heq. destruct (commitBlock_run w b l c b2 HI ltac:(lia) Hw Hprep blk b' Hc) as (-> & Hca).
  pose proof (prep_block _ _ (ca_prepared _ _ _ _ Hca)) as Hblk.
  assert (bc_height c = next_height l) as Hbh
    by (unfold bc_height; rewrite Hblk; apply (pending_height b l HI); lia).
  assert (log_Register (bc_height c) r (commit_log c (b_systemTransactions b) l) =
          default (log_Register (Block_Height latest) r l) (WriteSet (finalized (pb_ledgerState (b_pendingBlock b1))) !! r)) as Hreg.
  { unfold commit_log. rewrite log_register_index by apply Hca.
    rewrite log_register_commit, Hsnap by lia.
    destruct (WriteSet _ !! r); [done|]. simpl. symmetry. by apply log_register_beyond; [apply HI|lia|lia]. }
  destruct (ca_pending _ _ _ _ Hca) as (snap & clock & w1 & Hpb & Hr). split.
  - pose proof (latest_range b l latest HI Hlat). rewrite <- Hblk.
    rewrite (GetRegisterValues_log b' _ _ _ (ca_inv _ _ _ _ Hca)).
    + simpl. unfold bc_height in Hreg. by rewrite Hreg.
    + unfold commit_log. rewrite next_height_index by apply Hca. rewrite next_height_commit.
      unfold bc_height in *. lia.
  - rewrite Hpb. simpl. by rewrite Get_New, Hr, Hreg.
Qed.
End ledger.
