(* ===== verification/Creation.v ===== *)
(** The creation of a chain, its restart on a store with blocks, and the numbers
    of the scheduled transactions. *)
From S2P Require Import Prelude FlowTypes Errors Storage Report Convert Pragma Vm PendingBlock.
From S2P Require Import Blockchain Queries BlockchainCorrect Chain ChainTheorems.

Section creation.
Context {FM : FlowModel} {CA : Cadence} {VM : VirtualMachine} {CK : Clocks} {CR : Crypto}
        {SG : Signing} {CP : CadenceParser} {KS : KindString} {GO : GoMapOrder}
        {S : Type} `{!Store S} {OI : OptionalInterfaces S} {SC : StoreCorrect S} {TS : TotalStore S}.
Implicit Types b : Blockchain (S := S).

Lemma cache_if_fields m b :
  b_storage (cache_if (S := S) m b) = b_storage b ∧
  b_pendingBlock (cache_if (S := S) m b) = b_pendingBlock b.
Proof. unfold cache_if. by destruct m. Qed.

(** Without contracts to deploy, a creation is a reload. *)
Lemma New_reload conf s w ws :
  conf_Contracts conf = [] →
  (New conf s w ws).1 = (ReloadBlockchain w (initial conf s w)).1 ∧
  b_storage (New conf s w ws).2 = b_storage (ReloadBlockchain w (initial conf s w)).2 ∧
  b_pendingBlock (New conf s w ws).2 = b_pendingBlock (ReloadBlockchain w (initial conf s w)).2.
Proof.
  intros Hc. unfold New. rewrite Hc.
  destruct (ReloadBlockchain w (initial conf s w)) as [[[]|e] b] eqn:Hr;
    [|by rewrite (ST_bind_fail _ _ _ e b Hr)].
  rewrite (ST_bind_step _ _ _ () b Hr). unfold mbind, ST_bind. simpl. split; [done|].
  destruct (cache_if_fields (systemChunkTransaction
    (cache_if (ProcessCallbacksTransaction (conf_ChainID conf)) b))
    (cache_if (ProcessCallbacksTransaction (conf_ChainID conf)) b)) as [-> ->].
  by destruct (cache_if_fields (ProcessCallbacksTransaction (conf_ChainID conf)) b) as [-> ->].
Qed.

(** (New, configureNewLedger): on an empty store the creation of a chain
    without contracts either fails and writes nothing, or the genesis block of
    the configured chain is the only block and an empty pending block extends
    it. *)
Theorem new_chain_starts_at_genesis conf s w ws :
  start_ok conf s w ws → conf_Contracts conf = [] →
  (∃ e, (New conf s w ws).1 = Err e ∧ b_storage (New conf s w ws).2 = s) ∨
  ((New conf s w ws).1 = Ok () ∧
   getLatestBlock (New conf s w ws).2 = Ok (Genesis (GetChainID conf)) ∧
   (∀ h, is_u64 h → 0 < h → is_Ok (getBlockByHeight h (New conf s w ws).2) = false) ∧
   extends (Genesis (GetChainID conf)) (b_pendingBlock (New conf s w ws).2) ∧
   pb_transactionIDs (b_pendingBlock (New conf s w ws).2) = []).
Proof.
  intros (R & Hw & Hws & _) Hc. destruct (New_reload conf s w ws Hc) as (H1 & H2 & H3).
  pose proof (ReloadBlockchain_empty w (initial conf s w) R Hw) as [(e & He & Hs)|(es & evs & Ho & HI)].
  { left. exists e. rewrite H1, H2. done. }
  right. rewrite H1. split; [done|].
  apply (chain_inv_ext _ (New conf s w ws).2) in HI as HI'; [|done|done].
  rewrite (getLatestBlock_log _ _ HI'). split; [done|]. split; [|split].
  - intros h Hu Hh. rewrite (getBlockByHeight_log _ _ h HI' Hu), log_block_commit, decide_False; [done|].
    intros Heq. change (0 = h) in Heq. lia.
  - by destruct (ci_latest _ _ HI') as (prev & [= <-] & Hext).
  - rewrite H3. destruct (ReloadBlockchain w (initial conf s w)) as [[[]|e] b] eqn:Hr; [|done].
    unfold ReloadBlockchain in Hr. inv_binds. unfold st_modify, st_get in *. by simplify_eq.
Qed.

(** (New, configureExistingLedger): a chain that is created again on the store
    of an earlier one, without contracts, resumes it: nothing is written, the
    latest block is the earlier chain's, and an empty pending block extends it
    (whatever was pending is gone). *)
Theorem restart_resumes conf conf' b w ws latest :
  reachable conf b → world_ok w → conf_Contracts conf' = [] → getLatestBlock b = Ok latest →
  (New conf' (b_storage b) w ws).1 = Ok () ∧
  b_storage (New conf' (b_storage b) w ws).2 = b_storage b ∧
  getLatestBlock (New conf' (b_storage b) w ws).2 = Ok latest ∧
  extends latest (b_pendingBlock (New conf' (b_storage b) w ws).2) ∧
  pb_transactionIDs (b_pendingBlock (New conf' (b_storage b) w ws).2) = [].
Proof.
  intros (l & es & evs & HI)%reachable_inv Hw Hc Hlat.
  destruct (New_reload conf' (b_storage b) w ws Hc) as (H1 & H2 & H3).
  rewrite H1, H2, H3. unfold getLatestBlock in *. rewrite H2.
  destruct (ref_LedgerByHeight_total _ _ (inv_refines b _ HI) (Block_Height latest)) as [snap Hs].
  unfold ReloadBlockchain, mbind, ST_bind, st_get, st_modify, on_storage. simpl.
  unfold configureLedger. rewrite Hlat.
  unfold configureExistingLedger, mbind, ST_bind, st_read. rewrite Hs. simpl.
  split; [done|]. split; [done|]. split; [done|]. split; [|done]. by apply new_extends.
Qed.

(** (parseScheduledIDs and the scan of its texts): the texts are, in order,
    those of the events of the asked type, one for each, and scanning a text
    gives back the number in the event's [id] field. *)
Theorem scheduled_ids_read_back {CL : CadenceLaws CA} ty events ids :
  parseScheduledIDs ty events = Ok ids →
  Forall2 (λ e id, ∃ v ce f n, ccf_Decode (ev_Payload e) = Ok v ∧ as_Event v = Some ce ∧
             SearchFieldByName ce "id" = Some f ∧ as_UInt64 f = Some n ∧ sscanf_u64 id = Some n)
    (filter (λ e, ev_Type e = ty) events) ids.
Proof.
  revert ids. induction events as [|e events IH]; intros ids; simpl; [intros [= <-]; constructor|].
  rewrite filter_cons. case_decide as Hd.
  - rewrite decide_False by done. apply IH.
  - rewrite decide_True by (by destruct (decide (ty = ev_Type e))).
    intros H. apply bind_Ok in H as (v & Hv & H). apply bind_Ok in H as (ce & Hce & H).
    apply bind_Ok in H as (n & Hn & H). apply bind_Ok in H as (ids' & Hids & [= <-]).
    constructor; [|by apply IH].
    destruct (ccf_Decode (ev_Payload e)) as [v'|] eqn:Hdec; [|done]. injection Hv as ->.
    destruct (as_Event v) as [ce'|] eqn:Hev; [|done]. injection Hce as ->.
    destruct (SearchFieldByName ce "id") as [f|] eqn:Hf; [|done]. simpl in Hn.
    destruct (as_UInt64 f) as [m|] eqn:Hm; [|done]. injection Hn as ->.
    exists v, ce, f, n. split; [done|]. split; [done|]. split; [done|]. split; [done|].
    apply sscanf_show. by apply (as_UInt64_range f).
Qed.
End creation.
