(* ===== verification/Checkpoint.v ===== *)
(** storage/checkpoint/checkpoint.go: a memory store whose genesis block carries
    the registers of an execution-state checkpoint, and the chain that starts
    on it.

    flow-go's ledger (the write-ahead log, the compactor, the tries) and the
    conversion of a payload are parameters. *)
From S2P Require Import Prelude FlowTypes Errors Storage Keys Memstore Report Convert Pragma Vm.
From S2P Require Import PendingBlock Blockchain Queries BlockchainCorrect Chain ChainTheorems Creation.

Class CheckpointLedger := {
  StateCommitment : Type;
  (** [flowgo.ToStateCommitment] *)
  ToStateCommitment : Bytes → result StateCommitment;
  (** A ledger opened on a directory: [wal.NewDiskWAL], [complete.NewLedger] and
      [complete.NewCompactor], with the text of the one that fails. *)
  Ledger : Type;
  NewDiskWAL : string → result unit;
  NewLedger : string → result Ledger;
  NewCompactor : string → Ledger → result unit;
  ledger_Payload : Type;
  (** [led.FindTrieByStateCommit] and [trie.AllPayloads] *)
  FindTrieByStateCommit : Ledger → StateCommitment → result (list ledger_Payload);
  PayloadToRegister : ledger_Payload → result (RegisterID * RegisterValue)
}.

Module Checkpoint.
Section checkpoint.
Context {FM : FlowModel} {GO : GoMapOrder} {ST : SnapshotTrees} {CL : CheckpointLedger}
        {LT : LibraryTexts}.

(** [writeSet[id] = value] for the payloads in order. *)
Fixpoint write_set (payloads : list ledger_Payload) (m : gmap RegisterID RegisterValue)
    : result (gmap RegisterID RegisterValue) :=
  match payloads with
  | [] => Ok m
  | p :: payloads =>
      r ← map_err (Errorf_w "cannot convert payload to register: ") (PayloadToRegister p);
      write_set payloads (<[r.1 := r.2]> m)
  end.

Definition loadSnapshotFromCheckpoint (dir : string) (targetHash : StateCommitment)
    : result ExecutionSnapshot :=
  _ ← map_err (Errorf_w "cannot create disk WAL: ") (NewDiskWAL dir);
  led ← map_err (Errorf_w "cannot create ledger from write-a-head logs and checkpoints: ")
          (NewLedger dir);
  _ ← map_err (Errorf_w "cannot create compactor: ") (NewCompactor dir led);
  payloads ← map_err (Errorf_w "cannot find trie by state commitment: ")
               (FindTrieByStateCommit led targetHash);
  writeSet ← write_set payloads ∅;
  Ok (mkExecutionSnapshot writeSet).

Definition Genesis (chainID : ChainID) : Block :=
  mkBlock (mkHeaderBody chainID ZeroID 0 (u64 (time_UnixMilli GenesisTime)) 0) NewEmptyPayload.

Definition New (path : string) (stateCommitment : string) (chainID : ChainID)
    : result Mem.Memstore :=
  stateCommitmentBytes ← map_err (Errorf_w "invalid state commitment hex: ")
    (of_option (LibraryError "encoding/hex: invalid byte") (hex_decode (bytes_of_string stateCommitment)));
  state ← map_err (Errorf_w "invalid state commitment: ") (ToStateCommitment stateCommitmentBytes);
  snap ← map_err (Errorf_w "failed to load snapshot from checkpoint: ")
           (loadSnapshotFromCheckpoint path state);
  match CommitBlock (mkBlockCommit (Genesis chainID) [] ∅ ∅ [] ∅ ∅ snap [] ∅) Mem.New with
  | (Ok _, store) => Ok store
  | (Err err, _) => Err (Errorf ("failed to commit genesis block: " +:+ Error_text err))
  end.
End checkpoint.
End Checkpoint.

Section checkpoint_chain.
Context {FM : FlowModel} {FL : FlowModelLaws FM} {CA : Cadence} {VM : VirtualMachine} {CK : Clocks}
        {CR : Crypto} {SG : Signing} {CP : CadenceParser} {KS : KindString} {GO : GoMapOrder}
        {ST : SnapshotTrees} {TL : SnapshotTreeLaws ST} {CL : CheckpointLedger}
        {LT : LibraryTexts}.

(** The value of a register in a list of payloads: that of the last one. *)
Definition register_of (r : RegisterID) (payloads : list ledger_Payload) : RegisterValue :=
  foldl (λ v p, match PayloadToRegister p with
                | Ok q => if decide (q.1 = r) then q.2 else v
                | Err _ => v
                end) [] payloads.

Lemma write_set_register payloads m m' r :
  Checkpoint.write_set payloads m = Ok m' →
  default [] (m' !! r) =
  foldl (λ v p, match PayloadToRegister p with
                | Ok q => if decide (q.1 = r) then q.2 else v
                | Err _ => v
                end) (default [] (m !! r)) payloads.
Proof.
  revert m. induction payloads as [|p payloads IH]; intros m; simpl; [by intros [= ->]|].
  destruct (PayloadToRegister p) as [q|]; [|done]. simpl. intros H. rewrite (IH _ H).
  f_equal. case_decide as Hr; [by rewrite Hr, lookup_insert_eq|by rewrite lookup_insert_ne].
Qed.

Definition checkpoint_commit (chainID : ChainID) (es : ExecutionSnapshot) : BlockCommit :=
  mkBlockCommit (Genesis chainID) [] ∅ ∅ [] ∅ ∅ es [] ∅.

Lemma checkpoint_store path hash chainID s :
  Checkpoint.New path hash chainID = Ok s →
  ∃ bs state led payloads es,
    hex_decode (bytes_of_string hash) = Some bs ∧ ToStateCommitment bs = Ok state ∧
    NewLedger path = Ok led ∧ FindTrieByStateCommit led state = Ok payloads ∧
    (∀ r, default [] (WriteSet es !! r) = register_of r payloads) ∧
    Mem.mem_rel s [WCommit (checkpoint_commit chainID es)].
Proof.
  unfold Checkpoint.New. destruct (hex_decode _) as [bs|]; [|done]. simpl.
  destruct (ToStateCommitment bs) as [state|] eqn:Hstate; [|done]. simpl.
  unfold Checkpoint.loadSnapshotFromCheckpoint.
  destruct (NewDiskWAL path); [|done]. simpl. destruct (NewLedger path) as [led|] eqn:Hled; [|done]. simpl.
  destruct (NewCompactor path led); [|done]. simpl.
  destruct (FindTrieByStateCommit led state) as [payloads|] eqn:Htrie; [|done]. simpl.
  destruct (Checkpoint.write_set payloads ∅) as [m|] eqn:Hm; [|done]. intros H.
  exists bs, state, led, payloads, (mkExecutionSnapshot m). split_and!; [done..| |].
  { intros r. pose proof (write_set_register payloads ∅ m r Hm) as Hw. by rewrite lookup_empty in Hw. }
  set (c := checkpoint_commit chainID (mkExecutionSnapshot m)).
  destruct (Mem.mem_rel_step Mem.New [] (WCommit c) Mem.mem_rel_New) as (s' & Hs & R).
  { constructor; [constructor|]. split; [done|]. split; [by split|]. by split. }
  change (Mem.mem_CommitBlock c Mem.New = (Ok (), s')) in Hs.
  cbn [mbind res_bind map_err] in H. change (Checkpoint.Genesis chainID) with (Genesis chainID) in H.
  change (mkBlockCommit _ _ _ _ _ _ _ _ _ _) with c in H. rewrite Hs in H. by injection H as <-.
Qed.

(** C24 (checkpoint.go, New, with blockchain.go, configureLedger): a chain with no
    contracts to deploy, made on the store of a checkpoint, takes the checkpoint's state for its genesis: nothing
    is bootstrapped, the latest block is the genesis block of the chain ID given
    to the checkpoint, a register has the value of its last payload in the trie of
    the state commitment, and an empty pending block extends the genesis block. *)
Theorem checkpoint_is_genesis path hash chainID s conf w ws :
  Checkpoint.New path hash chainID = Ok s → conf_Contracts conf = [] → world_ok w →
  ∃ b bs state led payloads,
    New conf s w ws = (Ok (), b) ∧ b_storage b = s ∧
    hex_decode (bytes_of_string hash) = Some bs ∧ ToStateCommitment bs = Ok state ∧
    NewLedger path = Ok led ∧ FindTrieByStateCommit led state = Ok payloads ∧
    getLatestBlock b = Ok (Genesis chainID) ∧
    (∀ ids, GetRegisterValues ids 0 b = Ok ((λ r, register_of r payloads) <$> ids)) ∧
    extends (Genesis chainID) (b_pendingBlock b) ∧ pb_transactionIDs (b_pendingBlock b) = [].
Proof.
  intros (bs & state & led & payloads & es & H1 & H2 & H3 & H4 & Hes & R)%checkpoint_store Hc Hw.
  pose proof (Mem.mem_rel_refines _ _ R) as Q.
  assert (LatestBlock s = Ok (Genesis chainID)) as Hl by apply (ref_LatestBlock _ _ Q).
  destruct (ref_LedgerByHeight _ _ Q 0) as (snap & Hs & Hsnap).
  { rewrite next_height_commit. unfold bc_height. simpl. unfold Block_Height. simpl. lia. }
  destruct (New_reload conf s w ws Hc) as (N1 & N2 & N3).
  assert (ReloadBlockchain w (initial conf s w) = (Ok (), (ReloadBlockchain w (initial conf s w)).2) ∧
    b_storage (ReloadBlockchain w (initial conf s w)).2 = s ∧
    b_pendingBlock (ReloadBlockchain w (initial conf s w)).2 =
      newPendingBlock (Genesis chainID) snap (b_clock (initial conf s w)) w) as (E1 & E2 & E3).
  { unfold ReloadBlockchain, mbind, ST_bind, st_get, st_modify, on_storage. simpl.
    unfold configureLedger. rewrite Hl.
    unfold configureExistingLedger, mbind, ST_bind, st_read.
    change (Block_Height (Genesis chainID)) with 0. by rewrite Hs. }
  rewrite E1 in N1. rewrite E2 in N2. rewrite E3 in N3.
  exists (New conf s w ws).2, bs, state, led, payloads. split_and!; [|done..|done| | | |].
  - destruct (New conf s w ws) as [r b]. simpl in N1 |- *. by rewrite N1.
  - unfold getLatestBlock. by rewrite N2.
  - intros ids. unfold GetRegisterValues. rewrite N2, Hs. simpl. apply res_map_total. intros r _.
    rewrite Hsnap, log_register_commit by done. rewrite <- Hes. simpl.
    by destruct (WriteSet es !! r).
  - rewrite N3. by apply new_extends.
  - by rewrite N3.
Qed.
End checkpoint_chain.
