(* ===== verification/Providers.v ===== *)
(** The stores as one type, and their constructors.

    A value of the Go interface [storage.Store] is one of the stores together
    with its dynamic type: [provider].  Its methods dispatch on the type, and the
    assertions of an optional interface ask for it.  The constructors of the
    stores (storage/util/defaultStore.go and its WebAssembly variant,
    sqlite.New, redis.New, config.GetStore) are translated on top, so that the
    server's choice of a store ([ServerConfig]) is made among these.

    A fork ([PRemote]) reads its registers without keeping what a read puts into
    its cache, which no later read can notice (see [RemoteTheorems]). *)
From S2P Require Import Prelude FlowTypes Errors Storage Keys Memstore DefaultStore.
From S2P Require Import DefaultStoreCorrect Sqlite SqliteCorrect Redis Remote Report Convert Pragma Vm PendingBlock.
From S2P Require Import Blockchain Config ServerConfig Queries Checkpoint StoreTheorems.

(** The failures of the file system and of the database driver. *)
Class Databases := {
  (** [os.Stat]: whether the path is a directory *)
  os_Stat : string → result bool;
  (** [sql.Open]: the databases of the place *)
  sql_Open : string → result (gmap string database);
  (** [db.Exec] of a pragma *)
  db_Exec : string → string → option error;
  (** the transaction of [initDb] *)
  db_init : string → option error
}.

(** An in-memory database starts empty. *)
Class DatabasesLaws (DB : Databases) : Prop :=
  memory_empty found : sql_Open sqlite_InMemory = Ok found → found = ∅.

(** [redis.ParseURL], and the data that the client of the options sees. *)
Class RedisClient {RS : RedisServer} := {
  redis_Options : Type;
  ParseURL : string → result redis_Options;
  NewClient : redis_Options → DB
}.

Section constructors.
Context {SE : SqlEngine} {DB : Databases} {RS : RedisServer} {RC : RedisClient}.

Definition wal_pragmas : list string := ["PRAGMA journal_mode=WAL"; "PRAGMA busy_timeout=5000"]%string.

(** sqlite.New; the directory's database is its emulator.sqlite. *)
Definition sqlite_New (url : string) (multiProcessAccess : bool) (now : Time) : result Sqlite.Store :=
  loc ← (if decide (url = sqlite_InMemory) then Ok InMemory
         else isDir ← map_err (Errorf_w "unable to find database file: ") (os_Stat url);
              Ok (if (isDir : bool) then Directory else File));
  let dbUrl := match loc with Directory => Join url "emulator.sqlite" | _ => url end in
  found ← sql_Open dbUrl;
  _ ← (if multiProcessAccess
       then res_map (λ pragma, match db_Exec dbUrl pragma with
                           | Some e => Err (Errorf_w ("failed to set " +:+ pragma +:+ ": ") e)
                           | None => Ok ()
                           end) wal_pragmas
       else Ok []);
  _ ← match db_init dbUrl with Some e => Err e | None => Ok () end;
  Ok (Sqlite.New loc (time_UnixMilli now) found).

(** redis.New *)
Definition redis_New (url : string) : result Redis.Store :=
  options ← ParseURL url;
  Ok (Redis.mkStore (NewClient options) 0).
End constructors.

Section providers.
Context {FM : FlowModel} {TR : SnapshotTrees} {CD : Codecs} {GO : GoMapOrder} {SE : SqlEngine}
        {RS : RedisServer} {AN : AccessNode}.

Inductive provider :=
  | PMemory (s : Mem.Memstore)
  | PSqlite (s : Sqlite.Store)
  | PRedis (s : Redis.Store)
  | PRemote (s : Remote.Store).

(** A method of the interface; those that a fork does not override are the
    methods of the SQLite store that it embeds. *)
Definition query {A} (f : ∀ {S} `{!Store S}, S → A) (p : provider) : A :=
  match p with
  | PMemory s => f s
  | PSqlite s => f s
  | PRedis s => f s
  | PRemote s => f (Remote.rs_Store s)
  end.
Definition update {A} (f : ∀ {S} `{!Store S}, ST error S A) : ST error provider A := λ p,
  match p with
  | PMemory s => let '(r, s) := f s in (r, PMemory s)
  | PSqlite s => let '(r, s) := f s in (r, PSqlite s)
  | PRedis s => let '(r, s) := f s in (r, PRedis s)
  | PRemote s => let '(r, s) := Remote.on_overlay f s in (r, PRemote s)
  end.

(** The methods that a fork overrides. *)
Definition override {A} (f : ∀ {S} `{!Store S}, S → A) (g : Remote.Store → A) (p : provider) : A :=
  match p with PRemote s => g s | _ => query (@f) p end.

#[global] Instance provider_Store : Store provider := {
  LatestBlockHeight := query (λ _ _, LatestBlockHeight);
  LatestBlock := override (λ _ _, LatestBlock) Remote.LatestBlock;
  StoreBlock b := update (λ _ _, StoreBlock b);
  StoreSystemTransactions t := update (λ _ _, StoreSystemTransactions t);
  SystemTransactionsForBlockID b := query (λ _ _, SystemTransactionsForBlockID b);
  IndexScheduledTransactionID n b := update (λ _ _, IndexScheduledTransactionID n b);
  BlockIDByScheduledTransactionID n := query (λ _ _, BlockIDByScheduledTransactionID n);
  IndexScheduledTransactionBlockID t b := update (λ _ _, IndexScheduledTransactionBlockID t b);
  ScheduledTransactionBlockIDByTxID t := query (λ _ _, ScheduledTransactionBlockIDByTxID t);
  BlockByID id := override (λ _ _, BlockByID id) (Remote.BlockByID id);
  BlockByHeight h := override (λ _ _, BlockByHeight h) (Remote.BlockByHeight h);
  CommitBlock c := update (λ _ _, CommitBlock c);
  CollectionByID id := query (λ _ _, CollectionByID id);
  FullCollectionByID id := query (λ _ _, FullCollectionByID id);
  TransactionByID id := query (λ _ _, TransactionByID id);
  TransactionResultByID id := query (λ _ _, TransactionResultByID id);
  SystemTransactionResultByID b t := query (λ _ _, SystemTransactionResultByID b t);
  LedgerByHeight h := override (λ _ _, LedgerByHeight h)
                        (λ s, Ok (λ r, (Remote.ledger_Get h r s).1));
  EventsByHeight h ty := query (λ _ _, EventsByHeight h ty)
}.

(** ** The optional interfaces *)

(** [p.( *sqlite.Store)] *)
Definition as_sqlite (p : provider) : option Sqlite.Store :=
  match p with PSqlite s => Some s | _ => None end.
(** The SQLite store whose methods [p] has, itself or embedded. *)
Definition sqlite_methods (p : provider) : option Sqlite.Store :=
  match p with
  | PSqlite s => Some s
  | PRemote s => Some (Remote.rs_Store s)
  | _ => None
  end.
Definition on_sqlite {A} (m : ST error Sqlite.Store A) : ST error provider A := λ p,
  match p with
  | PSqlite s => let '(r, s) := m s in (r, PSqlite s)
  | PRemote s => let '(r, s) := Remote.on_overlay m s in (r, PRemote s)
  | _ => (Err (Panic "no such method"), p)
  end.

Definition ask_sqlite {A} (f : Sqlite.Store → result A) (p : provider) : result A :=
  s ← of_option (Panic "no such method") (sqlite_methods p); f s.

Definition provider_snapshots : SnapshotProvider provider :=
  mkSnapshotProvider _
    (λ p, match sqlite_methods p with
          | Some s => Sqlite.SupportSnapshotsWithCurrentConfig s
          | None => false
          end)
    (ask_sqlite Sqlite.Snapshots)
    (λ name, on_sqlite (Sqlite.CreateSnapshot name))
    (λ name, on_sqlite (Sqlite.LoadSnapshot name)).

#[global] Instance provider_optional : OptionalInterfaces provider := {
  as_RollbackProvider p :=
    match sqlite_methods p with
    | Some _ => Some (λ h, on_sqlite (Sqlite.RollbackToBlockHeight h))
    | None => None
    end;
  as_SnapshotProvider p :=
    match sqlite_methods p with Some _ => Some provider_snapshots | None => None end
}.

(** [p.(storage.SnapshotProvider)] and its [SupportSnapshotsWithCurrentConfig]. *)
Definition snapshots_supported (p : provider) : option bool :=
  (λ sp, sp_Supported sp p) <$> as_SnapshotProvider p.
End providers.

(** * The constructors *)

Section storage_util.
Context {FM : FlowModel} {TR : SnapshotTrees} {CD : Codecs} {GO : GoMapOrder} {SE : SqlEngine}
        {RS : RedisServer} {RC : RedisClient} {DB : Databases} {AN : AccessNode} {FS : FileSystem}
        {SS : SortSlice} {CL : CheckpointLedger} {LT : LibraryTexts}.
(** The time, and what the cache directory of a fork holds. *)
Context (now : Time) (entries : list DirEntry).

(** storage/util/defaultStore.go *)
Definition CreateDefaultStorage : result provider := PSqlite <$> sqlite_New sqlite_InMemory false now.
Definition util_NewSqliteStorage (url : string) : result provider := PSqlite <$> sqlite_New url false now.
Definition util_NewRedisStorage (url : string) : result provider := PRedis <$> redis_New url.

(** storage/util/defaultStore_wasm.go *)
Definition wasm_CreateDefaultStorage : result provider := Ok (PMemory Mem.New).
Definition wasm_NewSqliteStorage (url : string) : result provider := Ok (PMemory Mem.New).
Definition wasm_NewRedisStorage (url : string) : result provider := PRedis <$> redis_New url.

(** [config.GetStore]: the store of the option [WithStore], or the default one. *)
Definition GetStore (store : option provider) (create : result provider) : result provider :=
  match store with
  | Some s => Ok s
  | None => match create with
            | Ok s => Ok s
            | Err _ => Err (Panic "Cannot initialize memory storage")
            end
  end.

(** The constructors that the server calls. *)
#[export] Instance provider_util : StorageUtil provider := {
  NewRedisStorage := util_NewRedisStorage;
  NewSqliteStorage := util_NewSqliteStorage;
  checkpoint_New path hash chainID := PMemory <$> Checkpoint.New path hash chainID;
  is_sqlite p := match as_sqlite p with Some _ => true | None => false end;
  remote_New p host height dir :=
    match as_sqlite p with
    | None => Err (Panic "nil base provider")
    | Some base =>
        match Remote.New base
                ([Remote.WithForkHost host; Remote.WithForkHeight height] ++
                 match dir with Some d => [Remote.WithForkCacheDir d] | None => [] end) entries now with
        | (Ok _, s) => Ok (PRemote s)
        | (Err err, _) => Err err
        end
    end;
  snapshot_support := snapshots_supported
}.
End storage_util.

(** * The contract *)

(** A new SQLite store does not depend on its ID, the time of its creation. *)
Definition with_id (id : Z) {SE : SqlEngine} (s : Sqlite.Store) : Sqlite.Store :=
  Sqlite.mkStore (Sqlite.sq_url s) id (Sqlite.sq_snapshotNames s) (Sqlite.sq_CurrentHeight s)
    (Sqlite.sq_databases s) (Sqlite.sq_db s).

Section contract.
Context {FM : FlowModel} {FL : FlowModelLaws FM} {TR : SnapshotTrees} {TL : SnapshotTreeLaws TR}
        {CD : Codecs} {CL : CodecsLaws CD} {GO : GoMapOrder} {SE : SqlEngine} {SL : SqlEngineLaws SE}
        {RS : RedisServer} {AN : AccessNode}.

Lemma sq_rel_id id s l : sq_rel s l → sq_rel (with_id id s) l.
Proof.
  intros [R [H1 H2 H3 H4]]. split; [|by split]. destruct R. by split.
Qed.

Definition provider_rel (p : provider) (l : log) : Prop :=
  match p with
  | PMemory s => Mem.mem_rel s l
  | PSqlite s => sq_rel s l
  | _ => False
  end.
Definition provider_writable (p : provider) (l : log) (w : write) : Prop :=
  match p with PSqlite _ => consistent l w | _ => True end.

Lemma write_memory w s :
  apply_write w (PMemory s) = let '(r, s') := apply_write w s in (r, PMemory s').
Proof. by destruct w. Qed.
Lemma write_sqlite w s :
  apply_write w (PSqlite s) = let '(r, s') := apply_write w s in (r, PSqlite s').
Proof. by destruct w. Qed.

(** The in-memory store and SQLite follow the contract as providers. *)
#[export] Program Instance provider_correct : StoreCorrect provider := {
  store_empty := PMemory Mem.New;
  store_rel := provider_rel;
  store_writable := provider_writable
}.
Next Obligation.
  intros [s|s|s|s] l R; [|..]; try done.
  - destruct (Mem.mem_rel_refines s l R). by split.
  - destruct (def_rel_refines s l (proj1 R)). by split.
Qed.
Next Obligation. apply Mem.mem_rel_New. Qed.
Next Obligation.
  intros [s|s|s|s] l w R Hok Hw; try done.
  - destruct (Mem.mem_rel_step s l w R Hok) as (s' & Hs & R'). exists (PMemory s'). split; [|done].
    by rewrite write_memory, Hs.
  - destruct (sq_rel_step s l w R Hok Hw) as (s' & Hs & R'). exists (PSqlite s'). split; [|done].
    by rewrite write_sqlite, Hs.
Qed.
Next Obligation.
  intros [s|s|s|s] c Hc; simpl.
  - by rewrite Mem.mem_CommitBlock_counts.
  - pose proof (def_counts s c Hc) as H. simpl in H. by rewrite H.
  - pose proof (def_counts s c Hc) as H. simpl in H. by rewrite H.
  - unfold Remote.on_overlay. pose proof (def_counts (Remote.rs_Store s) c Hc) as H. simpl in H.
    rewrite H. by destruct s.
Qed.
End contract.
