(* ===== verification/Emulator.v ===== *)
(** The interface [emulator.Emulator] (emulator/emulator.go) that the adapters
    and the server call, and its implementation by the blockchain: the exported
    methods of emulator/blockchain.go, each of which holds the mutex for the
    whole of the unexported one it calls. *)
From S2P Require Import Prelude FlowTypes Errors Storage Report Convert Pragma Vm PendingBlock.
From S2P Require Import Blockchain Queries BlockchainCorrect Chain SourceFiles.

(** [flowsdk.AddressGenerator]: the address of an index on a chain. *)
Class AddressGenerator := address_at : ChainID → Z → sdk_Address.

(** [common.AddressLocation{Address, Name}.ID()] *)
Class Locations := AddressLocation_ID : Address → string → string.

(** * The interface

    All its parts ([AccessProvider], [ComputationReportCapable],
    [DebuggingCapable], [SnapshotCapable], [RollbackCapable], [AutoMineCapable],
    [ExecutionCapable], [LogProvider] and [SourceMapCapable]), the service key, and
    whether the value is a [*Blockchain], which the subscriptions ask; but for
    [CoverageReportCapable] and [ComputationProfileCapable], the handles of two
    reports of Cadence's runtime, which are the file [Reports]. *)
Class Emulator {FM : FlowModel} {CA : Cadence} {CK : Clocks} {CR : Crypto} (B : Type) := {
  emu_isBlockchain : bool;
  emu_ServiceKey : ST error B ServiceKey;
  emu_Ping : B → result unit;
  emu_GetNetworkParameters : B → ChainID;
  emu_GetLatestBlock : B → result Block;
  emu_GetBlockByID : Identifier → B → result Block;
  emu_GetBlockByHeight : Z → B → result Block;
  emu_GetCollectionByID : Identifier → B → result LightCollection;
  emu_GetFullCollectionByID : Identifier → B → result Collection;
  emu_GetTransaction : Identifier → B → result TransactionBody;
  emu_GetTransactionResult : Identifier → B → result access_TransactionResult;
  emu_GetTransactionsByBlockID : Identifier → B → result (list TransactionBody);
  emu_GetTransactionResultsByBlockID : Identifier → B → result (list access_TransactionResult);
  emu_GetSystemTransaction : Identifier → Identifier → B → result TransactionBody;
  emu_GetSystemTransactionResult : Identifier → Identifier → B → result access_TransactionResult;
  emu_GetScheduledTransaction : Z → B → result TransactionBody;
  emu_GetScheduledTransactionResult : Z → B → result access_TransactionResult;
  emu_GetAccount : Address → B → result Account;
  emu_GetAccountAtBlockHeight : Address → Z → B → result Account;
  emu_GetAccountByIndex : Z → B → result Account;
  emu_GetEventsByHeight : Z → string → B → result (list Event);
  emu_GetEventsForBlockIDs : string → list Identifier → B → result (list BlockEvents);
  emu_GetEventsForHeightRange : string → Z → Z → B → result (list BlockEvents);
  emu_ExecuteScript : Bytes → list Bytes → ST error B ScriptResult;
  emu_ExecuteScriptAtBlockHeight : Bytes → list Bytes → Z → ST error B ScriptResult;
  emu_ExecuteScriptAtBlockID : Bytes → list Bytes → Identifier → ST error B ScriptResult;
  emu_SendTransaction : TransactionBody → World → ST error B unit;
  emu_AddTransaction : TransactionBody → ST error B unit;
  emu_EnableAutoMine : ST error B unit;
  emu_DisableAutoMine : ST error B unit;
  emu_ExecuteAndCommitBlock : World → ST error B (Block * list TransactionResult);
  emu_ExecuteNextTransaction : ST error B TransactionResult;
  emu_ExecuteBlock : ST error B (list TransactionResult);
  emu_CommitBlock : World → ST error B Block;
  emu_GetLogs : Identifier → B → result (list string);
  emu_ComputationReport : B → ComputationReport;
  (** [*interpreter.Debugger], [None] when it is [nil]. *)
  emu_Debugger : Type;
  emu_StartDebugger : ST error B (option emu_Debugger);
  emu_EndDebugging : ST error B unit;
  emu_GetAccountUnsafe : Address → B → result Account;
  emu_Snapshots : B → result (list string);
  emu_CreateSnapshot : string → World → ST error B unit;
  emu_LoadSnapshot : string → World → ST error B unit;
  emu_RollbackToBlockHeight : Z → World → ST error B unit;
  emu_GetSourceFile : code_location → B → string
}.

(** * The exported methods of the blockchain *)

Module Api.
Section api.
Context {FM : FlowModel} {CA : Cadence} {VM : VirtualMachine} {CK : Clocks} {CR : Crypto}
        {SG : Signing} {CP : CadenceParser} {KS : KindString} {GO : GoMapOrder}
        {AG : AddressGenerator} {SRC : SourceLibrary} {S : Type} `{!Store S} {OI : OptionalInterfaces S}.

Definition Ping (b : Blockchain (S := S)) : result unit := Ok ().
Definition GetNetworkParameters (b : Blockchain (S := S)) : ChainID := ctx_Chain (b_vmCtx b).
Definition CurrentScript (b : Blockchain (S := S)) : string * string :=
  (b_currentScriptID b, b_currentCode b).
Definition PendingBlockID (b : Blockchain (S := S)) : Identifier := pending_ID (b_pendingBlock b).
Definition PendingBlockView (b : Blockchain (S := S)) : Z := pb_view (b_pendingBlock b).

Definition GetLatestBlock (b : Blockchain) : result Block := getLatestBlock b.
Definition GetBlockByID (id : Identifier) (b : Blockchain) : result Block := getBlockByID id b.
Definition GetBlockByHeight (height : Z) (b : Blockchain) : result Block :=
  getBlockByHeight height b.
Definition GetCollectionByID (colID : Identifier) (b : Blockchain) : result LightCollection :=
  getCollectionByID colID b.
Definition GetFullCollectionByID (colID : Identifier) (b : Blockchain) : result Collection :=
  getFullCollectionByID colID b.
Definition GetTransaction (txID : Identifier) (b : Blockchain) : result TransactionBody :=
  getTransaction txID b.
Definition GetTransactionResult (txID : Identifier) (b : Blockchain)
    : result access_TransactionResult := getTransactionResult txID b.

(** The account look-ups; [GetAccountUnsafe] is [getAccount] without the lock. *)
Definition GetAccountUnsafe (address : Address) (b : Blockchain) : result Account :=
  latestBlock ← getLatestBlock b;
  getAccountAtBlock address (Block_Height latestBlock) b.
Definition GetAccountByIndex (index : Z) (b : Blockchain) : result Account :=
  GetAccountUnsafe (SDKAddressToFlow (address_at (ctx_Chain (b_vmCtx b)) index)) b.
Definition GetAccount (address : Address) (b : Blockchain) : result Account :=
  getAccount address b.
Definition GetAccountAtBlockHeight (address : Address) (blockHeight : Z) (b : Blockchain)
    : result Account := getAccountAtBlock address blockHeight b.

(** The range query with as many iterations as there are blocks from the start
    of the range, and one more. *)
Definition range_fuel (startHeight : Z) (b : Blockchain (S := S)) : nat :=
  match LatestBlockHeight (b_storage b) with
  | Ok latest => Datatypes.S (Z.to_nat (latest + 1 - startHeight))
  | Err _ => 1
  end.
Definition GetEventsForHeightRange (eventType : string) (startHeight endHeight : Z) (b : Blockchain)
    : result (list BlockEvents) :=
  of_option (Panic "loop bound")
    (events_loop (range_fuel startHeight b) eventType startHeight endHeight b).

Definition ExecuteScriptAtBlockID (script : Bytes) (arguments : list Bytes) (id : Identifier)
    : ST error Blockchain ScriptResult := executeScriptAtBlockID script arguments id.
Definition AddTransaction (tx : TransactionBody) : ST error Blockchain unit := addTransaction tx.
Definition ExecuteBlock : ST error Blockchain (list TransactionResult) := executeBlock.
Definition CommitBlock (w : World) : ST error Blockchain Block := commitBlock w.
Definition ExecuteAndCommitBlock (w : World)
    : ST error Blockchain (Block * list TransactionResult) := executeAndCommitBlock w.

#[global] Instance blockchain_emulator : Emulator (Blockchain (S := S)) := {
  emu_isBlockchain := true;
  emu_ServiceKey := currentServiceKey;
  emu_Ping := Ping;
  emu_GetNetworkParameters := GetNetworkParameters;
  emu_GetLatestBlock := GetLatestBlock;
  emu_GetBlockByID := GetBlockByID;
  emu_GetBlockByHeight := GetBlockByHeight;
  emu_GetCollectionByID := GetCollectionByID;
  emu_GetFullCollectionByID := GetFullCollectionByID;
  emu_GetTransaction := GetTransaction;
  emu_GetTransactionResult := GetTransactionResult;
  emu_GetTransactionsByBlockID := GetTransactionsByBlockID;
  emu_GetTransactionResultsByBlockID := GetTransactionResultsByBlockID;
  emu_GetSystemTransaction := GetSystemTransaction;
  emu_GetSystemTransactionResult := GetSystemTransactionResult;
  emu_GetScheduledTransaction := GetScheduledTransaction;
  emu_GetScheduledTransactionResult := GetScheduledTransactionResult;
  emu_GetAccount := GetAccount;
  emu_GetAccountAtBlockHeight := GetAccountAtBlockHeight;
  emu_GetAccountByIndex := GetAccountByIndex;
  emu_GetEventsByHeight := GetEventsByHeight;
  emu_GetEventsForBlockIDs ty ids b := Ok (GetEventsForBlockIDs ty ids b);
  emu_GetEventsForHeightRange := GetEventsForHeightRange;
  emu_ExecuteScript := ExecuteScript;
  emu_ExecuteScriptAtBlockHeight := ExecuteScriptAtBlockHeight;
  emu_ExecuteScriptAtBlockID := ExecuteScriptAtBlockID;
  emu_SendTransaction := SendTransaction;
  emu_AddTransaction := AddTransaction;
  emu_EnableAutoMine := EnableAutoMine;
  emu_DisableAutoMine := DisableAutoMine;
  emu_ExecuteAndCommitBlock := ExecuteAndCommitBlock;
  emu_ExecuteNextTransaction := ExecuteNextTransaction;
  emu_ExecuteBlock := ExecuteBlock;
  emu_CommitBlock := CommitBlock;
  emu_GetLogs := GetLogs;
  emu_ComputationReport := b_computationReport;
  emu_Debugger := interpreter_Debugger;
  emu_StartDebugger := StartDebugger;
  emu_EndDebugging := EndDebugging;
  emu_GetAccountUnsafe := GetAccountUnsafe;
  emu_Snapshots := Snapshots;
  emu_CreateSnapshot := CreateSnapshot;
  emu_LoadSnapshot := LoadSnapshot;
  emu_RollbackToBlockHeight := RollbackToBlockHeight;
  emu_GetSourceFile := GetSourceFile
}.
End api.
End Api.
