(* ===== verification/Simulation.v ===== *)
(** The chain does not depend on its store.

    A chain over a store that follows the contract [StoreCorrect] is compared
    with the chain over the log of the writes ([LogStore]), operation by
    operation: both give the same result, and the store stays an image of the
    log.  [sim P m1 m2 Q] relates a program over the log with the same program
    over the store, for the logs that satisfy [P]; a value that is returned
    satisfies [Q] with the log that is left.  The rules follow the monad. *)
From Stdlib Require Import FunctionalExtensionality.
From S2P Require Import Prelude FlowTypes Errors Storage LogStore Report Convert Pragma Vm PendingBlock.
From S2P Require Import Blockchain Queries BlockchainCorrect Chain.

(** A height at which a block is committed. *)
Definition committed_height (h : Z) (l : log) : Prop := 0 ≤ h < next_height l.

Section log_heights.
Context {FM : FlowModel}.

Lemma log_latest_committed l blk :
  log_ok l → log_LatestBlock l = Ok blk → committed_height (Block_Height blk) l.
Proof.
  intros Hok Hb. unfold log_LatestBlock in Hb. apply bind_Ok in Hb as (h & _ & Hb).
  unfold committed_height. rewrite (log_block_height l h blk Hb).
  apply (log_block_dom l h Hok). by rewrite Hb.
Qed.

Lemma log_blockID_committed l id blk :
  log_ok l → log_BlockByID id l = Ok blk → committed_height (Block_Height blk) l.
Proof.
  intros Hok Hb. unfold log_BlockByID in Hb. apply bind_Ok in Hb as (h & _ & Hb).
  unfold committed_height. rewrite (log_block_height l h blk Hb).
  apply (log_block_dom l h Hok). by rewrite Hb.
Qed.

Lemma committed_height_app ws l h :
  log_ok (ws ++ l) → committed_height h l → committed_height h (ws ++ l).
Proof.
  intros Hok [H1 H2]. pose proof (next_height_app ws l Hok). by unfold committed_height; lia.
Qed.

Lemma log_ok_app ws l : log_ok (ws ++ l) → log_ok l.
Proof. induction ws as [|w ws IH]; [done|]. intros [H _]%log_ok_tail. by apply IH. Qed.
End log_heights.

Section simulation.
Context {FM : FlowModel} {CA : Cadence} {VM : VirtualMachine} {CK : Clocks} {CR : Crypto}
        {SG : Signing} {CP : CadenceParser} {KS : KindString} {GO : GoMapOrder}
        {S : Type} `{!Store S} {OI : OptionalInterfaces S} {SC : StoreCorrect S}.

(** ** Logs that the store can write *)

Definition writable_log (l : log) : Prop :=
  ∀ s w l2 l3, l = l3 ++ w :: l2 → store_rel s l2 → store_writable s l2 w.
Definition good (l : log) : Prop := log_ok l ∧ writable_log l.

Lemma good_app ws l : good (ws ++ l) → good l.
Proof.
  intros [Hok Hw]. split; [by apply log_ok_app in Hok|].
  intros s w l2 l3 ->. apply (Hw s w l2 (ws ++ l3)). by rewrite <- app_assoc.
Qed.

Lemma good_write s w l :
  good (w :: l) → store_rel s l → ∃ s', apply_write w s = (Ok (), s') ∧ store_rel s' (w :: l).
Proof. intros [Hok Hw] R. apply (store_rel_step s l w R Hok). by apply (Hw s w l []). Qed.

(** ** The same chain over the store *)

Definition over (s : S) (b : Blockchain (S := log)) : Blockchain (S := S) :=
  mkBlockchain s (b_pendingBlock b) (b_clock b) (b_vmCtx b) (b_transactionValidator b)
    (b_systemTransactions b) (b_serviceKey b) (b_activeDebuggingSession b) (b_debugger b)
    (b_currentCode b) (b_currentScriptID b) (b_conf b) (b_sourceFileMap b) (b_entropy b)
    (b_computationReport b) (b_published b).

Record sim {A} (P : log → Prop) (m1 : ST error (Blockchain (S := log)) A)
    (m2 : ST error (Blockchain (S := S)) A) (Q : A → log → Prop) : Prop := mkSim {
  sim_suffix b : ∃ ws, b_storage (m1 b).2 = ws ++ b_storage b;
  sim_run b s :
    P (b_storage b) → store_rel s (b_storage b) → good (b_storage (m1 b).2) →
    ∃ s', m2 (over s b) = ((m1 b).1, over s' (m1 b).2) ∧ store_rel s' (b_storage (m1 b).2) ∧
          ∀ a, (m1 b).1 = Ok a → Q a (b_storage (m1 b).2)
}.

(** With nothing asked of the log and nothing said of the result. *)
#[local] Abbreviation same m1 m2 := (sim (λ _, True) m1 m2 (λ _ _, True)).

(** ** The rules *)

Lemma sim_weaken {A} P P' m1 m2 (Q Q' : A → log → Prop) :
  sim P m1 m2 Q → (∀ l, P' l → P l) → (∀ a l, Q a l → Q' a l) → sim P' m1 m2 Q'.
Proof.
  intros [Hx Hs] HP HQ. split; [done|]. intros b s Hb R Hg.
  destruct (Hs b s (HP _ Hb) R Hg) as (s' & H1 & H2 & H3). exists s'. split_and!; auto.
Qed.

Lemma sim_same {A} P (m1 : ST error _ A) m2 : same m1 m2 → sim P m1 m2 (λ _ _, True).
Proof. intros H. by eapply sim_weaken. Qed.

Lemma sim_bind {A B} P (Q : A → log → Prop) (Q' : B → log → Prop) m1 m2 k1 k2 :
  sim P m1 m2 Q → (∀ a, sim (Q a) (k1 a) (k2 a) Q') → sim P (a ← m1; k1 a) (a ← m2; k2 a) Q'.
Proof.
  intros [Hx Hs] Hk. split.
  - intros b. destruct (Hx b) as [ws Hws]. unfold mbind, ST_bind.
    destruct (m1 b) as [[a|e] b1]; simpl in *; [|by exists ws].
    destruct (sim_suffix _ _ _ _ (Hk a) b1) as [ws' ->]. exists (ws' ++ ws). by rewrite Hws, app_assoc.
  - intros b s HP R. specialize (Hs b s HP R). unfold mbind, ST_bind.
    destruct (m1 b) as [[a|e] b1]; simpl in *.
    + intros Hg. destruct (sim_suffix _ _ _ _ (Hk a) b1) as [ws' Hws'].
      destruct Hs as (s1 & Hm & R1 & HQ); [rewrite Hws' in Hg; by apply good_app in Hg|].
      rewrite Hm. apply (sim_run _ _ _ _ (Hk a)); [by apply HQ|done..].
    + intros Hg. destruct (Hs Hg) as (s1 & Hm & R1 & HQ). rewrite Hm. by exists s1.
Qed.

Lemma same_bind {A B} m1 m2 (k1 : A → ST error _ B) k2 :
  same m1 m2 → (∀ a, same (k1 a) (k2 a)) → same (a ← m1; k1 a) (a ← m2; k2 a).
Proof. intros Hm Hk. eapply sim_bind; [exact Hm|]. intros a. by eapply sim_weaken; [apply Hk|..]. Qed.

(** A read of the state, with the relation of the store and the log at hand. *)
Lemma sim_read {A} P f1 f2 (Q : A → log → Prop) :
  (∀ b s, P (b_storage b) → store_rel s (b_storage b) → log_ok (b_storage b) →
     f2 (over s b) = f1 b ∧ ∀ a, f1 b = Ok a → Q a (b_storage b)) →
  sim P (st_read f1) (st_read f2) Q.
Proof.
  intros H. split; [by exists []|]. intros b s HP R [Hok _]. simpl in Hok |- *.
  destruct (H b s HP R Hok) as [H1 H2]. exists s. unfold st_read. by rewrite H1.
Qed.

Lemma same_read {A} (f1 : _ → result A) f2 :
  (∀ b s, store_rel s (b_storage b) → log_ok (b_storage b) → f2 (over s b) = f1 b) →
  same (st_read f1) (st_read f2).
Proof. intros H. apply sim_read. auto. Qed.

Lemma same_get {A} (f1 : _ → A) f2 :
  (∀ b s, store_rel s (b_storage b) → f2 (over s b) = f1 b) → same (st_get f1) (st_get f2).
Proof.
  intros H. split; [by exists []|]. intros b s _ R _. exists s. unfold st_get. by rewrite H.
Qed.

Lemma same_ret {A} (a : A) : same (mret a) (mret a).
Proof. split; [by exists []|]. intros b s _ R _. by exists s. Qed.
Lemma same_fail {A} e : sim (A := A) (λ _, True) (st_fail e) (st_fail e) (λ _ _, True).
Proof. split; [by exists []|]. intros b s _ R _. by exists s. Qed.
Lemma same_res {A} (r : result A) : same (st_res r) (st_res r).
Proof. split; [by exists []|]. intros b s _ R _. by exists s. Qed.

Lemma same_modify f1 f2 :
  (∀ b s, f2 (over s b) = over s (f1 b)) → (∀ b, b_storage (f1 b) = b_storage b) →
  same (st_modify f1) (st_modify f2).
Proof.
  intros H H'. split; [exists []; apply H'|]. intros b s _ R _. exists s.
  unfold st_modify. simpl. by rewrite H, H'.
Qed.

Lemma same_pending {A} (m : ST error pendingBlock A) : same (on_pending m) (on_pending m).
Proof.
  split.
  - intros b. exists []. unfold on_pending. by destruct (m _).
  - intros b s _ R _. exists s. unfold on_pending. simpl. by destruct (m _).
Qed.

Lemma same_map_err {A} f (m1 : ST error _ A) m2 : same m1 m2 → same (st_map_err f m1) (st_map_err f m2).
Proof.
  intros [Hx Hs]. split.
  - intros b. specialize (Hx b). unfold st_map_err. by destruct (m1 b) as [[] ?].
  - intros b s _ R. specialize (Hs b s I R). unfold st_map_err.
    destruct (m1 b) as [[a|e] b1]; simpl in *; intros Hg; destruct (Hs Hg) as (s1 & -> & ? & _); by exists s1.
Qed.

Lemma same_iter {X} (f1 f2 : X → ST error _ unit) xs :
  (∀ x, same (f1 x) (f2 x)) → same (st_iter f1 xs) (st_iter f2 xs).
Proof.
  intros H. induction xs as [|x xs IH]; [apply same_ret|]. cbn [st_iter].
  apply same_bind; [apply H|done].
Qed.

Lemma same_if {A} (c : bool) (m1 n1 : ST error _ A) m2 n2 :
  same m1 m2 → same n1 n2 → same (if c then m1 else n1) (if c then m2 else n2).
Proof. by destruct c. Qed.

Lemma same_option {X A} (o : option X) (f1 : X → ST error _ A) f2 n1 n2 :
  (∀ x, same (f1 x) (f2 x)) → same n1 n2 →
  same (match o with Some x => f1 x | None => n1 end) (match o with Some x => f2 x | None => n2 end).
Proof. by destruct o. Qed.

(** A write of the chain: the one step at which the two stores change. *)
Lemma sim_write w :
  sim (λ _, True) (on_storage (apply_write w)) (on_storage (apply_write w))
    (λ _ l, match w with WCommit c => committed_height (bc_height c) l | _ => True end).
Proof.
  split.
  - intros b. destruct (apply_write_suffix w (b_storage b)) as [ws Hws]. exists ws.
    unfold on_storage. by destruct (apply_write w _).
  - intros b s _ R. unfold on_storage. destruct (apply_write w (b_storage b)) as [r l] eqn:Hw. simpl.
    intros Hg. assert ((r = Ok () ∧ l = w :: b_storage b) ∨
      ∃ c, w = WCommit c ∧ ¬ counts_match c ∧ r = Err (counts_error c) ∧ l = b_storage b) as Hc.
    { destruct w as [c| |]; simpl in Hw; unfold log_CommitBlock in Hw; try case_decide;
        injection Hw as <- <-; [by left|right; by exists c|by left..]. }
    destruct Hc as [[-> ->]|(c & -> & Hc & -> & ->)].
    + destruct (good_write s w _ Hg R) as (s' & -> & R'). exists s'. split_and!; [done..|].
      intros _ _. destruct w as [c| |]; [|done..]. apply log_heights; [apply Hg|left].
    + exists s. simpl. rewrite (store_counts s c Hc). by split_and!.
Qed.

(** What holds at a committed height goes on to hold. *)
Lemma sim_committed {A} P (Q : A → log → Prop) h m1 m2 :
  sim P m1 m2 Q →
  sim (λ l, P l ∧ committed_height h l) m1 m2 (λ a l, Q a l ∧ committed_height h l).
Proof.
  intros [Hx Hs]. split; [done|]. intros b s [HP Hh] R Hg.
  destruct (Hs b s HP R Hg) as (s' & H1 & H2 & H3). exists s'. split_and!; [done..|].
  intros a Ha. split; [by apply H3|]. destruct (Hx b) as [ws Hws]. rewrite Hws in Hg |- *.
  apply committed_height_app; [apply Hg|done].
Qed.
End simulation.

Abbreviation same m1 m2 := (sim (λ _, True) m1 m2 (λ _ _, True)).

(** The structural cases; a field that is read or set is the same by computation. *)
Ltac same_step :=
  first [simple apply same_ret|simple apply same_fail|simple apply same_res|simple apply same_pending
        |simple apply same_get; intros ???; reflexivity
        |simple apply same_modify; intros; reflexivity
        |simple apply same_bind; [|intros ?]|simple apply same_if|simple apply same_option; [intros ?|]
        |simple apply same_iter; intros ?|simple apply same_map_err].
Ltac same := repeat same_step.

Section operations.
Context {FM : FlowModel} {CA : Cadence} {VM : VirtualMachine} {CK : Clocks} {CR : Crypto}
        {SG : Signing} {CP : CadenceParser} {KS : KindString} {GO : GoMapOrder}
        {S : Type} `{!Store S} {OI : OptionalInterfaces S} {SC : StoreCorrect S}.

(** ** What the chain reads of its store *)

Section reads.
Context (s : S) (l : log) (R : store_rel s l) (Hok : log_ok l).

Lemma same_ledger h : committed_height h l → LedgerByHeight h s = LedgerByHeight h l.
Proof.
  intros Hh. destruct (ref_LedgerByHeight _ _ (store_rel_refines _ _ R) h Hh) as (snap & -> & Hr).
  simpl. f_equal. by apply functional_extensionality.
Qed.

Lemma same_first_ledger : next_height l = 0 → LedgerByHeight 0 s = LedgerByHeight 0 l.
Proof.
  intros Hl. destruct (ref_LedgerByHeight_first _ _ (store_rel_refines _ _ R) Hl) as (snap & -> & Hr).
  simpl. f_equal. by apply functional_extensionality.
Qed.

Lemma same_blocks_view : blocks_view s = blocks_view l.
Proof.
  pose proof (store_rel_refines _ _ R) as Q. unfold blocks_view. f_equal.
  - apply functional_extensionality. intros id. unfold HeaderByID. by rewrite (ref_BlockByID _ _ Q).
  - unfold FinalizedHeader. by rewrite (ref_LatestBlock _ _ Q).
  - unfold SealedHeader. by rewrite (ref_LatestBlock _ _ Q).
  - unfold IndexedHeight. by rewrite (ref_LatestBlock _ _ Q).
  - apply functional_extensionality. intros h. apply functional_extensionality. intros hd.
    unfold ByHeightFrom. by rewrite (ref_BlockByHeight _ _ Q) by apply u64_range.
Qed.
End reads.

Lemma same_Run ctx proc snap b s :
  store_rel s (b_storage b) → b_Run ctx proc snap (over s b) = b_Run ctx proc snap b.
Proof. intros R. unfold b_Run. simpl. by rewrite (same_blocks_view _ _ R). Qed.

Lemma same_getLatestBlock b s :
  store_rel s (b_storage b) → getLatestBlock (over s b) = getLatestBlock b.
Proof. intros R. apply (ref_LatestBlock _ _ (store_rel_refines _ _ R)). Qed.

Lemma same_getAccountAtBlock address h b s :
  store_rel s (b_storage b) → committed_height h (b_storage b) →
  getAccountAtBlock address h (over s b) = getAccountAtBlock address h b.
Proof. intros R Hh. unfold getAccountAtBlock. simpl. by rewrite (same_ledger _ _ R h Hh). Qed.

Lemma same_getAccount address b s :
  store_rel s (b_storage b) → log_ok (b_storage b) →
  getAccount address (over s b) = getAccount address b.
Proof.
  intros R Hok. unfold getAccount. rewrite (same_getLatestBlock b s R).
  destruct (getLatestBlock b) as [blk|e] eqn:Hb; [|done]. simpl.
  by apply same_getAccountAtBlock, log_latest_committed.
Qed.

Lemma same_test_signatures sigs msg b s :
  store_rel s (b_storage b) → log_ok (b_storage b) →
  test_signatures sigs msg (over s b) = test_signatures sigs msg b.
Proof.
  intros R Hok. induction sigs as [|sig sigs IH]; [done|]. simpl. unfold testAlternativeHashAlgo.
  rewrite same_getAccount by done. by rewrite IH.
Qed.

Lemma same_debugSignatureError err tx b s :
  store_rel s (b_storage b) → log_ok (b_storage b) →
  debugSignatureError err tx (over s b) = debugSignatureError err tx b.
Proof. intros R Hok. unfold debugSignatureError. by rewrite !same_test_signatures. Qed.

(** ** Transactions *)

Lemma same_addTransaction tx : same (addTransaction tx) (addTransaction tx).
Proof.
  split.
  - intros b. exists []. rewrite addTransaction_state. by destruct (admits tx b).
  - intros b s _ R _. exists s. pose proof (store_rel_refines _ _ R) as Q. unfold addTransaction. simpl.
    rewrite (ref_TransactionByID _ _ Q), (same_blocks_view _ _ R).
    destruct (ExecutionStarted _); [done|]. destruct (ContainsTransaction _ _); [done|].
    destruct (log_TransactionByID _ _) as [|err]; [done|]. destruct (negb _); [done|].
    by destruct (validator_Validate _ _ _ _).
Qed.

Lemma same_record_source loc pragmas : same (record_source loc pragmas) (record_source loc pragmas).
Proof. unfold record_source. same. Qed.

Lemma same_start_run code id : same (start_run code id) (start_run code id).
Proof.
  unfold start_run. apply same_bind; [by apply same_modify|intros _].
  apply same_bind; [by apply same_get|intros pause]. destruct pause; [|apply same_ret].
  split.
  - intros b. exists []. unfold requestPause. by destruct (b_debugger b).
  - intros b s _ R _. exists s. unfold requestPause. simpl. by destruct (b_debugger b).
Qed.

Lemma same_executeNextTransaction ctx :
  same (executeNextTransaction ctx) (executeNextTransaction ctx).
Proof.
  unfold executeNextTransaction. cbn zeta.
  same; try (apply same_record_source || apply same_start_run).
  - apply same_get. intros b s R. apply (same_blocks_view _ _ R).
  - apply same_read. intros b s R Hok. by apply same_debugSignatureError.
Qed.

Lemma same_execute_loop fuel ctx rs : same (execute_loop fuel ctx rs) (execute_loop fuel ctx rs).
Proof.
  revert rs. induction fuel as [|fuel IH]; intros rs.
  - split; [exists []; cbn; by destruct (_ && _)|]. intros b s _ R _. exists s. cbn.
    by destruct (_ && _).
  - assert (same (result ← executeNextTransaction ctx; execute_loop fuel ctx (rs ++ [result]))
                 (result ← executeNextTransaction ctx; execute_loop fuel ctx (rs ++ [result]))) as [Hx Hs].
    { apply same_bind; [apply same_executeNextTransaction|auto]. }
    split.
    + intros b. specialize (Hx b). cbn [execute_loop]. destruct (_ && _); [done|by exists []].
    + intros b s _ R. specialize (Hs b s I R). cbn [execute_loop].
      change (b_pendingBlock (over s b)) with (b_pendingBlock b).
      destruct (_ && _); [done|]. intros _. by exists s.
Qed.

Lemma same_executeBlock : same executeBlock executeBlock.
Proof.
  unfold executeBlock, setFVMContextFromHeader. same. apply same_execute_loop.
Qed.

Lemma same_ExecuteNextTransaction :
  same Blockchain.ExecuteNextTransaction Blockchain.ExecuteNextTransaction.
Proof.
  unfold Blockchain.ExecuteNextTransaction, setFVMContextFromHeader. same.
  apply same_executeNextTransaction.
Qed.

(** ** Commits *)

Lemma same_run ctx proc (f : ExecutionState → StorageSnapshot) :
  same (st_read (λ b, b_Run ctx proc (f (pb_ledgerState (b_pendingBlock b))) b))
       (st_read (λ b, b_Run ctx proc (f (pb_ledgerState (b_pendingBlock b))) b)).
Proof. apply same_read. intros b s R _. by apply same_Run. Qed.

Lemma same_executeSystemChunkTransaction i :
  same (executeSystemChunkTransaction i) (executeSystemChunkTransaction i).
Proof.
  unfold executeSystemChunkTransaction. same; [by apply same_read|apply (same_run _ _ es_Get)].
Qed.

Lemma same_execute_callbacks ctx base ids idx txs acc :
  same (execute_callbacks ctx base ids idx txs acc) (execute_callbacks ctx base ids idx txs acc).
Proof.
  revert idx acc. induction txs as [|tx txs IH]; intros idx acc; cbn [execute_callbacks]; cbn zeta;
    same; [apply (same_run _ _ es_Get)|apply IH].
Qed.

Lemma same_executeScheduledTransactions ctx :
  same (executeScheduledTransactions ctx) (executeScheduledTransactions ctx).
Proof.
  unfold executeScheduledTransactions. cbn zeta.
  same; [apply (same_run _ _ es_Get)|apply same_execute_callbacks].
Qed.

Lemma same_executeSystem p : same (executeSystem p) (executeSystem p).
Proof.
  unfold executeSystem. cbn zeta.
  same; [apply same_executeScheduledTransactions|apply same_executeSystemChunkTransaction].
Qed.

Lemma same_prepareCommit p : same (prepareCommit p) (prepareCommit p).
Proof. unfold prepareCommit. same. apply same_executeSystem. Qed.

Lemma same_write w : same (on_storage (apply_write w)) (on_storage (apply_write w)).
Proof. by eapply sim_weaken; [apply (sim_write w)|..]. Qed.

Lemma same_indexCommit c : same (indexCommit c) (indexCommit c).
Proof.
  unfold indexCommit. cbn zeta. same.
  - apply (same_write (WIndexScheduled _ _)).
  - apply (same_write (WIndexTx _ _)).
Qed.

(** The ledger of a committed height, and what is done with it. *)
Lemma sim_ledger {A} h (k1 k2 : StorageSnapshot → ST error _ A) :
  (∀ snap, same (k1 snap) (k2 snap)) →
  sim (committed_height h) (snap ← st_read (λ b, LedgerByHeight h (b_storage b)); k1 snap)
    (snap ← st_read (λ b, LedgerByHeight h (b_storage b)); k2 snap) (λ _ _, True).
Proof.
  intros Hk. apply (sim_bind _ (λ _ _, True)); [|done]. apply sim_read. intros b s Hh R _.
  split; [|done]. by apply same_ledger.
Qed.

Lemma same_commitBlock w : same (commitBlock w) (commitBlock w).
Proof.
  unfold commitBlock. cbn zeta. apply same_bind; [same|intros p]. do 2 (apply same_if; [same|]).
  apply same_bind; [apply same_prepareCommit|intros c].
  apply (sim_bind _ (λ _, committed_height (bc_height c))); [apply (sim_write (WCommit c))|intros _].
  apply (sim_bind _ (λ _, committed_height (bc_height c))).
  - eapply sim_weaken; [apply (sim_committed _ _ (bc_height c) _ _ (same_indexCommit c))|done|].
    by intros _ l [_ ?].
  - intros _. apply sim_ledger. intros snap. same.
Qed.

Lemma same_executeAndCommitBlock w : same (executeAndCommitBlock w) (executeAndCommitBlock w).
Proof. unfold executeAndCommitBlock. same; [apply same_executeBlock|apply same_commitBlock]. Qed.

Lemma same_SendTransaction tx w : same (SendTransaction tx w) (SendTransaction tx w).
Proof.
  unfold SendTransaction. same; [apply same_addTransaction|apply same_executeAndCommitBlock].
Qed.

(** ** Resets and reloads *)

Lemma sim_latest :
  sim (λ _, True) (st_read getLatestBlock) (st_read getLatestBlock)
    (λ blk, committed_height (Block_Height blk)).
Proof.
  apply sim_read. intros b s _ R Hok. split; [by apply same_getLatestBlock|].
  intros blk Hb. by apply log_latest_committed.
Qed.

Lemma same_ResetPendingBlock w : same (ResetPendingBlock w) (ResetPendingBlock w).
Proof.
  unfold ResetPendingBlock.
  apply (sim_bind _ (λ blk, committed_height (Block_Height blk))); [apply sim_latest|intros blk].
  apply sim_ledger. intros snap. same.
Qed.

Lemma log_latest_none l e : log_ok l → log_LatestBlock l = Err e → e = ErrNotFound ∧ next_height l = 0.
Proof.
  intros Hok. unfold log_LatestBlock, log_LatestBlockHeight, next_height.
  destruct (newest (on_commit c_height) l) as [h|] eqn:Hh; simpl; [|by intros [= <-]].
  intros Hb. apply newest_elem in Hh as ([c| |] & Hw & Hc); [|done..]. simpl in Hc. injection Hc as <-.
  apply (log_heights l c Hok), (log_block_dom l _ Hok) in Hw. by rewrite Hb in Hw.
Qed.

(** An operation of the store, as steps of the chain. *)
Lemma on_storage_bind {T A B} `{!Store T} (m : ST error T A) (k : A → ST error T B) :
  on_storage (a ← m; k a) = (a ← on_storage m; on_storage (k a)).
Proof.
  apply functional_extensionality. intros b. unfold on_storage, mbind, ST_bind.
  by destruct (m (b_storage b)) as [[a|e] s]; [|done]; simpl; destruct (k a s).
Qed.
Lemma on_storage_read {T A} `{!Store T} (f : T → result A) :
  on_storage (st_read f) = st_read (λ b, f (b_storage b)).
Proof. apply functional_extensionality. by intros []. Qed.
Lemma on_storage_ret {T A} `{!Store T} (a : A) : on_storage (S := T) (mret a) = mret a.
Proof. apply functional_extensionality. by intros []. Qed.

Lemma sim_configureNewLedger conf ctx entropy :
  sim (λ l, next_height l = 0) (on_storage (configureNewLedger conf ctx entropy))
    (on_storage (configureNewLedger conf ctx entropy)) (λ _ _, True).
Proof.
  unfold configureNewLedger. rewrite !on_storage_bind, !on_storage_read.
  apply (sim_bind _ (λ _ _, True)).
  { apply sim_read. intros b s H0 R _. split; [by apply same_first_ledger|done]. }
  intros ledger. rewrite !on_storage_bind, !on_storage_read. apply same_bind.
  { apply same_read. intros b s R _. unfold bootstrapLedger. simpl. by rewrite (same_blocks_view _ _ R). }
  intros run. rewrite !on_storage_bind.
  apply (sim_bind _ (λ _, committed_height 0)).
  { apply (sim_write (WCommit (genesis_commit conf run.1 (po_Events run.2)))). }
  intros _. rewrite !on_storage_read. apply sim_ledger.
  intros snap. rewrite !on_storage_ret. same.
Qed.

Lemma sim_configureExistingLedger blk :
  sim (committed_height (Block_Height blk)) (on_storage (configureExistingLedger blk))
    (on_storage (configureExistingLedger blk)) (λ _ _, True).
Proof.
  unfold configureExistingLedger. rewrite !on_storage_bind, !on_storage_read.
  apply sim_ledger. intros snap. rewrite !on_storage_ret. same.
Qed.

Lemma same_configureLedger conf ctx entropy :
  same (on_storage (configureLedger conf ctx entropy)) (on_storage (configureLedger conf ctx entropy)).
Proof.
  pose proof (sim_configureNewLedger conf ctx entropy) as [Hx1 Hs1].
  pose proof sim_configureExistingLedger as HE. split.
  - intros b. specialize (Hx1 b). unfold on_storage, configureLedger in *. simpl in *.
    destruct (log_LatestBlock (b_storage b)) as [blk|e]; [exact (sim_suffix _ _ _ _ (HE blk) b)|].
    destruct (is_not_found e); [done|by exists []].
  - intros b s _ R. specialize (Hs1 b s). unfold on_storage, configureLedger in *.
    cbn [LatestBlock log_Store b_storage over] in *.
    rewrite (ref_LatestBlock _ _ (store_rel_refines _ _ R)).
    destruct (log_LatestBlock (b_storage b)) as [blk|e] eqn:Hb.
    + intros Hg. apply (sim_run _ _ _ _ (HE blk) b s); [|done..].
      apply log_latest_committed; [apply Hg|done].
    + destruct (is_not_found e) eqn:He.
      * intros Hg. apply Hs1; [|done..]. apply (log_latest_none _ e); [|done].
        destruct (Hx1 b) as [ws Hws]. unfold on_storage in Hws. rewrite Hws in Hg.
        apply good_app in Hg. apply Hg.
      * intros [Hok _]. by destruct (log_latest_none _ e Hok Hb) as [-> _].
Qed.

Lemma same_ReloadBlockchain w : same (ReloadBlockchain w) (ReloadBlockchain w).
Proof. unfold ReloadBlockchain. same. apply same_configureLedger. Qed.

(** ** The service key, the creation *)

Lemma same_currentServiceKey : same currentServiceKey currentServiceKey.
Proof.
  split.
  - intros b. exists []. unfold currentServiceKey. destruct (getAccount _ b); [|done].
    by destruct (acc_Keys _).
  - intros b s _ R. assert (b_storage (currentServiceKey b).2 = b_storage b) as ->.
    { unfold currentServiceKey. destruct (getAccount _ b); [|done]. by destruct (acc_Keys _). }
    intros [Hok _]. exists s. unfold currentServiceKey. cbn [b_serviceKey over].
    rewrite same_getAccount by done. destruct (getAccount _ b) as [acc|]; [|done].
    by destruct (acc_Keys acc).
Qed.

Lemma same_latest : same (st_read getLatestBlock) (st_read getLatestBlock).
Proof. by eapply sim_weaken; [apply sim_latest|..]. Qed.

Lemma same_deployContract name contract w :
  same (deployContract name contract w) (deployContract name contract w).
Proof.
  unfold deployContract.
  same; [apply same_currentServiceKey|apply same_latest|apply same_addTransaction
        |apply same_executeAndCommitBlock].
Qed.

Lemma same_DeployContracts ds : same (DeployContracts ds) (DeployContracts ds).
Proof. unfold DeployContracts. same. apply same_deployContract. Qed.

Lemma New_over conf w ws s :
  store_rel s [] → good (b_storage (New conf ([] : log) w ws).2) →
  ∃ s', New conf s w ws = ((New conf ([] : log) w ws).1, over s' (New conf ([] : log) w ws).2) ∧
        store_rel s' (b_storage (New conf ([] : log) w ws).2).
Proof.
  intros R Hg.
  assert (same (ReloadBlockchain w ;;
    st_modify (cache_if (ProcessCallbacksTransaction (conf_ChainID conf))) ;;
    st_modify (λ b, cache_if (systemChunkTransaction b) b) ;;
    DeployContracts (imap (λ i c, (c, ws i)) (conf_Contracts conf)))
   (ReloadBlockchain w ;;
    st_modify (cache_if (ProcessCallbacksTransaction (conf_ChainID conf))) ;;
    st_modify (λ b, cache_if (systemChunkTransaction b) b) ;;
    DeployContracts (imap (λ i c, (c, ws i)) (conf_Contracts conf)))) as [_ Hs].
  { same; [apply same_ReloadBlockchain| | |apply same_DeployContracts];
      apply same_modify; intros; unfold cache_if; simpl;
      [by destruct (ProcessCallbacksTransaction _)..|
       change (systemChunkTransaction (over _ b)) with (systemChunkTransaction b)|];
      by destruct (systemChunkTransaction _). }
  destruct (Hs (initial conf [] w) s I R Hg) as (s' & H & R' & _). exists s'. split; [exact H|done].
Qed.

Lemma same_New conf w ws s b :
  store_rel s [] → good (b_storage b) → New conf ([] : log) w ws = (Ok (), b) →
  ∃ s', New conf s w ws = (Ok (), over s' b) ∧ store_rel s' (b_storage b).
Proof. intros R Hg Hnew. destruct (New_over conf w ws s R) as (s' & H & R'); rewrite Hnew in *; eauto. Qed.

(** ** Scripts *)

Lemma same_executeScriptAtBlockID script args id :
  same (executeScriptAtBlockID script args id) (executeScriptAtBlockID script args id).
Proof.
  unfold executeScriptAtBlockID. cbn zeta.
  apply (sim_bind _ (λ blk, committed_height (Block_Height blk))).
  - apply sim_read. intros b s _ R Hok.
    split; [apply (ref_BlockByID _ _ (store_rel_refines _ _ R))|].
    intros blk Hb. by apply (log_blockID_committed _ id).
  - intros blk. apply sim_ledger. intros snap. same; [apply same_start_run| |apply same_record_source].
    apply same_read. intros b s R _. by apply same_Run.
Qed.
End operations.
