(* ===== verification/StoreIndependence.v ===== *)
(** What a client of the emulator can tell of its store.

    A client is a program over the interface [Emulator] that chooses its next
    call by the answers so far; between its calls the chain may take any of its
    other steps (the block ticker, a reset, a new clock).  The chain over any
    store that follows the contract gives a client the answers of the chain over
    the log of the writes, from its creation on, as long as the client does not
    use what only some stores have (rollback and snapshots) or what they do not
    agree on (the registers above the latest height). *)
From Stdlib Require Import FunctionalExtensionality.
From S2P Require Import Prelude FlowTypes Errors Storage LogStore Report Convert Pragma Vm PendingBlock.
From S2P Require Import Blockchain Queries BlockchainCorrect Chain SourceFiles Emulator Consistency Simulation.
From S2P Require Import Keys Memstore DefaultStore DefaultStoreCorrect Sqlite SqliteCorrect StoreTheorems.
From S2P Require Import Redis Remote Checkpoint Config ServerConfig Providers.

(** * Clients *)

(** The calls of the interface, with the type of their answers. *)
Inductive method {FM : FlowModel} {CA : Cadence} {CK : Clocks} {CR : Crypto} : Type → Type :=
  | MServiceKey : method ServiceKey
  | MGetNetworkParameters : method ChainID
  | MGetLatestBlock : method Block
  | MGetBlockByID (id : Identifier) : method Block
  | MGetBlockByHeight (height : Z) : method Block
  | MGetCollectionByID (id : Identifier) : method LightCollection
  | MGetFullCollectionByID (id : Identifier) : method Collection
  | MGetTransaction (id : Identifier) : method TransactionBody
  | MGetTransactionResult (id : Identifier) : method access_TransactionResult
  | MGetTransactionsByBlockID (id : Identifier) : method (list TransactionBody)
  | MGetTransactionResultsByBlockID (id : Identifier) : method (list access_TransactionResult)
  | MGetSystemTransaction (txID blockID : Identifier) : method TransactionBody
  | MGetSystemTransactionResult (txID blockID : Identifier) : method access_TransactionResult
  | MGetScheduledTransaction (n : Z) : method TransactionBody
  | MGetScheduledTransactionResult (n : Z) : method access_TransactionResult
  | MGetAccount (address : Address) : method Account
  | MGetAccountAtBlockHeight (address : Address) (height : Z) : method Account
  | MGetAccountByIndex (index : Z) : method Account
  | MGetEventsByHeight (height : Z) (eventType : string) : method (list Event)
  | MGetEventsForBlockIDs (eventType : string) (ids : list Identifier) : method (list BlockEvents)
  | MGetEventsForHeightRange (eventType : string) (startHeight endHeight : Z) : method (list BlockEvents)
  | MExecuteScript (script : Bytes) (args : list Bytes) : method ScriptResult
  | MExecuteScriptAtBlockHeight (script : Bytes) (args : list Bytes) (height : Z) : method ScriptResult
  | MExecuteScriptAtBlockID (script : Bytes) (args : list Bytes) (id : Identifier) : method ScriptResult
  | MSendTransaction (tx : TransactionBody) (w : World) : method unit
  | MAddTransaction (tx : TransactionBody) : method unit
  | MEnableAutoMine : method unit
  | MDisableAutoMine : method unit
  | MExecuteAndCommitBlock (w : World) : method (Block * list TransactionResult)
  | MExecuteNextTransaction : method TransactionResult
  | MExecuteBlock : method (list TransactionResult)
  | MCommitBlock (w : World) : method Block
  | MGetLogs (id : Identifier) : method (list string)
  | MPing : method unit
  | MComputationReport : method ComputationReport
  (** whether a debugger was returned *)
  | MStartDebugger : method bool
  | MEndDebugging : method unit
  | MGetAccountUnsafe (address : Address) : method Account
  | MGetSourceFile (location : code_location) : method string
  | MSnapshots : method (list string)
  | MCreateSnapshot (name : string) (w : World) : method unit
  | MLoadSnapshot (name : string) (w : World) : method unit
  | MRollbackToBlockHeight (height : Z) (w : World) : method unit.

Section perform.
Context {FM : FlowModel} {CA : Cadence} {CK : Clocks} {CR : Crypto} {B : Type} {EM : Emulator B}.

Definition perform {A} (m : method A) : ST error B A :=
  match m in method A return ST error B A with
  | MServiceKey => emu_ServiceKey
  | MGetNetworkParameters => st_get emu_GetNetworkParameters
  | MGetLatestBlock => st_read emu_GetLatestBlock
  | MGetBlockByID id => st_read (emu_GetBlockByID id)
  | MGetBlockByHeight h => st_read (emu_GetBlockByHeight h)
  | MGetCollectionByID id => st_read (emu_GetCollectionByID id)
  | MGetFullCollectionByID id => st_read (emu_GetFullCollectionByID id)
  | MGetTransaction id => st_read (emu_GetTransaction id)
  | MGetTransactionResult id => st_read (emu_GetTransactionResult id)
  | MGetTransactionsByBlockID id => st_read (emu_GetTransactionsByBlockID id)
  | MGetTransactionResultsByBlockID id => st_read (emu_GetTransactionResultsByBlockID id)
  | MGetSystemTransaction t b => st_read (emu_GetSystemTransaction t b)
  | MGetSystemTransactionResult t b => st_read (emu_GetSystemTransactionResult t b)
  | MGetScheduledTransaction n => st_read (emu_GetScheduledTransaction n)
  | MGetScheduledTransactionResult n => st_read (emu_GetScheduledTransactionResult n)
  | MGetAccount a => st_read (emu_GetAccount a)
  | MGetAccountAtBlockHeight a h => st_read (emu_GetAccountAtBlockHeight a h)
  | MGetAccountByIndex i => st_read (emu_GetAccountByIndex i)
  | MGetEventsByHeight h ty => st_read (emu_GetEventsByHeight h ty)
  | MGetEventsForBlockIDs ty ids => st_read (emu_GetEventsForBlockIDs ty ids)
  | MGetEventsForHeightRange ty s e => st_read (emu_GetEventsForHeightRange ty s e)
  | MExecuteScript s a => emu_ExecuteScript s a
  | MExecuteScriptAtBlockHeight s a h => emu_ExecuteScriptAtBlockHeight s a h
  | MExecuteScriptAtBlockID s a id => emu_ExecuteScriptAtBlockID s a id
  | MSendTransaction tx w => emu_SendTransaction tx w
  | MAddTransaction tx => emu_AddTransaction tx
  | MEnableAutoMine => emu_EnableAutoMine
  | MDisableAutoMine => emu_DisableAutoMine
  | MExecuteAndCommitBlock w => emu_ExecuteAndCommitBlock w
  | MExecuteNextTransaction => emu_ExecuteNextTransaction
  | MExecuteBlock => emu_ExecuteBlock
  | MCommitBlock w => emu_CommitBlock w
  | MGetLogs id => st_read (emu_GetLogs id)
  | MPing => st_read emu_Ping
  | MComputationReport => st_get emu_ComputationReport
  | MStartDebugger =>
      d ← emu_StartDebugger; mret (match d with Some _ => true | None => false end)
  | MEndDebugging => emu_EndDebugging
  | MGetAccountUnsafe a => st_read (emu_GetAccountUnsafe a)
  | MGetSourceFile l => st_get (emu_GetSourceFile l)
  | MSnapshots => st_read emu_Snapshots
  | MCreateSnapshot name w => emu_CreateSnapshot name w
  | MLoadSnapshot name w => emu_LoadSnapshot name w
  | MRollbackToBlockHeight h w => emu_RollbackToBlockHeight h w
  end.
End perform.

(** A client ends with a value, calls a method and goes on by its answer, the
    errors included, or lets the chain take a step. *)
Inductive client {FM : FlowModel} {CA : Cadence} {CK : Clocks} {CR : Crypto} (A : Type) : Type :=
  | Done (a : A)
  | Call {X : Type} (m : method X) (k : result X → client A)
  | Wait (o : op) (k : client A).
Arguments Done {_ _ _ _ _}.
Arguments Call {_ _ _ _ _ _}.
Arguments Wait {_ _ _ _ _}.

Section clients.
Context {FM : FlowModel} {CA : Cadence} {VM : VirtualMachine} {CK : Clocks} {CR : Crypto}
        {SG : Signing} {CP : CadenceParser} {KS : KindString} {GO : GoMapOrder}
        {AG : AddressGenerator} {SRC : SourceLibrary}.

Fixpoint run {S : Type} `{!Store S} {OI : OptionalInterfaces S} {A} (p : client A) (b : Blockchain (S := S))
    : A * Blockchain (S := S) :=
  match p with
  | Done a => (a, b)
  | Call m k => match perform m b with (r, b') => run (k r) b' end
  | Wait o k => run k (step o b)
  end.

(** ** What is asked of a call

    Heights and scheduled identifiers are [uint64], an account is asked for at
    a committed height (above, the in-memory store has no registers and the
    others have the newest ones), the random source is in its range.  The calls
    of rollback and snapshots, which some stores offer and others refuse, are not
    made. *)
Definition args_ok {X} (m : method X) (l : log) : Prop :=
  match m with
  | MGetBlockByHeight h | MGetEventsByHeight h _ | MGetEventsForHeightRange _ h _
  | MExecuteScriptAtBlockHeight _ _ h => is_u64 h
  | MGetScheduledTransaction n | MGetScheduledTransactionResult n => is_u64 n
  | MGetAccountAtBlockHeight _ h => committed_height h l
  | MSendTransaction _ w | MExecuteAndCommitBlock w | MCommitBlock w => world_ok w
  | MSnapshots | MCreateSnapshot _ _ | MLoadSnapshot _ _ | MRollbackToBlockHeight _ _ => False
  | _ => True
  end.

(** There is room for one more transaction and one more block. *)
Definition has_room (b : Blockchain (S := log)) : Prop :=
  Size (b_pendingBlock b) + 1 < two32 ∧
  ∀ h, LatestBlockHeight (b_storage b) = Ok h → h + 1 < two64.

(** The calls of the client meet their conditions, on the chain over the log. *)
Fixpoint calls_ok {A} (p : client A) (b : Blockchain (S := log)) : Prop :=
  match p with
  | Done _ => True
  | Call m k => args_ok m (b_storage b) ∧ has_room b ∧
                calls_ok (k (perform m b).1) (perform m b).2
  | Wait o k => op_ok o b ∧ optional o = false ∧ calls_ok k (step o b)
  end.
End clients.

(** * The calls one by one *)

Section calls.
Context {FM : FlowModel} {CA : Cadence} {VM : VirtualMachine} {CK : Clocks} {CR : Crypto}
        {SG : Signing} {CP : CadenceParser} {KS : KindString} {GO : GoMapOrder}
        {AG : AddressGenerator} {SRC : SourceLibrary} {S : Type} `{!Store S} {OI : OptionalInterfaces S} {SC : StoreCorrect S}.

Section queries.
Context (b : Blockchain (S := log)) (s : S).
Hypothesis R : store_rel s (b_storage b).
Hypothesis Hok : log_ok (b_storage b).
#[local] Abbreviation Q := (store_rel_refines _ _ R).

Lemma q_getBlockByID id : getBlockByID id (over s b) = getBlockByID id b.
Proof. unfold getBlockByID. simpl. by rewrite (ref_BlockByID _ _ Q). Qed.
Lemma q_getBlockByHeight h : is_u64 h → getBlockByHeight h (over s b) = getBlockByHeight h b.
Proof. intros Hh. unfold getBlockByHeight. simpl. by rewrite (ref_BlockByHeight _ _ Q). Qed.
Lemma q_getCollectionByID id : getCollectionByID id (over s b) = getCollectionByID id b.
Proof. unfold getCollectionByID. simpl. by rewrite (ref_CollectionByID _ _ Q). Qed.
Lemma q_getFullCollectionByID id : getFullCollectionByID id (over s b) = getFullCollectionByID id b.
Proof. unfold getFullCollectionByID. simpl. by rewrite (ref_FullCollectionByID _ _ Q). Qed.
Lemma q_getTransaction id : getTransaction id (over s b) = getTransaction id b.
Proof. unfold getTransaction. simpl. by rewrite (ref_TransactionByID _ _ Q). Qed.
Lemma q_getSystemTransactionResult blk id :
  getSystemTransactionResult blk id (over s b) = getSystemTransactionResult blk id b.
Proof. unfold getSystemTransactionResult. simpl. by rewrite (ref_SystemTransactionResultByID _ _ Q). Qed.
Lemma q_getTransactionResult id : getTransactionResult id (over s b) = getTransactionResult id b.
Proof.
  unfold getTransactionResult. cbn [b_pendingBlock b_storage over].
  rewrite (ref_TransactionResultByID _ _ Q), (ref_ScheduledTransactionBlockIDByTxID _ _ Q). simpl.
  repeat case_match; try done. apply q_getSystemTransactionResult.
Qed.
Lemma q_GetLogs id : GetLogs id (over s b) = GetLogs id b.
Proof. unfold GetLogs. simpl. by rewrite (ref_TransactionResultByID _ _ Q). Qed.

Lemma q_by_block {A} what syswhat (f f' g g' : Identifier → result A) id :
  (∀ t, f' t = f t) → (∀ t, g' t = g t) →
  by_block what syswhat f' g' id (over s b) = by_block what syswhat f g id b.
Proof.
  intros ->%functional_extensionality ->%functional_extensionality. unfold by_block.
  rewrite q_getBlockByID. simpl. rewrite (ref_SystemTransactionsForBlockID _ _ Q).
  destruct (map_err _ (getBlockByID id b)) as [blk|]; [|done]. simpl.
  erewrite res_map_ext; [done|]. intros q. simpl. by rewrite q_getCollectionByID.
Qed.

Lemma q_system_txs t blk : system_txs t blk (over s b) = system_txs t blk b.
Proof. unfold system_txs. simpl. by rewrite (ref_SystemTransactionsForBlockID _ _ Q). Qed.
Lemma q_system_txID t blk : system_txID t blk (over s b) = system_txID t blk b.
Proof. unfold system_txID. by rewrite q_system_txs. Qed.
Lemma q_scheduled_txID n blk : scheduled_txID n blk (over s b) = scheduled_txID n blk b.
Proof. unfold scheduled_txID. by rewrite q_system_txs. Qed.
Lemma q_scheduled_block n : is_u64 n → scheduled_block n (over s b) = scheduled_block n b.
Proof.
  intros Hn. unfold scheduled_block. simpl. by rewrite (ref_BlockIDByScheduledTransactionID _ _ Q).
Qed.

Lemma q_events_of_IDs ty ids : GetEventsForBlockIDs ty ids (over s b) = GetEventsForBlockIDs ty ids b.
Proof.
  induction ids as [|id ids IH]; [done|]. simpl. rewrite (ref_BlockByID _ _ Q).
  destruct (log_BlockByID id (b_storage b)) as [blk|] eqn:Hb; [|done].
  pose proof (log_blockID_committed _ _ _ Hok Hb) as Hh. pose proof (next_height_le _ Hok).
  rewrite (ref_EventsByHeight _ _ Q) by (unfold committed_height, is_u64 in *; lia).
  by rewrite IH.
Qed.

Lemma q_events_loop fuel ty h1 h2 :
  is_u64 h1 → events_loop fuel ty h1 h2 (over s b) = events_loop fuel ty h1 h2 b.
Proof.
  revert h1. induction fuel as [|fuel IH]; intros h1 Hu; simpl; [done|].
  rewrite (ref_BlockByHeight _ _ Q), (ref_EventsByHeight _ _ Q), IH by (done || apply u64_range).
  done.
Qed.

Lemma q_range_fuel h : Api.range_fuel h (over s b) = Api.range_fuel h b.
Proof. unfold Api.range_fuel. simpl. by rewrite (ref_LatestBlockHeight _ _ Q). Qed.
End queries.

(** A call that reads: its answer is the same on related chains. *)
#[local] Ltac by_read := apply sim_read; intros b s HP R Hok; split; [|done].

Lemma same_ExecuteScript script args : same (ExecuteScript script args) (ExecuteScript script args).
Proof. unfold ExecuteScript. apply same_bind; [apply same_latest|intros blk; apply same_executeScriptAtBlockID]. Qed.

Lemma sim_ExecuteScriptAtBlockHeight script args h :
  sim (λ _, is_u64 h) (ExecuteScriptAtBlockHeight script args h)
    (ExecuteScriptAtBlockHeight script args h) (λ _ _, True).
Proof.
  unfold ExecuteScriptAtBlockHeight.
  apply (sim_bind _ (λ _ _, True)); [|intros blk; apply same_executeScriptAtBlockID].
  by_read. by apply q_getBlockByHeight.
Qed.

Lemma same_autoMine : same EnableAutoMine EnableAutoMine ∧ same DisableAutoMine DisableAutoMine.
Proof. by split; apply same_modify. Qed.

(** Every call of the interface gives the same answer. *)
Lemma sim_perform {A} (m : method A) : sim (args_ok m) (perform m) (perform m) (λ _ _, True).
Proof.
  destruct m; cbn [perform args_ok].
  - apply same_currentServiceKey.
  - by apply same_get.
  - apply same_latest.
  - by_read. by apply q_getBlockByID.
  - by_read. by apply q_getBlockByHeight.
  - by_read. by apply q_getCollectionByID.
  - by_read. by apply q_getFullCollectionByID.
  - by_read. by apply q_getTransaction.
  - by_read. by apply q_getTransactionResult.
  - by_read. apply (q_by_block b s R); intros t; by apply q_getTransaction.
  - by_read. apply (q_by_block b s R); intros t; [by apply q_getTransactionResult|].
    by apply q_getSystemTransactionResult.
  - by_read. cbn. unfold GetSystemTransaction. rewrite q_system_txID by done.
    destruct (system_txID _ _ _) as [id|]; [|done]. by apply q_getTransaction.
  - by_read. cbn. unfold GetSystemTransactionResult. rewrite q_system_txID by done.
    destruct (system_txID _ _ _) as [id|]; [|done]. by apply q_getSystemTransactionResult.
  - by_read. cbn. unfold GetScheduledTransaction, GetScheduledTransactionByBlockID.
    rewrite q_scheduled_block by done. destruct (scheduled_block n b) as [blk|]; [|done]. simpl.
    rewrite q_scheduled_txID by done. destruct (scheduled_txID _ _ _) as [id|]; [|done]. by apply q_getTransaction.
  - by_read. cbn.
    unfold GetScheduledTransactionResult, GetScheduledTransactionResultByBlockID.
    rewrite q_scheduled_block by done. destruct (scheduled_block n b) as [blk|]; [|done]. simpl.
    rewrite q_scheduled_txID by done. destruct (scheduled_txID _ _ _) as [id|]; [|done].
    by apply q_getSystemTransactionResult.
  - by_read. by apply same_getAccount.
  - by_read. by apply same_getAccountAtBlock.
  - by_read. by apply (same_getAccount (SDKAddressToFlow (address_at (ctx_Chain (b_vmCtx b)) index))).
  - by_read. apply (ref_EventsByHeight _ _ (store_rel_refines _ _ R)), HP.
  - by_read. cbn. f_equal. by apply q_events_of_IDs.
  - by_read. cbn. unfold Api.GetEventsForHeightRange. by rewrite q_range_fuel, q_events_loop.
  - apply same_ExecuteScript.
  - apply sim_ExecuteScriptAtBlockHeight.
  - apply same_executeScriptAtBlockID.
  - apply sim_same, same_SendTransaction.
  - apply same_addTransaction.
  - apply same_autoMine.
  - apply same_autoMine.
  - apply sim_same, same_executeAndCommitBlock.
  - apply same_ExecuteNextTransaction.
  - apply same_executeBlock.
  - apply sim_same, same_commitBlock.
  - by_read. by apply q_GetLogs.
  - by_read. done.
  - by apply same_get.
  - cbn. unfold StartDebugger. same.
  - by apply same_modify.
  - by_read. by apply same_getAccount.
  - by apply same_get.
  - split; [by exists []|done].
  - split; [by exists []|done].
  - split; [by exists []|done].
  - split; [by exists []|done].
Qed.
End calls.

(** * The chain over the log *)

#[export] Instance log_total {FM : FlowModel} : TotalStore log.
Proof. done. Qed.

Section log_chain.
Context {FM : FlowModel} {CA : Cadence} {VM : VirtualMachine} {CK : Clocks} {CR : Crypto}
        {SG : Signing} {CP : CadenceParser} {KS : KindString} {GO : GoMapOrder}
        {AG : AddressGenerator} {SRC : SourceLibrary}.
Implicit Types b : Blockchain (S := log).

Lemma script_inv script args id b l :
  chain_inv b l → ∃ ws, chain_inv (executeScriptAtBlockID script args id b).2 (ws ++ l).
Proof.
  intros HI. exists []. destruct (script_keeps script args id b b) as [H1 H2]; [done|].
  by apply (chain_inv_ext b).
Qed.

(** A call keeps the invariant of the chain and adds to its log. *)
Lemma perform_inv {X} (m : method X) b l :
  chain_inv b l → args_ok m l → has_room b → ∃ ws, chain_inv (perform m b).2 (ws ++ l).
Proof.
  intros HI Ha [Hsz Hht].
  assert (∀ o, op_world o = None ∨ (∃ w, op_world o = Some w ∧ world_ok w) →
            ∃ ws, chain_inv (step o b) (ws ++ l)) as Hstep.
  { intros o Ho. apply step_inv; [done|]. split; [done|]. split; [done|].
    split; [by destruct Ho as [->|(w & -> & ?)]|by destruct o]. }
  destruct m; cbn [perform args_ok] in *; try (exists []; exact HI).
  - apply (Hstep OServiceKey). by left.
  - cbn. unfold ExecuteScript, mbind, ST_bind, st_read.
    destruct (getLatestBlock b); [by apply script_inv|by exists []].
  - cbn. unfold ExecuteScriptAtBlockHeight, mbind, ST_bind, st_read.
    destruct (getBlockByHeight height b); [by apply script_inv|by exists []].
  - by apply script_inv.
  - apply (Hstep (OSendTransaction tx w)). right. by eexists.
  - apply (Hstep (OAddTransaction tx)). by left.
  - apply (Hstep (OAutoMine true)). by left.
  - apply (Hstep (OAutoMine false)). by left.
  - apply (Hstep (OExecuteAndCommitBlock w)). right. by eexists.
  - apply (Hstep OExecuteNextTransaction). by left.
  - apply (Hstep OExecuteBlock). by left.
  - apply (Hstep (OCommitBlock w)). right. by eexists.
  - apply (Hstep (ODebugging true)). by left.
  - apply (Hstep (ODebugging false)). by left.
Qed.

Lemma run_inv {A} (p : client A) b l :
  chain_inv b l → calls_ok p b → ∃ ws, chain_inv (run p b).2 (ws ++ l).
Proof.
  revert b l. induction p as [a|X m k IH|o k IH]; intros b l HI; cbn [run calls_ok].
  - by exists [].
  - intros (Ha & Hr & Hk). rewrite (ci_store b l HI) in Ha.
    destruct (perform_inv m b l HI Ha Hr) as [ws HI']. destruct (perform m b) as [r b'].
    destruct (IH r b' _ HI' Hk) as [ws' HI'']. exists (ws' ++ ws). by rewrite <- app_assoc.
  - intros (Ho & _ & Hk). destruct (step_inv o b l HI Ho) as [ws HI'].
    destruct (IH _ _ HI' Hk) as [ws' HI'']. exists (ws' ++ ws). by rewrite <- app_assoc.
Qed.
End log_chain.

(** * Clients of the two chains *)

Section independence.
Context {FM : FlowModel} {CA : Cadence} {VM : VirtualMachine} {CK : Clocks} {CR : Crypto}
        {SG : Signing} {CP : CadenceParser} {KS : KindString} {GO : GoMapOrder}
        {AG : AddressGenerator} {SRC : SourceLibrary} {S : Type} `{!Store S} {OI : OptionalInterfaces S} {SC : StoreCorrect S}.
Implicit Types b : Blockchain (S := log).

Lemma same_state {X} m1 m2 b s :
  sim (S := S) (A := X) (λ _, True) m1 m2 (λ _ _, True) →
  store_rel s (b_storage b) → good (S := S) (b_storage (m1 b).2) →
  ∃ s', (m2 (over s b)).2 = over s' (m1 b).2 ∧ store_rel s' (b_storage (m1 b).2).
Proof.
  intros Hm R Hg. destruct (sim_run _ _ _ _ Hm b s I R Hg) as (s' & -> & R' & _). by exists s'.
Qed.

Lemma step_same o b s :
  optional o = false → store_rel s (b_storage b) → good (S := S) (b_storage (step o b)) →
  ∃ s', step o (over s b) = over s' (step o b) ∧ store_rel s' (b_storage (step o b)).
Proof.
  intros Ho R.
  destruct o as [tx|tx w| | |w|w|w|w|w|c w|on|on|sc args id| |h w|n w|n w]; try done; cbn [step].
  - apply same_state; [apply same_addTransaction|done].
  - apply same_state; [apply same_SendTransaction|done].
  - apply same_state; [apply same_ExecuteNextTransaction|done].
  - apply same_state; [apply same_executeBlock|done].
  - apply same_state; [apply same_commitBlock|done].
  - apply same_state; [apply same_executeAndCommitBlock|done].
  - apply same_state; [apply same_ResetPendingBlock|done].
  - intros Hg. unfold tick in *.
    destruct (sim_suffix _ _ _ _ (same_commitBlock (S := S) w) (executeBlock b).2) as [ws Hws].
    assert (good (S := S) (b_storage (executeBlock b).2)) as Hg1 by (rewrite Hws in Hg; by apply good_app in Hg).
    destruct (same_state _ _ b s same_executeBlock R Hg1) as (s1 & -> & R1).
    by apply same_state; [apply same_commitBlock|..].
  - apply same_state; [apply same_ReloadBlockchain|done].
  - apply same_state; [by apply same_modify|done].
  - destruct on; apply same_state; [apply same_autoMine|done|apply same_autoMine|done].
  - destruct on; apply same_state; [unfold StartDebugger; same|done|by apply same_modify|done].
  - apply same_state; [apply same_executeScriptAtBlockID|done].
  - apply same_state; [apply same_currentServiceKey|done].
Qed.

Lemma step_suffix o b l : chain_inv b l → op_ok o b → ∃ ws, b_storage (step o b) = ws ++ b_storage b.
Proof.
  intros HI Ho. destruct (step_inv o b l HI Ho) as [ws HI']. exists ws.
  by rewrite (ci_store _ _ HI), (ci_store _ _ HI').
Qed.

Lemma run_same {A} (p : client A) b l s :
  chain_inv b l → calls_ok p b → store_rel s (b_storage b) →
  writable_log (S := S) (b_storage (run p b).2) →
  ∃ s', run p (over s b) = ((run p b).1, over s' (run p b).2) ∧ store_rel s' (b_storage (run p b).2).
Proof.
  revert b l s. induction p as [a|X m k IH|o k IH]; intros b l s HI; cbn [run calls_ok].
  - by exists s.
  - intros (Ha & Hr & Hk) R. pose proof (sim_run _ _ _ _ (sim_perform m) b s Ha R) as Hs.
    rewrite (ci_store b l HI) in Ha. destruct (perform_inv m b l HI Ha Hr) as [ws HI'].
    destruct (perform m b) as [r b']. cbn [fst snd] in *. intros Hw.
    destruct (run_inv _ b' _ HI' Hk) as [ws' HI''].
    destruct Hs as (s' & -> & R' & _); [|by apply (IH r b' (ws ++ l))].
    apply (good_app ws'). rewrite (ci_store _ _ HI'), <- (ci_store _ _ HI'').
    split; [|done]. rewrite (ci_store _ _ HI''). apply HI''.
  - intros (Ho & Hopt & Hk) R Hw. destruct (step_inv o b l HI Ho) as [ws HI'].
    destruct (run_inv _ _ _ HI' Hk) as [ws' HI''].
    destruct (step_same o b s Hopt R) as (s' & -> & R'); [|by apply (IH _ (ws ++ l))].
    apply (good_app ws'). rewrite (ci_store _ _ HI'), <- (ci_store _ _ HI'').
    split; [|done]. rewrite (ci_store _ _ HI''). apply HI''.
Qed.

(** From the creation on, a client gets from the chain over the store what it
    gets from the chain over the log. *)
Lemma client_same {A} conf w ws b0 (p : client A) s :
  start_ok conf ([] : log) w ws → Blockchain.New conf ([] : log) w ws = (Ok (), b0) → calls_ok p b0 →
  writable_log (S := S) (b_storage (run p b0).2) → store_rel s [] →
  ∃ b0', Blockchain.New conf s w ws = (Ok (), b0') ∧ (run p b0').1 = (run p b0).1 ∧
         store_rel (b_storage (run p b0').2) (b_storage (run p b0).2).
Proof.
  intros Hs Hnew Hc Hw R. destruct (New_inv conf [] w ws b0 Hs Hnew) as (l & es & evs & HI).
  destruct (run_inv p b0 _ HI Hc) as [ws' HI'].
  destruct (same_New conf w ws s b0 R) as (s' & Hn & R'); [|done|].
  - apply (good_app ws'). rewrite (ci_store _ _ HI), <- (ci_store _ _ HI').
    split; [|done]. rewrite (ci_store _ _ HI'). apply HI'.
  - exists (over s' b0). split; [done|].
    destruct (run_same p b0 _ s' HI Hc R' Hw) as (s2 & -> & R2). by split.
Qed.
End independence.

(** * The in-memory store and SQLite *)

Section stores.
Context {FM : FlowModel} {FL : FlowModelLaws FM} {TR : SnapshotTrees} {TL : SnapshotTreeLaws TR}
        {CD : Codecs} {CL : CodecsLaws CD} {SE : SqlEngine} {SL : SqlEngineLaws SE}
        {CA : Cadence} {VM : VirtualMachine} {CK : Clocks} {CR : Crypto}
        {SG : Signing} {CP : CadenceParser} {KS : KindString} {GO : GoMapOrder}
        {AG : AddressGenerator} {SRC : SourceLibrary}.

Lemma consistent_log_suffix l3 w l2 : consistent_log (l3 ++ w :: l2) → consistent l2 w.
Proof.
  intros Hw. pose proof (consistent_log_app l3 [] w l2) as H. rewrite !app_nil_r in H. exact (H Hw).
Qed.

Lemma run_consistent {A} conf w ws b0 (p : client A) :
  start_ok conf ([] : log) w ws → Blockchain.New conf ([] : log) w ws = (Ok (), b0) → calls_ok p b0 →
  collision_free (b_storage (run p b0).2) → consistent_log (b_storage (run p b0).2).
Proof.
  intros Hs Hnew Hc HF. destruct (New_inv conf [] w ws b0 Hs Hnew) as (l & es & evs & HI).
  destruct (run_inv p b0 _ HI Hc) as [ws' HI']. rewrite (ci_store _ _ HI') in HF |- *.
  apply collision_free_consistent; [apply HI'|apply (ci_once _ _ HI')..|done].
Qed.

(** C5 (equivalence): a client of the emulator that neither rolls back nor uses
    snapshots, and that asks for accounts at committed heights, cannot tell whether
    the chain runs on the in-memory store or on SQLite.  When the chain is created
    on the empty log of writes, and the client's calls are such and in their ranges,
    the chain is created on a new in-memory store and on a new SQLite store as well,
    and the client gets the same answers from both: those of the chain over the log.
    What is asked of the chain is what SQLite's tables need: no two different blocks,
    collections or transactions of it have the same ID, a scheduled transaction
    belongs to one block, and the heights are positive as signed numbers.  The calls
    that are left out do tell the stores apart: the in-memory store refuses rollbacks
    and snapshots, and SQLite offers rollbacks. *)
Theorem stores_indistinguishable {A} conf w ws b0 (p : client A) :
  start_ok conf ([] : log) w ws → Blockchain.New conf ([] : log) w ws = (Ok (), b0) → calls_ok p b0 →
  collision_free (b_storage (run p b0).2) →
  ∃ bm bq, Blockchain.New conf Mem.New w ws = (Ok (), bm) ∧ Blockchain.New conf Sqlite.fresh w ws = (Ok (), bq) ∧
    (run p bm).1 = (run p b0).1 ∧ (run p bq).1 = (run p b0).1 ∧
    refines (b_storage (run p bm).2) (b_storage (run p b0).2) ∧
    refines (b_storage (run p bq).2) (b_storage (run p b0).2) ∧
    (∀ h w', (perform (MRollbackToBlockHeight h w') (run p bm).2).1 = Err (Errorf "storage doesn't support rollback")) ∧
    (perform MSnapshots (run p bm).2).1 = Err (Errorf "storage doesn't support snapshots") ∧
    is_Ok (rollbackProvider (run p bq).2) = true.
Proof.
  intros Hs Hnew Hc HF. pose proof (run_consistent conf w ws b0 p Hs Hnew Hc HF) as Hw.
  destruct (client_same (SC := Mem.mem_correct) conf w ws b0 p Mem.New Hs Hnew Hc)
    as (bm & Hm & Em & Rm); [done|apply Mem.mem_rel_New|].
  destruct (client_same (SC := sqlite_correct) conf w ws b0 p Sqlite.fresh Hs Hnew Hc)
    as (bq & Hq & Eq & Rq); [|apply fresh_rel|].
  { intros s w' l2 l3 Hl _. apply (consistent_log_suffix l3). by rewrite <- Hl. }
  exists bm, bq. split; [done|]. split; [done|]. split; [done|]. split; [done|].
  split; [by apply Mem.mem_rel_refines|]. split; [by apply def_rel_refines, Rq|done].
Qed.
End stores.

(** * The stores that are used when none is chosen *)

Section default_storage.
Context {FM : FlowModel} {FL : FlowModelLaws FM} {TR : SnapshotTrees} {TL : SnapshotTreeLaws TR}
        {CD : Codecs} {CL : CodecsLaws CD} {SE : SqlEngine} {SL : SqlEngineLaws SE}
        {CA : Cadence} {VM : VirtualMachine} {CK : Clocks} {CR : Crypto}
        {SG : Signing} {CP : CadenceParser} {KS : KindString} {GO : GoMapOrder}
        {AG : AddressGenerator} {SRC : SourceLibrary} {RS : RedisServer} {RC : RedisClient} {DB : Databases}
        {DL : DatabasesLaws DB} {AN : AccessNode} {FS : FileSystem} {SS : SortSlice}
        {CH : CheckpointLedger} {LT : LibraryTexts}.
Context (now : Time) (entries : list DirEntry).
#[local] Existing Instance provider_util.

(** None of the flags that choose a store is set. *)
Definition no_storage_flags (c : Config) : Prop :=
  sc_RedisURL c = ""%string ∧ sc_SqliteURL c = ""%string ∧ sc_CheckpointPath c = ""%string ∧
  sc_StateHash c = ""%string ∧ sc_Persist c = false ∧ sc_ForkHost c = ""%string.

Lemma sqlite_memory s : sqlite_New sqlite_InMemory false now = Ok s → sq_rel s [].
Proof.
  unfold sqlite_New. rewrite decide_True by done. cbn [mbind res_bind].
  intros (found & Hf & H)%bind_Ok. cbn [mbind res_bind] in H.
  apply bind_Ok in H as ([] & _ & H). injection H as <-.
  apply memory_empty in Hf as ->. exact (sq_rel_id (time_UnixMilli now) Sqlite.fresh [] fresh_rel).
Qed.

(** The store that the server configures, or that a chain creates, by default. *)
Definition default_store (s : provider) : Prop :=
  (∃ c, no_storage_flags c ∧ configureStorage (SU := provider_util now entries) c = Ok s) ∨
  GetStore None (CreateDefaultStorage now) = Ok s ∨ GetStore None wasm_CreateDefaultStorage = Ok s.

Lemma default_store_empty s : default_store s → provider_rel s [].
Proof.
  assert (∀ s, CreateDefaultStorage now = Ok s → provider_rel s []) as Hs.
  { intros s' H. unfold CreateDefaultStorage in H. destruct (sqlite_New _ _ _) as [q|] eqn:Hq; [|done].
    injection H as <-. by apply sqlite_memory. }
  intros [(c & (H1 & H2 & H3 & H4 & H5 & H6) & H)|[H|H]].
  - unfold configureStorage, redis_part, sqlite_part, checkpoint_part, persist_part, fork_part, memory_part in H.
    rewrite H1, H2, H3, H4, H5, H6 in H. assert (nonempty "" = false) as Hn by done. rewrite !Hn in H.
    cbn [mbind res_bind orb] in H. apply bind_Ok in H as (s0 & Hs0 & H). assert (s = s0) as ->; [|by apply Hs].
    unfold snapshot_part in H. destruct (sc_Snapshot c); [|by injection H].
    destruct (snapshot_support s0) as [[]|]; by simplify_eq.
  - unfold GetStore in H. destruct (CreateDefaultStorage now) as [s'|] eqn:Hc; simplify_eq. by apply Hs.
  - injection H as <-. apply Mem.mem_rel_New.
Qed.

Lemma provider_consistent l : consistent_log l → writable_log (S := provider) l.
Proof.
  intros Hw [] w' l2 l3 Hl _; try done. by apply (consistent_log_suffix l3); rewrite <- Hl.
Qed.

(** The chain on the default store serves a client that neither rolls back nor
    uses snapshots as the chain on the log of its writes does, whether the store is the one that the server configures
    when no flag chooses one, the one that a chain creates for itself, or the one of
    the WebAssembly build: the chain is created, the client gets the same answers,
    and the store answers as the log. *)
Theorem default_storage_serves {A} s conf w ws b0 (p : client A) :
  default_store s →
  start_ok conf ([] : log) w ws → Blockchain.New conf ([] : log) w ws = (Ok (), b0) → calls_ok p b0 →
  collision_free (b_storage (run p b0).2) →
  ∃ b, Blockchain.New conf s w ws = (Ok (), b) ∧ (run p b).1 = (run p b0).1 ∧
       refines (b_storage (run p b).2) (b_storage (run p b0).2).
Proof.
  intros Hd Hs Hnew Hc HF. pose proof (run_consistent conf w ws b0 p Hs Hnew Hc HF) as Hw.
  destruct (client_same (S := provider) conf w ws b0 p s Hs Hnew Hc) as (b & Hb & He & R);
    [by apply provider_consistent|by apply default_store_empty|].
  exists b. split_and!; [done..|by apply store_rel_refines].
Qed.
End default_storage.
