(* ===== verification/Lives.v ===== *)
(** Lives of a chain, over any store that follows the contract.

    A life is the creation of a chain on an empty store and the operations that
    were made on it, in order.  The theorems of this file hold over every store
    with [StoreCorrect]: the in-memory store, whose writes all succeed, and
    SQLite, which takes every write of a log without ID collisions.  Rollbacks and
    snapshots are operations too, on a store that does not offer them, which
    refuses them; a life on a store that offers them is one in which they are not
    used ([AdminTheorems] says what they do). *)
From S2P Require Import Prelude FlowTypes Errors Storage LogStore Report Convert Pragma Vm PendingBlock.
From S2P Require Import Blockchain Queries BlockchainCorrect Chain Composition ChainTheorems.
From S2P Require Import Consistency Simulation StoreIndependence.
From S2P Require Import Keys Memstore DefaultStore DefaultStoreCorrect Sqlite SqliteCorrect.

Section lives.
Context {FM : FlowModel} {CA : Cadence} {VM : VirtualMachine} {CK : Clocks} {CR : Crypto}
        {SG : Signing} {CP : CadenceParser} {KS : KindString} {GO : GoMapOrder}.

(** The operations one after the other, and their conditions on the way. *)
Fixpoint run_ops {S : Type} `{!Store S} {OI : OptionalInterfaces S} (os : list op)
    (b : Blockchain (S := S)) : Blockchain :=
  match os with
  | [] => b
  | o :: os => run_ops os (step o b)
  end.
Fixpoint ops_ok {S : Type} `{!Store S} {OI : OptionalInterfaces S} (os : list op)
    (b : Blockchain (S := S)) : Prop :=
  match os with
  | [] => True
  | o :: os => op_ok o b ∧ ops_ok os (step o b)
  end.

(** The chain that a life leaves, and the writes it makes: those of the same life
    over the log. *)
Definition made {S : Type} `{!Store S} {OI : OptionalInterfaces S} (conf : config) (s : S)
    (w : World) (ws : nat → World) (os : list op) : Blockchain :=
  run_ops os (New conf s w ws).2.
Definition written (conf : config) (w : World) (ws : nat → World) (os : list op) : log :=
  b_storage (made conf ([] : log) w ws os).

(** The chain is created on an empty store, its operations are in their ranges,
    and the store takes the writes. *)
Record life {S : Type} `{!Store S} {OI : OptionalInterfaces S} {SC : StoreCorrect S}
    (conf : config) (s : S) (w : World) (ws : nat → World) (os : list op) : Prop := {
  life_start : start_ok conf s w ws;
  life_created : (New conf s w ws).1 = Ok ();
  life_ops : ops_ok os (New conf s w ws).2;
  life_writable : writable_log (S := S) (written conf w ws os)
}.

(** ** Lives over the log *)

Lemma log_step_suffix o (b : Blockchain (S := log)) : ∃ ws, b_storage (step o b) = ws ++ b_storage b.
Proof.
  apply (step_store (λ l, ∃ ws, l = ws ++ b_storage b)).
  - intros x l [ws ->]. destruct (apply_write_suffix x (ws ++ b_storage b)) as [ws' ->].
    exists (ws' ++ ws). by rewrite app_assoc.
  - intros m. by destruct o.
  - by exists [].
Qed.

Lemma log_run_suffix os (b : Blockchain (S := log)) : ∃ ws, b_storage (run_ops os b) = ws ++ b_storage b.
Proof.
  revert b. induction os as [|o os IH]; intros b; simpl; [by exists []|].
  destruct (IH (step o b)) as [ws ->]. destruct (log_step_suffix o b) as [ws' ->].
  exists (ws ++ ws'). by rewrite app_assoc.
Qed.

Lemma run_ops_app {S : Type} `{!Store S} {OI : OptionalInterfaces S} os1 os2 (b : Blockchain (S := S)) :
  run_ops (os1 ++ os2) b = run_ops os2 (run_ops os1 b).
Proof. revert b. induction os1 as [|o os1 IH]; intros b; simpl; auto. Qed.

Section any_store.
Context {S : Type} `{!Store S} {OI : OptionalInterfaces S} {SC : StoreCorrect S}.

Lemma ops_ok_app os1 os2 (b : Blockchain (S := S)) :
  ops_ok (os1 ++ os2) b ↔ ops_ok os1 b ∧ ops_ok os2 (run_ops os1 b).
Proof. revert b. induction os1 as [|o os1 IH]; intros b; simpl; [tauto|]. rewrite IH. tauto. Qed.

(** The invariant of the chain over the log, over the store. *)
Lemma chain_inv_over s (b : Blockchain (S := log)) l :
  store_rel s (b_storage b) → chain_inv b l → chain_inv (over s b) l.
Proof. intros R HI. rewrite (ci_store b l HI) in R. destruct HI. by split. Qed.

Lemma op_ok_over o s (b : Blockchain (S := log)) :
  store_rel s (b_storage b) → op_ok o (over s b) → op_ok o b.
Proof.
  intros R (H1 & H2 & H3 & _). split; [done|]. split; [|split; [done|by destruct o]].
  intros h Hh. apply H2. simpl. rewrite (ref_LatestBlockHeight _ _ (store_rel_refines _ _ R)). exact Hh.
Qed.

Lemma run_ops_over os s (b : Blockchain (S := log)) l :
  chain_inv b l → store_rel s (b_storage b) → ops_ok os (over s b) →
  writable_log (S := S) (b_storage (run_ops os b)) →
  ∃ s' ws, run_ops os (over s b) = over s' (run_ops os b) ∧
           store_rel s' (b_storage (run_ops os b)) ∧ chain_inv (run_ops os b) (ws ++ l).
Proof.
  revert s b l. induction os as [|o os IH]; intros s b l HI R; simpl.
  { intros _ _. by exists s, []. }
  intros [Ho Hos] Hw. pose proof (op_ok_over o s b R Ho) as Hol.
  destruct (step_inv o b l HI Hol) as [ws HI1].
  assert (∃ s1, step o (over s b) = over s1 (step o b) ∧ store_rel s1 (b_storage (step o b)))
    as (s1 & Hs1 & R1).
  { destruct (optional o) eqn:Hopt.
    - exists s. destruct Ho as (_ & _ & _ & Hoff). destruct Hol as (_ & _ & _ & Hoff').
      by rewrite (not_offered o _ Hopt Hoff), (not_offered o _ Hopt Hoff').
    - apply step_same; [done|done|]. destruct (log_run_suffix os (step o b)) as [ws' Hws'].
      split; [rewrite (ci_store _ _ HI1); apply HI1|]. rewrite Hws' in Hw.
      intros s' x l2 l3 Hl. apply (Hw s' x l2 (ws' ++ l3)). by rewrite Hl, app_assoc. }
  rewrite Hs1 in Hos |- *. destruct (IH s1 (step o b) (ws ++ l) HI1 R1 Hos Hw) as (s2 & ws2 & H2 & R2 & HI2).
  exists s2, (ws2 ++ ws). by rewrite <- app_assoc.
Qed.

Lemma writable_suffix ws l : writable_log (S := S) (ws ++ l) → writable_log (S := S) l.
Proof. intros Hw s' x l2 l3 ->. apply (Hw s' x l2 (ws ++ l3)). by rewrite <- app_assoc. Qed.

(** ** A life over the store is the life over the log *)

Lemma life_over conf s w ws os :
  life conf s w ws os →
  ∃ s' l es evs, made conf s w ws os = over s' (made conf ([] : log) w ws os) ∧
    store_rel s' (written conf w ws os) ∧
    chain_inv (made conf ([] : log) w ws os) (l ++ [WCommit (genesis_commit conf es evs)]).
Proof.
  intros [(R & Hstart) Hnew Hops Hw]. unfold written, made in *.
  assert (start_ok conf ([] : log) w ws) as Hs0 by (by split).
  assert (good (S := S) (b_storage (New conf ([] : log) w ws).2)) as Hg.
  { split.
    - destruct (New_log conf ([] : log) w ws Hs0) as (l & Hl & Hb). simpl in Hb. by rewrite Hb.
    - destruct (log_run_suffix os (New conf ([] : log) w ws).2) as [ws' Hws']. rewrite Hws' in Hw.
      by apply writable_suffix in Hw. }
  destruct (New_over conf w ws s R Hg) as (s0 & Hn & R0). rewrite Hn in Hnew, Hops |- *. simpl in Hnew, Hops |- *.
  destruct (New conf ([] : log) w ws) as [r b0] eqn:Hb0. simpl in *. subst r.
  destruct (New_inv conf ([] : log) w ws b0 Hs0 Hb0) as (l & es & evs & HI).
  destruct (run_ops_over os s0 b0 _ HI R0 Hops Hw) as (s' & ws' & H1 & H2 & H3).
  exists s', (ws' ++ l), es, evs. by rewrite <- app_assoc.
Qed.

Lemma life_inv conf s w ws os :
  life conf s w ws os →
  ∃ l es evs, chain_inv (made conf s w ws os) (l ++ [WCommit (genesis_commit conf es evs)]).
Proof.
  intros (s' & l & es & evs & -> & R & HI)%life_over. exists l, es, evs. by apply chain_inv_over.
Qed.

Lemma life_prefix conf s w ws os1 os2 : life conf s w ws (os1 ++ os2) → life conf s w ws os1.
Proof.
  intros [H1 H2 H3 H4]. split; [done|done|by apply ops_ok_app in H3 as [? _]|].
  unfold written, made in *. rewrite run_ops_app in H4.
  destruct (log_run_suffix os2 (run_ops os1 (New conf ([] : log) w ws).2)) as [ws' Hws'].
  rewrite Hws' in H4. by apply writable_suffix in H4.
Qed.

(** A later chain of the same life has the longer log. *)
Lemma life_advances conf s w ws os1 os2 :
  life conf s w ws (os1 ++ os2) →
  ∃ l ws', chain_inv (made conf s w ws os1) l ∧ chain_inv (made conf s w ws (os1 ++ os2)) (ws' ++ l).
Proof.
  intros HL. destruct (life_over _ _ _ _ _ (life_prefix _ _ _ _ _ _ HL)) as (s1 & l & es & evs & Hm & R & HI).
  destruct HL as [_ _ Hops Hw]. apply ops_ok_app in Hops as [_ Hops].
  unfold written, made in *. rewrite run_ops_app in Hw. rewrite Hm in Hops.
  rewrite run_ops_app, Hm.
  destruct (run_ops_over os2 s1 _ _ HI R Hops Hw) as (s2 & ws' & H1 & H2 & H3).
  eexists _, ws'. split; [by apply chain_inv_over|]. rewrite H1. by apply chain_inv_over.
Qed.

(** ** Commits *)

(** What a commit over the log leaves, over the store. *)
Lemma committed_over s s' (b b' : Blockchain (S := log)) l c :
  store_rel s' (b_storage b') → committed_as b l c b' → committed_as (over s b) l c (over s' b').
Proof. intros R []. split; try done. by apply chain_inv_over. Qed.

(** The outcomes of a commit over a store that takes its writes. *)
Lemma commit_over wc s (b : Blockchain (S := log)) l :
  chain_inv b l → next_height l < two64 → world_ok wc → store_rel s (b_storage b) →
  writable_log (S := S) (b_storage (commitBlock wc b).2) →
  (∃ e b', commitBlock wc (over s b) = (Err e, b') ∧ quiet (over s b) b') ∨
  (∃ c b', commitBlock wc (over s b) = (Ok (pending_Block (b_pendingBlock b)), b') ∧
           committed_as (over s b) l c b').
Proof.
  intros HI Hn Hwc R Hw. destruct (commitBlock_cases wc b l HI Hn Hwc) as [(e & b1 & Hc & Hq)|(c & b1 & Hc & Hca)].
  - left. destruct (commit_guard (b_pendingBlock b)) as [e'|] eqn:Hg.
    { exists e', (over s b). split; [by apply commitBlock_guard|apply quiet_refl]. }
    pose proof (prepareCommit_quiet (over s b) (over s b) (quiet_refl _)) as Hq'.
    pose proof (prepareCommit_quiet b b (quiet_refl b)) as Hq0.
    assert (good (S := S) (b_storage (prepareCommit (b_pendingBlock b) b).2)) as Hg0.
    { rewrite (q_storage _ _ Hq0), (ci_store b l HI). split; [apply HI|].
      rewrite Hc in Hw. simpl in Hw. by rewrite (q_storage _ _ Hq), (ci_store b l HI) in Hw. }
    destruct (sim_run _ _ _ _ (same_prepareCommit (b_pendingBlock b)) b s I R Hg0) as (s2 & Hp & _ & _).
    unfold commit_guard in Hg. unfold commitBlock in Hc |- *.
    rewrite (ST_bind_step _ _ b (b_pendingBlock b) b) in Hc by reflexivity.
    rewrite (ST_bind_step _ _ (over s b) (b_pendingBlock b) (over s b)) by reflexivity.
    destruct (negb _ && negb _); [done|]. destruct (_ && negb (ExecutionComplete _)); [done|].
    change (b_pendingBlock (over s b)) with (b_pendingBlock b) in Hq'. rewrite Hp in Hq'. simpl in Hq'.
    destruct (prepareCommit (b_pendingBlock b) b) as [[c|e1] b2] eqn:Hprep; simpl in Hp.
    2:{ exists e1. eexists. split; [by apply ST_bind_fail|done]. }
    rewrite (ST_bind_step _ _ _ _ _ Hp). rewrite (ST_bind_step _ _ _ _ _ Hprep) in Hc.
    destruct (decide (counts_match c)) as [Hcnt|Hcnt].
    + exfalso. pose proof (prepareCommit_prepared _ _ _ _ Hprep) as [Hpr _].
      destruct (finish_run wc b b2 c l HI Hq0 Hpr Hn Hcnt) as (s3 & snap & Hrun & _).
      pose proof (eq_trans (eq_sym Hc) Hrun) as Hx. discriminate Hx.
    + pose proof (store_counts (b_storage (over s2 b2)) c Hcnt) as He.
      exists (counts_error c), (set_storage s2 (over s2 b2)). split; [|by destruct b2].
      apply ST_bind_fail. by apply on_storage_run.
  - right. exists c. assert (good (S := S) (b_storage (commitBlock wc b).2)) as Hg.
    { split; [|done]. rewrite Hc. simpl. rewrite (ci_store _ _ (ca_inv _ _ _ _ Hca)). apply (ca_inv _ _ _ _ Hca). }
    destruct (sim_run _ _ _ _ (same_commitBlock wc) b s I R Hg) as (s2 & Hr & R2 & _).
    rewrite Hc in Hr, R2. exists (over s2 b1). split; [done|]. by apply committed_over.
Qed.

(** ** The theorems *)

(** C1: a chain that was created and operated on is a chain of blocks: its first
    block is the genesis block of its chain ID, there is a block at exactly the
    heights up to the latest block's, every block but the first carries the ID of
    the block below as its parent and a view one to three above, and the pending
    block extends the latest block in the same way.  Over any store that follows
    the contract and takes the chain's writes; rollbacks and snapshots are among
    the operations where the store refuses them, and are not where it offers them. *)
Theorem chain_well_formed conf s w ws os :
  life conf s w ws os →
  let b := made conf s w ws os in
  ∃ latest, getLatestBlock b = Ok latest ∧
    getBlockByHeight 0 b = Ok (Genesis (GetChainID conf)) ∧
    (∀ h, is_u64 h → is_Ok (getBlockByHeight h b) = true ↔ h ≤ Block_Height latest) ∧
    (∀ h blk, is_u64 h → 0 < h → getBlockByHeight h b = Ok blk →
       Block_Height blk = h ∧
       ∃ parent, getBlockByHeight (h - 1) b = Ok parent ∧ follows parent blk) ∧
    extends latest (b_pendingBlock b).
Proof. intros (l & es & evs & HI)%life_inv. by eapply inv_well_formed. Qed.

(** C2: committed history is immutable: whatever operations are made on a chain,
    the blocks, the events and the registers at the heights it had reached stay as
    they were, and the latest height does not go down.  Over any store that follows
    the contract and takes the chain's writes; what removes history, a rollback or
    the load of a snapshot, is an operation only where the store refuses it (the
    in-memory store), and is left out where the store offers it (SQLite). *)
Theorem history_immutable conf s w ws os1 os2 latest :
  life conf s w ws (os1 ++ os2) →
  let b := made conf s w ws os1 in let b' := made conf s w ws (os1 ++ os2) in
  getLatestBlock b = Ok latest →
  (∀ h ty ids, 0 ≤ h ≤ Block_Height latest →
     getBlockByHeight h b' = getBlockByHeight h b ∧
     GetEventsByHeight h ty b' = GetEventsByHeight h ty b ∧
     GetRegisterValues ids h b' = GetRegisterValues ids h b) ∧
  ∃ latest', getLatestBlock b' = Ok latest' ∧ Block_Height latest ≤ Block_Height latest'.
Proof. intros (l & ws' & HI & HI')%life_advances b b' Hlat. by eapply inv_history. Qed.

(** C8 (commitBlock): the outcome of a commit over a store that takes the writes it
    makes.  It fails, and then the store is untouched and the header, the
    transactions and the results of the pending block are as before; or it returns
    the pending block, which is now the latest block, found under its height and
    its ID; a new, empty pending block extends it, and its ID is the new source of
    entropy.  (A write that the store itself fails is outside this statement: the
    default store writes one table after the other and does not take back what it
    has written.) *)
Theorem commit_outcome conf s w ws os wc latest :
  life conf s w ws (os ++ [OCommitBlock wc]) →
  let b := made conf s w ws os in
  getLatestBlock b = Ok latest →
  let blk := pending_Block (b_pendingBlock b) in
  (∃ e b', commitBlock wc b = (Err e, b') ∧ b_storage b' = b_storage b ∧
     same_block (b_pendingBlock b) (b_pendingBlock b') ∧
     pb_index (b_pendingBlock b') = pb_index (b_pendingBlock b) ∧
     pb_transactionResults (b_pendingBlock b') = pb_transactionResults (b_pendingBlock b)) ∨
  (∃ b', commitBlock wc b = (Ok blk, b') ∧ Block_Height blk = Block_Height latest + 1 ∧
     follows latest blk ∧ getLatestBlock b' = Ok blk ∧
     getBlockByHeight (Block_Height blk) b' = Ok blk ∧ getBlockByID (Block_ID blk) b' = Ok blk ∧
     extends blk (b_pendingBlock b') ∧ Size (b_pendingBlock b') = 0 ∧
     b_entropy b' = Block_ID blk).
Proof.
  intros HL. destruct (life_over _ _ _ _ _ (life_prefix _ _ _ _ _ _ HL)) as (s1 & l & es & evs & Hm & R & HI).
  destruct HL as [_ _ Hops Hw]. apply ops_ok_app in Hops as [_ [Hop _]].
  unfold written, made in *. rewrite run_ops_app in Hw. cbn zeta. rewrite Hm in Hop |- *. intros Hlat.
  pose proof (chain_inv_over s1 _ _ R HI) as HI1.
  pose proof (op_ok_height _ _ _ HI1 Hop) as Hn. destruct Hop as (_ & _ & Hwc & _).
  destruct (commit_over wc s1 _ _ HI Hn Hwc R Hw) as [(e & b' & Hc & Hq)|(c & b' & Hc & Hca)].
  - left. exists e, b'. split; [done|]. by destruct Hq.
  - right. exists b'. split; [done|]. by apply (commit_success _ _ c b' latest HI1 Hn Hca).
Qed.
End any_store.

(** ** The stores *)

(** On a store whose writes succeed, a reachable chain is the end of a life. *)
Lemma reachable_life {S : Type} `{!Store S} {OI : OptionalInterfaces S} {SC : StoreCorrect S}
    {TS : TotalStore S} conf (b : Blockchain (S := S)) :
  reachable conf b → ∃ s w ws os, life conf s w ws os ∧ b = made conf s w ws os.
Proof.
  intros (s & w & ws & b0 & Hs & Hnew & Hsteps). exists s, w, ws.
  assert (∃ os, ops_ok os b0 ∧ b = run_ops os b0) as (os & Hos & ->).
  { clear Hnew. induction Hsteps as [|b1 b2 b3 (o & Ho & ->) _ (os & Hos & ->)]; [by exists []|].
    by exists (o :: os). }
  exists os. unfold made. rewrite Hnew. split; [|done]. split; rewrite ?Hnew; try done.
  intros s' x l2 l3 _ _. apply store_total.
Qed.
End lives.

(** SQLite takes the writes of a life without ID collisions. *)
Section sqlite_lives.
Context {FM : FlowModel} {FL : FlowModelLaws FM} {CD : Codecs} {CL : CodecsLaws CD}
        {SE : SqlEngine} {SL : SqlEngineLaws SE} {CA : Cadence} {VM : VirtualMachine} {CK : Clocks}
        {CR : Crypto} {SG : Signing} {CP : CadenceParser} {KS : KindString} {GO : GoMapOrder}.
#[local] Existing Instance sqlite_correct.

Lemma sqlite_writable l : consistent_log l → writable_log (S := Sqlite.Store) l.
Proof. intros Hc s w l2 l3 Hl _. subst l. exact (consistent_log_suffix l3 w l2 Hc). Qed.
End sqlite_lives.
