(* ===== verification/DebuggerUnset.v ===== *)
(** The debugger of a chain is [nil]: [New] leaves the field [debugger] unset and no
    operation sets it.  This holds over every store and without conditions on the
    operations; rollbacks and snapshots are among them. *)
From S2P Require Import Prelude FlowTypes Errors Storage Report Convert Pragma Vm PendingBlock.
From S2P Require Import Blockchain Queries BlockchainCorrect Chain Composition Lives.

Section debugger_unset.
Context {FM : FlowModel} {CA : Cadence} {VM : VirtualMachine} {CK : Clocks} {CR : Crypto}
        {SG : Signing} {CP : CadenceParser} {KS : KindString} {GO : GoMapOrder}
        {S : Type} `{!Store S} {OI : OptionalInterfaces S}.
Implicit Types b : Blockchain (S := S).

Definition unset b : Prop := b_debugger b = None.

Lemma on_storage_unset {A} (m : ST error S A) : keeps unset (on_storage m).
Proof. intros b Hb. unfold on_storage. by destruct (m (b_storage b)). Qed.

Lemma map_err_unset {A} g (m : ST error (Blockchain (S := S)) A) :
  keeps unset m → keeps unset (st_map_err g m).
Proof. intros Hm b Hb. unfold st_map_err. specialize (Hm b Hb). by destruct (m b) as [[?|?] ?]. Qed.

Lemma start_run_unset code id : keeps unset (start_run (S := S) code id).
Proof. apply start_run_keeps; [done|]. unfold unset. congruence. Qed.

Lemma executeNextTransaction_unset ctx : keeps unset (executeNextTransaction (S := S) ctx).
Proof. apply executeNextTransaction_keeps; try done. unfold unset. congruence. Qed.

Lemma executeBlock_unset : keeps unset (executeBlock (S := S)).
Proof.
  intros b Hb. rewrite executeBlock_state. cbn zeta. destruct (ExecutionComplete _ && _); [done|].
  apply (execute_loop_keeps unset); [apply executeNextTransaction_unset|done].
Qed.

(** Follows the text of a program. *)
Ltac unset_step known :=
  first
    [ apply known | apply keeps_ret | apply keeps_fail | apply keeps_get | apply keeps_read | apply keeps_res
    | apply on_storage_unset | apply start_run_unset | apply executeNextTransaction_unset
    | apply executeBlock_unset | apply map_err_unset
    | by apply record_source_keeps
    | by apply keeps_modify | apply keeps_bind; [|intros ?] | apply keeps_if
    | apply keeps_iter; intros ? _ | case_match ].
Ltac unset_by known := cbn zeta; repeat (unset_step known; cbn zeta).
Ltac unset := unset_by start_run_unset.

Lemma commitBlock_unset w : keeps unset (commitBlock (S := S) w).
Proof.
  intros b Hb. unfold commitBlock, mbind at 1, ST_bind at 1. simpl.
  destruct (negb _ && _); [done|]. destruct (_ && _); [done|].
  pose proof (q_debugger _ _ (prepareCommit_quiet b b (quiet_refl b))) as Hq.
  unfold mbind at 1, ST_bind at 1.
  destruct (prepareCommit (b_pendingBlock b) b) as [[c|e] b1]; simpl in Hq |- *; [|by unfold unset; rewrite Hq].
  assert (unset b1) as Hb1 by (unfold unset; by rewrite Hq). clear Hq Hb. revert b1 Hb1.
  match goal with |- ∀ b1, unset b1 → unset (?m b1).2 => change (keeps unset m) end.
  unfold indexCommit. unset.
Qed.

Lemma executeAndCommitBlock_unset w : keeps unset (executeAndCommitBlock (S := S) w).
Proof. unfold executeAndCommitBlock. unset_by commitBlock_unset. Qed.

Lemma addTransaction_unset tx : keeps unset (addTransaction (S := S) tx).
Proof. intros b Hb. rewrite addTransaction_state. by destruct (admits tx b). Qed.

Lemma ReloadBlockchain_unset w : keeps unset (ReloadBlockchain (S := S) w).
Proof. unfold ReloadBlockchain. unset. Qed.

Lemma currentServiceKey_unset : keeps unset (currentServiceKey (S := S)).
Proof.
  intros b Hb. unfold currentServiceKey. destruct (getAccount _ b); [|done]. by destruct (acc_Keys _).
Qed.

Lemma script_unset script args id : keeps unset (executeScriptAtBlockID (S := S) script args id).
Proof. unfold executeScriptAtBlockID. unset. Qed.

Lemma step_unset o b : unset b → unset (step o b).
Proof.
  intros Hb. destruct o as [tx|tx w| | |w|w|w|w|w|c w|on|on|sc args id| |h w|n w|n w]; simpl.
  - by apply addTransaction_unset.
  - revert b Hb. change (keeps unset (SendTransaction (S := S) tx w)). unfold SendTransaction.
    apply keeps_bind; [apply addTransaction_unset|intros _]. unset_by executeAndCommitBlock_unset.
  - revert b Hb. change (keeps unset (Blockchain.ExecuteNextTransaction (S := S))).
    unfold Blockchain.ExecuteNextTransaction, setFVMContextFromHeader.
    apply keeps_bind; [apply keeps_get|intros header].
    apply keeps_bind; [|intros ctx; apply executeNextTransaction_unset].
    apply keeps_bind; [by apply keeps_modify|intros _; apply keeps_get].
  - by apply executeBlock_unset.
  - by apply commitBlock_unset.
  - by apply executeAndCommitBlock_unset.
  - revert b Hb. change (keeps unset (ResetPendingBlock (S := S) w)). unfold ResetPendingBlock. unset.
  - by apply commitBlock_unset, executeBlock_unset.
  - by apply ReloadBlockchain_unset.
  - done.
  - by destruct on.
  - by destruct on.
  - by apply script_unset.
  - by apply currentServiceKey_unset.
  - revert b Hb. change (keeps unset (RollbackToBlockHeight (S := S) h w)).
    unfold RollbackToBlockHeight. unset_by ReloadBlockchain_unset.
  - revert b Hb. change (keeps unset (CreateSnapshot (S := S) n w)).
    unfold CreateSnapshot. unset_by ReloadBlockchain_unset.
  - revert b Hb. change (keeps unset (LoadSnapshot (S := S) n w)).
    unfold LoadSnapshot. unset_by ReloadBlockchain_unset.
Qed.

Lemma deployContract_unset name contract w : keeps unset (deployContract (S := S) name contract w).
Proof.
  unfold deployContract. apply keeps_bind; [apply currentServiceKey_unset|intros key].
  apply keeps_if; [apply keeps_fail|]. apply keeps_bind; [apply keeps_read|intros blk].
  apply keeps_bind; [apply keeps_res|intros tx]. apply keeps_bind; [apply addTransaction_unset|intros _].
  unset_by executeAndCommitBlock_unset.
Qed.

Lemma cache_if_unset m b : unset b → unset (cache_if m b).
Proof. by destruct m. Qed.

Lemma New_unset conf s w ws : unset (New (S := S) conf s w ws).2.
Proof.
  assert (unset (initial conf s w)) as Hb by done. unfold New. revert Hb.
  generalize (initial conf s w).
  match goal with |- ∀ b, _ → unset (?m b).2 => change (keeps unset m) end.
  apply keeps_bind; [apply ReloadBlockchain_unset|intros _].
  apply keeps_bind; [apply keeps_modify; intros; by apply cache_if_unset|intros _].
  apply keeps_bind; [apply keeps_modify; intros; by apply cache_if_unset|intros _].
  unfold DeployContracts. apply keeps_iter. intros c _. apply deployContract_unset.
Qed.

(** Whatever was done to a chain since it was created, its debugger is not set. *)
Lemma made_unset conf s w ws os : unset (made (S := S) conf s w ws os).
Proof.
  unfold made. assert (unset (New conf s w ws).2) as H by apply New_unset. revert H.
  generalize (New (S := S) conf s w ws).2. induction os as [|o os IH]; intros b Hb; [done|].
  by apply IH, step_unset.
Qed.
End debugger_unset.
