(* ===== verification/Access.v ===== *)
(** The access API over an emulator: adapters/access.go.

    Each method of [AccessAdapter] calls the emulator and translates its errors
    to gRPC statuses.  The emulator is any implementation of the interface
    [Emulator]; logging is left out.  A subscription is the start height and the
    function that flow-go's streamer calls for one height after the other; the
    streamer itself, flow-go's code, is not modelled. *)
From S2P Require Import Prelude FlowTypes Errors Storage Report Convert Pragma Vm PendingBlock.
From S2P Require Import Blockchain Queries Emulator.

(** [jsoncdc.Encode] of the value of a script, [convert.CcfEventToJsonEvent],
    and the methods of a block's header in a digest. *)
Class AccessCodecs {CA : Cadence} := {
  jsoncdc_Encode : option cadence_Value → result Bytes;
  CcfEventToJsonEvent : Event → result Event
}.

Inductive EventEncodingVersion := CCF_V0 | JSON_CDC_V0.
#[global] Instance EventEncodingVersion_eq_dec : EqDecision EventEncodingVersion.
Proof. solve_decision. Defined.

Inductive BlockStatus := BlockStatusUnknown | BlockStatusFinalized | BlockStatusSealed.

(** [flowgo.BlockDigest] *)
Record BlockDigest := mkBlockDigest {
  bd_BlockID : Identifier; bd_Height : Z; bd_Timestamp : Time
}.

(** A subscription: failed, or a data function by height with the state its
    closure keeps. *)
Inductive Subscription (B St A : Type) :=
  | FailedSubscription (err : error) (msg : string)
  | HeightBasedSubscription (startHeight : Z) (init : St)
      (getData : Z → B → St → result A * St).
Arguments FailedSubscription {B St A}.
Arguments HeightBasedSubscription {B St A}.

(** The order of [flowgo.TransactionStatus]. *)
Definition status_code (st : TransactionStatus) : nat :=
  match st with
  | StatusUnknown => 0 | StatusPending => 1 | StatusFinalized => 2 | StatusExecuted => 3
  | StatusSealed => 4 | StatusExpired => 5
  end.
Definition all_statuses : list TransactionStatus :=
  [StatusUnknown; StatusPending; StatusFinalized; StatusExecuted; StatusSealed; StatusExpired].
Definition status_String (st : TransactionStatus) : string :=
  match st with
  | StatusUnknown => "UNKNOWN" | StatusPending => "PENDING" | StatusFinalized => "FINALIZED"
  | StatusExecuted => "EXECUTED" | StatusSealed => "SEALED" | StatusExpired => "EXPIRED"
  end.

Section errors.
Context {LT : LibraryTexts}.

(** The type switch sees the dynamic type: the value [InvalidArgumentError], not
    the pointer that its constructor returns. *)
Definition convertError (defaultStatusCode : Code) (err : error) : error :=
  match err with
  | InvalidArgumentError _ => status_Error codes_InvalidArgument (Error_text err)
  | _ => if isNotFoundError err then status_Error codes_NotFound (Error_text err)
         else status_Error defaultStatusCode (Error_text err)
  end.

(** [if err != nil { return nil, convertError(err, code) }] *)
Definition convert {A} (code : Code) (m : result A) : result A := map_err (convertError code) m.
Definition st_convert {B A} (code : Code) (m : ST error B A) : ST error B A :=
  st_map_err (convertError code) m.
End errors.

Module AccessAdapter.
Section access.
Context {FM : FlowModel} {CA : Cadence} {CK : Clocks} {CR : Crypto} {LT : LibraryTexts}
        {AC : AccessCodecs} {B : Type} {EM : Emulator B}.

(** ** Blocks, collections, transactions *)

Definition Ping (b : B) : result unit := convert codes_Internal (Ok ()).
Definition GetNetworkParameters (b : B) : ChainID := emu_GetNetworkParameters b.

Definition sealed_header (m : result Block) : result (Header * BlockStatus) :=
  block ← convert codes_Internal m; Ok (ToHeader block, BlockStatusSealed).
Definition sealed_block (m : result Block) : result (Block * BlockStatus) :=
  block ← convert codes_Internal m; Ok (block, BlockStatusSealed).

Definition GetLatestBlockHeader (b : B) := sealed_header (emu_GetLatestBlock b).
Definition GetBlockHeaderByHeight (height : Z) (b : B) :=
  sealed_header (emu_GetBlockByHeight height b).
Definition GetBlockHeaderByID (id : Identifier) (b : B) := sealed_header (emu_GetBlockByID id b).
Definition GetLatestBlock (b : B) := sealed_block (emu_GetLatestBlock b).
Definition GetBlockByHeight (height : Z) (b : B) := sealed_block (emu_GetBlockByHeight height b).
Definition GetBlockByID (id : Identifier) (b : B) := sealed_block (emu_GetBlockByID id b).

Definition GetCollectionByID (id : Identifier) (b : B) : result LightCollection :=
  convert codes_Internal (emu_GetCollectionByID id b).
Definition GetFullCollectionByID (id : Identifier) (b : B) : result Collection :=
  convert codes_Internal (emu_GetFullCollectionByID id b).
Definition GetTransaction (id : Identifier) (b : B) : result TransactionBody :=
  convert codes_Internal (emu_GetTransaction id b).

(** ** Events in the asked encoding *)

Definition ConvertCCFEventsToJsonEvents (events : list Event) : result (list Event) :=
  res_map CcfEventToJsonEvent events.

Definition set_Events (events : list Event) (r : access_TransactionResult)
    : access_TransactionResult :=
  mkAccessResult (ar_Status r) (ar_StatusCode r) (ar_ErrorMessage r) events (ar_TransactionID r)
    (ar_BlockHeight r) (ar_BlockID r) (ar_CollectionID r).

Definition encode_result (version : EventEncodingVersion) (r : access_TransactionResult)
    : result access_TransactionResult :=
  if decide (version = JSON_CDC_V0)
  then events ← ConvertCCFEventsToJsonEvents (ar_Events r); Ok (set_Events events r)
  else Ok r.
Definition encode_block_events (version : EventEncodingVersion) (be : BlockEvents)
    : result BlockEvents :=
  if decide (version = JSON_CDC_V0)
  then events ← ConvertCCFEventsToJsonEvents (be_Events be);
       Ok (mkBlockEvents (be_BlockID be) (be_BlockHeight be) (be_BlockTimestamp be) events)
  else Ok be.

(** With a block ID the result of a system transaction is tried first; its
    error is dropped. *)
Definition GetTransactionResult (id blockID : Identifier) (version : EventEncodingVersion) (b : B)
    : result access_TransactionResult :=
  let user := result ← convert codes_Internal (emu_GetTransactionResult id b);
              convert codes_Internal (encode_result version result) in
  if decide (blockID = ZeroID) then user
  else match emu_GetSystemTransactionResult id blockID b with
       | Ok sysResult => convert codes_Internal (encode_result version sysResult)
       | Err _ => user
       end.

Definition failed_events {A} (m : result A) : result A :=
  map_err (λ err, status_Error codes_Internal ("failed to convert events: " +:+ Error_text err)) m.

Definition GetSystemTransaction (txID blockID : Identifier) (b : B) : result TransactionBody :=
  convert codes_NotFound (emu_GetSystemTransaction txID blockID b).
Definition GetSystemTransactionResult (txID blockID : Identifier) (version : EventEncodingVersion)
    (b : B) : result access_TransactionResult :=
  result ← convert codes_NotFound (emu_GetSystemTransactionResult txID blockID b);
  failed_events (encode_result version result).
Definition GetScheduledTransaction (n : Z) (b : B) : result TransactionBody :=
  convert codes_NotFound (emu_GetScheduledTransaction n b).
Definition GetScheduledTransactionResult (n : Z) (version : EventEncodingVersion) (b : B)
    : result access_TransactionResult :=
  result ← convert codes_NotFound (emu_GetScheduledTransactionResult n b);
  failed_events (encode_result version result).

Definition GetTransactionsByBlockID (blockID : Identifier) (b : B) : result (list TransactionBody) :=
  convert codes_Internal (emu_GetTransactionsByBlockID blockID b).
Definition GetTransactionResultsByBlockID (blockID : Identifier) (version : EventEncodingVersion)
    (b : B) : result (list access_TransactionResult) :=
  results ← convert codes_Internal (emu_GetTransactionResultsByBlockID blockID b);
  convert codes_Internal (res_map (encode_result version) results).

(** All the results are converted before the asked one is picked. *)
Definition GetTransactionResultByIndex (blockID : Identifier) (index : Z)
    (version : EventEncodingVersion) (b : B) : result access_TransactionResult :=
  results ← convert codes_Internal (emu_GetTransactionResultsByBlockID blockID b);
  if bool_decide (Z.of_nat (length results) ≤ index)
  then Err (convertError codes_Internal (TransactionNotFoundError ZeroID))
  else
    converted ← convert codes_Internal (res_map (encode_result version) results);
    of_option (Panic "index out of range") (converted !! Z.to_nat index).

Definition GetEventsForHeightRange (eventType : string) (startHeight endHeight : Z)
    (version : EventEncodingVersion) (b : B) : result (list BlockEvents) :=
  events ← convert codes_Internal (emu_GetEventsForHeightRange eventType startHeight endHeight b);
  convert codes_Internal (res_map (encode_block_events version) events).
Definition GetEventsForBlockIDs (eventType : string) (blockIDs : list Identifier)
    (version : EventEncodingVersion) (b : B) : result (list BlockEvents) :=
  events ← convert codes_Internal (emu_GetEventsForBlockIDs eventType blockIDs b);
  convert codes_Internal (res_map (encode_block_events version) events).

(** ** Accounts *)

Definition GetAccount (address : Address) (b : B) : result Account :=
  convert codes_Internal (emu_GetAccount address b).
(** The error of [GetAccount] is already a status. *)
Definition GetAccountAtLatestBlock (address : Address) (b : B) : result Account :=
  convert codes_Internal (GetAccount address b).
Definition GetAccountAtBlockHeight (address : Address) (height : Z) (b : B) : result Account :=
  convert codes_Internal (emu_GetAccountAtBlockHeight address height b).

Definition GetAccountBalanceAtLatestBlock (address : Address) (b : B) : result Z :=
  acc_Balance <$> convert codes_Internal (emu_GetAccount address b).
Definition GetAccountBalanceAtBlockHeight (address : Address) (height : Z) (b : B) : result Z :=
  acc_Balance <$> convert codes_Internal (emu_GetAccountAtBlockHeight address height b).

Definition key_at (keyIndex : Z) (account : Account) : result AccountPublicKey :=
  of_option (status_Error codes_NotFound
               ("failed to get account key by index: " +:+ show_int keyIndex))
    (head (filter (λ key, apk_Index key = keyIndex) (acc_Keys account))).
Definition GetAccountKeyAtLatestBlock (address : Address) (keyIndex : Z) (b : B)
    : result AccountPublicKey :=
  account ← convert codes_Internal (emu_GetAccount address b); key_at keyIndex account.
Definition GetAccountKeyAtBlockHeight (address : Address) (keyIndex height : Z) (b : B)
    : result AccountPublicKey :=
  account ← convert codes_Internal (emu_GetAccountAtBlockHeight address height b);
  key_at keyIndex account.
Definition GetAccountKeysAtLatestBlock (address : Address) (b : B) : result (list AccountPublicKey) :=
  acc_Keys <$> convert codes_Internal (emu_GetAccount address b).
Definition GetAccountKeysAtBlockHeight (address : Address) (height : Z) (b : B)
    : result (list AccountPublicKey) :=
  acc_Keys <$> convert codes_Internal (emu_GetAccountAtBlockHeight address height b).

(** ** Scripts *)

Definition convertScriptResult (m : result ScriptResult) : result Bytes :=
  result ← map_err (λ err, status_Error codes_InvalidArgument (Error_text err)) m;
  match scr_Error result with
  | Some err => Err (status_Error codes_InvalidArgument (Error_text err))
  | None => convert codes_InvalidArgument (jsoncdc_Encode (scr_Value result))
  end.

Definition convert_script (m : ST error B ScriptResult) : ST error B Bytes := λ b,
  match m b with (r, b') => (convertScriptResult r, b') end.

Definition ExecuteScriptAtLatestBlock (script : Bytes) (arguments : list Bytes) : ST error B Bytes :=
  _ ← st_read emu_GetLatestBlock;
  convert_script (emu_ExecuteScript script arguments).
Definition ExecuteScriptAtBlockHeight (blockHeight : Z) (script : Bytes) (arguments : list Bytes)
    : ST error B Bytes :=
  convert_script (emu_ExecuteScriptAtBlockHeight script arguments blockHeight).
Definition ExecuteScriptAtBlockID (blockID : Identifier) (script : Bytes) (arguments : list Bytes)
    : ST error B Bytes :=
  convert_script (emu_ExecuteScriptAtBlockID script arguments blockID).

Definition SendTransaction (tx : TransactionBody) (w : World) : ST error B unit :=
  st_convert codes_Internal (emu_SendTransaction tx w).

(** ** Subscriptions to blocks *)

Definition validateHeight (height : Z) (b : B) : result unit :=
  latestBlock ← map_err (Errorf_w "could not get latest block: ") (emu_GetLatestBlock b);
  if bool_decide (Block_Height latestBlock < height)
  then Err (Errorf_w ("block " +:+ show_u64 height +:+ " is not available yet: ") ErrBlockNotReady)
  else Ok ().

Definition getBlock (height : Z) (b : B) : result Block :=
  validateHeight height b ;;
  map_err (λ _, Errorf_w ("failed to retrieve block for height " +:+ show_u64 height +:+ ": ")
                  ErrBlockNotReady) (emu_GetBlockByHeight height b).
Definition getBlockHeader (height : Z) (b : B) : result Header :=
  validateHeight height b ;;
  block ← map_err (λ _, Errorf_w ("failed to retrieve block header for height "
                                  +:+ show_u64 height +:+ ": ") ErrBlockNotReady)
            (emu_GetBlockByHeight height b);
  Ok (ToHeader block).

(** The digest's time reads the header's milliseconds as seconds. *)
Definition getBlockDigest (height : Z) (b : B) : result BlockDigest :=
  header ← getBlockHeader height b;
  Ok (mkBlockDigest (Header_ID header) (hb_Height (Header_HeaderBody header))
        (time_of_Unix (i64 (hb_Timestamp (Header_HeaderBody header))))).

(** The data functions of the blocks keep no state. *)
Definition stateless {A} (f : Z → B → result A) (height : Z) (b : B) (_ : unit)
    : result A * unit := (f height b, ()).
Definition getBlockResponse := stateless getBlock.
Definition getBlockHeaderResponse := stateless getBlockHeader.
Definition getBlockDigestResponse := stateless getBlockDigest.

Definition not_blockchain {St A} : Subscription B St A :=
  FailedSubscription (Errorf "emulator is not a Blockchain") "invalid emulator type".

Definition subscribeBlocksFromStartBlockID {A} (startBlockID : Identifier)
    (getData : Z → B → unit → result A * unit) (b : B) : Subscription B unit A :=
  match emu_GetBlockByID startBlockID b with
  | Err err => FailedSubscription err "could not get block by ID"
  | Ok block =>
      if emu_isBlockchain then HeightBasedSubscription (Block_Height block) () getData
      else not_blockchain
  end.
Definition subscribeBlocksFromStartHeight {A} (startHeight : Z)
    (getData : Z → B → unit → result A * unit) (b : B) : Subscription B unit A :=
  if emu_isBlockchain then HeightBasedSubscription startHeight () getData else not_blockchain.
Definition subscribeBlocksFromLatest {A} (getData : Z → B → unit → result A * unit) (b : B)
    : Subscription B unit A :=
  match emu_GetLatestBlock b with
  | Err err => FailedSubscription err "could not get latest block"
  | Ok block =>
      if emu_isBlockchain then HeightBasedSubscription (Block_Height block) () getData
      else not_blockchain
  end.

Definition SubscribeBlocksFromStartBlockID (id : Identifier) (b : B) :=
  subscribeBlocksFromStartBlockID id getBlockResponse b.
Definition SubscribeBlocksFromStartHeight (height : Z) (b : B) :=
  subscribeBlocksFromStartHeight height getBlockResponse b.
Definition SubscribeBlocksFromLatest (b : B) := subscribeBlocksFromLatest getBlockResponse b.
Definition SubscribeBlockHeadersFromStartBlockID (id : Identifier) (b : B) :=
  subscribeBlocksFromStartBlockID id getBlockHeaderResponse b.
Definition SubscribeBlockHeadersFromStartHeight (height : Z) (b : B) :=
  subscribeBlocksFromStartHeight height getBlockHeaderResponse b.
Definition SubscribeBlockHeadersFromLatest (b : B) :=
  subscribeBlocksFromLatest getBlockHeaderResponse b.
Definition SubscribeBlockDigestsFromStartBlockID (id : Identifier) (b : B) :=
  subscribeBlocksFromStartBlockID id getBlockDigestResponse b.
Definition SubscribeBlockDigestsFromStartHeight (height : Z) (b : B) :=
  subscribeBlocksFromStartHeight height getBlockDigestResponse b.
Definition SubscribeBlockDigestsFromLatest (b : B) :=
  subscribeBlocksFromLatest getBlockDigestResponse b.

(** ** Subscriptions to the status of a transaction *)

(** One update for each status after the previous one, up to the current. *)
Definition status_update (r : access_TransactionResult) (st : TransactionStatus)
    : access_TransactionResult :=
  let block := bool_decide (status_code StatusFinalized ≤ status_code st)%nat in
  let executed := bool_decide (status_code StatusExecuted ≤ status_code st)%nat in
  mkAccessResult st 0 (if executed then ar_ErrorMessage r else ""%string)
    (if executed then ar_Events r else []) (ar_TransactionID r)
    (if block then ar_BlockHeight r else 0) (if block then ar_BlockID r else ZeroID)
    (if block then ar_CollectionID r else ZeroID).
Definition generateTransactionStatusUpdates (r : access_TransactionResult)
    (prevStatus currentStatus : TransactionStatus) : list access_TransactionResult :=
  status_update r <$>
    filter (λ st, (status_code prevStatus < status_code st ≤ status_code currentStatus)%nat)
      all_statuses.

(** The data function of a status subscription; its state is the last status
    that was reported.  No data is the empty list. *)
Definition getTransactionStatusResponse (txID : Identifier) (startHeight : Z)
    (version : EventEncodingVersion) (height : Z) (b : B) (lastStatus : TransactionStatus)
    : result (list access_TransactionResult) * TransactionStatus :=
  match validateHeight height b with
  | Err err => (Err err, lastStatus)
  | Ok _ =>
      if decide (lastStatus = StatusSealed ∨ lastStatus = StatusExpired)
      then (Err (Errorf_w ("transaction final status " +:+ status_String lastStatus
                           +:+ " already reported: ") ErrEndOfData), lastStatus)
      else match emu_GetTransactionResult txID b with
      | Err _ =>
          if bool_decide (600 ≤ u64 (height - startHeight))
          then (Ok [mkAccessResult StatusExpired 0 "" [] txID 0 ZeroID ZeroID], StatusExpired)
          else (Ok [], lastStatus)
      | Ok txResult =>
          match encode_result version txResult with
          | Err err => (Err (Errorf_w "failed to convert events: " err), lastStatus)
          | Ok txResult =>
              (Ok (generateTransactionStatusUpdates txResult lastStatus StatusSealed), StatusSealed)
          end
      end
  end.

Definition createTransactionSubscription (txID startBlockID : Identifier)
    (version : EventEncodingVersion) (b : B)
    : Subscription B TransactionStatus (list access_TransactionResult) :=
  match emu_GetBlockByID startBlockID b with
  | Err err => FailedSubscription err "failed to get start block"
  | Ok startBlock =>
      if emu_isBlockchain
      then HeightBasedSubscription (Block_Height startBlock) StatusUnknown
             (getTransactionStatusResponse txID (Block_Height startBlock) version)
      else not_blockchain
  end.

Definition SubscribeTransactionStatuses (txID : Identifier) (version : EventEncodingVersion) (b : B) :=
  match emu_GetLatestBlock b with
  | Err err => FailedSubscription err "failed to lookup latest block"
  | Ok latestBlock => createTransactionSubscription txID (Block_ID latestBlock) version b
  end.
Definition SubscribeTransactionStatusesFromStartBlockID (txID startBlockID : Identifier)
    (version : EventEncodingVersion) (b : B) :=
  createTransactionSubscription txID startBlockID version b.
Definition SubscribeTransactionStatusesFromStartHeight (txID : Identifier) (startHeight : Z)
    (version : EventEncodingVersion) (b : B) :=
  match emu_GetBlockByHeight startHeight b with
  | Err err => FailedSubscription err "failed to get start block"
  | Ok block => createTransactionSubscription txID (Block_ID block) version b
  end.
Definition SubscribeTransactionStatusesFromLatest (txID : Identifier)
    (version : EventEncodingVersion) (b : B) := SubscribeTransactionStatuses txID version b.
Definition SendAndSubscribeTransactionStatuses (tx : TransactionBody) (version : EventEncodingVersion)
    (w : World) (b : B)
    : Subscription B TransactionStatus (list access_TransactionResult) * B :=
  match emu_SendTransaction tx w b with
  | (Err err, b') => (FailedSubscription err "failed to send transaction", b')
  | (Ok _, b') =>
      (createTransactionSubscription (Transaction_ID tx) (tx_ReferenceBlockID tx) version b', b')
  end.
End access.
End AccessAdapter.
