(* ===== verification/AccessTheorems.v ===== *)
(** What the access API promises: the statuses of the errors, the blocks a
    subscription delivers while the chain grows, and the updates a status
    subscription sends. *)
From S2P Require Import Prelude FlowTypes Errors Storage Report Convert Pragma Vm PendingBlock.
From S2P Require Import Blockchain Queries BlockchainCorrect Chain ChainTheorems SourceFiles Emulator Access Lives.
Import AccessAdapter.

(** * On every emulator *)

Section any_emulator.
Context {FM : FlowModel} {CA : Cadence} {CK : Clocks} {CR : Crypto} {LT : LibraryTexts}
        {AC : AccessCodecs} {B : Type} {EM : Emulator B}.

(** ** The polls of a status subscription *)

(** The replies to polls at the given heights, each on the chain as it is then. *)
Fixpoint status_polls (txID : Identifier) (startHeight : Z) (version : EventEncodingVersion)
    (polls : list (Z * B)) (lastStatus : TransactionStatus)
    : list (result (list access_TransactionResult)) :=
  match polls with
  | [] => []
  | (height, b) :: polls =>
      let '(r, st) := getTransactionStatusResponse txID startHeight version height b lastStatus in
      r :: status_polls txID startHeight version polls st
  end.

Definition reported (replies : list (result (list access_TransactionResult)))
    : list TransactionStatus :=
  ar_Status <$> concat (omap (λ r, match r with Ok l => Some l | Err _ => None end) replies).

Lemma updates_from_unknown r :
  ar_Status <$> generateTransactionStatusUpdates r StatusUnknown StatusSealed
    = [StatusPending; StatusFinalized; StatusExecuted; StatusSealed].
Proof. reflexivity. Qed.

Lemma polls_final txID start version polls st :
  st = StatusSealed ∨ st = StatusExpired →
  Forall (λ r, is_Ok r = false) (status_polls txID start version polls st).
Proof.
  intros Hst. induction polls as [|[h b] polls IH]; [constructor|]. cbn [status_polls].
  unfold getTransactionStatusResponse. destruct (validateHeight h b); [|by constructor].
  rewrite decide_True by done. by constructor.
Qed.

Lemma reported_errors replies : Forall (λ r, is_Ok r = false) replies → reported replies = [].
Proof.
  unfold reported. induction 1 as [|r rs Hr _ IH]; [done|]. by destruct r.
Qed.

Lemma reported_cons r replies :
  reported (r :: replies)
    = match r with Ok l => (ar_Status <$> l) ++ reported replies | Err _ => reported replies end.
Proof. unfold reported. destruct r as [l|e]; [|done]. simpl. by rewrite fmap_app. Qed.

(** C26 (adapters/access.go, getTransactionStatusResponse): however often and at
    whatever heights a status subscription is polled while the chain changes,
    it reports nothing, or the four statuses up to sealed once and in order, or
    that the transaction expired; the reply that reports is the last one that
    is not an error. *)
Theorem status_stream_reports_once txID start version polls :
  reported (status_polls txID start version polls StatusUnknown) ∈
    [[]; [StatusPending; StatusFinalized; StatusExecuted; StatusSealed]; [StatusExpired]] ∧
  ∀ before r l after,
    status_polls txID start version polls StatusUnknown = before ++ Ok (r :: l) :: after →
    Forall (λ reply, is_Ok reply = false) after.
Proof.
  induction polls as [|[h b] polls [IH1 IH2]]; cbn [status_polls].
  { split; [by left|]. intros before r l after Heq. by destruct before. }
  unfold getTransactionStatusResponse. destruct (validateHeight h b) as [_|e].
  2:{ rewrite reported_cons. split; [done|]. intros before r l after Heq.
      destruct before as [|x before]; [done|]; injection Heq as _ Heq.
      by eapply IH2. }
  rewrite decide_False by (intros [|]; done).
  assert (∀ rs st, (st = StatusSealed ∨ st = StatusExpired) →
    (reported (Ok rs :: status_polls txID start version polls st) = ar_Status <$> rs) ∧
    (∀ before r l after, Ok rs :: status_polls txID start version polls st
                         = before ++ Ok (r :: l) :: after →
                         Forall (λ reply, is_Ok reply = false) after)) as Hfin.
  { intros rs st Hst. pose proof (polls_final txID start version polls st Hst) as Hf.
    rewrite reported_cons, (reported_errors _ Hf), app_nil_r. split; [done|].
    intros before r l after Heq. destruct before as [|x before]; injection Heq as _ Heq;
      [by rewrite <- Heq|].
    rewrite Heq in Hf. apply Forall_app in Hf as [_ Hf]. by inversion Hf. }
  destruct (emu_GetTransactionResult txID b) as [tx|e].
  - destruct (encode_result version tx) as [tx'|e].
    + destruct (Hfin (generateTransactionStatusUpdates tx' StatusUnknown StatusSealed) StatusSealed)
        as [-> H2]; [by left|]. rewrite updates_from_unknown. split; [by right; left|exact H2].
    + rewrite reported_cons. split; [done|]. intros before r l after Heq.
      destruct before as [|x before]; [done|]; injection Heq as _ Heq.
      by eapply IH2.
  - case_bool_decide.
    + destruct (Hfin [mkAccessResult StatusExpired 0 "" [] txID 0 ZeroID ZeroID] StatusExpired)
        as [-> H2]; [by right|]. split; [by right; right; left|exact H2].
    + rewrite reported_cons. split; [done|]. intros before r l after Heq.
      destruct before as [|x before]; [done|]; injection Heq as _ Heq.
      by eapply IH2.
Qed.

(** ** The statuses of the errors *)

Definition is_status (err : error) : bool :=
  match err with status_Error _ _ => true | _ => false end.

Lemma convert_status {A} code (m : result A) err : convert code m = Err err → is_status err = true.
Proof.
  unfold convert. destruct m as [a|e]; [done|]. intros [= <-]. unfold convertError.
  destruct e; try done; by destruct (isNotFoundError _).
Qed.
End any_emulator.

(** * On the emulated chain *)

Section on_chain.
Context {FM : FlowModel} {CA : Cadence} {VM : VirtualMachine} {CK : Clocks} {CR : Crypto}
        {SG : Signing} {CP : CadenceParser} {KS : KindString} {GO : GoMapOrder}
        {AG : AddressGenerator} {SRC : SourceLibrary} {LT : LibraryTexts} {AC : AccessCodecs}
        {S : Type} `{!Store S} {OI : OptionalInterfaces S} {SC : StoreCorrect S} {TS : TotalStore S}.
Implicit Types b : Blockchain (S := S).

Lemma validateHeight_log b l h latest :
  chain_inv b l → getLatestBlock b = Ok latest →
  validateHeight h b =
  if bool_decide (h < next_height l) then Ok ()
  else Err (Errorf_w ("block " +:+ show_u64 h +:+ " is not available yet: ") ErrBlockNotReady).
Proof.
  intros HI Hlat. unfold validateHeight. simpl. unfold Api.GetLatestBlock.
  rewrite Hlat. cbn [map_err mbind res_bind]. pose proof (latest_Block b l latest HI Hlat).
  by repeat case_bool_decide; try lia.
Qed.

(** A block is delivered exactly at the heights the chain has reached. *)
Lemma getBlock_log b l h :
  chain_inv b l → is_u64 h →
  (h < next_height l ∧ ∃ blk, log_BlockByHeight h l = Ok blk ∧ getBlock h b = Ok blk) ∨
  (next_height l ≤ h ∧ ∃ err, getBlock h b = Err err ∧ errors_Is err ErrBlockNotReady = true).
Proof.
  intros HI Hu. destruct (ci_latest b l HI) as (latest & Hlat & _).
  rewrite <- (getLatestBlock_log b l HI) in Hlat. unfold getBlock.
  rewrite (validateHeight_log b l h latest HI Hlat). case_bool_decide as Hh.
  - left. split; [done|]. pose proof (proj2 (log_block_dom l h (ci_log b l HI))) as Hd.
    destruct (log_BlockByHeight h l) as [blk|e] eqn:Hb;
      [|specialize (Hd ltac:(unfold is_u64 in Hu; lia)); done].
    exists blk. split; [done|]. simpl. unfold Api.GetBlockByHeight.
    by rewrite (proj2 (getBlockByHeight_Ok b l h blk HI Hu) Hb).
  - right. split; [lia|]. by eexists.
Qed.

(** C27 (adapters/access.go, SubscribeBlocks and getBlock): the data function of
    a block subscription delivers a block at exactly the heights the chain has
    reached and otherwise says that the block is not ready, so that a stream
    waits and never breaks.  Two heights polled one after the other, with
    whatever operations were made on the chain in between, give two consecutive
    blocks of one chain: the second carries the ID of the first as its parent.
    Over any store that follows the contract and takes the chain's writes; a
    rollback or the load of a snapshot in between, where the store offers it, is
    left out. *)
Theorem block_stream_is_the_chain conf s w ws os1 os2 latest h :
  life (S := S) conf s w ws (os1 ++ os2) →
  let b := made conf s w ws os1 in let b' := made conf s w ws (os1 ++ os2) in
  getLatestBlock b = Ok latest → is_u64 h →
  (h ≤ Block_Height latest → ∃ blk, getBlock h b = Ok blk ∧ getBlock h b' = Ok blk ∧
     Block_Height blk = h ∧
     ∀ next, is_u64 (h + 1) → getBlock (h + 1) b' = Ok next →
       Block_Height next = h + 1 ∧ follows blk next) ∧
  (Block_Height latest < h →
     ∃ err, getBlock h b = Err err ∧ errors_Is err ErrBlockNotReady = true).
Proof.
  intros (l & ws' & HI & HI')%life_advances b b' Hlat Hu.
  pose proof (latest_Block b l latest HI Hlat) as Hh. pose proof (ci_log b' _ HI') as Hok'.
  pose proof (next_height_app ws' l Hok') as Hmono.
  split; intros Hle; destruct (getBlock_log b l h HI Hu) as [(Hlt & blk & Hb & Hg)|(Hlt & Hbad)];
    try (lia || done).
  exists blk. destruct (getBlock_log b' _ h HI' Hu) as [(_ & blk' & Hb' & Hg')|(? & _)]; [|lia].
  rewrite log_block_stable in Hb' by done. rewrite Hb in Hb'. injection Hb' as <-.
  split_and!; [done..|by eapply log_block_height|].
  intros next Hu1 Hn.
  destruct (getBlock_log b' _ (h + 1) HI' Hu1) as [(_ & nx & Hbn & Hgn)|(_ & err & Hgn & _)];
    rewrite Hgn in Hn; [|done]. injection Hn as ->. split; [by eapply log_block_height|].
  destruct (ci_linked b' _ HI' (h + 1) next ltac:(unfold is_u64 in Hu; lia) Hbn) as (par & Hp & Hf).
  replace (h + 1 - 1) with h in Hp by lia. rewrite log_block_stable, Hb in Hp by done.
  by injection Hp as <-.
Qed.

Lemma unseen_result b id :
  id ∉ pb_transactionIDs (b_pendingBlock b) → pb_ok (b_pendingBlock b) →
  TransactionResultByID id (b_storage b) = Err ErrNotFound →
  ScheduledTransactionBlockIDByTxID id (b_storage b) = Err ErrNotFound →
  getTransactionResult id b = Ok (status_result StatusUnknown).
Proof.
  intros Hp Hok Hr Hs. unfold getTransactionResult.
  pose proof (contains_iff _ id Hok) as Hc. destruct (ContainsTransaction id _); [by destruct Hp; apply Hc|].
  by rewrite Hr, Hs.
Qed.

(** (getTransactionStatusResponse): a status subscription reports every
    transaction as sealed at its first poll, also one that the chain has never
    seen and whose result the emulator itself gives as unknown; the reports then
    carry the zero transaction ID and no block. *)
Theorem unseen_transaction_reported_sealed conf b latest id start version h :
  reachable conf b → getLatestBlock b = Ok latest → h ≤ Block_Height latest →
  id ∉ pb_transactionIDs (b_pendingBlock b) →
  TransactionResultByID id (b_storage b) = Err ErrNotFound →
  ScheduledTransactionBlockIDByTxID id (b_storage b) = Err ErrNotFound →
  ar_Status <$> getTransactionResult id b = Ok StatusUnknown ∧
  ∃ updates, getTransactionStatusResponse id start version h b StatusUnknown
               = (Ok updates, StatusSealed) ∧
    ar_Status <$> updates = [StatusPending; StatusFinalized; StatusExecuted; StatusSealed] ∧
    Forall (λ u, ar_TransactionID u = ZeroID ∧ ar_BlockID u = ZeroID ∧ ar_BlockHeight u = 0) updates.
Proof.
  intros (l0 & es & evs & HI)%reachable_inv Hlat Hh Hp Hr Hs. revert HI.
  generalize (l0 ++ [WCommit (genesis_commit conf es evs)]). clear l0. intros l HI.
  pose proof (unseen_result b id Hp (ci_pending b l HI) Hr Hs) as Hres. rewrite Hres.
  split; [done|]. unfold getTransactionStatusResponse.
  rewrite (validateHeight_log b l h latest HI Hlat). pose proof (latest_Block b l latest HI Hlat).
  rewrite bool_decide_eq_true_2 by lia. rewrite decide_False by (intros [|]; done).
  simpl. unfold Api.GetTransactionResult. rewrite Hres.
  assert (encode_result version (status_result StatusUnknown) = Ok (status_result StatusUnknown)) as ->.
  { unfold encode_result. by case_decide. }
  eexists. split; [reflexivity|]. split; [apply updates_from_unknown|]. by repeat constructor.
Qed.

(** (convertError, GetAccountAtLatestBlock): an account the emulator does not
    find has the status not-found through [GetAccount], and the status internal
    through [GetAccountAtLatestBlock], which converts the error of [GetAccount]
    once more; a block above the latest has the status not-found. *)
Theorem not_found_statuses conf b latest a h :
  reachable conf b → getLatestBlock b = Ok latest →
  getAccount a b = Err (AccountNotFoundError a) → Block_Height latest < h < two64 →
  GetAccount a b = Err (status_Error codes_NotFound (Error_text (AccountNotFoundError a))) ∧
  (∃ text, GetAccountAtLatestBlock a b = Err (status_Error codes_Internal text)) ∧
  GetBlockByHeight h b
    = Err (status_Error codes_NotFound (Error_text (BlockNotFoundByHeightError h))).
Proof.
  intros (l0 & es & evs & HI)%reachable_inv Hlat Ha Hh. revert HI.
  generalize (l0 ++ [WCommit (genesis_commit conf es evs)]). clear l0. intros l HI.
  pose proof (latest_Block b l latest HI Hlat) as Hn.
  pose proof (next_height_nonneg l (ci_log b l HI)) as H0.
  assert (GetAccount a b = Err (status_Error codes_NotFound (Error_text (AccountNotFoundError a))))
    as HG by (unfold GetAccount; simpl; unfold Api.GetAccount; by rewrite Ha).
  split; [done|]. split; [eexists; unfold GetAccountAtLatestBlock; by rewrite HG|].
  unfold GetBlockByHeight, sealed_block. simpl. unfold Api.GetBlockByHeight.
  rewrite (getBlockByHeight_log b l h HI) by (unfold is_u64; lia).
  pose proof (proj1 (log_block_dom l h (ci_log b l HI))) as Hd. unfold not_found_as.
  destruct (log_BlockByHeight h l) as [blk|e] eqn:Hb; [specialize (Hd eq_refl); lia|].
  unfold log_BlockByHeight, found in Hb. destruct (newest _ l); [done|]. by injection Hb as <-.
Qed.
End on_chain.
