(* ===== verification/Stream.v ===== *)
(** The state-stream API over the emulated chain: server/access/streamBackend.go.

    The backend reads the blockchain itself.  As in [Access], a subscription is
    its start height and its data function.  The filters of events, the text of
    a Cadence location and the conversion of errors are flow-go's and Cadence's:
    the parameters of [StreamLibrary]. *)
From S2P Require Import Prelude FlowTypes Errors Storage Report Convert Pragma Vm PendingBlock.
From S2P Require Import Blockchain Queries Emulator Access.

Class StreamLibrary := {
  (** [state_stream.EventFilter] and [state_stream.AccountStatusFilter] *)
  EventFilter : Type;
  filter_Filter : EventFilter → list Event → list Event;
  AccountStatusFilter : Type;
  account_Filter : AccountStatusFilter → list Event → list Event;
  AccountEvents : Type;
  GroupCoreEventsByAccountAddress : AccountStatusFilter → list Event → AccountEvents;
  EventTypeBlockExecuted : string;
  EventTypeTransactionExecuted : string;
  (** [execution_data.IsBlobNotFoundError] and [rpc.ConvertError] *)
  IsBlobNotFoundError : error → bool;
  rpc_ConvertError : error → string → Code → error
}.

Record LightTransactionResult := mkLightResult { ltr_TransactionID : Identifier; ltr_Failed : bool }.
(** The collection of the chunk the genesis block gets is [nil]. *)
Record ChunkExecutionData := mkChunk {
  ced_Collection : option Collection;
  ced_Events : list Event;
  ced_TransactionResults : list LightTransactionResult
}.
Record BlockExecutionData := mkBlockExecutionData {
  bed_BlockID : Identifier; bed_ChunkExecutionDatas : list ChunkExecutionData
}.
Record ExecutionDataResponse := mkExecutionDataResponse {
  edr_Height : Z; edr_ExecutionData : BlockExecutionData
}.
Record EventsResponse := mkEventsResponse {
  evr_BlockID : Identifier; evr_Height : Z; evr_Events : list Event
}.
Record AccountStatusesResponse {SL : StreamLibrary} := mkAccountStatusesResponse {
  asr_BlockID : Identifier; asr_Height : Z; asr_AccountEvents : AccountEvents
}.
Arguments mkAccountStatusesResponse {SL}.

(** [errors.As(err, &target)]: some error of the chain has the type. *)
Fixpoint errors_As (is_type : error → bool) (err : error) : bool :=
  is_type err ||
  match err with
  | InvalidTransactionScriptError e | StorageError e | Errorf_w _ e => errors_As is_type e
  | FVMError c => is_type (fvm_CodedError c)
  | errors_Join e1 e2 => errors_As is_type e1 || errors_As is_type e2
  | _ => false
  end.
Definition is_BlockNotFoundByIDError (err : error) : bool :=
  match err with BlockNotFoundByIDError _ => true | _ => false end.
Definition is_BlockNotFoundByHeightError (err : error) : bool :=
  match err with BlockNotFoundByHeightError _ => true | _ => false end.

Module StateStreamBackend.
Section stream.
Context {FM : FlowModel} {CA : Cadence} {VM : VirtualMachine} {CK : Clocks} {CR : Crypto}
        {SG : Signing} {CP : CadenceParser} {KS : KindString} {GO : GoMapOrder}
        {SL : StreamLibrary} {LO : Locations} {S : Type} `{!Store S} {OI : OptionalInterfaces S}.

Abbreviation chain := (Blockchain (S := S)).

(** ** Start heights *)

(** The block of the ID, or else the one at the height. *)
Definition getStartHeight (blockID : Identifier) (height : Z) (b : chain) : result Z :=
  match Api.GetBlockByID blockID b with
  | Ok block => Ok (Block_Height block)
  | Err err =>
      if negb (errors_As is_BlockNotFoundByIDError err) then Err ErrNotFound
      else match Api.GetBlockByHeight height b with
           | Ok block => Ok (Block_Height block)
           | Err _ => Err ErrNotFound
           end
  end.

Definition newSubscriptionByBlockId {A} (startBlockID : Identifier)
    (f : Z → chain → unit → result A * unit) (b : chain) : Subscription chain unit A :=
  match Api.GetBlockByID startBlockID b with
  | Err err => FailedSubscription err "could not get block by ID"
  | Ok block => HeightBasedSubscription (Block_Height block) () f
  end.
Definition newSubscriptionByHeight {A} (startHeight : Z)
    (f : Z → chain → unit → result A * unit) (b : chain) : Subscription chain unit A :=
  HeightBasedSubscription startHeight () f.
Definition newSubscriptionByLatestHeight {A} (f : Z → chain → unit → result A * unit) (b : chain)
    : Subscription chain unit A :=
  match Api.GetLatestBlock b with
  | Err err => FailedSubscription err "could not get latest block"
  | Ok block => HeightBasedSubscription (Block_Height block) () f
  end.

(** ** Execution data *)

(** One iteration of the loop over the guarantees: the bodies, the results and
    the events of the transactions of a collection. *)
Definition chunk_of (guarantee : CollectionGuarantee) (b : chain) : result ChunkExecutionData :=
  lightCollection ← Api.GetCollectionByID (CollectionID guarantee) b;
  entries ← res_map (λ id,
    tx ← Api.GetTransaction id b;
    txResult ← Api.GetTransactionResult id b;
    Ok (tx, txResult)) (lc_Transactions lightCollection);
  Ok (mkChunk (Some (mkCollection entries.*1)) (concat (ar_Events <$> entries.*2))
        ((λ r, mkLightResult (ar_TransactionID r) (negb (bool_decide (ar_ErrorMessage r = ""%string))))
           <$> entries.*2)).

(** The EVM events of the system chunk: those of a block go to its last chunk;
    a block without chunks gets one with all its EVM events. *)
Definition add_evm_events (evmTxEvents evmBlockEvents : list Event)
    (chunks : list ChunkExecutionData) : list ChunkExecutionData :=
  match list.last chunks with
  | Some lastChunk =>
      take (length chunks - 1) chunks ++
        [mkChunk (ced_Collection lastChunk) (ced_Events lastChunk ++ evmBlockEvents)
           (ced_TransactionResults lastChunk)]
  | None => [mkChunk None (evmTxEvents ++ evmBlockEvents) []]
  end.

Definition evm_event (name : string) (b : chain) : string :=
  AddressLocation_ID (ServiceAddress (ctx_Chain (b_vmCtx b))) name.

Definition getExecutionData (height : Z) (b : chain) : result BlockExecutionData :=
  block ← map_err (λ err, if errors_As is_BlockNotFoundByHeightError err
                          then errors_Join err ErrBlockNotReady else err)
            (Api.GetBlockByHeight height b);
  chunks ← res_map (λ g, chunk_of g b) (Guarantees (Block_Payload block));
  evmTxEvents ← GetEventsByHeight height (evm_event EventTypeTransactionExecuted b) b;
  evmBlockEvents ← GetEventsByHeight height (evm_event EventTypeBlockExecuted b) b;
  Ok (mkBlockExecutionData (Block_ID block) (add_evm_events evmTxEvents evmBlockEvents chunks)).

Context {LT : LibraryTexts}.

Definition GetExecutionDataByBlockID (blockID : Identifier) (b : chain)
    : result BlockExecutionData :=
  block ← map_err (Errorf_w ("could not get block header for " +:+ show_id blockID +:+ ": "))
            (Api.GetBlockByID blockID b);
  map_err (λ err, if is_not_found err || IsBlobNotFoundError err
                  then status_Error codes_NotFound
                         ("could not find execution data: " +:+ Error_text err)
                  else rpc_ConvertError err "could not get execution data" codes_Internal)
    (getExecutionData (Block_Height block) b).

(** ** The data functions *)

Definition data_at (height : Z) (b : chain) : result BlockExecutionData :=
  map_err (Errorf_w ("could not get execution data for block " +:+ show_u64 height +:+ ": "))
    (getExecutionData height b).

Definition getExecutionDataResponse (height : Z) (b : chain) : result ExecutionDataResponse :=
  executionData ← data_at height b; Ok (mkExecutionDataResponse height executionData).

Definition getEventsResponse (filter : EventFilter) (height : Z) (b : chain)
    : result EventsResponse :=
  executionData ← data_at height b;
  Ok (mkEventsResponse (bed_BlockID executionData) height
        (concat ((λ c, filter_Filter filter (ced_Events c))
                   <$> bed_ChunkExecutionDatas executionData))).

Definition getAccountStatusResponse (filter : AccountStatusFilter) (height : Z) (b : chain)
    : result AccountStatusesResponse :=
  executionData ← data_at height b;
  Ok (mkAccountStatusesResponse (bed_BlockID executionData) height
        (GroupCoreEventsByAccountAddress filter
           (concat ((λ c, account_Filter filter (ced_Events c))
                      <$> bed_ChunkExecutionDatas executionData)))).

Definition pure_data {A} (f : Z → chain → result A) (height : Z) (b : chain) (_ : unit)
    : result A * unit := (f height b, ()).

(** ** Subscriptions *)

Definition SubscribeEventsFromStartBlockID (id : Identifier) (filter : EventFilter) (b : chain) :=
  newSubscriptionByBlockId id (pure_data (getEventsResponse filter)) b.
Definition SubscribeEventsFromStartHeight (height : Z) (filter : EventFilter) (b : chain) :=
  newSubscriptionByHeight height (pure_data (getEventsResponse filter)) b.
Definition SubscribeEventsFromLatest (filter : EventFilter) (b : chain) :=
  newSubscriptionByLatestHeight (pure_data (getEventsResponse filter)) b.
Definition SubscribeAccountStatusesFromStartBlockID (id : Identifier)
    (filter : AccountStatusFilter) (b : chain) :=
  newSubscriptionByBlockId id (pure_data (getAccountStatusResponse filter)) b.
Definition SubscribeAccountStatusesFromStartHeight (height : Z) (filter : AccountStatusFilter)
    (b : chain) :=
  newSubscriptionByHeight height (pure_data (getAccountStatusResponse filter)) b.
Definition SubscribeAccountStatusesFromLatestBlock (filter : AccountStatusFilter) (b : chain) :=
  newSubscriptionByLatestHeight (pure_data (getAccountStatusResponse filter)) b.
Definition SubscribeExecutionDataFromStartBlockID (id : Identifier) (b : chain) :=
  newSubscriptionByBlockId id (pure_data getExecutionDataResponse) b.
Definition SubscribeExecutionDataFromStartBlockHeight (height : Z) (b : chain) :=
  newSubscriptionByHeight height (pure_data getExecutionDataResponse) b.
Definition SubscribeExecutionDataFromLatest (b : chain) :=
  newSubscriptionByLatestHeight (pure_data getExecutionDataResponse) b.

Definition SubscribeExecutionData (startBlockID : Identifier) (startHeight : Z) (b : chain)
    : Subscription chain unit ExecutionDataResponse :=
  match getStartHeight startBlockID startHeight b with
  | Err err => FailedSubscription err "could not get start height"
  | Ok nextHeight => HeightBasedSubscription nextHeight () (pure_data getExecutionDataResponse)
  end.
Definition SubscribeEvents (startBlockID : Identifier) (startHeight : Z) (filter : EventFilter)
    (b : chain) : Subscription chain unit EventsResponse :=
  match getStartHeight startBlockID startHeight b with
  | Err err => FailedSubscription err "could not get start height"
  | Ok nextHeight => HeightBasedSubscription nextHeight () (pure_data (getEventsResponse filter))
  end.

Definition StreamRegisterValues (registerIDs : list RegisterID) (height : Z) (b : chain)
    : result (list RegisterValue) := GetRegisterValues registerIDs height b.
End stream.
End StateStreamBackend.
