(* ===== verification/StreamTheorems.v ===== *)
(** What the state stream delivers: the execution data and the events of a block
    that was committed, and that a stream waits above the latest block. *)
From S2P Require Import Prelude FlowTypes Errors Storage Report Convert Pragma Vm PendingBlock.
From S2P Require Import Blockchain Queries BlockchainCorrect Chain ChainTheorems QueryTheorems.
From S2P Require Import Emulator Access Stream.
Import StateStreamBackend.

Section stream_theorems.
Context {FM : FlowModel} {CA : Cadence} {VM : VirtualMachine} {CK : Clocks} {CR : Crypto}
        {SG : Signing} {CP : CadenceParser} {KS : KindString} {GO : GoMapOrder}
        {SL : StreamLibrary} {LO : Locations} {S : Type} `{!Store S} {OI : OptionalInterfaces S} {SC : StoreCorrect S} {TS : TotalStore S}.
Implicit Types b : Blockchain (S := S).

(** ** Above the latest block *)

Lemma api_block_above b l h :
  chain_inv b l → is_u64 h → next_height l ≤ h →
  Api.GetBlockByHeight h b = Err (BlockNotFoundByHeightError h).
Proof.
  intros HI Hu Hh. unfold Api.GetBlockByHeight. rewrite (getBlockByHeight_log b l h HI Hu).
  pose proof (proj1 (log_block_dom l h (ci_log b l HI))) as Hd.
  unfold log_BlockByHeight, found in Hd |- *. destruct (newest _ l); [|done].
  specialize (Hd eq_refl). lia.
Qed.

(** Every data function says that the block is not ready. *)
Lemma data_not_ready b l h :
  chain_inv b l → is_u64 h → next_height l ≤ h →
  ∃ err, data_at h b = Err err ∧ errors_Is err ErrBlockNotReady = true.
Proof.
  intros HI Hu Hh. unfold data_at, getExecutionData. rewrite (api_block_above b l h HI Hu Hh).
  by eexists.
Qed.

(** ** The data of a block that was just committed *)

(** A transaction of the block with its result. *)
Definition entry_of (b : Blockchain (S := S)) (blk : Block) (id : Identifier)
    (e : TransactionBody * access_TransactionResult) : Prop :=
  getTransaction id b = Ok e.1 ∧ Transaction_ID e.1 = id ∧ getTransactionResult id b = Ok e.2 ∧
  ar_Status e.2 = StatusSealed ∧ ar_TransactionID e.2 = id ∧ ar_BlockID e.2 = Block_ID blk.

(** The chunk of the block: the collection of the user transactions, with the
    EVM events of the block; or the EVM events alone. *)
Definition chunk_for (entries : list (TransactionBody * access_TransactionResult))
    (evmTx evmBlock : list Event) : ChunkExecutionData :=
  match entries with
  | [] => mkChunk None (evmTx ++ evmBlock) []
  | _ => mkChunk (Some (mkCollection entries.*1)) (concat (ar_Events <$> entries.*2) ++ evmBlock)
           ((λ r, mkLightResult (ar_TransactionID r)
                    (negb (bool_decide (ar_ErrorMessage r = ""%string)))) <$> entries.*2)
  end.

Section after_commit.
Context (b b' : Blockchain (S := S)) (l : log) (c : BlockCommit)
        (HI : chain_inv b l) (Hc : committed_as b l c b').
Let blk := pending_Block (b_pendingBlock b).

Lemma after_entry id :
  id ∈ pb_transactionIDs (b_pendingBlock b) → ∃ e, entry_of b' blk id e.
Proof.
  intros Hid. destruct (after_transaction b b' l c HI Hc id (or_introl Hid)) as (tx & Htx & Hti).
  destruct (committed_result b b' l c id HI Hc Hid) as (r & _ & Hr).
  by eexists (tx, _).
Qed.

Lemma after_entries :
  ∃ entries, Forall2 (entry_of b' blk) (pb_transactionIDs (b_pendingBlock b)) entries.
Proof.
  generalize after_entry. generalize (pb_transactionIDs (b_pendingBlock b)).
  induction l0 as [|id ids IH]; intros He; [by exists []|].
  destruct (He id ltac:(left)) as [e ?]. destruct IH as [es ?]; [intros; apply He; by right|].
  exists (e :: es). by constructor.
Qed.

Lemma entries_fetched ids entries :
  Forall2 (entry_of b' blk) ids entries →
  res_map (λ id, tx ← Api.GetTransaction id b'; r ← Api.GetTransactionResult id b'; Ok (tx, r)) ids
  = Ok entries.
Proof.
  intros HF. apply res_map_Ok. eapply (list.Forall2_impl _ _ _ _ HF). intros id [tx r] (H1 & _ & H2 & _).
  unfold Api.GetTransaction, Api.GetTransactionResult. simpl in *. by rewrite H1, H2.
Qed.

Lemma after_chunks entries :
  Forall2 (entry_of b' blk) (pb_transactionIDs (b_pendingBlock b)) entries →
  ∃ chunks, res_map (λ g, chunk_of g b') (Guarantees (Block_Payload blk)) = Ok chunks ∧
    ∀ evmTx evmBlock, add_evm_events evmTx evmBlock chunks = [chunk_for entries evmTx evmBlock].
Proof.
  intros HF. unfold blk, pending_Block. cbn [Block_Payload Guarantees].
  destruct (pb_transactionIDs (b_pendingBlock b)) as [|id ids] eqn:Hp.
  - assert (Collections (b_pendingBlock b) = []) as -> by (unfold Collections; by rewrite Hp).
    inversion HF. by exists [].
  - assert (Collections (b_pendingBlock b) = [mkLightCollection (id :: ids)]) as Hcol
      by (unfold Collections; by rewrite Hp).
    rewrite Hcol. rewrite list_fmap_singleton, res_map_single. unfold chunk_of at 1. cbn [CollectionID].
    unfold Api.GetCollectionByID. rewrite (after_collection b b' l c Hc _ Hcol).
    cbn [mbind res_bind lc_Transactions]. rewrite (entries_fetched _ _ HF). cbn [mbind res_bind].
    eexists. split; [reflexivity|]. intros evmTx evmBlock.
    by destruct entries; [inversion HF|].
Qed.

Lemma after_height : Block_Height blk = next_height l → is_u64 (Block_Height blk) →
  Api.GetBlockByHeight (Block_Height blk) b' = Ok blk.
Proof.
  intros Hh Hu. unfold Api.GetBlockByHeight.
  apply (getBlockByHeight_Ok b' _ _ _ (ca_inv _ _ _ _ Hc) Hu).
  unfold commit_log. rewrite log_block_index by apply Hc.
  rewrite log_block_commit. unfold bc_height. rewrite (prep_block _ _ (ca_prepared _ _ _ _ Hc)).
  by rewrite decide_True.
Qed.
End after_commit.

(** C28 (streamBackend.go, getExecutionDataFunc, getEventsResponseFactory): the
    execution data of a block that was just committed is one chunk: the user
    transactions in the order they were added, each with its sealed result, and
    as events exactly those of their results in that order followed by the EVM
    block events of the block; a block without user transactions gives the EVM
    events alone.  An event subscription delivers what its filter keeps of
    them, and above that block every data function says that the block is not
    ready.
    (On a store whose writes succeed.) *)
Theorem execution_data_of_block conf w b latest blk b' :
  reachable conf b → world_ok w → getLatestBlock b = Ok latest → Block_Height latest + 1 < two64 →
  commitBlock w b = (Ok blk, b') →
  ∃ evmTx evmBlock entries,
    GetEventsByHeight (Block_Height blk) (evm_event EventTypeTransactionExecuted b') b' = Ok evmTx ∧
    GetEventsByHeight (Block_Height blk) (evm_event EventTypeBlockExecuted b') b' = Ok evmBlock ∧
    Forall2 (entry_of b' blk) (pb_transactionIDs (b_pendingBlock b)) entries ∧
    let chunk := chunk_for entries evmTx evmBlock in
    getExecutionDataResponse (Block_Height blk) b'
      = Ok (mkExecutionDataResponse (Block_Height blk) (mkBlockExecutionData (Block_ID blk) [chunk])) ∧
    (∀ f, getEventsResponse f (Block_Height blk) b'
      = Ok (mkEventsResponse (Block_ID blk) (Block_Height blk) (filter_Filter f (ced_Events chunk)))) ∧
    ∀ f h, Block_Height blk < h < two64 →
      ∃ err, getEventsResponse f h b' = Err err ∧ getExecutionDataResponse h b' = Err err ∧
             errors_Is err ErrBlockNotReady = true.
Proof.
  intros HR Hw Hlat Hn Hcommit.
  destruct (reachable_commit conf w b latest blk b' HR Hw Hlat Hn Hcommit) as (l & c & HI & Hc & ->).
  pose proof (latest_Block b l latest HI Hlat) as Hh.
  pose proof (next_height_nonneg l (ci_log b l HI)) as H0.
  pose proof (pending_height b l HI ltac:(lia)) as Hbh.
  change (Block_Height (pending_Block (b_pendingBlock b)) = next_height l) in Hbh.
  assert (is_u64 (Block_Height (pending_Block (b_pendingBlock b)))) as Hu by (unfold is_u64; lia).
  pose proof (inv_refines b' _ (ca_inv _ _ _ _ Hc)) as R.
  destruct (after_entries b b' l c HI Hc) as [entries HF].
  destruct (after_chunks b b' l c Hc entries HF) as (chunks & Hch & Hadd).
  eexists _, _, entries. unfold GetEventsByHeight. rewrite !(ref_EventsByHeight _ _ R) by done.
  split; [reflexivity|]. split; [reflexivity|]. split; [exact HF|]. cbn zeta.
  assert (∀ evmTx evmBlock,
    log_EventsByHeight (Block_Height (pending_Block (b_pendingBlock b)))
      (evm_event EventTypeTransactionExecuted b') (commit_log c (b_systemTransactions b) l) = Ok evmTx →
    log_EventsByHeight (Block_Height (pending_Block (b_pendingBlock b)))
      (evm_event EventTypeBlockExecuted b') (commit_log c (b_systemTransactions b) l) = Ok evmBlock →
    data_at (Block_Height (pending_Block (b_pendingBlock b))) b'
    = Ok (mkBlockExecutionData (Block_ID (pending_Block (b_pendingBlock b)))
            [chunk_for entries evmTx evmBlock])) as Hdata.
  { intros evmTx evmBlock H1 H2. unfold data_at, getExecutionData.
    rewrite (after_height b b' l c Hc Hbh Hu). cbn [map_err mbind res_bind]. rewrite Hch.
    cbn [mbind res_bind]. unfold GetEventsByHeight. rewrite !(ref_EventsByHeight _ _ R) by done.
    rewrite H1, H2. cbn [mbind res_bind map_err]. by rewrite Hadd. }
  unfold getExecutionDataResponse, getEventsResponse. rewrite (Hdata _ _ eq_refl eq_refl).
  cbn [mbind res_bind bed_BlockID bed_ChunkExecutionDatas]. split; [done|]. split.
  { intros f. rewrite list_fmap_singleton. cbn [concat]. by rewrite app_nil_r. }
  intros f h Hlt. destruct (data_not_ready b' _ h (ca_inv _ _ _ _ Hc)) as (err & -> & He).
  - unfold is_u64. lia.
  - rewrite (proj1 (committed_next b l c b' HI ltac:(lia) Hc)). lia.
  - by exists err.
Qed.

(** (getStartHeightFunc): the start of a subscription is the height of the block
    with the ID, or else the given height when the chain has reached it. *)
Lemma start_height_of conf b latest id h :
  reachable conf b → getLatestBlock b = Ok latest → is_u64 h →
  getStartHeight id h b =
  match getBlockByID id b with
  | Ok blk => Ok (Block_Height blk)
  | Err _ => if bool_decide (h ≤ Block_Height latest) then Ok h else Err ErrNotFound
  end.
Proof.
  intros (l0 & es & evs & HI)%reachable_inv Hlat Hu. revert HI.
  generalize (l0 ++ [WCommit (genesis_commit conf es evs)]). clear l0. intros l HI.
  pose proof (latest_Block b l latest HI Hlat) as Hh.
  unfold getStartHeight, Api.GetBlockByID.
  destruct (getBlockByID id b) as [blk|err] eqn:Hid; [done|].
  assert (err = BlockNotFoundByIDError id) as ->.
  { unfold getBlockByID in Hid. rewrite (ref_BlockByID _ _ (inv_refines b l HI)) in Hid.
    unfold log_BlockByID, log_BlockByHeight, found in Hid.
    destruct (newest _ l) as [h0|]; simpl in Hid; [|by injection Hid].
    destruct (newest _ l); simpl in Hid; [done|by injection Hid]. }
  cbn [errors_As is_BlockNotFoundByIDError negb orb]. case_bool_decide as Hle.
  - pose proof (proj2 (log_block_dom l h (ci_log b l HI)) ltac:(unfold is_u64 in Hu; lia)) as Hd.
    destruct (log_BlockByHeight h l) as [blk|] eqn:Hb; [|done].
    unfold Api.GetBlockByHeight. rewrite (proj2 (getBlockByHeight_Ok b l h blk HI Hu) Hb).
    by rewrite (log_block_height _ _ _ Hb).
  - by rewrite (api_block_above b l h HI Hu) by lia.
Qed.
End stream_theorems.
