(* ===== verification/Sdk.v ===== *)
(** The emulator through the data of the Go SDK: adapters/sdk.go.

    Each method of [SDKAdapter] calls the emulator and converts what it returns.
    The contract templates and the signing of the SDK are parameters. *)
From S2P Require Import Prelude FlowTypes Errors Storage Report Convert Pragma Vm PendingBlock.
From S2P Require Import Blockchain Queries Emulator Access.

(** What [CreateAccount] calls in the SDK: the template of the transaction, the
    signing of the envelope with the service key, the ID of a transaction, and
    the address of a value that has the type [cadence.Address]. *)
Class SdkLibrary {CA : Cadence} {CR : Crypto} := {
  template_Contract : Type;
  templates_CreateAccount :
    list sdk_AccountKey → list template_Contract → sdk_Address → result sdk_Transaction;
  SignEnvelope : ServiceKey → sdk_Transaction → result sdk_Transaction;
  sdk_Transaction_ID : sdk_Transaction → sdk_Identifier;
  as_Address : cadence_Value → option sdk_Address;
  EventAccountCreated : string;
  AccountEventAddressParameter : string
}.

Record sdk_BlockHeader := mkSdkBlockHeader {
  sbh_ID : sdk_Identifier; sbh_ParentID : sdk_Identifier; sbh_Height : Z; sbh_Timestamp : Time
}.
Record sdk_BlockSeal := mkSdkBlockSeal { ss_BlockID : sdk_Identifier; ss_ResultId : sdk_Identifier }.
Record sdk_BlockPayload := mkSdkBlockPayload {
  sbp_CollectionGuarantees : list sdk_Identifier; sbp_Seals : list sdk_BlockSeal
}.
Record sdk_Block := mkSdkBlock { sb_Header : sdk_BlockHeader; sb_Payload : sdk_BlockPayload }.
Record sdk_BlockEvents {CA : Cadence} := mkSdkBlockEvents {
  sbe_BlockID : sdk_Identifier; sbe_Height : Z; sbe_BlockTimestamp : Time; sbe_Events : list sdk_Event
}.
Arguments mkSdkBlockEvents {CA}.

Module SDKAdapter.
Section sdk.
Context {FM : FlowModel} {CA : Cadence} {VM : VirtualMachine} {CK : Clocks} {CR : Crypto}
        {LT : LibraryTexts} {AC : AccessCodecs} {SK : SdkLibrary} {B : Type} {EM : Emulator B}.

Definition EnableAutoMine : ST error B unit := emu_EnableAutoMine.
Definition DisableAutoMine : ST error B unit := emu_DisableAutoMine.
Definition GetChainID (b : B) : ChainID := emu_GetNetworkParameters b.

(** ** Blocks *)

Definition internal {A} (m : result A) : result A :=
  map_err (λ err, status_Error codes_Internal (Error_text err)) m.

Definition header_of (block : Block) : sdk_BlockHeader :=
  mkSdkBlockHeader (Block_ID block) (Block_ParentID block) (Block_Height block)
    (time_of_UnixMilli (i64 (Block_Timestamp block))).

Definition convertBlockPayload (payload : Payload) : sdk_BlockPayload :=
  mkSdkBlockPayload (CollectionID <$> Guarantees payload)
    ((λ seal, mkSdkBlockSeal (seal_BlockID seal) (seal_ResultID seal)) <$> Seals payload).

Definition block_of (block : Block) : sdk_Block :=
  mkSdkBlock (header_of block) (convertBlockPayload (Block_Payload block)).

Definition GetLatestBlockHeader (b : B) : result (sdk_BlockHeader * BlockStatus) :=
  block ← internal (emu_GetLatestBlock b); Ok (header_of block, BlockStatusSealed).
Definition GetBlockHeaderByHeight (height : Z) (b : B) : result (sdk_BlockHeader * BlockStatus) :=
  block ← internal (emu_GetBlockByHeight height b); Ok (header_of block, BlockStatusSealed).
(** The only one that returns the emulator's error as it is. *)
Definition GetBlockHeaderByID (id : sdk_Identifier) (b : B) : result (sdk_BlockHeader * BlockStatus) :=
  block ← emu_GetBlockByID (SDKIdentifierToFlow id) b; Ok (header_of block, BlockStatusSealed).
Definition GetLatestBlock (b : B) : result (sdk_Block * BlockStatus) :=
  block ← internal (emu_GetLatestBlock b); Ok (block_of block, BlockStatusSealed).
Definition GetBlockByHeight (height : Z) (b : B) : result (sdk_Block * BlockStatus) :=
  block ← internal (emu_GetBlockByHeight height b); Ok (block_of block, BlockStatusSealed).
Definition GetBlockByID (id : sdk_Identifier) (b : B) : result (sdk_Block * BlockStatus) :=
  block ← internal (emu_GetBlockByID (SDKIdentifierToFlow id) b); Ok (block_of block, BlockStatusSealed).

(** ** Collections, transactions, accounts *)

Definition GetCollectionByID (id : sdk_Identifier) (b : B) : result sdk_Collection :=
  FlowLightCollectionToSDK <$> emu_GetCollectionByID (SDKIdentifierToFlow id) b.

Definition SendTransaction (tx : sdk_Transaction) (w : World) : ST error B unit :=
  emu_SendTransaction (SDKTransactionToFlow tx) w.
Definition GetTransaction (id : sdk_Identifier) (b : B) : result sdk_Transaction :=
  FlowTransactionToSDK <$> emu_GetTransaction (SDKIdentifierToFlow id) b.
Definition GetTransactionResult (id : sdk_Identifier) (b : B) : result sdk_TransactionResult :=
  flowResult ← emu_GetTransactionResult (SDKIdentifierToFlow id) b;
  FlowTransactionResultToSDK flowResult.
Definition GetTransactionsByBlockID (id : sdk_Identifier) (b : B) : result (list sdk_Transaction) :=
  fmap (M := list) FlowTransactionToSDK <$> emu_GetTransactionsByBlockID (SDKIdentifierToFlow id) b.
Definition GetTransactionResultsByBlockID (id : sdk_Identifier) (b : B)
    : result (list sdk_TransactionResult) :=
  results ← emu_GetTransactionResultsByBlockID (SDKIdentifierToFlow id) b;
  res_map FlowTransactionResultToSDK results.

Definition getAccount (address : sdk_Address) (b : B) : result sdk_Account :=
  account ← emu_GetAccount (SDKAddressToFlow address) b; FlowAccountToSDK account.
Definition GetAccount (address : sdk_Address) (b : B) : result sdk_Account := getAccount address b.
Definition GetAccountAtLatestBlock (address : sdk_Address) (b : B) : result sdk_Account :=
  getAccount address b.
Definition GetAccountAtBlockHeight (address : sdk_Address) (height : Z) (b : B) : result sdk_Account :=
  account ← emu_GetAccountAtBlockHeight (SDKAddressToFlow address) height b;
  FlowAccountToSDK account.

(** ** Scripts *)

Definition executeScriptAtBlock (script : Bytes) (arguments : list Bytes) (blockHeight : Z)
    : ST error B Bytes :=
  result ← emu_ExecuteScriptAtBlockHeight script arguments blockHeight;
  st_res (match scr_Error result with
          | Some err => Err err
          | None => jsoncdc_Encode (scr_Value result)
          end).
Definition ExecuteScriptAtLatestBlock (script : Bytes) (arguments : list Bytes) : ST error B Bytes :=
  block ← st_read emu_GetLatestBlock;
  executeScriptAtBlock script arguments (Block_Height block).
Definition ExecuteScriptAtBlockHeight (blockHeight : Z) (script : Bytes) (arguments : list Bytes)
    : ST error B Bytes := executeScriptAtBlock script arguments blockHeight.
Definition ExecuteScriptAtBlockID (blockID : sdk_Identifier) (script : Bytes) (arguments : list Bytes)
    : ST error B Bytes :=
  block ← st_read (emu_GetBlockByID (SDKIdentifierToFlow blockID));
  executeScriptAtBlock script arguments (Block_Height block).

(** ** Events *)

Definition sdk_block_events (be : BlockEvents) : result sdk_BlockEvents :=
  events ← FlowEventsToSDK (be_Events be);
  Ok (mkSdkBlockEvents (be_BlockID be) (be_BlockHeight be) (be_BlockTimestamp be) events).
Definition GetEventsForBlockIDs (eventType : string) (blockIDs : list sdk_Identifier) (b : B)
    : result (list sdk_BlockEvents) :=
  events ← emu_GetEventsForBlockIDs eventType (SDKIdentifiersToFlow blockIDs) b;
  res_map sdk_block_events events.
Definition GetEventsForHeightRange (eventType : string) (startHeight endHeight : Z) (b : B)
    : result (list sdk_BlockEvents) :=
  events ← emu_GetEventsForHeightRange eventType startHeight endHeight b;
  res_map sdk_block_events events.

(** ** Accounts are created by the service account *)

Definition service_transaction (serviceKey : ServiceKey) (latestBlock : Block) (tx : sdk_Transaction)
    : sdk_Transaction :=
  mkSdkTransaction (Block_ID latestBlock) (stx_Script tx) (stx_Arguments tx)
    DefaultMaxTransactionGasLimit
    (mkSdkProposalKey (sk_Address serviceKey) (sk_Index serviceKey) (sk_SequenceNumber serviceKey))
    (sk_Address serviceKey) (stx_Authorizers tx) (stx_PayloadSignatures tx)
    (stx_EnvelopeSignatures tx).

(** The address in the first account-created event; the value of the field is
    asserted to be an address. *)
Definition created_address (events : list sdk_Event) : result sdk_Address :=
  match head (filter (λ e, sev_Type e = EventAccountCreated) events) with
  | None => Err (Errorf "failed to find AccountCreated event")
  | Some event =>
      address ← of_option (Panic "interface conversion")
        (SearchFieldByName (sev_Value event) AccountEventAddressParameter ≫= as_Address);
      if decide (address = vreplicate 8 x00%byte)
      then Err (Errorf "failed to find AccountCreated event") else Ok address
  end.

Definition find_result (id : sdk_Identifier) (results : list TransactionResult)
    : option TransactionResult :=
  head (filter (λ r, tr_TransactionID r = id) results).

(** [w1], [w2] and [w3] are the worlds of the calls that may commit a block. *)
Definition CreateAccount (publicKeys : list sdk_AccountKey) (contracts : list template_Contract)
    (w1 w2 w3 : World) : ST error B sdk_Address :=
  serviceKey ← emu_ServiceKey;
  latestBlock ← st_read emu_GetLatestBlock;
  template ← st_res (templates_CreateAccount publicKeys contracts (sk_Address serviceKey));
  tx ← st_res (SignEnvelope serviceKey (service_transaction serviceKey latestBlock template));
  SendTransaction tx w1 ;;
  done ← emu_ExecuteAndCommitBlock w2;
  _ ← emu_CommitBlock w3;
  txResult ← st_res (of_option
    (Errorf ("failed to find result for tx " +:+ show_id (sdk_Transaction_ID tx)))
    (find_result (sdk_Transaction_ID tx) done.2));
  match tr_Error txResult with
  | Some err => st_fail err
  | None => st_res (created_address (tr_Events txResult))
  end.
End sdk.
End SDKAdapter.
