(* ===== verification/SdkTheorems.v ===== *)
(** The SDK adapter on the emulated chain: what [CreateAccount] returns when the
    chain mines by itself, and the conversions of its blocks. *)
From S2P Require Import Prelude FlowTypes Errors Storage Report Convert Pragma Vm PendingBlock.
From S2P Require Import Blockchain Queries BlockchainCorrect Chain ChainTheorems SourceFiles Emulator Access Sdk.
Import SDKAdapter.

Section sdk_theorems.
Context {FM : FlowModel} {CA : Cadence} {VM : VirtualMachine} {CK : Clocks} {CR : Crypto}
        {SG : Signing} {CP : CadenceParser} {KS : KindString} {GO : GoMapOrder}
        {AG : AddressGenerator} {SRC : SourceLibrary} {LT : LibraryTexts} {AC : AccessCodecs} {SK : SdkLibrary}
        {S : Type} `{!Store S} {OI : OptionalInterfaces S} {SC : StoreCorrect S} {TS : TotalStore S}.
Implicit Types b : Blockchain (S := S).

(** A transaction that is sent to a chain that mines by itself is sealed in the
    block that was pending, and nothing is pending any more. *)
Lemma automine_sent tx w b l b' :
  chain_inv b l → next_height l < two64 → world_ok w → Size (b_pendingBlock b) + 1 < two32 →
  conf_AutoMine (b_conf b) = true → Blockchain.SendTransaction tx w b = (Ok (), b') →
  ∃ l', chain_inv b' l' ∧ pb_transactionIDs (b_pendingBlock b') = [] ∧
    ∃ r, getTransactionResult (Transaction_ID tx) b' = Ok r ∧ ar_Status r = StatusSealed.
Proof.
  intros HI Hn Hw Hs Hauto H. pose proof (addTransaction_inv tx b l HI Hs) as HI1.
  unfold Blockchain.SendTransaction in H. apply ST_bind_Ok in H as ([] & b1 & Ha & H).
  rewrite Ha in HI1. simpl in HI1. rewrite addTransaction_state in Ha.
  destruct (admits tx b) as [[]|e]; [|done]. injection Ha as <-.
  rewrite (ST_bind_step _ _ _ true _) in H by (unfold st_get; simpl; by rewrite Hauto).
  apply ST_bind_Ok in H as ([blk rs] & b2 & Hrun & H). injection H as <-.
  destruct (executeAndCommitBlock_Ok w _ l blk rs b2 HI1 Hn Hw Hrun) as (b3 & c & He & HI3 & _ & _ & Hca).
  destruct (executeBlock_props _ (ci_pending _ l HI1)) as (_ & Hsame & _). rewrite He in Hsame. simpl in Hsame.
  destruct (committed_result b3 b2 l c (Transaction_ID tx) HI3 Hca) as (r & _ & Hres).
  { rewrite (sb_transactionIDs _ _ Hsame). simpl. apply elem_of_app. right. by apply list_elem_of_singleton. }
  eexists. split; [exact (ca_inv _ _ _ _ Hca)|].
  destruct (ca_pending _ _ _ _ Hca) as (snap & clock & w' & -> & _). split; [done|]. by eexists.
Qed.

Lemma empty_block_results w b l blk rs b' :
  chain_inv b l → pb_transactionIDs (b_pendingBlock b) = [] →
  executeAndCommitBlock w b = (Ok (blk, rs), b') → rs = [].
Proof.
  intros HI Hids H. unfold executeAndCommitBlock in H. apply ST_bind_Ok in H as (rs1 & b1 & He & H).
  apply ST_bind_Ok in H as (blk1 & b2 & _ & H). injection H as _ -> _.
  destruct (executeBlock_props b (ci_pending b l HI)) as (_ & _ & _ & Hrs). rewrite He in Hrs.
  destruct (Hrs rs eq_refl) as (_ & _ & Hr). rewrite Hids, drop_nil in Hr. by apply fmap_nil_inv in Hr.
Qed.

(** The transaction [CreateAccount] makes and signs on a chain. *)
Definition signs_creation keys contracts b (tx : sdk_Transaction) b0 : Prop :=
  ∃ k blk template, currentServiceKey b = (Ok k, b0) ∧ getLatestBlock b0 = Ok blk ∧
    templates_CreateAccount keys contracts (sk_Address k) = Ok template ∧
    SignEnvelope k (service_transaction k blk template) = Ok tx.

Lemma currentServiceKey_conf b k b0 :
  currentServiceKey b = (Ok k, b0) →
  b_conf b0 = b_conf b ∧ b_storage b0 = b_storage b ∧ b_pendingBlock b0 = b_pendingBlock b.
Proof. unfold currentServiceKey. repeat case_match; by intros [= <- <-]. Qed.

(** C29 (adapters/sdk.go, CreateAccount): on a chain that mines by itself the
    transaction of [CreateAccount] is committed when it is sent, the block that
    is executed after that is empty, and the call reports that it cannot find
    the result: it fails although the transaction is sealed.
    (On a store whose writes succeed.) *)
Theorem automine_hides_created_account conf keys contracts w1 w2 w3 b latest tx b0 b1 x b2 y b3 :
  reachable conf b → getLatestBlock b = Ok latest → Block_Height latest + 1 < two64 → world_ok w1 →
  Size (b_pendingBlock b) + 1 < two32 → conf_AutoMine (b_conf b) = true →
  signs_creation keys contracts b tx b0 →
  SendTransaction tx w1 b0 = (Ok (), b1) →
  executeAndCommitBlock w2 b1 = (Ok x, b2) → commitBlock w3 b2 = (Ok y, b3) →
  CreateAccount keys contracts w1 w2 w3 b
    = (Err (Errorf ("failed to find result for tx " +:+ show_id (sdk_Transaction_ID tx))), b3) ∧
  ∃ r, getTransactionResult (Transaction_ID (SDKTransactionToFlow tx)) b1 = Ok r ∧
       ar_Status r = StatusSealed.
Proof.
  intros (l0 & es & evs & HI)%reachable_inv Hlat Hn Hw Hs Hauto (k & blk & tpl & Hk & Hb & Ht & Hsig)
    Hsend Hec Hc. revert HI.
  generalize (l0 ++ [WCommit (genesis_commit conf es evs)]). clear l0. intros l HI.
  pose proof (latest_Block b l latest HI Hlat) as Hh.
  destruct (currentServiceKey_conf b k b0 Hk) as (Hcf & Hst & Hpb).
  assert (chain_inv b0 l) as HI0 by (by apply (chain_inv_ext b)).
  rewrite <- Hcf in Hauto. rewrite <- Hpb in Hs.
  destruct (automine_sent _ w1 b0 l b1 HI0 ltac:(lia) Hw Hs Hauto Hsend) as (l1 & HI1 & Hids & Hres).
  split; [|done]. destruct x as [blk2 rs].
  pose proof (empty_block_results w2 b1 l1 blk2 rs b2 HI1 Hids Hec) as ->.
  unfold CreateAccount.
  rewrite (ST_bind_step _ _ b k b0 Hk).
  rewrite (ST_bind_step _ _ b0 blk b0) by (unfold st_read; simpl; unfold Api.GetLatestBlock; by rewrite Hb).
  rewrite (ST_bind_step _ _ b0 tpl b0) by (unfold st_res; by rewrite Ht).
  rewrite (ST_bind_step _ _ b0 tx b0) by (unfold st_res; by rewrite Hsig).
  rewrite (ST_bind_step _ _ b0 () b1 Hsend).
  rewrite (ST_bind_step _ _ b1 (blk2, []) b2 Hec).
  by rewrite (ST_bind_step _ _ b2 y b3 Hc).
Qed.
End sdk_theorems.
