(* ===== verification/Debugger.v ===== *)
(** The session of the debugger: server/debugger/debugsession.go, a server of the
    Debug Adapter Protocol over Cadence's debugger, and the loop that reads its
    requests in debugger.go.

    A session's state is its record in the code, the chain, what it has sent and
    asked of Cadence's debugger so far, and the routines it has started.  Every
    request has a routine of its own, and the routines run in any order; inside a
    handler they are not interleaved.  A turn of a listening routine, the end of
    the script and the end of the connection are steps of the environment.  A
    panic in a routine ends the whole process; it is the error [Panic].

    The debugger of a session is the pointer that [StartDebugger] returns, the
    field [debugger] of the chain.  Calling a method on it when it is [nil] is a
    panic; DebuggerTheorems.v shows that it always is. *)
From S2P Require Import Prelude FlowTypes Errors Storage Report Convert Pragma Vm PendingBlock.
From S2P Require Import Blockchain Queries SourceFiles Emulator.
#[local] Open Scope string_scope.

(** * What the session uses of Cadence, of the protocol library and of the system *)

(** A Cadence value as the session looks at it; the fields of a composite are a
    Go map, and only structs and resources get a handle. *)
Inductive value_shape (V : Type) :=
  | Dictionary (pairs : list (V * V))
  | Array (values : list V)
  | Composite (struct_or_resource : bool) (fields : gmap string V)
  | Simple.
Arguments Dictionary {V}. Arguments Array {V}. Arguments Composite {V}. Arguments Simple {V}.

Class DebugLibrary {CA : Cadence} := {
  shape : cadence_Value → value_shape cadence_Value;
  (** [value.Type().ID()] *)
  type_ID : cadence_Value → string;
  Location : Type;
  Location_eq_dec : EqDecision Location;
  Location_String : Location → string;
  StringLocation : string → Location;
  as_AddressLocation : Location → option (Address * string);
  (** [common.DecodeTypeID] with the location only, which may be [nil]. *)
  DecodeTypeID : string → result (option Location);
  (** [os.ReadFile]; a file that cannot be read is empty. *)
  ReadFile : string → string;
  (** [hex.EncodeToString] of [flowgo.MakeIDFromFingerPrint]. *)
  FingerPrintID : string → string
}.
#[global] Existing Instance Location_eq_dec.

Record Position := mkPosition { pos_Line : Z; pos_Column : Z }.
Record Range := mkRange { StartPosition : Position; EndPosition : Position }.

Section protocol.
Context {FM : FlowModel} {CA : Cadence} {VM : VirtualMachine} {CR : Crypto} {DL : DebugLibrary}.

(** An invocation of the call stack; its location may be [nil]. *)
Record Invocation := mkInvocation { inv_Location : option Location; inv_Range : Range }.
(** A stop of the debugger with the interpreter at it: the variables of the
    function with their exported values, those that can be exported, and the
    texts of the variables that the activation finds. *)
Record Stop := mkStop {
  stop_Statement : Range;
  stop_Location : Location;
  stop_CallStack : list Invocation;
  stop_Values : gmap string (option cadence_Value);
  stop_Find : string → option string
}.

(** The methods that are called on Cadence's debugger; a location may be [nil]. *)
Inductive debug_command :=
  | RequestPause
  | Continue
  | Stops
  | ClearBreakpointsForLocation (location : option Location)
  | AddBreakpoint (location : option Location) (line : Z).

(** The messages of the protocol. *)
Record dap_Variable := mkVariable {
  dv_Name : string; dv_Value : string; dv_Type : string; dv_VariablesReference : Z
}.
Record dap_StackFrame := mkStackFrame {
  sf_Path : string; sf_Line : Z; sf_Column : Z; sf_EndLine : Z; sf_EndColumn : Z
}.
Inductive response_body :=
  | NoBody
  | Capabilities
  | BVariables (variables : list dap_Variable)
  | BScopes (scopes : list (string * string * Z))
  | BEvaluate (result : string)
  | BContinue
  | BSource (content : string)
  | BStackTrace (stackFrames : list dap_StackFrame)
  | BThreads (threads : list (Z * string))
  | BBreakpoints (paths : list string).
Inductive event_body :=
  | ENone
  | EStopped (reason : string)
  | EOutput (category output : string)
  | EExited (exitCode : Z).
Inductive dap_Message :=
  | Response (requestSeq : Z) (command : string) (body : response_body)
  | ErrorResponse (requestSeq : Z) (command : string) (format : string)
      (variables : list (string * string)) (showUser : bool)
  | Event (event : string) (body : event_body).

(** The arguments of a launch: the program is missing, is no string, or is a path. *)
Inductive program_arg := Missing | NotAString | Program (path : string).
Inductive arguments :=
  | AInitialize
  | ASetBreakpoints (path : string) (lines : list Z)
  | ADisconnect
  | AAttach
  | ALaunch (program : program_arg) (stopOnEntry : bool)
  | AConfigurationDone
  | AThreads
  | APause
  | ANext
  | AStepIn
  | AStepOut
  | AStackTrace
  | ASource (path : string)
  | AContinue
  | AEvaluate (expression : string)
  | AScopes
  | AVariables (variablesReference : Z).
Record dap_Request := mkRequest { rq_Seq : Z; rq_Command : string; rq_Arguments : arguments }.

(** A value that a handle stands for. *)
Inductive handle_value := HValue (v : cadence_Value) | HAccount (a : Account).

Record session := mkSession {
  ss_variables : option (gmap Z handle_value);
  ss_variableHandleCounter : Z;
  (** The pointer [debugger], which may be [nil]. *)
  ss_debugger : option interpreter_Debugger;
  ss_stop : option Stop;
  ss_code : string;
  ss_scriptLocation : string;
  ss_scriptID : string;
  ss_stopOnEntry : bool;
  ss_configurationDone : bool;
  ss_launchRequested : bool;
  ss_launched : bool;
  ss_targetDepth : Z;
  (** Whether [sendQueue] is closed. *)
  ss_closed : bool
}.
Definition new_session : session := mkSession None 0 None None "" "" "" false false false false 0 false.

Inductive output := Sent (m : dap_Message) | Asked (c : debug_command).
End protocol.

Definition ScopeIdentifierLocal : Z := 10000.
Definition ScopeIdentifierGlobal : Z := 10001.
Definition ScopeIdentifierStorage : Z := 10002.

(** [strings.TrimSuffix(path, ".cdc")] *)
Definition trim_cdc (path : string) : string :=
  let cs := bytes_of_string path in
  let n := (length cs - 4)%nat in
  if decide (drop n cs = bytes_of_string ".cdc") then string_of_bytes (take n cs) else path.

(** [strings.Count(s, ".")] *)
Definition count_dots (s : string) : nat :=
  length (filter (λ c, c = x2e%byte) (bytes_of_string s)).

Section session.
Context {FM : FlowModel} {CA : Cadence} {VM : VirtualMachine} {CK : Clocks} {CR : Crypto}
        {SG : Signing} {CP : CadenceParser} {KS : KindString} {GO : GoMapOrder}
        {AG : AddressGenerator} {SRC : SourceLibrary} {DL : DebugLibrary} {LT : LibraryTexts} {S : Type} `{!Store S} {OI : OptionalInterfaces S}.

(** The state of a session: how many routines listen to the stops and how many of
    them are cancelled, the code of those that run a script, and the requests whose
    routines are still to run. *)
Record dbg := mkDbg {
  d_session : session;
  d_chain : Blockchain (S := S);
  d_out : list output;
  d_listeners : nat;
  d_cancelled : nat;
  d_scripts : list string;
  d_pending : list dap_Request
}.
Abbreviation M := (ST error dbg).

Definition sess {A} (f : session → A) : M A := st_get (λ d, f (d_session d)).
Definition put (s : session) : M unit :=
  st_modify (λ d, mkDbg s (d_chain d) (d_out d) (d_listeners d) (d_cancelled d) (d_scripts d) (d_pending d)).
Definition emit (o : output) : M unit :=
  st_modify (λ d, mkDbg (d_session d) (d_chain d) (d_out d ++ [o]) (d_listeners d) (d_cancelled d) (d_scripts d) (d_pending d)).
(** A send on a closed channel is a panic. *)
Definition send (m : dap_Message) : M unit :=
  closed ← sess ss_closed;
  if (closed : bool) then st_fail (Panic "send on closed channel") else emit (Sent m).
Definition on_chain {A} (m : ST error (Blockchain (S := S)) A) : M A := λ d,
  let '(r, b) := m (d_chain d) in
  (r, mkDbg (d_session d) b (d_out d) (d_listeners d) (d_cancelled d) (d_scripts d) (d_pending d)).

(** A call of a method of [s.debugger], which reads the debugger's fields. *)
Definition ask (c : debug_command) : M unit :=
  debugger ← sess ss_debugger;
  match debugger with Some _ => emit (Asked c) | None => st_fail nil_pointer end.

Definition set_session_debugger (debugger : option interpreter_Debugger) (s : session) : session :=
  mkSession (ss_variables s) (ss_variableHandleCounter s) debugger (ss_stop s) (ss_code s)
    (ss_scriptLocation s) (ss_scriptID s) (ss_stopOnEntry s) (ss_configurationDone s)
    (ss_launchRequested s) (ss_launched s) (ss_targetDepth s) (ss_closed s).
Definition set_stop (stop : option Stop) (s : session) : session :=
  mkSession (ss_variables s) (ss_variableHandleCounter s) (ss_debugger s) stop (ss_code s)
    (ss_scriptLocation s) (ss_scriptID s) (ss_stopOnEntry s) (ss_configurationDone s)
    (ss_launchRequested s) (ss_launched s) (ss_targetDepth s) (ss_closed s).
Definition set_targetDepth (depth : Z) (s : session) : session :=
  mkSession (ss_variables s) (ss_variableHandleCounter s) (ss_debugger s) (ss_stop s) (ss_code s)
    (ss_scriptLocation s) (ss_scriptID s) (ss_stopOnEntry s) (ss_configurationDone s)
    (ss_launchRequested s) (ss_launched s) depth (ss_closed s).
Definition set_variables (vars : gmap Z handle_value) (counter : Z) (s : session) : session :=
  mkSession (Some vars) counter (ss_debugger s) (ss_stop s) (ss_code s)
    (ss_scriptLocation s) (ss_scriptID s) (ss_stopOnEntry s) (ss_configurationDone s)
    (ss_launchRequested s) (ss_launched s) (ss_targetDepth s) (ss_closed s).
Definition set_flags (configurationDone launchRequested launched : bool) (s : session) : session :=
  mkSession (ss_variables s) (ss_variableHandleCounter s) (ss_debugger s) (ss_stop s) (ss_code s)
    (ss_scriptLocation s) (ss_scriptID s) (ss_stopOnEntry s) configurationDone
    launchRequested launched (ss_targetDepth s) (ss_closed s).
Definition set_stopOnEntry (stopOnEntry : bool) (s : session) : session :=
  mkSession (ss_variables s) (ss_variableHandleCounter s) (ss_debugger s) (ss_stop s) (ss_code s)
    (ss_scriptLocation s) (ss_scriptID s) stopOnEntry (ss_configurationDone s)
    (ss_launchRequested s) (ss_launched s) (ss_targetDepth s) (ss_closed s).
Definition set_program (code location id : string) (s : session) : session :=
  mkSession (ss_variables s) (ss_variableHandleCounter s) (ss_debugger s) (ss_stop s) code
    location id (ss_stopOnEntry s) (ss_configurationDone s)
    (ss_launchRequested s) (ss_launched s) (ss_targetDepth s) (ss_closed s).
Definition set_closed (s : session) : session :=
  mkSession (ss_variables s) (ss_variableHandleCounter s) (ss_debugger s) (ss_stop s) (ss_code s)
    (ss_scriptLocation s) (ss_scriptID s) (ss_stopOnEntry s) (ss_configurationDone s)
    (ss_launchRequested s) (ss_launched s) (ss_targetDepth s) true.
Definition modify (f : session → session) : M unit := s ← sess id; put (f s).

(** [s.debugger = s.emulator.StartDebugger()] *)
Definition startDebugger : M unit :=
  debugger ← on_chain StartDebugger; modify (set_session_debugger debugger).

(** ** Answers *)

Definition success (r : dap_Request) (body : response_body) : M unit :=
  send (Response (rq_Seq r) (rq_Command r) body).
Definition newDAPErrorResponse (r : dap_Request) (format : string)
    (variables : list (string * string)) (showUser : bool) : M unit :=
  send (ErrorResponse (rq_Seq r) (rq_Command r) format variables showUser).
Definition newDAPEvent (event : string) (body : event_body) : M unit := send (Event event body).

(** ** Locations *)

Definition locationPath (l : Location) : string := Location_String l +:+ ".cdc".

Definition pathLocation (path : string) : result (option Location) :=
  let basename := trim_cdc path in
  let by_address :=
    DecodeTypeID ("A." +:+ (if bool_decide (count_dots basename < 3)%nat then basename +:+ "._" else basename)) in
  if bool_decide (count_dots basename = 0%nat)
  then match DecodeTypeID ("s." +:+ basename) with
       | Ok (Some location) => Ok (Some location)
       | _ => by_address
       end
  else by_address.

(** The empty text stands for unknown code. *)
Definition pathCode (path : string) (d : dbg) : string :=
  let '(runningScriptID, runningCode) := Api.CurrentScript (d_chain d) in
  if bool_decide (trim_cdc path = runningScriptID) then runningCode
  else match pathLocation path with
       | Err _ => ""
       | Ok location =>
           if decide (location = Some (StringLocation (ss_scriptLocation (d_session d))))
           then ss_code (d_session d)
           else match location ≫= as_AddressLocation with
                | None => ""
                | Some (address, name) =>
                    match Api.GetAccountUnsafe address (d_chain d) with
                    | Err _ => ""
                    | Ok account => default "" (string_of_bytes <$> acc_Contracts account !! name)
                    end
                end
       end.

(** ** Variables *)

(** A write to a [nil] map is a panic. *)
Definition storeVariable (value : handle_value) : M Z :=
  s ← sess id;
  match ss_variables s with
  | None => st_fail (Panic "assignment to entry in nil map")
  | Some vars =>
      let n := ss_variableHandleCounter s + 1 in
      put (set_variables (<[n := value]> vars) n s) ;; mret n
  end.

Definition has_members (v : cadence_Value) : bool :=
  match shape v with Dictionary _ | Array _ | Composite true _ => true | _ => false end.

Definition convertValueToDAPVariable (name : string) (value : cadence_Value) : M dap_Variable :=
  referenceHandle ← (if has_members value then storeVariable (HValue value) else mret 0);
  mret (mkVariable name (cadence_String value) (type_ID value) referenceHandle).

(** The members of a value with their names, in the order of the loops. *)
Definition members (v : cadence_Value) : list (string * cadence_Value) :=
  match shape v with
  | Composite _ fields => map_range fields
  | Array values => imap (λ i e, ("[" +:+ show_int (Z.of_nat i) +:+ "]", e)) values
  | Dictionary pairs => (λ p, (cadence_String p.1, p.2)) <$> pairs
  | Simple => []
  end.

Fixpoint convert_all (l : list (string * cadence_Value)) : M (list dap_Variable) :=
  match l with
  | [] => mret []
  | (name, value) :: l =>
      v ← convertValueToDAPVariable name value; vs ← convert_all l; mret (v :: vs)
  end.
Definition convertCadenceValueMembersToDAPVariables (v : cadence_Value) : M (list dap_Variable) :=
  convert_all (members v).

(** [convertInterpreterValueToDAPVariables]: what [runtime.ExportValue] gives of
    the value is the argument; its failure is a panic. *)
Definition convertInterpreterValueToDAPVariables (exported : result cadence_Value)
    : M (list dap_Variable) :=
  cadenceValue ← st_res (map_err (λ err, Panic (Error_text err)) exported);
  convertCadenceValueMembersToDAPVariables cadenceValue.

(** The entries of a storage map in the order of its iterator: the key, when it is
    a string, and what the export of the value gives. *)
Fixpoint convertStorageMapToDAPVariables (entries : list (option string * result cadence_Value))
    : M (list dap_Variable) :=
  match entries with
  | [] => mret []
  | (key, exported) :: entries =>
      cadenceValue ← st_res (map_err (λ err, Panic (Error_text err)) exported);
      match key with
      | None => convertStorageMapToDAPVariables entries
      | Some name =>
          variable ← convertValueToDAPVariable name cadenceValue;
          members ← convertStorageMapToDAPVariables entries;
          mret (variable :: members)
      end
  end.

(** The variables of the local scope, without built-ins and what cannot be exported. *)
Definition local_values (stop : Stop) (s : session) : list (string * cadence_Value) :=
  omap (λ p : string * option cadence_Value,
          if (bool_decide (Location_String (stop_Location stop) = ss_scriptID s) &&
              bool_decide (p.1 = "self")) || bool_decide (p.1 = "BLS") || bool_decide (p.1 = "RLP")
          then None
          else match p.2 with Some v => Some (p.1, v) | None => None end)
    (map_range (stop_Values stop)).

(** The loop over the accounts, which ends at the first one that is not found;
    [fuel] bounds its iterations. *)
Fixpoint account_variables (fuel : nat) (index : Z) : M (list dap_Variable) :=
  match fuel with
  | O => st_fail (Panic "loop bound")
  | Datatypes.S fuel =>
      found ← st_get (λ d, Api.GetAccountByIndex index (d_chain d));
      match found with
      | Err _ => mret []
      | Ok account =>
          h ← storeVariable (HAccount account);
          vs ← account_variables fuel (index + 1);
          mret (mkVariable (show_address (acc_Address account)) "FlowAccount" "FlowAccount" h :: vs)
      end
  end.

(** A handle stands for a value of Cadence; the case for an account asks for the
    SDK's type, which is never stored. *)
Definition expand (reference : Z) : M (list dap_Variable) :=
  s ← sess id;
  match default ∅ (ss_variables s) !! reference with
  | Some (HValue value) => convertCadenceValueMembersToDAPVariables value
  | Some (HAccount _) | None => mret []
  end.

Definition handleVariablesRequest (fuel : nat) (r : dap_Request) (reference : Z) : M unit :=
  s ← sess id;
  match ss_stop s with
  | None => newDAPErrorResponse r "invalid request" [] false
  | Some stop =>
      vs ← (if bool_decide (reference = ScopeIdentifierLocal)
            then put (set_variables ∅ 0 s) ;; convert_all (local_values stop s)
            else if bool_decide (reference = ScopeIdentifierStorage) then account_variables fuel 1
            else expand reference);
      success r (BVariables vs)
  end.

(** ** Frames *)

Definition newStackFrame (s : session) (positioned : Range) (location : Location) : dap_StackFrame :=
  mkStackFrame
    (if bool_decide (Location_String location = ss_scriptID s)
     then Location_String (StringLocation (ss_scriptLocation s)) else locationPath location)
    (pos_Line (StartPosition positioned)) (pos_Column (StartPosition positioned) + 1)
    (pos_Line (EndPosition positioned)) (pos_Column (EndPosition positioned) + 2).

(** The loop goes down from the last invocation. *)
Fixpoint frames_down (s : session) (i : nat) (invocations : list Invocation) : list dap_StackFrame :=
  match i with
  | O => []
  | Datatypes.S i =>
      match invocations !! i with
      | Some invocation =>
          match inv_Location invocation with
          | None => frames_down s i invocations
          | Some location => newStackFrame s (inv_Range invocation) location :: frames_down s i invocations
          end
      | None => frames_down s i invocations
      end
  end.
Definition stackFrames (s : session) (stop : Stop) : list dap_StackFrame :=
  newStackFrame s (stop_Statement stop) (stop_Location stop) ::
  frames_down s (length (stop_CallStack stop)) (stop_CallStack stop).

(** ** Running *)

Definition step : M unit := ask RequestPause ;; ask Continue.

(** Starts the routine that listens to the stops and, when there is code, the one
    that runs it. *)
Definition run : M unit :=
  startDebugger ;;
  stopOnEntry ← sess ss_stopOnEntry;
  (if (stopOnEntry : bool) then ask RequestPause else mret ()) ;;
  modify (set_variables ∅ 0) ;;
  code ← sess ss_code;
  st_modify (λ d, mkDbg (d_session d) (d_chain d) (d_out d) (d_listeners d + 1)%nat (d_cancelled d)
                    (if bool_decide (code = "") then d_scripts d else d_scripts d ++ [code]) (d_pending d)) ;;
  modify (λ s, set_flags (ss_configurationDone s) (ss_launchRequested s) true s).

(** A stop that the listening routine receives. *)
Definition handleStop (stop : Stop) : M unit :=
  modify (set_stop (Some stop)) ;;
  targetDepth ← sess ss_targetDepth;
  let depth := Z.of_nat (length (stop_CallStack stop)) in
  if bool_decide (targetDepth = -1) || bool_decide (depth ≤ targetDepth)%Z
  then newDAPEvent "stopped" (EStopped "pause")
  else step.

(** A turn of a listening routine.  The [select] first evaluates [s.debugger.Stops()],
    then it receives a stop, or it ends the routine when it is cancelled, or it
    waits. *)
Definition listen (received : option Stop) : M unit :=
  ask Stops ;;
  match received with
  | Some stop => handleStop stop
  | None =>
      cancelled ← st_get d_cancelled;
      if bool_decide (0 < cancelled)%nat
      then st_modify (λ d, mkDbg (d_session d) (d_chain d) (d_out d) (d_listeners d - 1)%nat
                             (d_cancelled d - 1)%nat (d_scripts d) (d_pending d))
      else mret ()
  end.

(** The [i]-th routine that runs a script, when the script has run: its listening
    routine is cancelled; the value of a script that failed is [nil].  A panic of
    the run ends the process. *)
Definition scriptDone (i : nat) : M unit :=
  code ← st_get (λ d, default "" (d_scripts d !! i));
  outcome ← (λ d, match ExecuteScript (bytes_of_string code) [] (d_chain d) with
                  | (Err (Panic text), b) =>
                      (Err (Panic text), mkDbg (d_session d) b (d_out d) (d_listeners d)
                         (d_cancelled d) (d_scripts d) (d_pending d))
                  | (r, b) => (Ok r, mkDbg (d_session d) b (d_out d) (d_listeners d)
                         (d_cancelled d + 1)%nat (delete i (d_scripts d)) (d_pending d))
                  end);
  body ← match outcome with
         | Err err => mret (EOutput "stderr" (Error_text err))
         | Ok result => match scr_Value result with
                        | Some value => mret (EOutput "stdout" (cadence_String value))
                        | None => st_fail nil_pointer
                        end
         end;
  newDAPEvent "output" body ;;
  newDAPEvent "exited" (EExited (if is_Ok outcome then 0 else 1)) ;;
  newDAPEvent "terminated" ENone ;;
  on_chain EndDebugging.

(** ** The handlers *)

Definition handleScopesRequest (r : dap_Request) : M unit :=
  success r (BScopes [("Variables", "locals", ScopeIdentifierLocal);
                      ("Storage", "registers", ScopeIdentifierStorage)]).

Definition handleEvaluateRequest (r : dap_Request) (variableName : string) : M unit :=
  s ← sess id;
  match ss_stop s with
  | None => newDAPErrorResponse r "invalid request" [] false
  | Some stop =>
      match stop_Find stop variableName with
      | None => newDAPErrorResponse r "unknown variable: {name}" [("name", variableName)] false
      | Some text => success r (BEvaluate text)
      end
  end.

Definition handleContinueRequest (r : dap_Request) : M unit :=
  modify (set_stop None) ;; ask Continue ;; success r BContinue.

Definition handleSourceRequest (r : dap_Request) (path : string) : M unit :=
  code ← st_get (pathCode path);
  if bool_decide (code = "")
  then newDAPErrorResponse r "unknown source: {path}" [("path", path)] false
  else success r (BSource code).

Definition handleStackTraceRequest (r : dap_Request) : M unit :=
  s ← sess id;
  match ss_stop s with
  | None => newDAPErrorResponse r "invalid request" [] false
  | Some stop => success r (BStackTrace (stackFrames s stop))
  end.

(** [len(s.stop.Interpreter.CallStack())] *)
Definition currentDepth : M Z :=
  s ← sess id;
  match ss_stop s with
  | None => st_fail nil_pointer
  | Some stop => mret (Z.of_nat (length (stop_CallStack stop)))
  end.

Definition handleStepOutRequest (r : dap_Request) : M unit :=
  depth ← currentDepth; modify (set_targetDepth (depth - 1)) ;; step ;; success r NoBody.
Definition handleStepInRequest (r : dap_Request) : M unit :=
  modify (set_targetDepth (-1)) ;; step ;; success r NoBody.
Definition handleNextRequest (r : dap_Request) : M unit :=
  depth ← currentDepth; modify (set_targetDepth depth) ;; step ;; success r NoBody.
Definition handlePauseRequest (r : dap_Request) : M unit := ask RequestPause ;; success r NoBody.
Definition handleThreadsRequest (r : dap_Request) : M unit := success r (BThreads [(1, "Emulator")]).

Definition handleConfigurationDoneRequest (r : dap_Request) : M unit :=
  modify (λ s, set_flags true (ss_launchRequested s) (ss_launched s) s) ;;
  s ← sess id;
  (if ss_launchRequested s && negb (ss_launched s) then run else mret ()) ;;
  success r NoBody.

Definition handleLaunchRequest (r : dap_Request) (program : program_arg) (stopOnEntry : bool) : M unit :=
  startDebugger ;;
  modify (set_targetDepth 1) ;;
  match program with
  | Missing => newDAPErrorResponse r "Missing program" [] true
  | NotAString => st_fail (Panic "interface conversion")
  | Program path =>
      let code := ReadFile path in
      modify (λ s, set_stopOnEntry stopOnEntry (set_program code path (FingerPrintID code) s)) ;;
      modify (λ s, set_flags (ss_configurationDone s) true (ss_launched s) s) ;;
      success r NoBody ;;
      s ← sess id;
      if ss_configurationDone s && negb (ss_launched s) then run else mret ()
  end.

Definition handleAttachRequest (r : dap_Request) : M unit :=
  modify (λ s, set_stopOnEntry false (set_targetDepth 1 s)) ;;
  startDebugger ;; run ;; success r NoBody.

Definition handleDisconnectRequest (r : dap_Request) : M unit :=
  ask Continue ;; on_chain EndDebugging ;;
  modify (λ s, set_flags false false (ss_launched s) s) ;;
  success r NoBody.

Definition handleSetBreakpointsRequest (r : dap_Request) (path : string) (lines : list Z) : M unit :=
  s ← sess id;
  let target := if bool_decide (path = Location_String (StringLocation (ss_scriptLocation s)))
                then ss_scriptID s else path in
  match pathLocation target with
  | Ok location =>
      ask (ClearBreakpointsForLocation location) ;;
      st_iter (λ line, ask (AddBreakpoint location (u64 line))) lines ;;
      success r (BBreakpoints ((λ _, path) <$> lines))
  | Err _ => newDAPErrorResponse r "cannot add breakpoints for path: {path}" [("path", target)] false
  end.

Definition handleInitialize (r : dap_Request) : M unit :=
  startDebugger ;; success r Capabilities ;; newDAPEvent "initialized" ENone.

Definition dispatchRequest (fuel : nat) (r : dap_Request) : M unit :=
  match rq_Arguments r with
  | AInitialize => handleInitialize r
  | ASetBreakpoints path lines => handleSetBreakpointsRequest r path lines
  | ADisconnect => handleDisconnectRequest r
  | AAttach => handleAttachRequest r
  | ALaunch program stopOnEntry => handleLaunchRequest r program stopOnEntry
  | AConfigurationDone => handleConfigurationDoneRequest r
  | AThreads => handleThreadsRequest r
  | APause => handlePauseRequest r
  | ANext => handleNextRequest r
  | AStepIn => handleStepInRequest r
  | AStepOut => handleStepOutRequest r
  | AStackTrace => handleStackTraceRequest r
  | ASource path => handleSourceRequest r path
  | AContinue => handleContinueRequest r
  | AEvaluate expression => handleEvaluateRequest r expression
  | AScopes => handleScopesRequest r
  | AVariables reference => handleVariablesRequest fuel r reference
  end.

(** ** A session *)

(** [handleConnection]: a new session on a chain.  Its loop starts a routine for
    each request, and these run in any order; when the client is gone, it waits
    for them and closes the queue, and after an error of the connection it
    closes the queue at once.  The routines of a program are not waited for. *)
Definition connect (b : Blockchain (S := S)) : dbg := mkDbg new_session b [] 0 0 [] [].
Definition set_pending (rs : list dap_Request) : M unit :=
  st_modify (λ d, mkDbg (d_session d) (d_chain d) (d_out d) (d_listeners d) (d_cancelled d) (d_scripts d) rs).

(** [handleRequest] *)
Definition handleRequest (r : dap_Request) : M unit :=
  rs ← st_get d_pending; set_pending (rs ++ [r])%list.
(** The routine of a request. *)
Definition runRequest (fuel i : nat) : M unit :=
  rs ← st_get d_pending;
  match rs !! i with
  | Some r => set_pending (delete i rs) ;; dispatchRequest fuel r
  | None => mret ()
  end.
Definition close_session : M unit := modify set_closed.

Inductive event :=
  | EReceive (r : dap_Request) | EDispatch (i : nat) | EClose | EAbort
  | EListen (received : option Stop) | EScript (i : nat).
Definition handle (fuel : nat) (e : event) : M unit :=
  match e with
  | EReceive r => handleRequest r
  | EDispatch i => runRequest fuel i
  | EClose | EAbort => close_session
  | EListen received => listen received
  | EScript i => scriptDone i
  end.

(** A turn of a listening routine needs one, the end of a script a routine that runs it. *)
Definition enabled (e : event) (d : dbg) : bool :=
  match e with
  | EReceive _ | EAbort => negb (ss_closed (d_session d))
  | EClose => negb (ss_closed (d_session d)) && bool_decide (length (d_pending d) = 0%nat)
  | EDispatch i => bool_decide (i < length (d_pending d))%nat
  | EListen _ => bool_decide (0 < d_listeners d)%nat
  | EScript i => bool_decide (i < length (d_scripts d))%nat
  end.
End session.
