(* ===== verification/DebuggerTheorems.v ===== *)
(** Theorems on the debugger's session on a chain, whatever was done to it before.

    The chain has no debugger, so a session has none, and every method that is
    called on it ends the process: what remains of the protocol is which requests
    are answered and which end the process, how a program is started, and what its
    end sends.  The functions that show values and frames are characterised on
    their own, as no session comes to a stop. *)
From S2P Require Import Prelude FlowTypes Errors Storage Report Convert Pragma Vm PendingBlock.
From S2P Require Import Blockchain Queries BlockchainCorrect Chain SourceFiles Emulator Lives DebuggerUnset Debugger.

Section debugger_theorems.
Context {FM : FlowModel} {CA : Cadence} {VM : VirtualMachine} {CK : Clocks} {CR : Crypto}
        {SG : Signing} {CP : CadenceParser} {KS : KindString} {GO : GoMapOrder}
        {AG : AddressGenerator} {SRC : SourceLibrary} {DL : DebugLibrary} {LT : LibraryTexts} {S : Type} `{!Store S} {OI : OptionalInterfaces S}.
Implicit Types d : dbg (S := S).

(** Runs the state monad on a state given by its fields. *)
Ltac run_session :=
  repeat (progress (unfold mbind, ST_bind, mret, ST_ret, st_get, st_modify, st_fail, sess, put, emit, send,
    modify, ask, on_chain, startDebugger, StartDebugger, EndDebugging, success, newDAPErrorResponse,
    newDAPEvent, Debugger.step, run, currentDepth); simpl).

(** ** Sessions *)

(** The invariant of a session on a chain without a debugger. *)
Record dbg_ok d : Prop := {
  do_chain : unset (d_chain d);
  do_debugger : ss_debugger (d_session d) = None;
  do_stop : ss_stop (d_session d) = None;
  do_idle : ss_launched (d_session d) = false → d_listeners d = 0%nat ∧ d_scripts d = [];
  do_launched : ss_launched (d_session d) = true → (0 < d_listeners d)%nat;
  do_flags : ss_launchRequested (d_session d) = true → ss_configurationDone (d_session d) = true →
    ss_launched (d_session d) = true
}.

Lemma connect_ok b : unset b → dbg_ok (connect b).
Proof. by split. Qed.

Definition with_out (os : list output) d : dbg :=
  mkDbg (d_session d) (d_chain d) (d_out d ++ os) (d_listeners d) (d_cancelled d) (d_scripts d) (d_pending d).

Lemma send_run m d : ss_closed (d_session d) = false → send m d = (Ok (), with_out [Sent m] d).
Proof. intros H. unfold send. rewrite (ST_bind_step _ _ d (ss_closed (d_session d)) d) by done. by rewrite H. Qed.

(** A method of the debugger that is not there. *)
Lemma ask_nil c d : ss_debugger (d_session d) = None → ask c d = (Err nil_pointer, d).
Proof. intros H. unfold ask. run_session. by rewrite H. Qed.

(** ** Storing variables *)

Definition with_vars (vars : gmap Z handle_value) (n : Z) d : dbg :=
  mkDbg (set_variables vars n (d_session d)) (d_chain d) (d_out d) (d_listeners d) (d_cancelled d) (d_scripts d) (d_pending d).

Lemma with_vars_same d vars :
  ss_variables (d_session d) = Some vars → with_vars vars (ss_variableHandleCounter (d_session d)) d = d.
Proof. destruct d as [[] ? ? ? ? ? ?]. simpl. by intros ->. Qed.

Lemma storeVariable_run d vars v :
  ss_variables (d_session d) = Some vars →
  let n := ss_variableHandleCounter (d_session d) + 1 in
  storeVariable v d = (Ok n, with_vars (<[n := v]> vars) n d).
Proof. destruct d as [[] ? ? ? ? ? ?]. simpl. by intros ->. Qed.

(** A variable shows a named value: its handle stands for the value. *)
Definition shows (vars : gmap Z handle_value) (p : string * cadence_Value) (v : dap_Variable) : Prop :=
  dv_Name v = p.1 ∧ dv_Value v = cadence_String p.2 ∧ dv_Type v = type_ID p.2 ∧
  if has_members p.2 then vars !! dv_VariablesReference v = Some (HValue p.2)
  else dv_VariablesReference v = 0.

(** The handles that were given out. *)
Definition handles (vs : list dap_Variable) : list Z :=
  filter (λ h, h ≠ 0) (dv_VariablesReference <$> vs).

Lemma convert_all_run l d vars :
  ss_variables (d_session d) = Some vars → 0 ≤ ss_variableHandleCounter (d_session d) →
  ∃ vs vars' n, convert_all l d = (Ok vs, with_vars vars' n d) ∧
    ss_variableHandleCounter (d_session d) ≤ n ≤ ss_variableHandleCounter (d_session d) + Z.of_nat (length l) ∧
    (∀ k, k ≤ ss_variableHandleCounter (d_session d) → vars' !! k = vars !! k) ∧
    Forall2 (shows vars') l vs ∧ NoDup (handles vs) ∧
    Forall (λ h, ss_variableHandleCounter (d_session d) < h ≤ n) (handles vs).
Proof.
  revert d vars. induction l as [|[name value] l IH]; intros d vars Hv Hc.
  - exists [], vars, (ss_variableHandleCounter (d_session d)). simpl.
    rewrite (with_vars_same d vars Hv). split; [done|]. split; [lia|]. by repeat split; try constructor.
  - cbn [convert_all]. unfold convertValueToDAPVariable. destruct (has_members value) eqn:Hm.
    + set (c := ss_variableHandleCounter (d_session d)) in *.
      rewrite (ST_bind_step _ _ d (mkVariable name (cadence_String value) (type_ID value) (c + 1))
                 (with_vars (<[c + 1 := HValue value]> vars) (c + 1) d))
        by (rewrite (ST_bind_step _ _ d (c + 1) _ (storeVariable_run d vars _ Hv)); done).
      destruct (IH (with_vars (<[c + 1 := HValue value]> vars) (c + 1) d) (<[c + 1 := HValue value]> vars))
        as (vs & vars' & n & Hrun & Hn & Hold & HF & Hnd & Hr); [done|simpl; lia|]. simpl in Hn, Hold, Hr.
      rewrite (ST_bind_step _ _ _ _ _ Hrun). eexists _, vars', n. split; [reflexivity|].
      split; [simpl; lia|]. split.
      { intros k Hk. rewrite Hold, lookup_insert_ne by lia. done. }
      split; [constructor; [|done]|].
      { unfold shows. simpl. rewrite Hm. split_and!; try done. by rewrite Hold, lookup_insert_eq by lia. }
      unfold handles in *. rewrite fmap_cons, filter_cons_True by (simpl; lia). split.
      * constructor; [|done]. intros Hin. rewrite list.Forall_forall in Hr. apply Hr in Hin. simpl in Hin. lia.
      * constructor; [simpl; lia|]. eapply list.Forall_impl; [exact Hr|]. intros h Hh. simpl in Hh. lia.
    + rewrite (ST_bind_step _ _ d (mkVariable name (cadence_String value) (type_ID value) 0) d) by done.
      destruct (IH d vars Hv Hc) as (vs & vars' & n & Hrun & Hn & Hold & HF & Hnd & Hr).
      rewrite (ST_bind_step _ _ _ _ _ Hrun). eexists _, vars', n. split; [reflexivity|].
      split; [simpl; lia|]. split; [done|]. split; [constructor; [|done]|].
      { unfold shows. simpl. by rewrite Hm. }
      unfold handles in *. rewrite fmap_cons, filter_cons_False by (simpl; lia). by split.
Qed.

(** A storage map is shown by its entries with a string for a key, in its order,
    provided that all its values can be exported; the others are exported too. *)
Lemma storage_map_run (entries : list (option string * cadence_Value)) d :
  convertStorageMapToDAPVariables ((λ p, (p.1, Ok p.2)) <$> entries) d =
  convert_all (omap (λ p, (λ name, (name, p.2)) <$> p.1) entries) d.
Proof.
  revert d; induction entries as [|[[name|] v] entries IH]; intros d; [done| |apply IH].
  cbn -[convertValueToDAPVariable]. unfold mbind, ST_bind, st_res, mret, ST_ret; simpl.
  destruct (convertValueToDAPVariable name v d) as [[x|e] d']; simpl; [|done].
  by rewrite IH.
Qed.
Lemma storage_map_panics entries key err rest d vars :
  ss_variables (d_session d) = Some vars → 0 ≤ ss_variableHandleCounter (d_session d) →
  (convertStorageMapToDAPVariables (((λ p, (p.1, Ok p.2)) <$> entries) ++ (key, Err err) :: rest) d).1 =
  Err (Panic (Error_text err)).
Proof.
  revert d vars; induction entries as [|[[name|] v] entries IH]; intros d vars Hv Hc; [done| |by eapply IH].
  destruct (convert_all_run [(name, v)] d vars Hv Hc) as (vs & vars' & n & Hrun & Hb).
  cbn -[convertValueToDAPVariable] in *. unfold mbind, ST_bind, st_res, mret, ST_ret in *; simpl in *.
  destruct (convertValueToDAPVariable name v d) as [[x|e] d']; simplify_eq/=.
  erewrite (surjective_pairing (convertStorageMapToDAPVariables _ _)).
  erewrite IH; [done|done|]. naive_solver lia.
Qed.

(** ** Requests *)

(** The requests that the responses among the outputs answer. *)
Definition responses (os : list output) : list (Z * string) :=
  omap (λ o, match o with
             | Sent (Response seq command _) | Sent (ErrorResponse seq command _ _ _) =>
                 Some (seq, command)
             | _ => None
             end) os.

Lemma responses_app os os' : responses (os ++ os') = responses os ++ responses os'.
Proof. apply omap_app. Qed.

Definition answered (r : dap_Request) d d' : Prop :=
  ∃ os, d_out d' = d_out d ++ os ∧ responses os = [(rq_Seq r, rq_Command r)].

(** The requests that end the process: those that call a method on the debugger or
    step from a stop, a launch whose program is no string, and the request that
    starts a program that is to stop on entry. *)
Definition breakpoint_path (path : string) (s : session) : string :=
  if bool_decide (path = Location_String (StringLocation (ss_scriptLocation s)))
  then ss_scriptID s else path.
Definition crashes (r : dap_Request) (s : session) : bool :=
  match rq_Arguments r with
  | APause | AContinue | ADisconnect | AStepIn | ANext | AStepOut => true
  | ASetBreakpoints path _ => is_Ok (pathLocation (breakpoint_path path s))
  | ALaunch NotAString _ => true
  | ALaunch (Program _) stopOnEntry => ss_configurationDone s && negb (ss_launched s) && stopOnEntry
  | AConfigurationDone => ss_launchRequested s && negb (ss_launched s) && ss_stopOnEntry s
  | _ => false
  end.

(** What a request does to the routines: a program is started by an attach, or
    when the launch and the end of the configuration have both been requested
    and none was started before. *)
Definition starts (r : dap_Request) d d' : Prop :=
  (d_scripts d' = d_scripts d ∧ d_listeners d' = d_listeners d ∧
   ss_launched (d_session d') = ss_launched (d_session d)) ∨
  ((rq_Arguments r = AAttach ∨
    ss_launched (d_session d) = false ∧ ss_launchRequested (d_session d') = true ∧
    ss_configurationDone (d_session d') = true) ∧
   ss_launched (d_session d') = true ∧ d_listeners d' = (d_listeners d + 1)%nat ∧
   d_scripts d' = d_scripts d ++ (if bool_decide (ss_code (d_session d') = ""%string) then []
                                  else [ss_code (d_session d')])).

Definition same_chain d d' : Prop :=
  b_storage (d_chain d') = b_storage (d_chain d) ∧
  b_pendingBlock (d_chain d') = b_pendingBlock (d_chain d).

Definition request_done (r : dap_Request) d d' : Prop :=
  answered r d d' ∧ starts r d d' ∧ (same_chain d d' ∧ d_pending d' = d_pending d) ∧ dbg_ok d'.

Definition panics {A} (m : ST error (dbg (S := S)) A) d : Prop := ∃ text d', m d = (Err (Panic text), d').

(** Closes a handler whose run is known: the fields of the state are given. *)
Ltac solve_done :=
  split; [eexists; split; [cbn; rewrite <- ?app_assoc; reflexivity|reflexivity]|];
  split; [first [by left; cbn; split_and! | by right; cbn; split_and!; auto; case_bool_decide; rewrite ?app_nil_r]|];
  split; [by split|]; split; cbn; intros; naive_solver (done || lia).
Ltac run_handler := eexists; split; [run_session; reflexivity|]; solve_done.
Ltac crash :=
  run_session; repeat match goal with H : b_debugger _ = None |- _ => rewrite H end; by eexists _, _.

Lemma breakpoints_cases r d path lines :
  dbg_ok d →
  if is_Ok (pathLocation (breakpoint_path path (d_session d))) || ss_closed (d_session d)
  then panics (handleSetBreakpointsRequest r path lines) d
  else ∃ d', handleSetBreakpointsRequest r path lines d = (Ok (), d') ∧ request_done r d d'.
Proof.
  intros Hok. unfold panics, handleSetBreakpointsRequest.
  rewrite (ST_bind_step _ _ d (d_session d) d) by done. cbn zeta. fold (breakpoint_path path (d_session d)).
  destruct (pathLocation _) as [location|e]; simpl.
  - eexists _, d. erewrite ST_bind_fail by (apply ask_nil; apply Hok). reflexivity.
  - destruct d as [[vars cnt dbgr stop code loc sid soe' cd lr la td cl] b out ls cs scs pd].
    destruct Hok as [H0 H1 H2 H3 H4 H5]. simpl in *. destruct cl; [crash|]. run_handler.
Qed.

(** A request is answered, or it ends the process: the latter when the queue is
    closed, or when the request is one of those that end it. *)
Lemma dispatch_cases fuel r d :
  dbg_ok d →
  if crashes r (d_session d) || ss_closed (d_session d)
  then panics (dispatchRequest fuel r) d
  else ∃ d', dispatchRequest fuel r d = (Ok (), d') ∧ request_done r d d'.
Proof.
  intros Hok. unfold crashes, dispatchRequest, panics.
  destruct (rq_Arguments r) as [|path lines| | |program soe| | | | | | | |path| |expr| |ref] eqn:Ha.
  2: { by apply breakpoints_cases. }
  all: destruct d as [[vars cnt dbgr stop code loc sid soe' cd lr la td cl] b out ls cs scs pd].
  all: destruct Hok as [H0 H1 H2 H3 H4 H5]; simpl in *; unfold unset in *; subst dbgr stop.
  all: unfold handleInitialize, handleDisconnectRequest, handleAttachRequest, handleLaunchRequest,
    handleConfigurationDoneRequest, handleThreadsRequest, handlePauseRequest, handleNextRequest,
    handleStepInRequest, handleStepOutRequest, handleStackTraceRequest, handleSourceRequest,
    handleContinueRequest, handleEvaluateRequest, handleScopesRequest, handleVariablesRequest.
  all: try (destruct cl; simpl; [crash|run_handler]).
  all: try crash.
  - destruct program as [| |path]; [destruct cl; simpl; [crash|run_handler]|crash|].
    destruct cd, la, soe, cl; simpl in *; crash || run_handler.
  - destruct lr, la, soe', cl; simpl in *; crash || run_handler.
  - run_session. case_bool_decide; (destruct cl; simpl; [crash|run_handler]).
Qed.

(** ** The routines *)

Lemma listen_nil received d : dbg_ok d → listen received d = (Err nil_pointer, d).
Proof. intros Hok. unfold listen. erewrite ST_bind_fail by (apply ask_nil; apply Hok). done. Qed.

Lemma script_same_chain code args b :
  b_storage (ExecuteScript (S := S) code args b).2 = b_storage b ∧
  b_pendingBlock (ExecuteScript (S := S) code args b).2 = b_pendingBlock b.
Proof.
  revert b. assert (∀ b0, keeps (λ b, b_storage b = b_storage b0 ∧ b_pendingBlock b = b_pendingBlock b0)
    (ExecuteScript (S := S) code args)) as H; [|intros b; by apply (H b)].
  intros b0. unfold ExecuteScript. apply keeps_bind; [apply keeps_read|intros blk]. apply script_keeps.
Qed.

Lemma ExecuteScript_unset code args : keeps unset (ExecuteScript (S := S) code args).
Proof. unfold ExecuteScript. apply keeps_bind; [apply keeps_read|intros blk]. apply script_unset. Qed.

(** The code of a routine, and the run of it. *)
Definition script_run (i : nat) d : res error ScriptResult * Blockchain :=
  ExecuteScript (bytes_of_string (default ""%string (d_scripts d !! i))) [] (d_chain d).

(** The state when the script of a routine has run, and what it then sends. *)
Definition after_script (i : nat) d : dbg :=
  mkDbg (d_session d) (script_run i d).2 (d_out d) (d_listeners d) (d_cancelled d + 1)
    (delete i (d_scripts d)) (d_pending d).
Definition script_events (category text : string) (code : Z) : list output :=
  [Sent (Event "output" (EOutput category text)); Sent (Event "exited" (EExited code));
   Sent (Event "terminated" ENone)].
Definition debugging_over d : dbg :=
  mkDbg (d_session d) (set_debugging false (d_chain d)) (d_out d) (d_listeners d) (d_cancelled d)
    (d_scripts d) (d_pending d).

Lemma scriptDone_run i d :
  let sent os := if ss_closed (d_session d) then (Err (Panic "send on closed channel"), after_script i d)
                 else (Ok (), debugging_over (with_out os (after_script i d))) in
  match (script_run i d).1 with
  | Err (Panic text) => (scriptDone i d).1 = Err (Panic text)
  | Err err => scriptDone i d = sent (script_events "stderr" (Error_text err) 1)
  | Ok result =>
      scriptDone i d = match scr_Value result with
                       | Some value => sent (script_events "stdout" (cadence_String value) 0)
                       | None => (Err nil_pointer, after_script i d)
                       end
  end.
Proof.
  destruct d as [[vars cnt dbgr stop code loc sid soe cd lr la td cl] b out ls cs scs pd].
  unfold scriptDone, after_script, with_out, debugging_over, script_events, script_run. run_session.
  destruct (ExecuteScript _ _ _) as [[result|err] b']; simpl.
  - destruct (scr_Value result); simpl; [|done]. destruct cl; simpl; rewrite <- ?app_assoc; done.
  - destruct err; simpl; try done; destruct cl; simpl; rewrite <- ?app_assoc; done.
Qed.

Lemma after_script_ok i d os :
  dbg_ok d → (i < length (d_scripts d))%nat →
  dbg_ok (debugging_over (with_out os (after_script i d))) ∧
  same_chain d (debugging_over (with_out os (after_script i d))).
Proof.
  intros [] Hi. split; [|by apply script_same_chain]. split; simpl; try done.
  - by apply ExecuteScript_unset.
  - intros Hl. destruct (do_idle0 Hl) as [_ Hs]. rewrite Hs in Hi. simpl in Hi. lia.
Qed.

Lemma scriptDone_Ok i d d' :
  scriptDone i d = (Ok (), d') →
  ∃ os, d' = debugging_over (with_out os (after_script i d)) ∧ responses os = [].
Proof.
  intros Hrun. pose proof (scriptDone_run i d) as H. cbn zeta in H. rewrite Hrun in H.
  destruct (script_run i d).1 as [result|err].
  - destruct (scr_Value result); [|done]. destruct (ss_closed _); [done|]. injection H as ->. by eexists.
  - destruct err; try done; destruct (ss_closed _); try done; injection H as ->; by eexists.
Qed.

(** ** Steps *)

(** The routine of a request that is pending. *)
Definition without (i : nat) d : dbg :=
  mkDbg (d_session d) (d_chain d) (d_out d) (d_listeners d) (d_cancelled d) (d_scripts d) (delete i (d_pending d)).

Lemma runRequest_cases fuel i r d :
  dbg_ok d → d_pending d !! i = Some r →
  match runRequest fuel i d with
  | (Ok _, d') => ss_closed (d_session d) = false ∧ crashes r (d_session d) = false ∧
                  request_done r (without i d) d'
  | (Err e, _) => (ss_closed (d_session d) = true ∨ crashes r (d_session d) = true) ∧ ∃ text, e = Panic text
  end.
Proof.
  intros Hok Hr. assert (runRequest fuel i d = dispatchRequest fuel r (without i d)) as ->.
  { unfold runRequest. rewrite (ST_bind_step _ _ d (d_pending d) d) by done. by rewrite Hr. }
  assert (dbg_ok (without i d)) as Hw by by destruct Hok.
  pose proof (dispatch_cases fuel r _ Hw) as Hc. change (d_session (without i d)) with (d_session d) in Hc.
  destruct (crashes r (d_session d)), (ss_closed (d_session d)); simpl in Hc;
    try (destruct Hc as (text & d' & ->); eauto).
  by destruct Hc as (d' & -> & Ha).
Qed.

(** What a step does to the requests: it receives one, answers one that was
    pending, or leaves them alone. *)
Definition requests_step (e : event) d d' : Prop :=
  match e with
  | EReceive r => d_pending d' = d_pending d ++ [r] ∧ d_out d' = d_out d
  | EDispatch i => ∃ r, d_pending d !! i = Some r ∧ d_pending d' = delete i (d_pending d) ∧ answered r d d'
  | _ => d_pending d' = d_pending d ∧ ∃ os, d_out d' = d_out d ++ os ∧ responses os = []
  end.

Lemma event_ok fuel e d d' :
  dbg_ok d → enabled e d = true → handle fuel e d = (Ok (), d') →
  dbg_ok d' ∧ same_chain d d' ∧ requests_step e d d'.
Proof.
  intros Hok He Hrun. destruct e as [r|i| | |received|i]; simpl in He, Hrun.
  - injection Hrun as <-. destruct Hok. by split; [split|].
  - apply bool_decide_eq_true in He. destruct (lookup_lt_is_Some_2 _ _ He) as [r Hr].
    pose proof (runRequest_cases fuel i r d Hok Hr) as Hc. rewrite Hrun in Hc.
    destruct Hc as (_ & _ & Ha & _ & (Hb & Hp) & Hk). split; [done|]. split; [done|]. by exists r.
  - injection Hrun as <-. destruct Hok. split; [by split|]. split; [done|]. split; [done|].
    exists []. by rewrite app_nil_r.
  - injection Hrun as <-. destruct Hok. split; [by split|]. split; [done|]. split; [done|].
    exists []. by rewrite app_nil_r.
  - by rewrite listen_nil in Hrun.
  - apply bool_decide_eq_true in He. destruct (scriptDone_Ok i d d' Hrun) as (os & -> & Hos).
    destruct (after_script_ok i d os Hok He) as [Hk Hs]. split; [done|]. split; [done|]. split; [done|].
    by exists os.
Qed.

(** ** Traces *)

(** The events of a session, in their order. *)
Inductive dbg_trace (fuel : nat) : list event → dbg (S := S) → dbg (S := S) → Prop :=
  | trace_nil d : dbg_trace fuel [] d d
  | trace_snoc es e d d1 d2 :
      dbg_trace fuel es d d1 → enabled e d1 = true → handle fuel e d1 = (Ok (), d2) →
      dbg_trace fuel (es ++ [e]) d d2.

Definition request_id (r : dap_Request) : Z * string := (rq_Seq r, rq_Command r).
Definition received (es : list event) : list (Z * string) :=
  omap (λ e, match e with EReceive r => Some (request_id r) | _ => None end) es.

Lemma session_ok fuel es b d :
  unset b → dbg_trace fuel es (connect b) d → dbg_ok d ∧ same_chain (connect b) d.
Proof.
  intros Hb Ht. remember (connect b) as d0. induction Ht as [|es e d0 d1 d2 Ht IH He Hrun].
  - subst. by split; [apply connect_ok|].
  - destruct (IH Heqd0) as [Hok [Hc1 Hc2]]. destruct (event_ok fuel e d1 d2 Hok He Hrun) as (Hok' & [Hc3 Hc4] & _).
    split; [done|]. split; congruence.
Qed.

Lemma trace_requests fuel es b d :
  unset b → dbg_trace fuel es (connect b) d →
  responses (d_out d) ++ (request_id <$> d_pending d) ≡ₚ received es.
Proof.
  intros Hb. remember (connect b) as d0. induction 1 as [|es e d0 d1 d2 Ht IH He Hrun]; [by subst|].
  specialize (IH Heqd0). subst d0. destruct (session_ok fuel es b d1 Hb Ht) as [Hok _].
  destruct (event_ok fuel e d1 d2 Hok He Hrun) as (_ & _ & Hreq).
  unfold received in *. rewrite omap_app, <- IH.
  destruct e as [r|i| | |rcv|i]; simpl in Hreq; simpl.
  2:{ destruct Hreq as (r & Hr & -> & os & -> & Hos). rewrite responses_app, Hos, app_nil_r, <- app_assoc.
      f_equiv. rewrite (delete_Permutation _ _ _ Hr) at 2. done. }
  1:{ destruct Hreq as [-> ->]. by rewrite fmap_app, app_assoc. }
  all: destruct Hreq as (-> & os & -> & Hos); by rewrite responses_app, Hos, !app_nil_r.
Qed.

Section on_a_chain.
(** The chain of the session: created on some store and operated on in any way. *)
Context (conf : config) (s : S) (w : World) (ws : nat → World) (os : list op).
Abbreviation chain := (made conf s w ws os).



(** Whatever a client of the debugger sends, and whatever program it runs, the
    store of the chain and its pending block stay as they were. *)
Theorem session_keeps_chain fuel es d :
  dbg_trace fuel es (connect chain) d →
  b_storage (d_chain d) = b_storage chain ∧ b_pendingBlock (d_chain d) = b_pendingBlock chain.
Proof. intros Ht. by destruct (session_ok fuel es chain d (made_unset conf s w ws os) Ht) as [_ ?]. Qed.

(** ** The end of a script *)

Lemma script_value code args b0 result :
  (ExecuteScript (S := S) code args b0).1 = Ok result → scr_Error result ≠ None → scr_Value result = None.
Proof.
  destruct (ExecuteScript code args b0) as [r b'] eqn:Hrun. simpl. intros ->.
  unfold ExecuteScript in Hrun. apply ST_bind_Ok in Hrun as (blk & s0 & _ & Hrun).
  unfold executeScriptAtBlockID in Hrun. cbn zeta in Hrun.
  repeat (apply ST_bind_Ok in Hrun as (? & ? & _ & Hrun)).
  injection Hrun as <- _. simpl. by destruct (po_Err _).
Qed.

(** A script with the pragma, in an active session, on a chain without a debugger. *)
Lemma script_pauses code args b0 blk blk' ledger :
  unset b0 → pauses (string_of_bytes code) b0 = true →
  getLatestBlock b0 = Ok blk → BlockByID (Block_ID blk) (b_storage b0) = Ok blk' →
  LedgerByHeight (Block_Height blk') (b_storage b0) = Ok ledger →
  (ExecuteScript code args b0).1 = Err nil_pointer.
Proof.
  intros Hu Hp H1 H2 H3. unfold ExecuteScript. erewrite ST_bind_step by (unfold st_read; by rewrite H1).
  unfold executeScriptAtBlockID. erewrite ST_bind_step by (unfold st_read; by rewrite H2).
  erewrite ST_bind_step by (unfold st_read; by rewrite H3). erewrite ST_bind_step by reflexivity. cbn zeta.
  erewrite ST_bind_fail; [reflexivity|]. rewrite start_run_cases, Hp. unfold unset in Hu. by rewrite Hu.
Qed.

(** C38 (error): when the program of a session has run, unless a listening routine
    has ended the process before, its output, its exit code and its end are sent
    in this order: the value with code 0, or the error that kept it from running
    with code 1.  The whole process ends instead when the client has gone by then,
    when the program fails with an error of its own, as it then has no value, and
    when the run panics; the run panics when the chain has an active debugging
    session and the program carries the debugger's pragma, as the pause is
    requested from a debugger that is [nil]. *)
Theorem program_outcome fuel es i d code :
  dbg_trace fuel es (connect chain) d → d_scripts d !! i = Some code →
  let run := ExecuteScript (bytes_of_string code) [] (d_chain d) in
  let sends os := if ss_closed (d_session d) then ∃ text, (scriptDone i d).1 = Err (Panic text)
                  else ∃ d', scriptDone i d = (Ok (), d') ∧ d_out d' = d_out d ++ os in
  match run.1 with
  | Err (Panic text) => (scriptDone i d).1 = Err (Panic text)
  | Err err => sends (script_events "stderr" (Error_text err) 1)
  | Ok result =>
      (scr_Error result ≠ None → (scriptDone i d).1 = Err nil_pointer) ∧
      ∀ value, scr_Value result = Some value → sends (script_events "stdout" (cadence_String value) 0)
  end ∧
  (pauses code (d_chain d) = true → ∀ blk blk' ledger, getLatestBlock (d_chain d) = Ok blk →
   BlockByID (Block_ID blk) (b_storage (d_chain d)) = Ok blk' →
   LedgerByHeight (Block_Height blk') (b_storage (d_chain d)) = Ok ledger →
   run.1 = Err nil_pointer).
Proof.
  intros Ht Hi. cbn zeta. destruct (session_ok fuel es chain d (made_unset conf s w ws os) Ht) as [Hok _]. split.
  - pose proof (scriptDone_run i d) as H. unfold script_run in H. rewrite Hi in H. simpl in H.
    pose proof (script_value (bytes_of_string code) [] (d_chain d)) as Hval.
    destruct (ExecuteScript _ _ _).1 as [result|err].
    + split; [intros He; by rewrite H, (Hval result)|]. intros value Hv. rewrite H, Hv.
      destruct (ss_closed _); by eexists.
    + destruct err; try done; rewrite H; destruct (ss_closed _); by eexists.
  - intros Hp blk blk' ledger. apply script_pauses; [apply Hok|by unfold string_of_bytes, bytes_of_string; rewrite String.string_of_list_byte_of_string].
Qed.
End on_a_chain.

(** ** Frames *)

Lemma frames_down_located s invocations i :
  (i ≤ length invocations)%nat →
  frames_down s i invocations =
  omap (λ inv, newStackFrame s (inv_Range inv) <$> inv_Location inv) (rev (take i invocations)).
Proof.
  induction i as [|i IH]; intros Hi; [done|]. cbn [frames_down].
  destruct (lookup_lt_is_Some_2 invocations i) as [inv Hinv]; [lia|]. rewrite Hinv.
  rewrite (take_S_r _ _ _ Hinv), rev_unit. rewrite IH by lia. simpl. by destruct (inv_Location inv).
Qed.

(** The frames of a stack trace are the statement of the stop,
    then the invocations that have a location, the innermost first. *)
Theorem stack_trace_innermost_first s stop :
  stackFrames s stop =
  newStackFrame s (stop_Statement stop) (stop_Location stop) ::
  omap (λ inv, newStackFrame s (inv_Range inv) <$> inv_Location inv) (rev (stop_CallStack stop)).
Proof. unfold stackFrames. by rewrite frames_down_located, firstn_all by done. Qed.
End debugger_theorems.
