(* ===== verification/DebugServer.v ===== *)
(** The server of the debugger, server/debugger/debugger.go: [Start] listens and
    waits, its routine accepts connections, each connection has a routine, and
    [Stop] may come from another routine at any time.

    The routines interleave: a state has the place of [Start], of [Stop] and of
    the accepting routine, and a label is one step of one of them, a section
    under the lock being one step.  [Stop] runs once ([sync.Once]).  An error
    that the logger takes for fatal ends the process. *)
From S2P Require Import Prelude.

(** A connection: whether it was added to [d.connections], whether its socket is
    open, and whether its routine has returned. *)
Record conn := mkConn { cn_registered : bool; cn_open : bool; cn_done : bool }.

Inductive start_pc :=
  | StartIdle
  | Listening
  | Registered (alreadyStopped : bool)
  | Waiting
  | Returned.
Inductive stop_pc := StopIdle | QuitClosed | Locked (l : bool) | ClosingConnections | Stopped.
Inductive serve_pc := NotServing | Accepting | Served.
#[global] Instance start_pc_eq_dec : EqDecision start_pc.
Proof. solve_decision. Defined.
#[global] Instance stop_pc_eq_dec : EqDecision stop_pc.
Proof. solve_decision. Defined.
#[global] Instance serve_pc_eq_dec : EqDecision serve_pc.
Proof. solve_decision. Defined.

Record DebugServer := mkDebugServer {
  (** Whether [d.listener] is set. *)
  ds_listener : bool;
  ds_stopped : bool;
  ds_quit : bool;
  ds_connections : list conn;
  (** The listening socket: none yet, or whether it is open. *)
  ds_socket : option bool;
  ds_start : start_pc;
  ds_stop : stop_pc;
  ds_serve : serve_pc;
  ds_crashed : bool
}.

(** [New] *)
Definition new_DebugServer : DebugServer :=
  mkDebugServer false false false [] None StartIdle StopIdle NotServing false.

Definition close_socket (s : option bool) : option bool := (λ _, false) <$> s.

(** ** Start *)

(** [net.Listen] *)
Definition start_listen (ok : bool) (d : DebugServer) : option DebugServer :=
  match ds_start d with
  | StartIdle =>
      Some (if ok
            then mkDebugServer (ds_listener d) (ds_stopped d) (ds_quit d) (ds_connections d) (Some true)
                   Listening (ds_stop d) (ds_serve d) (ds_crashed d)
            else mkDebugServer (ds_listener d) (ds_stopped d) (ds_quit d) (ds_connections d) (ds_socket d)
                   Returned (ds_stop d) (ds_serve d) (ds_crashed d))
  | _ => None
  end.

(** The section under the lock. *)
Definition start_register (d : DebugServer) : option DebugServer :=
  match ds_start d with
  | Listening =>
      Some (mkDebugServer true (ds_stopped d) (ds_quit d) (ds_connections d) (ds_socket d)
              (Registered (ds_stopped d)) (ds_stop d) (ds_serve d) (ds_crashed d))
  | _ => None
  end.

Definition start_check (d : DebugServer) : option DebugServer :=
  match ds_start d with
  | Registered true =>
      Some (mkDebugServer (ds_listener d) (ds_stopped d) (ds_quit d) (ds_connections d)
              (close_socket (ds_socket d)) Returned (ds_stop d) (ds_serve d) (ds_crashed d))
  | Registered false =>
      Some (mkDebugServer (ds_listener d) (ds_stopped d) (ds_quit d) (ds_connections d) (ds_socket d)
              Waiting (ds_stop d) Accepting (ds_crashed d))
  | _ => None
  end.

(** [d.wg.Wait()] returns and the listener is closed. *)
Definition start_return (d : DebugServer) : option DebugServer :=
  if bool_decide (ds_start d = Waiting) && bool_decide (ds_serve d = Served) && forallb cn_done (ds_connections d)
  then Some (mkDebugServer (ds_listener d) (ds_stopped d) (ds_quit d) (ds_connections d)
               (close_socket (ds_socket d)) Returned (ds_stop d) (ds_serve d) (ds_crashed d))
  else None.

(** ** serve and handleConnection *)

Definition set_connections (cs : list conn) (d : DebugServer) : DebugServer :=
  mkDebugServer (ds_listener d) (ds_stopped d) (ds_quit d) cs (ds_socket d) (ds_start d) (ds_stop d)
    (ds_serve d) (ds_crashed d).
Definition crash (d : DebugServer) : DebugServer :=
  mkDebugServer (ds_listener d) (ds_stopped d) (ds_quit d) (ds_connections d) (ds_socket d) (ds_start d)
    (ds_stop d) (ds_serve d) true.

(** [Accept] returns a connection. *)
Definition serve_accept (d : DebugServer) : option DebugServer :=
  if bool_decide (ds_serve d = Accepting) && bool_decide (ds_socket d = Some true)
  then Some (set_connections (ds_connections d ++ [mkConn false true false]) d) else None.

(** [Accept] returns an error. *)
Definition serve_error (d : DebugServer) : option DebugServer :=
  if bool_decide (ds_serve d = Accepting)
  then Some (if ds_quit d
             then mkDebugServer (ds_listener d) (ds_stopped d) (ds_quit d) (ds_connections d) (ds_socket d)
                    (ds_start d) (ds_stop d) Served (ds_crashed d)
             else crash d)
  else None.

Definition on_connection (i : nat) (f : conn → option conn) (d : DebugServer) : option DebugServer :=
  c ← ds_connections d !! i; c' ← f c; Some (set_connections (<[i := c']> (ds_connections d)) d).

(** [d.connections = append(d.connections, conn)] *)
Definition connection_register (i : nat) : DebugServer → option DebugServer :=
  on_connection i (λ c, if cn_registered c then None else Some (mkConn true (cn_open c) (cn_done c))).

(** The reading loop ends: at the end of the stream or at an error of the
    connection, which is then closed. *)
Definition connection_end (i : nat) : DebugServer → option DebugServer :=
  on_connection i (λ c, if cn_registered c && negb (cn_done c) then Some (mkConn true false true) else None).

(** Another error of the reading. *)
Definition connection_bad (i : nat) (d : DebugServer) : option DebugServer :=
  c ← ds_connections d !! i;
  if cn_registered c && cn_open c && negb (cn_done c) then Some (crash d) else None.

(** ** Stop *)

(** [close(d.quit)] *)
Definition stop_quit (d : DebugServer) : option DebugServer :=
  match ds_stop d with
  | StopIdle =>
      Some (mkDebugServer (ds_listener d) (ds_stopped d) true (ds_connections d) (ds_socket d) (ds_start d)
              QuitClosed (ds_serve d) (ds_crashed d))
  | _ => None
  end.

(** The section under the lock. *)
Definition stop_lock (d : DebugServer) : option DebugServer :=
  match ds_stop d with
  | QuitClosed =>
      Some (mkDebugServer (ds_listener d) true (ds_quit d) (ds_connections d) (ds_socket d) (ds_start d)
              (Locked (ds_listener d)) (ds_serve d) (ds_crashed d))
  | _ => None
  end.

Definition stop_close (d : DebugServer) : option DebugServer :=
  match ds_stop d with
  | Locked l =>
      Some (mkDebugServer (ds_listener d) (ds_stopped d) (ds_quit d) (ds_connections d)
              (if l then close_socket (ds_socket d) else ds_socket d) (ds_start d)
              ClosingConnections (ds_serve d) (ds_crashed d))
  | _ => None
  end.

(** The loop over [d.connections]. *)
Definition stop_connections (d : DebugServer) : option DebugServer :=
  match ds_stop d with
  | ClosingConnections =>
      Some (mkDebugServer (ds_listener d) (ds_stopped d) (ds_quit d)
              ((λ c, if cn_registered c then mkConn true false (cn_done c) else c) <$> ds_connections d)
              (ds_socket d) (ds_start d) Stopped (ds_serve d) (ds_crashed d))
  | _ => None
  end.

(** ** Steps *)

Inductive label :=
  | StartListen (ok : bool) | StartRegister | StartCheck | StartReturn
  | ServeAccept | ServeError
  | ConnectionRegister (i : nat) | ConnectionEnd (i : nat) | ConnectionBad (i : nat)
  | StopQuit | StopLock | StopClose | StopConnections.

Definition exec (l : label) (d : DebugServer) : option DebugServer :=
  if ds_crashed d then None else
  match l with
  | StartListen ok => start_listen ok d
  | StartRegister => start_register d
  | StartCheck => start_check d
  | StartReturn => start_return d
  | ServeAccept => serve_accept d
  | ServeError => serve_error d
  | ConnectionRegister i => connection_register i d
  | ConnectionEnd i => connection_end i d
  | ConnectionBad i => connection_bad i d
  | StopQuit => stop_quit d
  | StopLock => stop_lock d
  | StopClose => stop_close d
  | StopConnections => stop_connections d
  end.

Definition exec_all (ls : list label) (d : DebugServer) : option DebugServer :=
  foldl (λ r l, d ← r; exec l d) (Some d) ls.

Definition server_step (d d' : DebugServer) : Prop := ∃ l, exec l d = Some d'.
Definition server_reachable (d : DebugServer) : Prop := rtc server_step new_DebugServer d.

(** * Theorems *)

Definition quit_closed (t : stop_pc) : bool := match t with StopIdle => false | _ => true end.
Definition past_lock (t : stop_pc) : bool := match t with StopIdle | QuitClosed => false | _ => true end.

(** The places of [Start] and [Stop] that occur together, and the socket then: of
    the two the one that takes the lock second closes it. *)
Definition places_ok (s : start_pc) (t : stop_pc) (socket : option bool) : bool :=
  match s, t with
  | StartIdle, Locked true => false
  | StartIdle, _ => bool_decide (socket = None)
  | Listening, Locked true => false
  | Listening, _ => bool_decide (socket = Some true)
  | Registered true, (Locked false | ClosingConnections | Stopped) => bool_decide (socket = Some true)
  | Registered true, _ => false
  | (Registered false | Waiting), (StopIdle | QuitClosed | Locked true) => bool_decide (socket = Some true)
  | (Registered false | Waiting), Locked false => false
  | (Registered false | Waiting), (ClosingConnections | Stopped) => bool_decide (socket = Some false)
  | Returned, _ => bool_decide (socket ≠ Some true)
  end.
Definition serve_ok (s : start_pc) (v : serve_pc) : bool :=
  match s, v with
  | Waiting, NotServing => false
  | (Waiting | Returned), _ => true
  | _, NotServing => true
  | _, _ => false
  end.
Definition listener_ok (s : start_pc) (l : bool) : bool :=
  match s with StartIdle | Listening => negb l | Registered _ | Waiting => l | Returned => true end.

(** The invariant of the interleavings. *)
Definition server_inv (d : DebugServer) : bool :=
  bool_decide (ds_quit d = quit_closed (ds_stop d)) && bool_decide (ds_stopped d = past_lock (ds_stop d)) &&
  places_ok (ds_start d) (ds_stop d) (ds_socket d) && serve_ok (ds_start d) (ds_serve d) &&
  listener_ok (ds_start d) (ds_listener d) &&
  (negb (bool_decide (ds_start d = Returned ∧ ds_serve d = Accepting))).

Lemma server_inv_connections cs d : server_inv (set_connections cs d) = server_inv d.
Proof. done. Qed.

Lemma on_connection_inv i f d d' : on_connection i f d = Some d' → server_inv d' = server_inv d.
Proof.
  unfold on_connection. destruct (_ !! i) as [c|]; [|done]. simpl.
  destruct (f c); [|done]. simpl. by intros [= <-].
Qed.

Lemma exec_inv l d d' : server_inv d = true → exec l d = Some d' → server_inv d' = true.
Proof.
  unfold exec. destruct (ds_crashed d) eqn:Hc; [done|]. intros Hi He.
  destruct l as [ok| | | | | |i|i|i| | | |];
    try (unfold connection_bad in He; destruct (ds_connections d !! i); [|done]; simpl in He; case_match; [|done];
         injection He as <-; exact Hi);
    try (by rewrite (on_connection_inv _ _ _ _ He)).
  all: destruct d as [li st qu cs so sa sp se cr]; simpl in Hc; subst cr.
  all: destruct sa as [| |[]| |], sp as [| |[]| |], se; try discriminate Hi;
    destruct so as [[]|]; try discriminate Hi; destruct li, st, qu; try discriminate Hi;
    try discriminate He.
  all: unfold start_return in He; cbn in He; repeat case_match; try discriminate He; injection He as <-; reflexivity.
Qed.

Lemma server_reach_inv d : server_reachable d → server_inv d = true.
Proof.
  revert d. apply rtc_ind_r; [reflexivity|]. intros d d' _ [l Hl] Hi. by apply (exec_inv l d).
Qed.

(** C40 (safety): in every interleaving of [Start] and [Stop], once [Stop] is over
    and [Start] waits or has returned, no listening socket is left open; and the
    error that the accepting routine gets from a closed listener never ends the
    process. *)
Theorem stop_closes_listener d :
  server_reachable d →
  (ds_stop d = Stopped → ds_start d = Waiting ∨ ds_start d = Returned → ds_socket d ≠ Some true) ∧
  (ds_socket d = Some false → ∀ d', exec ServeError d = Some d' → ds_crashed d' = false).
Proof.
  intros Hi%server_reach_inv. destruct d as [li st qu cs so sa sp se cr]. split; simpl.
  - intros -> [-> | ->] ->; destruct li, st, qu, se; discriminate Hi.
  - intros -> d' He. unfold exec in He. simpl in He. destruct cr; [done|].
    unfold serve_error in He. simpl in He. case_bool_decide; [|done]. subst se.
    destruct qu; injection He as <-; [done|].
    destruct sa as [| |[]| |], sp as [| |[]| |], li, st; discriminate Hi.
Qed.

(** What the routines of the server do by themselves, without a client. *)
Definition own_step (d d' : DebugServer) : Prop :=
  ∃ l, l ∈ [StartRegister; StartCheck; ServeError; StartReturn] ∧ exec l d = Some d'.

Lemma own_steps ls d d' :
  Forall (λ l, l ∈ [StartRegister; StartCheck; ServeError; StartReturn]) ls →
  exec_all ls d = Some d' → rtc own_step d d'.
Proof.
  intros HF. revert d. induction HF as [|l ls Hl _ IH]; intros d He; [by injection He as <-|].
  unfold exec_all in He. simpl in He. destruct (exec l d) as [d1|] eqn:H1.
  - eapply rtc_l; [by exists l|]. by apply IH.
  - exfalso. clear -He. induction ls as [|l' ls IH]; [done|]. by apply IH.
Qed.

(** When [Stop] is over and the connections have ended, [Start]
    comes to its return by steps of the server alone, wherever it was, and the
    process goes on. *)
Theorem start_returns_after_stop d :
  server_reachable d → ds_crashed d = false → ds_stop d = Stopped → ds_start d ≠ StartIdle →
  forallb cn_done (ds_connections d) = true →
  ∃ d', rtc own_step d d' ∧ ds_start d' = Returned ∧ ds_crashed d' = false.
Proof.
  intros Hi%server_reach_inv Hc Ht Hs Hconns. destruct d as [li st qu cs so sa sp se cr]. simpl in *. subst cr sp.
  destruct qu; [|destruct st, li; discriminate Hi].
  destruct st; [|destruct sa as [| |[]| |], se, li; discriminate Hi].
  assert (∃ ls, Forall (λ l, l ∈ [StartRegister; StartCheck; ServeError; StartReturn]) ls ∧
    ∃ d', exec_all ls (mkDebugServer li true true cs so sa Stopped se false) = Some d' ∧
      ds_start d' = Returned ∧ ds_crashed d' = false) as (ls & HF & d' & He & Hr & Hd);
    [|exists d'; split; [by apply (own_steps ls)|done]].
  assert (∀ x, exec_all [StartReturn] (mkDebugServer li true true cs x Waiting Stopped Served false) =
    Some (mkDebugServer li true true cs (close_socket x) Returned Stopped Served false)) as Hret.
  { intros x. unfold exec_all, exec, start_return. simpl. by rewrite Hconns. }
  destruct sa as [| |[]| |]; try done.
  - exists [StartRegister; StartCheck]. split; [repeat constructor; set_solver|]. by eexists.
  - exists [StartCheck]. split; [repeat constructor; set_solver|]. by eexists.
  - exists [StartCheck; ServeError; StartReturn]. split; [repeat constructor; set_solver|].
    eexists. split; [exact (Hret so)|done].
  - destruct se; [destruct so as [[]|], li; discriminate Hi| |].
    + exists [ServeError; StartReturn]. split; [repeat constructor; set_solver|].
      eexists. split; [exact (Hret so)|done].
    + exists [StartReturn]. split; [repeat constructor; set_solver|]. eexists. split; [exact (Hret so)|done].
  - exists []. split; [constructor|]. by eexists.
Qed.

(** A connection that was accepted, and whose routine comes to add it to the list
    only after [Stop] went through it, stays open. *)
Example late_connection_stays_open :
  match exec_all [StartListen true; StartRegister; StartCheck; ServeAccept; StopQuit; StopLock; StopClose;
                  StopConnections; ConnectionRegister 0; ServeError] new_DebugServer with
  | Some d => ds_stop d = Stopped ∧ ds_connections d = [mkConn true true false] ∧ exec StartReturn d = None
  | None => False
  end.
Proof. vm_compute. done. Qed.
