(* ===== verification/Admin.v ===== *)
(** The HTTP API of the emulator: server/utils/emulator.go.

    A handler takes the request and gives the response (the status and what is
    encoded in the body) and the chain after it.  The router, the JSON and zip
    encoders and the writer are libraries: the encodings of these values do not
    fail, and the table of routes is the one that is registered.  The handlers
    of the coverage report and the computation profile are left out with the
    reports themselves. *)
From S2P Require Import Prelude FlowTypes Errors Storage Report Convert Pragma Vm PendingBlock.
From S2P Require Import Blockchain Queries SourceFiles Emulator.

Record BlockResponse := mkBlockResponse {
  br_Height : Z; br_BlockId : string; br_Context : string
}.
Inductive Body :=
  | NoBody
  | JBlock (r : BlockResponse)
  | JStrings (l : list string)
  | JServiceKey (key : string)
  | JReport (r : ComputationReport)
  | Zip (files : list (string * Bytes)).
Record Response := mkResponse { resp_Status : Z; resp_Body : Body }.

Definition StatusOK : Z := 200.
Definition StatusBadRequest : Z := 400.
Definition StatusNotFound : Z := 404.
Definition StatusConflict : Z := 409.
Definition StatusInternalServerError : Z := 500.
Definition ok (body : Body) : Response := mkResponse StatusOK body.
Definition fail_with (status : Z) : Response := mkResponse status NoBody.

(** A handler that panics: the connection is closed with no status. *)
Definition aborted : Response := mkResponse 0 NoBody.

(** The text of a key, and [flowgo.HexStringToIdentifier]. *)
Class AdminLibrary {CR : Crypto} := {
  PublicKey_String : PublicKey → string;
  HexStringToIdentifier : string → result Identifier
}.

(** [strconv.ParseUint(s, 10, 64)] *)
Definition ParseUint (s : string) : option Z :=
  let cs := bytes_of_string s in
  if bool_decide (cs = []) || negb (forallb is_digit cs) then None
  else n ← dec_value cs; if bool_decide (n < two64) then Some n else None.

(** The routes: a method, or any method, and a path. *)
Inductive endpoint :=
  | ECommitBlock | ERollback | ESnapshotCreate | ESnapshotList | ESnapshotJump | ELogs | EConfig
  | ECodeCoverage | EResetCodeCoverage | EComputationProfile | EResetComputationProfile
  | EComputationReport | EAllContractsZip.
Definition routes : list (option string * string * endpoint) :=
  [(None, "/emulator/newBlock", ECommitBlock);
   (Some "POST", "/emulator/rollback", ERollback);
   (Some "POST", "/emulator/snapshots", ESnapshotCreate);
   (Some "GET", "/emulator/snapshots", ESnapshotList);
   (Some "PUT", "/emulator/snapshots/{name}", ESnapshotJump);
   (Some "GET", "/emulator/logs/{id}", ELogs);
   (None, "/emulator/config", EConfig);
   (Some "GET", "/emulator/codeCoverage", ECodeCoverage);
   (Some "PUT", "/emulator/codeCoverage/reset", EResetCodeCoverage);
   (Some "GET", "/emulator/computationProfile", EComputationProfile);
   (Some "PUT", "/emulator/computationProfile/reset", EResetComputationProfile);
   (Some "GET", "/emulator/computationReport", EComputationReport);
   (Some "GET", "/emulator/allContracts", EAllContractsZip)]%string.

Module EmulatorAPIServer.
Section admin.
Context {FM : FlowModel} {CA : Cadence} {VM : VirtualMachine} {CK : Clocks} {CR : Crypto}
        {SG : Signing} {CP : CadenceParser} {KS : KindString} {GO : GoMapOrder}
        {AG : AddressGenerator} {SRC : SourceLibrary} {LO : Locations} {AL : AdminLibrary} {S : Type} `{!Store S} {OI : OptionalInterfaces S}.

Abbreviation handler := (Blockchain (S := S) → Response * Blockchain (S := S)).

(** A query or a state transformer with the status of its failure. *)
Definition query {A} (status : Z) (m : Blockchain (S := S) → result A) (k : A → handler) : handler :=
  λ b, match m b with Ok a => k a b | Err _ => (fail_with status, b) end.
Definition perform {A} (status : Z) (m : ST error (Blockchain (S := S)) A) (k : A → handler)
    : handler :=
  λ b, match m b with (Ok a, b') => k a b' | (Err _, b') => (fail_with status, b') end.
Definition respond (r : Response) : handler := λ b, (r, b).

Definition Config_handler : handler :=
  perform StatusInternalServerError currentServiceKey (λ k,
    match sk_PublicKey k with
    | Some key => respond (ok (JServiceKey (PublicKey_String key)))
    | None => respond aborted
    end).

Definition block_response (name : string) (block : Block) : Response :=
  ok (JBlock (mkBlockResponse (i64 (Block_Height block)) (show_id (Block_ID block)) name)).

Definition CommitBlock_handler (w : World) : handler :=
  perform StatusInternalServerError (commitBlock w) (λ _,
    query StatusInternalServerError Api.GetLatestBlock (λ block,
      respond (block_response "" block))).

Definition Rollback (height : string) (w : World) : handler :=
  if bool_decide (height = ""%string) then respond (fail_with StatusInternalServerError)
  else match ParseUint height with
       | None => respond (fail_with StatusInternalServerError)
       | Some h => perform StatusInternalServerError (RollbackToBlockHeight h w)
                     (λ _, respond (ok NoBody))
       end.

Definition SnapshotList : handler :=
  query StatusInternalServerError Snapshots (λ l, respond (ok (JStrings l))).

Definition latestBlockResponse (name : string) : handler :=
  query StatusInternalServerError Api.GetLatestBlock (λ block, respond (block_response name block)).

Definition SnapshotJump (name : string) (w : World) : handler :=
  query StatusInternalServerError Snapshots (λ l,
    if decide (name ∈ l)
    then perform StatusInternalServerError (LoadSnapshot name w)
           (λ _, latestBlockResponse name)
    else respond (fail_with StatusNotFound)).

Definition SnapshotCreate (name : string) (w : World) : handler :=
  if bool_decide (name = ""%string) then respond (fail_with StatusInternalServerError)
  else query StatusInternalServerError Snapshots (λ l,
    if decide (name ∈ l) then respond (fail_with StatusConflict)
    else perform StatusInternalServerError (CreateSnapshot name w)
           (λ _, latestBlockResponse name)).

Definition Logs (id : string) : handler := λ b,
  match HexStringToIdentifier id with
  | Err _ => (fail_with StatusBadRequest, b)
  | Ok identifier =>
      query StatusNotFound (GetLogs identifier) (λ logs, respond (ok (JStrings logs))) b
  end.

Definition ComputationReport_handler : handler := λ b, (ok (JReport (b_computationReport b)), b).

(** The loop over the account indexes from 1, which ends at the first account
    that is not found; [fuel] bounds its iterations. *)
Definition cadenceFileSuffix : string := ".cdc".
Fixpoint contract_files (fuel : nat) (accountIndex : Z) (b : Blockchain (S := S))
    : option (list (string * Bytes)) :=
  match fuel with
  | O => None
  | Datatypes.S fuel =>
      match Api.GetAccountByIndex accountIndex b with
      | Err _ => Some []
      | Ok account =>
          rest ← contract_files fuel (accountIndex + 1) b;
          Some (((λ q : string * Bytes,
                    (AddressLocation_ID (acc_Address account) q.1 +:+ cadenceFileSuffix, q.2))
                   <$> map_range (acc_Contracts account)) ++ rest)
      end
  end.
Definition AllContractsZip (fuel : nat) (b : Blockchain (S := S)) : option Response :=
  (λ files, ok (Zip files)) <$> contract_files fuel 1 b.
End admin.
End EmulatorAPIServer.
