(* ===== verification/Reports.v ===== *)
(** The reports of Cadence's runtime behind the HTTP API: the handles of the
    coverage report and of the computation profile (emulator/blockchain.go) and
    their handlers (server/utils/emulator.go).

    The reports belong to Cadence's runtime: what they hold, their reset and
    their export are parameters.  A handle may be [nil]; a panic in a handler
    closes the connection with no status. *)
From S2P Require Import Prelude FlowTypes Errors.
From S2P Require Import Storage Report Convert Pragma Vm PendingBlock Blockchain Queries Emulator Admin.
#[local] Open Scope string_scope.

Class RuntimeReports := {
  CoverageReport : Type;
  (** [json.Encode] of a handle. *)
  coverage_json : option CoverageReport → result string;
  (** [Reset] through a handle; an error is a panic. *)
  coverage_Reset : option CoverageReport → result (option CoverageReport);
  ComputationProfile : Type;
  profile_Reset : option ComputationProfile → result (option ComputationProfile);
  (** [runtime.NewPProfExporter(profile).Export()]: the file names of its functions. *)
  Export : ComputationProfile → result (list string);
  (** [pprofProfile.Write] *)
  pprof_Write : list string → result string
}.

Section reports.
Context {RR : RuntimeReports}.

(** The handles in the chain's configuration. *)
Record Handles := mkHandles {
  h_CoverageReport : option CoverageReport;
  h_ComputationProfile : option ComputationProfile
}.

(** The answer: a status, and a text when there is one. *)
Record report_response := mkReport { rr_Status : Z; rr_Text : option string }.
Definition report_failed (status : Z) : report_response := mkReport status None.
Definition report_aborted : report_response := mkReport 0 None.

(** The methods of the chain. *)
Definition ResetCoverageReport : ST error Handles unit := λ h,
  match coverage_Reset (h_CoverageReport h) with
  | Ok c => (Ok (), mkHandles c (h_ComputationProfile h))
  | Err e => (Err e, h)
  end.
Definition ResetComputationProfile : ST error Handles unit := λ h,
  match profile_Reset (h_ComputationProfile h) with
  | Ok p => (Ok (), mkHandles (h_CoverageReport h) p)
  | Err e => (Err e, h)
  end.

(** ** The handlers *)

Definition CodeCoverage (h : Handles) : report_response :=
  match coverage_json (h_CoverageReport h) with
  | Ok text => mkReport StatusOK (Some text)
  | Err _ => report_failed StatusInternalServerError
  end.
Definition ResetCodeCoverage_handler (h : Handles) : report_response * Handles :=
  match ResetCoverageReport h with
  | (Ok _, h') => (mkReport StatusOK None, h')
  | (Err _, h') => (report_aborted, h')
  end.

(** [strings.HasSuffix(name, ".cdc")], and the suffix put where it is missing. *)
Definition has_cadence_suffix (name : string) : bool :=
  let cs := bytes_of_string name in
  bool_decide (drop (length cs - 4) cs = bytes_of_string EmulatorAPIServer.cadenceFileSuffix).
Definition with_suffix (name : string) : string :=
  if has_cadence_suffix name then name else name +:+ EmulatorAPIServer.cadenceFileSuffix.

Definition ComputationProfile_handler (h : Handles) : report_response :=
  match h_ComputationProfile h with
  | None => report_failed StatusNotFound
  | Some profile =>
      match Export profile with
      | Err _ => report_failed StatusInternalServerError
      | Ok names => match pprof_Write (with_suffix <$> names) with
                    | Ok text => mkReport StatusOK (Some text)
                    | Err _ => report_failed StatusInternalServerError
                    end
      end
  end.
Definition ResetComputationProfile_handler (h : Handles) : report_response * Handles :=
  match ResetComputationProfile h with
  | (Ok _, h') => (mkReport StatusOK None, h')
  | (Err _, h') => (report_aborted, h')
  end.

(** * Theorems *)

Lemma suffix_app name : has_cadence_suffix (name +:+ EmulatorAPIServer.cadenceFileSuffix) = true.
Proof.
  unfold has_cadence_suffix. apply bool_decide_eq_true_2.
  rewrite bytes_of_string_app, length_app. replace (_ + _ - 4)%nat with (length (bytes_of_string name)) by (simpl; lia).
  apply drop_app_length.
Qed.

(** The names of an exported profile all end in the suffix, and a name that has it
    is left as it is: the handler can run over its own output. *)
Theorem profile_names_suffixed name :
  has_cadence_suffix (with_suffix name) = true ∧ with_suffix (with_suffix name) = with_suffix name.
Proof.
  assert (has_cadence_suffix (with_suffix name) = true) as H.
  { unfold with_suffix. destruct (has_cadence_suffix name) eqn:Hs; [done|apply suffix_app]. }
  split; [done|]. unfold with_suffix at 1. by rewrite H.
Qed.

(** A reset touches its own report only. *)
Lemma resets_are_separate h :
  h_ComputationProfile (ResetCodeCoverage_handler h).2 = h_ComputationProfile h ∧
  h_CoverageReport (ResetComputationProfile_handler h).2 = h_CoverageReport h.
Proof.
  unfold ResetCodeCoverage_handler, ResetComputationProfile_handler, ResetCoverageReport,
    ResetComputationProfile. split; repeat case_match; simplify_eq; done.
Qed.
End reports.
