(* ===== verification/LivenessCheck.v ===== *)
(** server/utils/liveness (check.go, collector.go) and server/utils/liveness.go:
    heartbeats, the probe that answers over HTTP, and the ticker of the server.

    Times are nanoseconds.  A check is shared between its routine and the
    collector: it is an index into the collector's list.  A method under the
    lock is one step.  [time.ParseDuration] is a parameter. *)
From S2P Require Import Prelude FlowTypes Errors Admin.

Class DurationParser := ParseDuration : string → option Z.

(** * Checks and their collector *)

Module liveness.

Record internalCheck := mkCheck { lastCheckIn : Z; check_defaultTolerance : Z }.

Definition CheckIn (now : Z) (c : internalCheck) : internalCheck :=
  mkCheck now (check_defaultTolerance c).

(** [lastCheckIn.Add(tolerance).After(now)] *)
Definition check_IsLive (tolerance now : Z) (c : internalCheck) : bool :=
  let tolerance := if bool_decide (tolerance = 0) then check_defaultTolerance c else tolerance in
  bool_decide (now < lastCheckIn c + tolerance).

Definition DefaultTolerance : Z := 30 * 1000000000.
Definition ToleranceHeader : string := "X-Liveness-Tolerance".

Record CheckCollector := mkCollector { defaultTolerance : Z; checks : list internalCheck }.

Definition NewCheckCollector (tolerance : Z) : CheckCollector :=
  mkCollector (if bool_decide (tolerance = 0) then DefaultTolerance else tolerance) [].

Definition Register (ck : internalCheck) (c : CheckCollector) : CheckCollector :=
  mkCollector (defaultTolerance c) (checks c ++ [ck]).
Definition NewCheck (now : Z) (c : CheckCollector) : nat * CheckCollector :=
  (length (checks c), Register (mkCheck now (defaultTolerance c)) c).

(** A routine checks in with its check. *)
Definition check_in (i : nat) (now : Z) (c : CheckCollector) : CheckCollector :=
  mkCollector (defaultTolerance c) (alter (CheckIn now) i (checks c)).

Definition IsLive (tolerance now : Z) (c : CheckCollector) : bool :=
  let tolerance := if bool_decide (tolerance = 0) then defaultTolerance c else tolerance in
  forallb (check_IsLive tolerance now) (checks c).

Definition StatusServiceUnavailable : Z := 503.

(** The status of the answer; [header] is empty when it is not set. *)
Definition ServeHTTP {DP : DurationParser} (header : string) (now : Z) (c : CheckCollector) : Z :=
  let answer tolerance := if IsLive tolerance now c then StatusOK else StatusServiceUnavailable in
  if bool_decide (header = ""%string) then answer (defaultTolerance c)
  else match ParseDuration header with
       | None => StatusBadRequest
       | Some tolerance => answer tolerance
       end.
End liveness.
Import liveness.

(** * The ticker of the server *)

Record LivenessTicker := mkLivenessTicker { lt_collector : CheckCollector; lt_period : Z }.

(** [time.NewTicker] panics when its period is not positive. *)
Definition NewLivenessTicker (tolerance : Z) : result LivenessTicker :=
  if bool_decide (Z.quot tolerance 2 ≤ 0) then Err (Panic "non-positive interval for NewTicker")
  else Ok (mkLivenessTicker (NewCheckCollector tolerance) (Z.quot tolerance 2)).

(** [Start] at a time, with the ticks that it receives before it is stopped. *)
Definition ticker_Start (start : Z) (ticks : list Z) (l : LivenessTicker) : LivenessTicker :=
  let (check, c) := NewCheck start (lt_collector l) in
  mkLivenessTicker (foldl (λ c now, check_in check now c) c ticks) (lt_period l).

Definition Handler {DP : DurationParser} (header : string) (now : Z) (l : LivenessTicker) : Z :=
  ServeHTTP header now (lt_collector l).

(** * What a probe reports *)

(** The operations on a collector, and the last heartbeat of every check. *)
Inductive heartbeat := HNew (now : Z) | HCheckIn (i : nat) (now : Z).
Definition beat (h : heartbeat) (c : CheckCollector) : CheckCollector :=
  match h with
  | HNew now => (NewCheck now c).2
  | HCheckIn i now => check_in i now c
  end.
Definition last_beats (hs : list heartbeat) : list Z :=
  foldl (λ l h, match h with HNew now => l ++ [now] | HCheckIn i now => <[i := now]> l end) [] hs.

Lemma beats_checks tolerance hs :
  let c := foldl (λ c h, beat h c) (NewCheckCollector tolerance) hs in
  defaultTolerance c = defaultTolerance (NewCheckCollector tolerance) ∧
  lastCheckIn <$> checks c = last_beats hs.
Proof.
  induction hs as [|h hs IH] using rev_ind; [done|]. unfold last_beats in *. rewrite !foldl_app.
  destruct IH as [H1 H2]. simpl in *. destruct h as [now|i now]; simpl; (split; [done|]).
  - by rewrite fmap_app, H2.
  - rewrite <- H2. apply list_eq. intros j. rewrite list_lookup_fmap.
    destruct (decide (i = j)) as [<-|Hne].
    + rewrite list_lookup_alter_eq. destruct (checks _ !! i) as [ck|] eqn:Hi; simpl.
      * symmetry. apply list_lookup_insert_eq. rewrite length_fmap. by eapply lookup_lt_Some.
      * symmetry. apply lookup_ge_None_2. rewrite length_insert, length_fmap. by apply lookup_ge_None_1.
    + by rewrite list_lookup_alter_ne, list_lookup_insert_ne, list_lookup_fmap.
Qed.

Section probe.
Context {DP : DurationParser}.

(** The tolerance a probe applies. *)
Definition applied_tolerance (default header : Z) : Z := if bool_decide (header = 0) then default else header.

Lemma IsLive_beats tolerance now c :
  defaultTolerance c ≠ 0 →
  IsLive tolerance now c = true ↔
  Forall (λ t, now < t + applied_tolerance (defaultTolerance c) tolerance) (lastCheckIn <$> checks c).
Proof.
  intros H0. unfold IsLive, applied_tolerance. rewrite forallb_forall, list.Forall_fmap, list.Forall_forall.
  set (d := if bool_decide (tolerance = 0) then defaultTolerance c else tolerance).
  assert (d ≠ 0) as Hd by (unfold d; by case_bool_decide).
  split; intros H ck Hck; specialize (H ck); rewrite list_elem_of_In in *; specialize (H Hck); revert H;
    unfold check_IsLive; rewrite (bool_decide_eq_false_2 (d = 0)) by done; simpl;
    by rewrite ?bool_decide_eq_true.
Qed.

(** (liveness/collector.go, ServeHTTP and IsLive; check.go): after any sequence
    of new checks and heartbeats, a probe answers 400 when its tolerance header
    is no duration, and otherwise 200 exactly when the last heartbeat of every
    check is less than the tolerance ago: the header's, or the collector's when
    there is none or it is zero, which is thirty seconds when it was created
    with zero. *)
Theorem probe_outcome tolerance hs header now :
  let c := foldl (λ c h, beat h c) (NewCheckCollector tolerance) hs in
  let own := if bool_decide (tolerance = 0) then DefaultTolerance else tolerance in
  let live d := Forall (λ t, now < t + applied_tolerance own d) (last_beats hs) in
  (header ≠ ""%string ∧ ParseDuration header = None ∧ ServeHTTP header now c = StatusBadRequest) ∨
  ∃ d, (header = ""%string ∧ d = own ∨ header ≠ ""%string ∧ ParseDuration header = Some d) ∧
    (live d → ServeHTTP header now c = StatusOK) ∧
    (~ live d → ServeHTTP header now c = StatusServiceUnavailable).
Proof.
  intros c own live. destruct (beats_checks tolerance hs) as [H1 H2]. fold c in H1, H2.
  change (defaultTolerance (NewCheckCollector tolerance)) with own in H1.
  assert (own ≠ 0) as H0 by (unfold own; by case_bool_decide).
  assert (∀ d, IsLive d now c = true ↔ live d) as Hlive.
  { intros d. rewrite IsLive_beats by congruence. by rewrite H1, H2. }
  assert (∀ d, (live d → (if IsLive d now c then StatusOK else StatusServiceUnavailable) = StatusOK) ∧
               (~ live d → (if IsLive d now c then StatusOK else StatusServiceUnavailable)
                            = StatusServiceUnavailable)) as Hans.
  { intros d. destruct (IsLive d now c) eqn:E; split; intros Hl; try done.
    - destruct Hl. by apply Hlive.
    - apply Hlive in Hl. congruence. }
  unfold ServeHTTP. case_bool_decide as Hh.
  - right. exists own. split; [by left|]. rewrite H1. apply Hans.
  - destruct (ParseDuration header) as [d|]; [|by left]. right. exists d. split; [by right|]. apply Hans.
Qed.

Lemma ticker_beats tolerance start ticks l :
  NewLivenessTicker tolerance = Ok l →
  lt_collector (ticker_Start start ticks l) =
  foldl (λ c h, beat h c) (NewCheckCollector tolerance) (HNew start :: (HCheckIn 0 <$> ticks)).
Proof.
  unfold NewLivenessTicker. case_bool_decide; [done|]. intros [= <-]. unfold ticker_Start. simpl.
  set (c := Register _ _). clearbody c. revert c. induction ticks as [|t ticks IH]; intros c; [done|].
  simpl. apply IH.
Qed.

Lemma ticker_last_beats start ticks :
  last_beats (HNew start :: (HCheckIn 0 <$> ticks)) = [default start (list.last ticks)].
Proof.
  unfold last_beats. simpl. induction ticks as [|t ticks IH] using rev_ind; [done|].
  rewrite fmap_app, foldl_app, IH, last_snoc. done.
Qed.

Lemma ticker_creation tolerance :
  match NewLivenessTicker tolerance with
  | Err _ => tolerance < 2
  | Ok l => 2 ≤ tolerance ∧ 0 < lt_period l < tolerance
  end.
Proof.
  unfold NewLivenessTicker. destruct (decide (2 ≤ tolerance)) as [Ht|Ht].
  - pose proof (Z.div_lt tolerance 2). pose proof (Z.div_le_mono 2 tolerance 2).
    change (2 / 2) with 1 in *. rewrite Z.quot_div_nonneg by lia.
    rewrite bool_decide_eq_false_2 by lia. simpl. lia.
  - pose proof (Z.quot_le_mono tolerance 1 2 ltac:(lia) ltac:(lia)) as Hq.
    change (Z.quot 1 2) with 0 in Hq. rewrite bool_decide_eq_true_2 by lia. lia.
Qed.

Lemma ticker_Handler tolerance start ticks now l :
  NewLivenessTicker tolerance = Ok l → 2 ≤ tolerance →
  Handler "" now (ticker_Start start ticks l) =
  if bool_decide (now < default start (list.last ticks) + tolerance) then StatusOK
  else StatusServiceUnavailable.
Proof.
  intros Hnew Ht. unfold Handler. rewrite (ticker_beats tolerance start ticks l Hnew).
  set (hs := HNew start :: _). destruct (beats_checks tolerance hs) as [H1 H2].
  assert (defaultTolerance (NewCheckCollector tolerance) = tolerance) as Hd.
  { unfold NewCheckCollector. simpl. by rewrite bool_decide_eq_false_2 by lia. }
  rewrite Hd in H1. set (c := foldl _ _ hs) in *. unfold ServeHTTP.
  rewrite bool_decide_eq_true_2 by done. rewrite H1.
  assert (IsLive tolerance now c = true ↔ now < default start (list.last ticks) + tolerance) as Hlive.
  { rewrite IsLive_beats by (rewrite H1; lia). rewrite H1, H2. unfold hs. rewrite ticker_last_beats.
    unfold applied_tolerance. rewrite bool_decide_eq_false_2 by lia.
    rewrite list.Forall_cons, list.Forall_nil. tauto. }
  case_bool_decide as Hb; [by rewrite (proj2 Hlive Hb)|].
  destruct (IsLive tolerance now c); [|done]. by destruct Hb; apply Hlive.
Qed.

(** (server/utils/liveness.go, NewLivenessTicker, Start, Handler): the ticker
    that could be created reports the server live, to a probe without a header,
    until the tolerance has passed since the last tick that its routine handled
    (or since its start), and not after that; its period is less than the
    tolerance, so that a probe is live as long as no tick is overdue.  A
    tolerance below two nanoseconds cannot be used: the creation panics. *)
Theorem liveness_ticker_reports tolerance start ticks now :
  match NewLivenessTicker tolerance with
  | Err e => tolerance < 2
  | Ok l =>
      let last := default start (list.last ticks) in
      let l' := ticker_Start start ticks l in
      Handler "" now l' = (if bool_decide (now < last + tolerance) then StatusOK
                           else StatusServiceUnavailable) ∧
      0 < lt_period l < tolerance ∧
      (now ≤ last + lt_period l → Handler "" now l' = StatusOK)
  end.
Proof.
  pose proof (ticker_creation tolerance) as Hc.
  destruct (NewLivenessTicker tolerance) as [l|e] eqn:Hl; [|done]. intros last l'.
  destruct Hc as [Ht Hp]. pose proof (ticker_Handler tolerance start ticks now l Hl Ht) as Hh.
  split; [done|]. split; [done|]. intros Hn. unfold l'. rewrite Hh.
  by rewrite bool_decide_eq_true_2 by (fold last; lia).
Qed.
End probe.
