(* ===== verification/Servers.v ===== *)
(** The servers around the chain: the sockets of the gRPC server (server/access/
    grpc.go), the REST server (server/access/rest.go) and the admin server
    (server/utils/admin.go), the routes and headers of the admin server, and
    [Listen], [Start] and [Stop] of the emulator server (server/server.go).

    The handlers behind the sockets are flow-go's and grpc-web's; serving ends
    when the server is stopped or with an error.  A group of routines
    (graceland) is the list of what is added to it. *)
From S2P Require Import Prelude FlowTypes Errors Storage Convert Vm Config ServerConfig.
#[local] Open Scope string_scope.

(** * Sockets *)

Abbreviation addr := (string * Z)%type.
(** Why the system refuses a free address, if it does. *)
Class Network := net_refuses : addr → option error.
Definition address_in_use : error := LibraryError "bind: address already in use".

Inductive kind := GRPC | REST | Admin.
Record listening := mkListening { ln_kind : kind; ln_addr : addr; ln_listener : bool }.

(** How [Serve] came to its end. *)
Inductive serve_end := ByStop | ByError (e : error).
Definition ErrServerClosed : error := LibraryError "http: Server closed".

Section sockets.
Context {NW : Network}.

(** [net.Listen], on the addresses that are bound. *)
Definition net_Listen (a : addr) : ST error (gset addr) unit := λ bound,
  if decide (a ∈ bound) then (Err address_in_use, bound)
  else match net_refuses a with Some e => (Err e, bound) | None => (Ok (), {[ a ]} ∪ bound) end.

(** [Listen]: the three servers have the same code for it. *)
Definition server_Listen (s : listening) (bound : gset addr) : result listening * gset addr :=
  match net_Listen (ln_addr s) bound with
  | (Ok _, bound') => (Ok (mkListening (ln_kind s) (ln_addr s) true), bound')
  | (Err e, bound') => (Err e, bound')
  end.
Definition grpc_Listen : listening → gset addr → result listening * gset addr := server_Listen.
Definition rest_Listen : listening → gset addr → result listening * gset addr := server_Listen.
Definition admin_Listen : listening → gset addr → result listening * gset addr := server_Listen.
Definition kind_Listen (s : listening) : gset addr → result listening * gset addr :=
  match ln_kind s with GRPC => grpc_Listen s | REST => rest_Listen s | Admin => admin_Listen s end.

(** What [Serve] returns: [http.Server] reports its closing, the gRPC server a
    graceful stop as [nil]. *)
Definition http_Serve (e : serve_end) : option error :=
  match e with ByStop => Some ErrServerClosed | ByError e => Some e end.
Definition grpc_Serve (e : serve_end) : option error :=
  match e with ByStop => None | ByError e => Some e end.

(** [Start]: a server that does not listen yet does so first, then it serves. *)
Definition start_with (listen : listening → gset addr → result listening * gset addr)
    (served : option error) (s : listening) (bound : gset addr) : option error * listening * gset addr :=
  if ln_listener s then (served, s, bound)
  else match listen s bound with
       | (Ok s', bound') => (served, s', bound')
       | (Err err, bound') => (Some err, s, bound')
       end.
Definition grpc_Start (e : serve_end) : listening → gset addr → option error * listening * gset addr :=
  start_with grpc_Listen (grpc_Serve e).
Definition rest_Start (e : serve_end) : listening → gset addr → option error * listening * gset addr :=
  start_with rest_Listen (http_Serve e).
Definition admin_Start (e : serve_end) : listening → gset addr → option error * listening * gset addr :=
  start_with admin_Listen
    (match http_Serve e with
     | Some err => if errors_Is err ErrServerClosed then None else Some err
     | None => None
     end).
Definition server_Start (s : listening) (e : serve_end) : gset addr → option error * listening * gset addr :=
  match ln_kind s with GRPC => grpc_Start e s | REST => rest_Start e s | Admin => admin_Start e s end.

(** [EmulatorServer.Listen]: the servers in their order, up to the first failure. *)
Fixpoint listen_all (l : list listening) (bound : gset addr) : option error * list listening * gset addr :=
  match l with
  | [] => (None, [], bound)
  | s :: l =>
      match kind_Listen s bound with
      | (Ok s', bound') => let '(e, l', b) := listen_all l bound' in (e, s' :: l', b)
      | (Err e, bound') => (Some e, s :: l, bound')
      end
  end.
End sockets.

Section emulator_server.
Context {CR : Crypto} {NW : Network}.

(** The three servers that [NewEmulatorServer] makes of a configuration. *)
Definition servers_of (c : Config) : list listening :=
  [mkListening GRPC (sc_Host c, sc_GRPCPort c) false; mkListening REST (sc_Host c, sc_RESTPort c) false;
   mkListening Admin (sc_Host c, sc_AdminPort c) false].
Definition Listen (l : list listening) : gset addr → option error * list listening * gset addr := listen_all l.
End emulator_server.

(** * The routes of the admin server *)

Definition LivenessPath : string := "/live".
Definition MetricsPath : string := "/metrics".
Definition EmulatorApiPath : string := "/emulator/".

Inductive admin_handler := HMetrics | HLiveness | HProxy | HApi.
#[global] Instance admin_handler_eq_dec : EqDecision admin_handler.
Proof. solve_decision. Defined.
Definition admin_mux : list (string * admin_handler) :=
  [(MetricsPath, HMetrics); (LivenessPath, HLiveness); ("/", HProxy); (EmulatorApiPath, HApi)].

(** [http.ServeMux]: a pattern that ends in a slash is a subtree, the longest
    pattern wins, and the root of a subtree without its slash is redirected. *)
Definition ends_in_slash (s : string) : bool := bool_decide (list.last (bytes_of_string s) = Some x2f%byte).
Definition pattern_matches (pattern path : string) : bool :=
  if ends_in_slash pattern then bool_decide (bytes_of_string pattern `prefix_of` bytes_of_string path)
  else bool_decide (pattern = path).
Definition longest (best : option (string * admin_handler)) (r : string * admin_handler) : option (string * admin_handler) :=
  match best with
  | Some b => if bool_decide (String.length b.1 < String.length r.1)%nat then Some r else best
  | None => Some r
  end.
Inductive mux_answer := Handle (h : admin_handler) | Redirect (path : string) | NoRoute.
Definition mux_serve (routes : list (string * admin_handler)) (path : string) : mux_answer :=
  match foldl longest None (filter (λ r, pattern_matches r.1 path = true) routes) with
  | Some (pattern, h) =>
      if bool_decide (pattern ≠ path) && negb (ends_in_slash path) && bool_decide (path +:+ "/" ∈ routes.*1)
      then Redirect (path +:+ "/") else Handle h
  | None => NoRoute
  end.

(** * Headers *)

(** [Header.Set]: the key is put into its canonical form. *)
Definition is_lower (c : byte) : bool := bool_decide (97 ≤ Z.of_N (Byte.to_N c) ≤ 122)%Z.
Definition is_upper (c : byte) : bool := bool_decide (65 ≤ Z.of_N (Byte.to_N c) ≤ 90)%Z.
Definition token_byte (c : byte) : bool :=
  is_lower c || is_upper c || is_digit c || bool_decide (c ∈ bytes_of_string "!#$%&'*+-.^_`|~").
Definition shift_byte (c : byte) (d : Z) : byte := default c (Byte.of_N (Z.to_N (Z.of_N (Byte.to_N c) + d)%Z)).
Fixpoint canonical (first : bool) (cs : list byte) : list byte :=
  match cs with
  | [] => []
  | c :: cs => (if first then if is_lower c then shift_byte c (-32)%Z else c
                else if is_upper c then shift_byte c 32%Z else c)
               :: canonical (bool_decide (c = x2d%byte)) cs
  end.
Definition CanonicalHeaderKey (key : string) : string :=
  let cs := bytes_of_string key in
  if forallb token_byte cs then string_of_bytes (canonical true cs) else key.

Definition setResponseHeaders (headers : list HTTPHeader) (h : gmap string string) : gmap string string :=
  foldl (λ h header, <[CanonicalHeaderKey (hh_Key header) := hh_Value header]> h) h headers.

(** The gRPC-Web proxy behind its headers; [proxy] is what grpc-web answers. *)
Definition wrappedHandler {A} (headers : list HTTPHeader) (proxy : gmap string string → A)
    (method : string) : gmap string string * option A :=
  let h := setResponseHeaders headers ∅ in
  if bool_decide (method = "OPTIONS") then (h, None) else (h, Some (proxy h)).

(** * Theorems *)

#[local] Open Scope list_scope.

Section socket_theorems.
Context {NW : Network}.

Definition opened (s : listening) : listening := mkListening (ln_kind s) (ln_addr s) true.
Definition addresses (l : list listening) : gset addr := list_to_set (ln_addr <$> l).

Lemma kind_Listen_same s : kind_Listen s = server_Listen s.
Proof. unfold kind_Listen. by destruct (ln_kind s). Qed.

(** Listening goes as far as it can and stops at the first address that is taken
    or refused; the sockets that were opened before stay open. *)
Theorem listen_outcome l bound :
  match listen_all l bound with
  | (None, l', b) => l' = opened <$> l ∧ b = addresses l ∪ bound ∧ NoDup (ln_addr <$> l) ∧
                     Forall (λ s, ln_addr s ∉ bound ∧ net_refuses (ln_addr s) = None) l
  | (Some e, l', b) => ∃ pre s post, l = pre ++ s :: post ∧ l' = (opened <$> pre) ++ s :: post ∧
                       b = addresses pre ∪ bound ∧
                       (ln_addr s ∈ b ∧ e = address_in_use ∨ net_refuses (ln_addr s) = Some e)
  end.
Proof.
  revert bound. induction l as [|s l IH]; intros bound; [simpl; split_and!; try done; [set_solver|constructor]|].
  simpl. rewrite kind_Listen_same. unfold server_Listen, net_Listen. destruct (decide (ln_addr s ∈ bound)) as [Hin|Hin].
  { exists [], s, l. split_and!; try done; [set_solver|by left]. }
  destruct (net_refuses (ln_addr s)) as [e|] eqn:Hr.
  { exists [], s, l. split_and!; try done; [set_solver|by right]. }
  specialize (IH ({[ ln_addr s ]} ∪ bound)). destruct (listen_all l _) as [[[e|] l'] b].
  - destruct IH as (pre & s' & post & -> & -> & -> & Hs). exists (s :: pre), s', post.
    split_and!; try done. unfold addresses. simpl. set_solver.
  - destruct IH as (-> & -> & Hnd & HF). rewrite list.Forall_forall in HF. split_and!.
    + done.
    + unfold addresses. simpl. set_solver.
    + constructor; [|done]. intros (s' & He & Hs')%list_elem_of_fmap. apply HF in Hs'. set_solver.
    + constructor; [done|]. apply list.Forall_forall. intros s' Hs'. apply HF in Hs'. set_solver.
Qed.

(** A server that listens already is started on its socket and opens no other; a
    stop is then a normal end for the gRPC and the admin server, and an error of
    the REST server. *)
Lemma start_after_listen s e bound :
  (server_Start (opened s) e bound).1.2 = opened s ∧ (server_Start (opened s) e bound).2 = bound ∧
  (server_Start (opened s) ByStop bound).1.1
    = match ln_kind s with REST => Some ErrServerClosed | _ => None end.
Proof. unfold server_Start. simpl. by destruct (ln_kind s). Qed.
End socket_theorems.

(** The ports of a configuration that names none are distinct, so that the server
    listens wherever the system lets it. *)
Theorem default_ports_listen {CR : Crypto} {CD : ConfigDefaults} {NW : Network} c :
  sc_GRPCPort c = 0%Z → sc_RESTPort c = 0%Z → sc_AdminPort c = 0%Z → (∀ a, net_refuses a = None) →
  (Listen (servers_of (sanitizeConfig c)) ∅).1.1 = None.
Proof.
  intros Hg Hr Ha Hnet. unfold Listen. pose proof (listen_outcome (servers_of (sanitizeConfig c)) ∅) as H.
  destruct (listen_all _ _) as [[[e|] l'] b]; [|done]. exfalso.
  destruct H as (pre & s & post & Hl & _ & -> & [[Hin _]|Hs]); [|by rewrite Hnet in Hs].
  assert (NoDup (ln_addr <$> pre ++ s :: post)) as Hnd.
  { rewrite <- Hl. unfold servers_of, sanitizeConfig. simpl. rewrite Hg, Hr, Ha. simpl.
    repeat constructor; set_unfold; naive_solver. }
  rewrite fmap_app in Hnd. apply list.NoDup_app in Hnd as (_ & Hd & _).
  rewrite union_empty_r_L in Hin. unfold addresses in Hin. rewrite elem_of_list_to_set in Hin.
  apply (Hd _ Hin). simpl. by left.
Qed.

(** ** Routes *)

Lemma slash_pattern path p : (path +:+ "/" = p +:+ "/")%string → path = p.
Proof.
  intros H. apply (inj bytes_of_string). apply (f_equal bytes_of_string) in H.
  rewrite !bytes_of_string_app in H. by apply app_inj_tail in H as [H _].
Qed.

Lemma no_slash_pattern path p :
  list.last (bytes_of_string p) ≠ Some x2f%byte → (path +:+ "/")%string ≠ p.
Proof. intros Hp <-. apply Hp. rewrite bytes_of_string_app. apply last_snoc. Qed.

(** The paths the admin server redirects. *)
Lemma redirected path : (path +:+ "/")%string ∈ admin_mux.*1 ↔ path = ""%string ∨ path = "/emulator"%string.
Proof.
  split.
  - simpl. rewrite !elem_of_cons, elem_of_nil. intros [H|[H|[H|[H|[]]]]].
    + exfalso. by apply (no_slash_pattern path MetricsPath) in H.
    + exfalso. by apply (no_slash_pattern path LivenessPath) in H.
    + left. by apply (slash_pattern path "").
    + right. by apply (slash_pattern path "/emulator").
  - intros [-> | ->]; simpl; set_solver.
Qed.

(** The metrics and the liveness probe have their own paths, everything under
    [/emulator/] goes to the API, [/emulator] is redirected there, and the other
    paths go to the gRPC proxy. *)
Theorem admin_routes path :
  bytes_of_string "/" `prefix_of` bytes_of_string path →
  mux_serve admin_mux path =
  if bool_decide (path = MetricsPath) then Handle HMetrics
  else if bool_decide (path = LivenessPath) then Handle HLiveness
  else if bool_decide (path = "/emulator"%string) then Redirect EmulatorApiPath
  else if bool_decide (bytes_of_string EmulatorApiPath `prefix_of` bytes_of_string path) then Handle HApi
  else Handle HProxy.
Proof.
  intros Hroot. do 3 (case_bool_decide; [subst; vm_compute; reflexivity|]).
  assert (pattern_matches MetricsPath path = false) as Hm by (by apply bool_decide_eq_false_2).
  assert (pattern_matches LivenessPath path = false) as Hl by (by apply bool_decide_eq_false_2).
  assert (pattern_matches "/" path = true) as Hp by (by apply bool_decide_eq_true_2).
  assert (pattern_matches EmulatorApiPath path =
    bool_decide (bytes_of_string EmulatorApiPath `prefix_of` bytes_of_string path)) as He by done.
  assert (bool_decide ((path +:+ "/")%string ∈ admin_mux.*1) = false) as Hred.
  { apply bool_decide_eq_false_2. rewrite redirected. intros [-> | ->]; [|done]. by destruct Hroot. }
  unfold mux_serve.
  assert (filter (λ r, pattern_matches r.1 path = true) admin_mux =
    if bool_decide (bytes_of_string EmulatorApiPath `prefix_of` bytes_of_string path)
    then [("/"%string, HProxy); (EmulatorApiPath, HApi)] else [("/"%string, HProxy)]) as ->.
  { unfold admin_mux. rewrite !filter_cons, filter_nil. simpl fst. rewrite Hm, Hl, Hp, He.
    by destruct (bool_decide _). }
  assert (foldl longest None [("/"%string, HProxy); (EmulatorApiPath, HApi)] = Some (EmulatorApiPath, HApi))
    as Hlong by done.
  destruct (bool_decide (bytes_of_string EmulatorApiPath `prefix_of` bytes_of_string path));
    [rewrite Hlong|cbn [foldl longest]]; by rewrite Hred, andb_false_r.
Qed.
