(* ===== verification/ServerSetup.v ===== *)
(** The construction of the servers around the chain: [NewGRPCServer]
    (server/access/grpc.go), [NewRestServer] and [UseMiddleware]
    (server/access/rest.go), [NewAdminServer] (server/utils/admin.go).

    What they call of flow-go, grpc and Prometheus is the class [AccessServers].
    A server is what is registered at it and where it is to listen; [Servers] is
    about its socket. *)
From S2P Require Import Prelude FlowTypes Errors Storage Convert Vm Config ServerConfig Servers.
#[local] Open Scope string_scope.

(** [backend.Config], with the fields that the servers set. *)
Record StreamConfig := mkStreamConfig {
  stc_RpcMetricsEnabled : bool;
  stc_MaxGlobalStreams : Z;
  stc_ClientSendTimeout : Duration;
  stc_ClientSendBufferSize : Z;
  stc_ResponseLimit : Z;
  stc_HeartbeatInterval : Z
}.

(** [rest.Config] *)
Record RestConfig := mkRestConfig {
  rc_ListenAddress : string;
  rc_WriteTimeout : Duration;
  rc_ReadTimeout : Duration;
  rc_IdleTimeout : Duration;
  rc_MaxRequestSize : Z;
  rc_MaxResponseSize : Z
}.

Class AccessServers := {
  (** [http.Handler] *)
  Handler : Type;
  Limiter : Type;
  (** [limiters.NewConcurrencyLimiter] *)
  NewConcurrencyLimiter : Z → result Limiter;
  RestMetrics : Type;
  NewNoopCollector : RestMetrics;
  NewRestCollector : result RestMetrics;
  (** [rest.NewServer], and the handler of the server it returns; whether the
      requests are logged is its third argument *)
  rest_NewServer : RestConfig → ChainID → bool → RestMetrics → StreamConfig → Limiter → result Handler;
  (** the defaults of flow-go's packages subscription, rest and rpc *)
  DefaultMaxGlobalStreams : Z;
  DefaultSendTimeout : Duration;
  DefaultSendBufferSize : Z;
  DefaultResponseLimit : Z;
  DefaultHeartbeatInterval : Z;
  DefaultWriteTimeout : Duration;
  DefaultReadTimeout : Duration;
  DefaultIdleTimeout : Duration;
  DefaultAccessMaxRequestSize : Z;
  DefaultAccessMaxResponseSize : Z
}.

(** The services that are registered at the gRPC server. *)
Inductive service := LegacyAccessAPI | AccessAPI | Reflection | ExecutionDataAPI.
#[global] Instance service_eq_dec : EqDecision service.
Proof. solve_decision. Defined.

Section setup.
Context {LT : LibraryTexts} {AS : AccessServers}.

Record GRPCServer := mkGRPCServer {
  gs_host : string;
  gs_port : Z;
  gs_services : list service;
  gs_streamConfig : StreamConfig
}.

(** The configuration of the streams, which the gRPC and the REST server share. *)
Definition streamConfig : StreamConfig :=
  mkStreamConfig false DefaultMaxGlobalStreams DefaultSendTimeout DefaultSendBufferSize
    DefaultResponseLimit DefaultHeartbeatInterval.

Definition NewGRPCServer (host : string) (port : Z) (debug : bool) : result GRPCServer :=
  _ ← map_err (λ err, Panic (Error_text err)) (NewConcurrencyLimiter DefaultMaxGlobalStreams);
  Ok (mkGRPCServer host port
        ([LegacyAccessAPI; AccessAPI] ++ (if debug then [Reflection] else []) ++ [ExecutionDataAPI])%list
        streamConfig).

(** The [http.Server] of the REST server is its handler. *)
Record RestServer := mkRestServer { rest_host : string; rest_port : Z; rest_server : option Handler }.

(** [flag.Lookup(..)] tells whether this is a test. *)
Definition NewRestServer (testing : bool) (chain : ChainID) (host : string) (port : Z) (debug : bool)
    : result RestServer :=
  restCollector ← (if testing then Ok NewNoopCollector else NewRestCollector);
  limiter ← NewConcurrencyLimiter DefaultMaxGlobalStreams;
  srv ← rest_NewServer
          (mkRestConfig (host +:+ ":3333") DefaultWriteTimeout DefaultReadTimeout DefaultIdleTimeout
             DefaultAccessMaxRequestSize DefaultAccessMaxResponseSize)
          chain debug restCollector streamConfig limiter;
  Ok (mkRestServer host port (Some srv)).

Definition UseMiddleware (middleware : Handler → Handler) (r : RestServer) : RestServer :=
  mkRestServer (rest_host r) (rest_port r) (middleware <$> rest_server r).

(** The admin server: its address and the routes of its mux. *)
Record HTTPServer := mkHTTPServer {
  http_host : string;
  http_port : Z;
  http_Addr : string;
  http_mux : list (string * admin_handler);
  http_headers : list HTTPHeader
}.
Definition NewAdminServer (host : string) (port : Z) (headers : list HTTPHeader) : HTTPServer :=
  mkHTTPServer host port (host +:+ ":" +:+ show_int port) admin_mux headers.

(** The sockets of the servers, in the order in which they are opened. *)
Definition sockets (g : GRPCServer) (r : RestServer) (h : HTTPServer) : list listening :=
  [mkListening GRPC (gs_host g, gs_port g) false; mkListening REST (rest_host r, rest_port r) false;
   mkListening Admin (http_host h, http_port h) false].
End setup.
