(* ===== verification/Server.v ===== *)
(** The emulator server's start: server/server.go, [NewEmulatorServer] with the
    accounts it creates and funds, and the order of its routines; and
    [NewCommonContracts] of emulator/contracts.go.

    What is only logged is left out.  The Go function returns [nil] where this
    one returns an error. *)
From S2P Require Import Prelude FlowTypes Errors Storage Report Convert Pragma Vm PendingBlock.
From S2P Require Import Blockchain Config ServerConfig Queries Emulator Access Sdk LivenessCheck.
From S2P Require Import Servers ServerSetup.
#[local] Open Scope string_scope.

(** What the start calls outside the emulator: the access node, the contract of
    flow-nft, the template environment of a chain, the arguments of the funding
    transaction. *)
Class ServerLibrary {CA : Cadence} := {
  (** The chain ID in the network parameters of the access node at a host. *)
  rpc_NetworkChainID : string → result ChainID;
  ExampleNFT : sdk_Address → sdk_Address → sdk_Address → Bytes;
  (** [env.FungibleTokenAddress] and [env.FlowTokenAddress] *)
  FungibleTokenAddress : ChainID → string;
  FlowTokenAddress : ChainID → string;
  cadence_Address : sdk_Address → cadence_Value;
  cadence_UFix64 : Z → cadence_Value
}.

Definition quoted (s : string) : string :=
  let q := String (Ascii.ascii_of_nat 34) EmptyString in q +:+ s +:+ q.

(** The code of the funding transaction. *)
Definition fund_code (fungibleToken flowToken : string) : string :=
  "
                import FungibleToken from 0x" +:+ fungibleToken +:+ "
                import FlowToken from 0x" +:+ flowToken +:+ "

                transaction(recipient: Address, amount: UFix64) {
                    prepare(acct: auth(Storage, Capabilities, FungibleToken.Withdraw) &Account) {
                        let adminRef = acct.storage.borrow<&FlowToken.Administrator>(from: /storage/flowTokenAdmin)
                            ?? panic(" +:+ quoted "missing FlowToken admin" +:+ ")
                        let minter <- adminRef.createNewMinter(allowedAmount: amount)
                        let minted <- minter.mintTokens(amount: amount)
                        let receiver = getAccount(recipient).capabilities.get<&{FungibleToken.Receiver}>(/public/flowTokenReceiver)!
                            .borrow()
                            ?? panic(" +:+ quoted "missing FlowToken receiver" +:+ ")
                        receiver.deposit(from: <-minted)
                        destroy minter
                    }
                }
            ".

(** The routines of the server, in the order of a group. *)
Inductive routine :=
  | RBlocks (blockTime : Duration) | RLiveness | RGrpc | RRest | RAdmin | RDebugger | RStorage.

Section server.
Context {FM : FlowModel} {CA : Cadence} {VM : VirtualMachine} {CK : Clocks} {CR : Crypto}
        {SG : Signing} {CP : CadenceParser} {KS : KindString} {GO : GoMapOrder}
        {CD : ConfigDefaults} {LT : LibraryTexts} {AC : AccessCodecs} {SK : SdkLibrary}
        {SV : ServerLibrary} {AS : AccessServers} {S : Type} `{!Store S} {OI : OptionalInterfaces S} {SU : StorageUtil S}.

Record EmulatorServer := mkServer {
  srv_config : Config;
  srv_emulator : Blockchain (S := S);
  srv_liveness : LivenessTicker;
  (** The blocks ticker, when there is one. *)
  srv_blocks : option Duration;
  srv_grpc : GRPCServer;
  srv_rest : RestServer;
  srv_admin : HTTPServer
}.

(** The worlds of the calls that make blocks: the creation, its contracts, the
    reference block of a fork, the common contracts, and the four of each
    account. *)
Record Worlds := mkWorlds {
  w_new : World;
  w_contracts : nat → World;
  w_fork : World;
  w_common : nat → World;
  w_account : nat → nat → World
}.

Definition NewCommonContracts (chain : ChainID) : list ContractDescription :=
  let serviceAddress := ServiceAddress chain in
  [mkContractDescription "ExampleNFT" serviceAddress "Example NFT contract"
     (ExampleNFT serviceAddress serviceAddress serviceAddress)].

(** An error is logged; a panic is not an error. *)
Definition logged (m : ST error (Blockchain (S := S)) unit) : ST error (Blockchain (S := S)) unit :=
  λ b, match m b with
       | (Err (Panic text), b') => (Err (Panic text), b')
       | (_, b') => (Ok (), b')
       end.

(** ** The accounts *)

Definition last_succeeded (results : list TransactionResult) : result TransactionResult :=
  match list.last results with
  | None => Err (Errorf "Failed to execute transaction")
  | Some r => if tr_Error r then Err (Errorf "Failed to execute transaction") else Ok r
  end.

(** The first account-created event with an address. *)
Definition new_address (events : list sdk_Event) : result sdk_Address :=
  match head (omap (λ ev, if decide (sev_Type ev = EventAccountCreated)
                          then SearchFieldByName (sev_Value ev) AccountEventAddressParameter ≫= as_Address
                          else None) events) with
  | None => Err (Errorf "Could not determine new account address from events")
  | Some a => if decide (a = vreplicate 8 x00%byte)
              then Err (Errorf "Could not determine new account address from events") else Ok a
  end.

Definition fundAmount : string := "1000.0".

Definition fund_transaction (chain : ChainID) (serviceKey : ServiceKey) (latestBlock : Block)
    (arguments : list Bytes) : sdk_Transaction :=
  mkSdkTransaction (Block_ID latestBlock)
    (bytes_of_string (fund_code (FungibleTokenAddress chain) (FlowTokenAddress chain)))
    arguments DefaultMaxTransactionGasLimit
    (mkSdkProposalKey (sk_Address serviceKey) (sk_Index serviceKey) (sk_SequenceNumber serviceKey))
    (sk_Address serviceKey) [sk_Address serviceKey] [] [].

(** A transaction of the service account, on a block of its own. *)
Definition submit (tx : sdk_Transaction) (w1 w2 : World)
    : ST error (Blockchain (S := S)) TransactionResult :=
  addTransaction (SDKTransactionToFlow tx) ;;
  done ← executeAndCommitBlock w1;
  last ← st_res (last_succeeded done.2);
  _ ← commitBlock w2;
  mret last.

Definition create_account (ws : nat → World) : ST error (Blockchain (S := S)) sdk_Address :=
  latestBlock ← st_read getLatestBlock;
  serviceKey ← currentServiceKey;
  key ← st_res (of_option (Panic "nil public key") (AccountKey serviceKey));
  template ← st_res (templates_CreateAccount [key] [] (sk_Address serviceKey));
  createTx ← st_res (SignEnvelope serviceKey
                       (SDKAdapter.service_transaction serviceKey latestBlock template));
  last ← submit createTx (ws 0%nat) (ws 1%nat);
  st_res (new_address (tr_Events last)).

Definition fund_account (ws : nat → World) (newAddr : sdk_Address)
    : ST error (Blockchain (S := S)) unit :=
  chain ← st_get (λ b, ctx_Chain (b_vmCtx b));
  latestBlock ← st_read getLatestBlock;
  fundVal ← st_res (cadence_NewUFix64 fundAmount);
  serviceKey ← currentServiceKey;
  recipient ← st_res (jsoncdc_Encode (Some (cadence_Address newAddr)));
  amount ← st_res (jsoncdc_Encode (Some (cadence_UFix64 fundVal)));
  fundTx ← st_res (SignEnvelope serviceKey
                     (fund_transaction chain serviceKey latestBlock [recipient; amount]));
  submit fundTx (ws 2%nat) (ws 3%nat) ;;
  mret ().

(** One iteration: an error leaves the account out. *)
Definition precreate_one (ws : nat → World) : ST error (Blockchain (S := S)) (option sdk_Address) :=
  λ b, match (newAddr ← create_account ws; fund_account ws newAddr ;; mret newAddr) b with
       | (Ok a, b') => (Ok (Some a), b')
       | (Err (Panic text), b') => (Err (Panic text), b')
       | (Err _, b') => (Ok None, b')
       end.
Fixpoint precreate (n : nat) (ws : nat → nat → World)
    : ST error (Blockchain (S := S)) (list sdk_Address) :=
  match n with
  | O => mret []
  | Datatypes.S n =>
      a ← precreate_one (ws 0%nat);
      created ← precreate n (λ i, ws (Datatypes.S i));
      mret (match a with Some a => a :: created | None => created end)
  end.

(** The private key is printed; there has to be one. *)
Definition precreate_accounts (numAccounts : Z) (ws : nat → nat → World)
    : ST error (Blockchain (S := S)) unit :=
  if bool_decide (0 < numAccounts)
  then serviceKey ← currentServiceKey;
       _ ← st_res (of_option (Panic "nil private key") (sk_PrivateKey serviceKey));
       created ← precreate (Z.to_nat numAccounts) ws;
       match created with
       | [] => st_fail (Errorf "Failed to create any accounts")
       | _ => mret ()
       end
  else mret ().

(** ** The server *)

Definition DetectRemoteChainID (url : string) : result ChainID := rpc_NetworkChainID url.

Definition configureBlockchain (chainID : ChainID) (conf : Config) (store : S) (ws : Worlds)
    : result (Blockchain (S := S)) :=
  c ← chain_config chainID conf;
  match New c store (w_new ws) (w_contracts ws) with
  | (Ok _, b) => Ok b
  | (Err err, _) => Err err
  end.

(** What is done to the new chain before the server is returned, with the
    ticker and the servers that are made on the way. *)
Definition prepare_chain (conf : Config) (ws : Worlds)
    : ST error (Blockchain (S := S)) (LivenessTicker * GRPCServer * RestServer) :=
  (if nonempty (sc_ForkHost conf) then _ ← executeAndCommitBlock (w_fork ws); mret () else mret ()) ;;
  chain ← st_get (λ b, ctx_Chain (b_vmCtx b));
  (if sc_WithContracts conf
   then logged (DeployContracts (imap (λ i c, (c, w_common ws i)) (NewCommonContracts chain)))
   else mret ()) ;;
  precreate_accounts (sc_NumAccounts conf) (w_account ws) ;;
  livenessTicker ← st_res (NewLivenessTicker (sc_LivenessCheckTolerance conf));
  grpcServer ← st_res (NewGRPCServer (sc_Host conf) (sc_GRPCPort conf) (sc_GRPCDebug conf));
  restServer ← st_res (NewRestServer false chain (sc_Host conf) (sc_RESTPort conf) (sc_RESTDebug conf));
  (if bool_decide (0 < sc_BlockTime conf) then DisableAutoMine else EnableAutoMine) ;;
  mret (livenessTicker, grpcServer, restServer).

Definition NewEmulatorServer (conf : Config) (ws : Worlds) : result EmulatorServer :=
  let conf := sanitizeConfig conf in
  store ← configureStorage conf;
  chainID ← (if nonempty (sc_ForkHost conf) && bool_decide (sc_ChainID conf = "")
             then DetectRemoteChainID (sc_ForkHost conf) else Ok (sc_ChainID conf));
  b ← configureBlockchain chainID conf store ws;
  match prepare_chain conf ws b with
  | (Err err, _) => Err err
  | (Ok (livenessTicker, grpcServer, restServer), b') =>
      Ok (mkServer conf b' livenessTicker
            (if bool_decide (0 < sc_BlockTime conf) then Some (sc_BlockTime conf) else None)
            grpcServer restServer
            (NewAdminServer (sc_Host conf) (sc_AdminPort conf) (default [] (sc_HTTPHeaders conf))))
  end.

Definition UseRestMiddleware (middleware : Handler → Handler) (s : EmulatorServer) : EmulatorServer :=
  mkServer (srv_config s) (srv_emulator s) (srv_liveness s) (srv_blocks s) (srv_grpc s)
    (UseMiddleware middleware (srv_rest s)) (srv_admin s).

(** The servers that [Listen] opens, in its order. *)
Definition listeners (s : EmulatorServer) : list listening :=
  sockets (srv_grpc s) (srv_rest s) (srv_admin s).

Definition AddToGroup (s : EmulatorServer) : list routine :=
  let blocks := match srv_blocks s with Some t => [RBlocks t] | None => [] end in
  blocks ++ [RLiveness; RGrpc; RRest; RAdmin; RDebugger] ++ blocks ++ [RStorage].

(** What the server does with its group of routines, in its order. *)
Inductive group_action := GAdd (r : routine) | GStart | GStop.
Definition Stop (group : option (list routine)) : list group_action :=
  match group with None => [] | Some _ => [GStop] end.
(** The group after it, and what was done; [group.Start] returns when the routines
    have ended, and its error is only logged. *)
Definition Start (s : EmulatorServer) (group : option (list routine)) : list routine * list group_action :=
  let group' := AddToGroup s in
  (group', (Stop group ++ (GAdd <$> group') ++ [GStart] ++ Stop (Some group'))%list).

(** [BlocksTicker.Start]: what its two channels deliver, up to the end. *)
Inductive ticker_event := Tick (w : World) | Done.
Fixpoint blocks_Start (es : list ticker_event) (b : Blockchain (S := S)) : Blockchain :=
  match es with
  | [] | Done :: _ => b
  | Tick w :: es => blocks_Start es (tick w b)
  end.

(** Every start stops the group that ran before, starts the storage last, so that
    it is also stopped last, and stops its own group when it is over. *)
Lemma start_order s group :
  ∃ routines, (Start s group).1 = (routines ++ [RStorage])%list ∧ RStorage ∉ routines ∧
    (Start s group).2 = (Stop group ++ (GAdd <$> routines) ++ [GAdd RStorage; GStart; GStop])%list.
Proof.
  unfold Start, AddToGroup. simpl. set (blocks := match srv_blocks s with Some t => [RBlocks t] | None => [] end).
  exists (blocks ++ [RLiveness; RGrpc; RRest; RAdmin; RDebugger] ++ blocks)%list. split_and!.
  - by rewrite <- !app_assoc.
  - subst blocks. destruct (srv_blocks s); set_unfold; naive_solver.
  - rewrite !fmap_app, <- !app_assoc. simpl. by destruct (srv_blocks s).
Qed.
End server.
