(* ===== verification/AdminTheorems.v ===== *)
(** The HTTP API over a chain on a SQLite store: snapshots bring back the chain,
    and what a rollback does to a store that was opened again or whose snapshot
    was loaded. *)
From S2P Require Import Prelude FlowTypes Errors Storage Keys DefaultStore DefaultStoreCorrect.
From S2P Require Import Sqlite SqliteCorrect Report Convert Pragma Vm PendingBlock Blockchain Queries.
From S2P Require Import BlockchainCorrect Chain Composition SourceFiles Emulator Admin.
Import EmulatorAPIServer Sqlite.

Section admin_theorems.
Context {FM : FlowModel} {CD : Codecs} {CA : Cadence} {VM : VirtualMachine} {CK : Clocks}
        {CR : Crypto} {SG : Signing} {CP : CadenceParser} {KS : KindString} {GO : GoMapOrder}
        {AG : AddressGenerator} {SRC : SourceLibrary} {LO : Locations} {AL : AdminLibrary} {SE : SqlEngine}.
Implicit Types b : Blockchain (S := Sqlite.Store).
Implicit Types s : Sqlite.Store.

(** ** The listing of the snapshots *)

Lemma CutPrefix_app p name : CutPrefix (p +:+ name) p = Some name.
Proof. induction p as [|c p IH]; [by destruct name|]. simpl. by rewrite decide_True. Qed.

(** An in-memory store keeps the list of the names itself. *)
Definition listed (name : string) (s : Sqlite.Store) : Prop :=
  sq_url s = InMemory → name ∈ sq_snapshotNames s.

Lemma listed_in name db s :
  snapshot_safe name db s → listed name s → ∃ l, Sqlite.Snapshots s = Ok l ∧ name ∈ l.
Proof.
  intros (Hs & _ & Hdb) Hl. unfold Sqlite.Snapshots. rewrite Hs. simpl.
  case_decide as Hu; [by eexists; split; [|apply Hl]|]. eexists. split; [done|].
  apply list_elem_of_omap. exists (snapshot_db name s). split.
  - unfold ReadDir. rewrite sorting.merge_sort_Permutation. apply list_elem_of_fmap.
    exists (snapshot_db name s, db). split; [done|]. by apply elem_of_map_to_list.
  - unfold snapshot_db. destruct (sq_url s); [done|apply CutPrefix_app..].
Qed.

Definition snapshot_kept (name : string) (db : database) (s : Sqlite.Store) : Prop :=
  snapshot_safe name db s ∧ listed name s.

Lemma set_snapshot_kept name db st k v m :
  keeps (snapshot_kept name db) (sq_SetBytesWithVersion st k v m).
Proof.
  intros s [Hs Hl]. split; [by apply set_snapshot_safe|].
  destruct (sq_SetBytesWithVersion st k v m s) as [[[]|e] s'] eqn:Hset;
    [|by apply set_fail in Hset as ->].
  by apply set_inv in Hset as (? & ? & t & _ & _ & _ & ->).
Qed.

Lemma write_snapshot_kept name db w : keeps (snapshot_kept name db) (apply_write w).
Proof.
  destruct w as [c|n b|t b]; cbn [apply_write];
    [|exact (set_snapshot_kept name db _ _ _ 0)..].
  apply (CommitBlock_keeps (snapshot_kept name db)); [done|done|intros..]; apply set_snapshot_kept.
Qed.

(** The files of two snapshots differ. *)
Lemma snapshot_db_inj name name' s : snapshot_db name s = snapshot_db name' s → name = name'.
Proof.
  unfold snapshot_db. intros H. apply (inj bytes_of_string).
  destruct (sq_url s); apply (f_equal bytes_of_string) in H; rewrite !bytes_of_string_app in H.
  - by apply app_inv_head, app_inv_tail in H.
  - by apply app_inv_head in H.
  - by apply app_inv_head in H.
Qed.

(** A rollback, the creation of any snapshot, and a jump to another snapshot leave
    a snapshot alone. *)
Lemma rollback_snapshot_kept name db h :
  keeps (snapshot_kept name db) (Sqlite.RollbackToBlockHeight h).
Proof.
  unfold Sqlite.RollbackToBlockHeight. apply keeps_bind; [apply keeps_get|intros cur].
  apply keeps_if; [apply keeps_fail|]. apply keeps_bind.
  { apply keeps_modify. intros s [(Hs & Hne & Hdb) Hl]. split; [|done]. split; [done|]. split; [done|].
    simpl. by rewrite lookup_insert_ne. }
  intros _. unfold DefaultStore.SetBlockHeight. apply keeps_bind; [by apply keeps_modify|intros _].
  apply keeps_bind; [apply keeps_res|intros e]. apply set_snapshot_kept.
Qed.

Lemma create_snapshot_kept name db name' :
  db ≠ ∅ → keeps (snapshot_kept name db) (Sqlite.CreateSnapshot name').
Proof.
  intros Hdb0 s [(Hs & Hne & Hdb) Hl].
  unfold Sqlite.CreateSnapshot, vacuum_into, mbind, ST_bind, st_get, st_modify, st_fail. rewrite Hs. simpl.
  case_bool_decide as He; [|done]. simpl. split.
  - split; [done|]. split; [done|]. simpl. rewrite lookup_insert_ne; [done|].
    intros Heq. change (snapshot_db name' s = snapshot_db name s) in Heq. rewrite Heq, Hdb in He. done.
  - intros Hu. simpl. apply elem_of_app. left. by apply Hl.
Qed.

Lemma load_snapshot_kept name db name' :
  name' ≠ name → keeps (snapshot_kept name db) (Sqlite.LoadSnapshot name').
Proof.
  intros Hn s [(Hs & Hne & Hdb) Hl].
  unfold Sqlite.LoadSnapshot, mbind, ST_bind, st_get, st_modify, st_fail. rewrite Hs. simpl.
  destruct (match _ with Some _ => _ | None => _ end); [|done]. simpl. split; [|done]. split; [done|].
  split; [|done]. simpl. intros Heq. apply Hn. by apply (snapshot_db_inj _ _ s).
Qed.

(** What leaves a snapshot alone: everything but a jump to it. *)
Definition not_jump (name : string) (o : op) : Prop :=
  match o with OLoadSnapshot name' _ => name' ≠ name | _ => True end.

Lemma step_snapshot_kept name db o b :
  db ≠ ∅ → not_jump name o → snapshot_kept name db (b_storage b) →
  snapshot_kept name db (b_storage (step o b)).
Proof.
  intros Hdb Ho. apply (step_store (snapshot_kept name db)); [apply write_snapshot_kept|].
  intros m Hm. destruct o; try discriminate; injection Hm as <-.
  - apply rollback_snapshot_kept.
  - by apply create_snapshot_kept.
  - by apply load_snapshot_kept.
Qed.

(** ** A store is read through its tables *)

Lemma tables_get s s' st k n :
  tables s = tables s' → GetBytesAtVersion st k n s = GetBytesAtVersion st k n s'.
Proof. intros Ht. apply get_same_table. by rewrite Ht. Qed.

Lemma tables_LatestBlock s s' : tables s = tables s' → LatestBlock s = LatestBlock s'.
Proof.
  intros Ht. simpl. unfold DefaultStore.def_LatestBlock, DefaultStore.LatestBlockHeight.
  simpl. unfold sq_GetBytes. pose proof (λ st k n, tables_get s s' st k n Ht) as H. simpl in H.
  rewrite H. destruct (sq_GetBytesAtVersion _ _ 0 s') as [x|e]; [|done]. simpl.
  destruct (decodeUint64 x) as [h|]; [|done]. simpl. by rewrite H.
Qed.

Lemma tables_ledger s s' h r :
  tables s = tables s' → DefaultStore.snapshot_Get s h r = DefaultStore.snapshot_Get s' h r.
Proof. intros Ht. unfold DefaultStore.snapshot_Get. by rewrite (tables_get s s'). Qed.

(** A store with a latest block has tables. *)
Lemma latest_tables s blk : LatestBlock s = Ok blk → tables s ≠ ∅.
Proof.
  intros H Ht. simpl in H. unfold DefaultStore.def_LatestBlock, DefaultStore.LatestBlockHeight in H.
  apply bind_Ok in H as (h & H & _). apply bind_Ok in H as (x & H & _). simpl in H.
  unfold sq_GetBytes, sq_GetBytesAtVersion in H. rewrite Ht in H.
  apply bind_Ok in H as (v & _ & H). by rewrite lookup_empty in H.
Qed.

(** Reloading a chain whose store has a latest block succeeds. *)
Lemma reload_existing w b blk :
  LatestBlock (b_storage b) = Ok blk →
  ∃ b', ReloadBlockchain w b = (Ok (), b') ∧ b_storage b' = b_storage b ∧
    b_pendingBlock b' = newPendingBlock blk (DefaultStore.snapshot_Get (b_storage b) (Block_Height blk))
                          (b_clock b) w.
Proof.
  intros Hl. unfold ReloadBlockchain, mbind, ST_bind, st_get, st_modify, on_storage. simpl.
  unfold configureLedger. rewrite Hl. unfold configureExistingLedger, mbind, ST_bind, st_read. simpl.
  by eexists.
Qed.

(** ** Creating and loading a snapshot through the API *)

Lemma perform_ok {A} status (m : ST error (Blockchain (S := Sqlite.Store)) A) k b a b' :
  m b = (Ok a, b') → perform status m k b = k a b'.
Proof. intros H. unfold perform. by rewrite H. Qed.

Lemma latestBlockResponse_ok name b blk :
  LatestBlock (b_storage b) = Ok blk → latestBlockResponse name b = (block_response name blk, b).
Proof.
  intros H. unfold latestBlockResponse, query, Api.GetLatestBlock, getLatestBlock. by rewrite H.
Qed.

Lemma snapshotProvider_ok b :
  SupportSnapshotsWithCurrentConfig (b_storage b) = true →
  snapshotProvider b = Ok sqlite_snapshots.
Proof. intros H. unfold snapshotProvider. simpl. by rewrite H. Qed.

Lemma CreateSnapshot_ok name w b b1 blk :
  LatestBlock (b_storage b) = Ok blk →
  Queries.CreateSnapshot name w b = (Ok (), b1) →
  snapshot_safe name (tables (b_storage b)) (b_storage b1) ∧ listed name (b_storage b1) ∧
  LatestBlock (b_storage b1) = Ok blk.
Proof.
  intros Hl H. unfold Queries.CreateSnapshot in H.
  apply ST_bind_Ok in H as (sp & b0 & Hsp & H). unfold st_read in Hsp. injection Hsp as Hsp <-.
  assert (sp = sqlite_snapshots) as ->.
  { unfold snapshotProvider in Hsp. simpl in Hsp. by destruct (SupportSnapshotsWithCurrentConfig _); [injection Hsp|]. }
  apply ST_bind_Ok in H as ([] & b2 & Hc & H). unfold on_storage in Hc. simpl in Hc.
  destruct (Sqlite.CreateSnapshot name (b_storage b)) as [r s1] eqn:Hs. injection Hc as -> <-.
  destruct (create_snapshot_safe name (b_storage b) s1 (latest_tables _ _ Hl) Hs)
    as (Hsafe & Ht & Hurl & Hnames).
  destruct (reload_existing w (set_storage s1 b) blk) as (b' & Hr & Hst & _).
  { by transitivity (LatestBlock (b_storage b)); [apply tables_LatestBlock|]. }
  rewrite Hr in H. injection H as <-. rewrite Hst. split; [done|]. split.
  - intros _. change (name ∈ sq_snapshotNames s1). rewrite Hnames. apply elem_of_app. right. by apply list_elem_of_singleton.
  - by transitivity (LatestBlock (b_storage b)); [apply tables_LatestBlock|].
Qed.

Lemma LoadSnapshot_ok name w b db blk s0 :
  snapshot_safe name db (b_storage b) → db = tables s0 → LatestBlock s0 = Ok blk →
  ∃ b', Queries.LoadSnapshot name w b = (Ok (), b') ∧
    tables (b_storage b') = tables s0 ∧ sq_db (b_storage b') = snapshot_db name (b_storage b') ∧
    LatestBlock (b_storage b') = Ok blk ∧
    b_pendingBlock b' = newPendingBlock blk (DefaultStore.snapshot_Get (b_storage b') (Block_Height blk))
                          (b_clock b) w.
Proof.
  intros Hsafe -> Hl.
  destruct (load_snapshot_safe name (tables s0) (b_storage b) (latest_tables _ _ Hl) Hsafe)
    as (s' & Hs' & Ht & _ & Hopen).
  destruct (reload_existing w (set_storage s' b) blk) as (b' & Hr & Hst & Hp).
  { by transitivity (LatestBlock s0); [apply tables_LatestBlock|]. }
  exists b'. unfold Queries.LoadSnapshot.
  rewrite (ST_bind_step _ _ b sqlite_snapshots b)
    by (unfold st_read; by rewrite (snapshotProvider_ok b) by apply Hsafe).
  rewrite (ST_bind_step _ _ b () (set_storage s' b)) by (unfold on_storage; simpl; by rewrite Hs').
  rewrite Hr, Hst. split; [done|]. split; [done|]. split; [done|].
  split; [by transitivity (LatestBlock s0); [apply tables_LatestBlock|]|by rewrite Hp].
Qed.

(** C22 (server/utils/emulator.go, SnapshotCreate and SnapshotJump, over the
    blockchain and sqlite/store.go): when the creation of a snapshot answers 200,
    the first jump to it answers 200 with the same block, whatever operations were
    made on the chain in between, rollbacks, the creation of other snapshots and
    jumps to other snapshots included: the latest block and all the registers at
    every height are those of the creation, and an empty pending block extends the
    latest block.  A second jump is another matter: after the first one the file
    of the snapshot is the open database, which later commits change. *)
Theorem snapshot_jump_restores name w w' b b1 b2 latest r :
  getLatestBlock b = Ok latest → world_ok w' →
  SnapshotCreate name w b = (r, b1) → resp_Status r = StatusOK →
  rtc (λ b b', ∃ o, not_jump name o ∧ b' = step o b) b1 b2 →
  r = block_response name latest ∧
  ∃ b3, SnapshotJump name w' b2 = (block_response name latest, b3) ∧
    getLatestBlock b3 = Ok latest ∧ extends latest (b_pendingBlock b3) ∧
    pb_transactionIDs (b_pendingBlock b3) = [] ∧
    sq_db (b_storage b3) = snapshot_db name (b_storage b3) ∧
    ∀ h id, GetRegisterValues [id] h b3 = GetRegisterValues [id] h b.
Proof.
  intros Hl Hw Hcreate Hok Hsteps. unfold SnapshotCreate in Hcreate.
  case_bool_decide; [by injection Hcreate as <- <-|]. unfold query in Hcreate.
  destruct (Queries.Snapshots b) as [l|e]; [|by injection Hcreate as <- <-].
  case_decide; [by injection Hcreate as <- <-|]. unfold perform in Hcreate.
  destruct (Queries.CreateSnapshot name w b) as [[[]|e] b0] eqn:Hc; [|by injection Hcreate as <- <-].
  destruct (CreateSnapshot_ok name w b b0 latest Hl Hc) as (Hsafe & Hlist & Hlat).
  rewrite (latestBlockResponse_ok name b0 latest Hlat) in Hcreate. injection Hcreate as <- <-.
  split; [done|].
  assert (snapshot_kept name (tables (b_storage b)) (b_storage b2)) as [Hsafe2 Hlist2].
  { pose proof (latest_tables _ _ Hl) as Hne. pose proof (conj Hsafe Hlist) as Hk.
    clear -Hsteps Hne Hk. induction Hsteps as [|b0 b1 b2 (o & Ho & ->) _ IH]; [exact Hk|].
    by apply IH, step_snapshot_kept. }
  destruct (listed_in name _ (b_storage b2) Hsafe2 Hlist2) as (l2 & Hl2 & Hin).
  destruct (LoadSnapshot_ok name w' b2 _ latest (b_storage b) Hsafe2 eq_refl Hl)
    as (b3 & Hload & Ht & Hopen & Hlat3 & Hp).
  exists b3. split.
  { unfold SnapshotJump, query, Queries.Snapshots.
    rewrite (snapshotProvider_ok b2) by apply Hsafe2. cbn [mbind res_bind sp_Snapshots sqlite_snapshots].
    rewrite Hl2, decide_True by done. rewrite (perform_ok _ _ _ _ _ _ Hload).
    by apply latestBlockResponse_ok. }
  split; [done|]. rewrite Hp. split; [by apply new_extends|]. split; [done|].
  split; [done|]. intros h id. unfold GetRegisterValues. simpl. by rewrite (tables_ledger _ _ h id Ht).
Qed.

(** ** Rolling back *)

Context {FL : FlowModelLaws FM} {SL : SqlEngineLaws SE} {CL : CodecsLaws CD}.

(** A write of a row leaves the height as it is. *)
Lemma set_height n st k v m : keeps (λ s, sq_CurrentHeight s = n) (sq_SetBytesWithVersion st k v m).
Proof.
  intros s Hs. destruct (sq_SetBytesWithVersion st k v m s) as [[[]|e] s1] eqn:Hset;
    [|by apply set_fail in Hset as ->]. by apply set_inv in Hset as (? & ? & t & _ & _ & _ & ->).
Qed.

(** A commit that succeeds leaves the store at the height of its block. *)
Lemma commit_height (c : BlockCommit) s s' :
  CommitBlock c s = (Ok (), s') → sq_CurrentHeight s' = bc_height c.
Proof.
  intros H. assert (keeps (λ s, sq_CurrentHeight s = bc_height c) (CommitBlock c)) as Hk.
  { apply (CommitBlock_keeps (λ s, sq_CurrentHeight s = bc_height c)); [done|done|intros..]; apply set_height. }
  assert (CommitBlock c s = CommitBlock c (set_CurrentHeight (bc_height c) s)) as Heq.
  { simpl in H |- *. unfold DefaultStore.CommitBlock in H. unfold DefaultStore.CommitBlock.
    case_bool_decide; [done|]. case_bool_decide; [done|]. unfold DefaultStore.StoreBlock.
    rewrite !ST_bind_assoc_unit. by unfold mbind at 1 3, ST_bind at 1 3. }
  specialize (Hk (set_CurrentHeight (bc_height c) s) eq_refl). rewrite <- Heq, H in Hk. exact Hk.
Qed.

Lemma index_height n (c : BlockCommit) :
  keeps (λ b, sq_CurrentHeight (b_storage b) = n) (indexCommit (S := Sqlite.Store) c).
Proof.
  assert (∀ w, match w with WCommit _ => True | _ => keeps (λ s, sq_CurrentHeight s = n) (apply_write w) end)
    as Hw by (intros []; [done|cbn [apply_write]; exact (set_height n _ _ _ 0)..]).
  unfold indexCommit. cbn zeta. apply keeps_bind.
  - apply keeps_iter. intros q _ b Hb. unfold st_map_err.
    pose proof (on_storage_keeps (λ s, sq_CurrentHeight s = n) _ (Hw (WIndexScheduled q.1 (Block_ID (bc_block c)))) b Hb)
      as H. cbn [apply_write] in H. by destruct (on_storage _ b) as [[?|?] ?].
  - intros _. apply keeps_bind; [apply keeps_get|intros cached]. apply keeps_iter. intros q _.
    destruct (cached !! q.1); [apply keeps_ret|]. intros b Hb. unfold st_map_err.
    pose proof (on_storage_keeps (λ s, sq_CurrentHeight s = n) _ (Hw (WIndexTx q.1 (Block_ID (bc_block c)))) b Hb)
      as H. cbn [apply_write] in H. by destruct (on_storage _ b) as [[?|?] ?].
Qed.

Lemma commitBlock_height w b blk b' :
  commitBlock w b = (Ok blk, b') → sq_CurrentHeight (b_storage b') = Block_Height blk.
Proof.
  intros H. unfold commitBlock in H. apply ST_bind_Ok in H as (p & b0 & _ & H).
  destruct (negb _ && _); [done|]. destruct (_ && _); [done|].
  apply ST_bind_Ok in H as (c & b1 & _ & H). apply ST_bind_Ok in H as ([] & b2 & Hc & H).
  assert (sq_CurrentHeight (b_storage b2) = bc_height c) as H2.
  { unfold on_storage in Hc. destruct (CommitBlock c (b_storage b1)) as [r s'] eqn:Hs. injection Hc as -> <-.
    by apply (commit_height c (b_storage b1)). }
  apply ST_bind_Ok in H as ([] & b3 & Hi & H). apply (index_height _ c b2) in H2. rewrite Hi in H2. simpl in H2.
  apply ST_bind_Ok in H as (led & b4 & H4 & H). unfold st_read in H4. injection H4 as _ <-.
  apply ST_bind_Ok in H as (cl & b5 & [= _ <-] & H). apply ST_bind_Ok in H as ([] & b6 & [= <-] & H).
  by injection H as <- <-.
Qed.


(** (LoadSnapshot, RollbackToBlockHeight, configureLedger): loading a snapshot
    does not reset that height either: a rollback to a height above the blocks
    of the snapshot is accepted, the store then has no latest block, and the
    reload that follows takes it for a new store and bootstraps it again. *)
Theorem rollback_above_snapshot name s0 l0 s1 ws h :
  sq_rel s0 l0 → 0 < next_height l0 → Sqlite.CreateSnapshot name s0 = (Ok (), s1) →
  let s2 := (st_iter apply_write ws s1).2 in
  next_height l0 ≤ h < sq_CurrentHeight s2 → is_u64 h →
  ∃ s3 s4, Sqlite.LoadSnapshot name s2 = (Ok (), s3) ∧
    Sqlite.RollbackToBlockHeight h s3 = (Ok (), s4) ∧
    LatestBlockHeight s4 = Ok h ∧ LatestBlock s4 = Err ErrNotFound ∧
    ∀ conf ctx entropy, configureLedger conf ctx entropy s4 = configureNewLedger conf ctx entropy s4.
Proof.
  intros R H0 Hcreate s2 Hh Hu.
  assert (tables s0 ≠ ∅) as Hne.
  { intros He. destruct (sr_tables l0 s0 (proj2 R) globalStoreName) as [t Ht]; [by_decide|].
    by rewrite He in Ht. }
  destruct (create_snapshot_safe name s0 s1 Hne Hcreate) as (Hsafe & _).
  destruct (load_snapshot_safe name (tables s0) s2 Hne) as (s3 & Hload & Ht3 & Hcur & _);
    [by apply writes_snapshot_safe|].
  destruct (rollback_run h s0 s3 l0 R Ht3 Hu ltac:(lia)) as (s4 & Hroll & Ht4 & Hlatest).
  exists s3, s4. split; [done|]. split; [done|].
  assert (LatestBlockHeight s4 = Ok h) as Hlh.
  { simpl. unfold DefaultStore.LatestBlockHeight, DefaultKeyGenerator.Storage, decodeUint64.
    rewrite Hlatest. by apply (unmarshal_enc h). }
  assert (LatestBlock s4 = Err ErrNotFound) as Hlb.
  { simpl. unfold DefaultStore.def_LatestBlock. simpl in Hlh. rewrite Hlh. cbn [mbind res_bind].
    assert (tables s4 !! BlockStoreName = tables s0 !! BlockStoreName) as Htab.
    { rewrite Ht4, Ht3, rollback_lookup, decide_True by by_decide.
      destruct (tables s0 !! BlockStoreName) as [t|] eqn:Ht; [|done]. simpl. f_equal.
      apply (rows_below s0 l0 BlockStoreName); [done|lia|done]. }
    assert (∀ k, GetBytes BlockStoreName k s4 = GetBytes BlockStoreName k s0) as Hget.
    { intros k. by apply get_same_table. }
    rewrite Hget. change (BlockByHeight h s0 = Err ErrNotFound).
    rewrite (ref_BlockByHeight s0 l0 (def_rel_refines s0 l0 (proj1 R))) by done.
    by apply log_block_above; [apply (dr_ok s0 l0 (proj1 R))|lia]. }
  split; [done|]. split; [done|]. intros conf ctx e. unfold configureLedger. by rewrite Hlb.
Qed.
End admin_theorems.
