(* ===== verification/ServerTheorems.v ===== *)
(** The start of the server and the requests it serves: the store that a
    configuration selects, the configuration of the chain, and that the chain
    behind the server is always one that the chain's own operations reach. *)
From S2P Require Import Servers ServerSetup.
From S2P Require Import Prelude FlowTypes Errors Storage Report Convert Pragma Vm PendingBlock.
From S2P Require Import Blockchain Config ServerConfig Queries BlockchainCorrect Chain Composition ChainTheorems.
From S2P Require Import Creation SourceFiles Emulator Access Sdk LivenessCheck Server Admin.

(** * The store *)

Section storage.
Context {FM : FlowModel} {CA : Cadence} {VM : VirtualMachine} {CR : Crypto} {SG : Signing}
        {CD : ConfigDefaults} {S : Type} {SU : StorageUtil S}.

(** The stores that a configuration asks for. *)
Definition wants_checkpoint (c : Config) : bool :=
  nonempty (sc_CheckpointPath c) || nonempty (sc_StateHash c).
Definition requested (c : Config) : list bool :=
  [nonempty (sc_RedisURL c); nonempty (sc_SqliteURL c); wants_checkpoint c; sc_Persist c].

(** The store of a configuration that asks for one at most. *)
Definition requested_store (c : Config) : result S :=
  if nonempty (sc_RedisURL c) then NewRedisStorage (sc_RedisURL c)
  else if nonempty (sc_SqliteURL c) then NewSqliteStorage (sc_SqliteURL c)
  else if wants_checkpoint c then checkpoint_New (sc_CheckpointPath c) (sc_StateHash c) (sc_ChainID c)
  else if sc_Persist c then NewSqliteStorage (sc_DBPath c)
  else NewSqliteStorage sqlite_InMemory.

Lemma base_store (c : Config) (s0 : S) :
  (p ← redis_part c; p ← sqlite_part c p; p ← checkpoint_part c p; p ← persist_part c p;
   memory_part p) = Ok s0 ↔
  (sum_list (Nat.b2n <$> requested c) ≤ 1)%nat ∧
  nonempty (sc_CheckpointPath c) = nonempty (sc_StateHash c) ∧ requested_store c = Ok s0.
Proof.
  unfold redis_part, sqlite_part, checkpoint_part, persist_part, requested, requested_store,
    wants_checkpoint.
  destruct (nonempty (sc_RedisURL c)), (nonempty (sc_SqliteURL c)),
    (nonempty (sc_CheckpointPath c)), (nonempty (sc_StateHash c)), (sc_Persist c);
    cbn [orb negb]; try destruct (NewRedisStorage _);
    try destruct (NewSqliteStorage (sc_SqliteURL c)); try destruct (checkpoint_New _ _ _);
    try destruct (NewSqliteStorage (sc_DBPath c)); simpl;
    (split; [intros H; simplify_eq; split_and!; (lia || done)|
             intros (H1 & H2 & H3); simplify_eq; (lia || done)]).
Qed.

Lemma snapshot_part_ok (c : Config) (s0 s : S) :
  snapshot_part c s0 = Ok s ↔ s0 = s ∧ (sc_Snapshot c = true → snapshot_support s = Some true).
Proof.
  unfold snapshot_part. destruct (sc_Snapshot c); [|naive_solver].
  destruct (snapshot_support s0) as [[]|] eqn:Hs; split; try done.
  - by intros [= ->].
  - by intros [<- _].
  - intros [<- Hx]. specialize (Hx eq_refl). congruence.
  - intros [<- Hx]. specialize (Hx eq_refl). congruence.
Qed.

Definition forked (c : Config) (s0 s : S) : Prop :=
  if nonempty (sc_ForkHost c)
  then contains_colon (sc_ForkHost c) = true ∧ is_sqlite s0 = true ∧
       remote_New s0 (sc_ForkHost c) (sc_ForkHeight c)
         (if nonempty (sc_ForkCacheDir c) && bool_decide (0 < sc_ForkHeight c)
          then Some (sc_ForkCacheDir c) else None) = Ok s
  else s = s0.

Lemma fork_part_ok (c : Config) (s0 s : S) : fork_part c s0 = Ok s ↔ forked c s0 s.
Proof.
  unfold fork_part, forked. destruct (nonempty (sc_ForkHost c)); [|naive_solver].
  destruct (contains_colon _), (is_sqlite s0); naive_solver.
Qed.

(** C19 (server.go, configureStorage): a store is returned exactly when at most
    one of Redis, SQLite, a checkpoint and persistence is asked for, with none of
    them an in-memory SQLite store being used, and a checkpoint comes with both
    its path and its hash; a fork is put over a SQLite store only, at a host
    with a port, with the cache directory used only at a fixed height; and
    snapshots, when asked for, are supported by the result. *)
Theorem storage_selection (c : Config) (s : S) :
  configureStorage c = Ok s ↔
  (sum_list (Nat.b2n <$> requested c) ≤ 1)%nat ∧
  (nonempty (sc_CheckpointPath c) = nonempty (sc_StateHash c)) ∧
  (∃ s0, requested_store c = Ok s0 ∧ forked c s0 s) ∧
  (sc_Snapshot c = true → snapshot_support s = Some true).
Proof.
  assert (configureStorage c =
    ((p ← redis_part c; p ← sqlite_part c p; p ← checkpoint_part c p; p ← persist_part c p;
      memory_part p) ≫= λ s, fork_part c s ≫= snapshot_part c)) as ->.
  { unfold configureStorage. destruct (redis_part c) as [p|]; [|done]. simpl.
    destruct (sqlite_part c p) as [p1|]; [|done]. simpl.
    destruct (checkpoint_part c p1) as [p2|]; [|done]. simpl.
    by destruct (persist_part c p2) as [p3|]. }
  rewrite bind_Ok. split.
  - intros (s0 & (H1 & H2 & H3)%base_store & (s1 & Hf%fork_part_ok & [-> Hs]%snapshot_part_ok)%bind_Ok).
    by split_and!; [..|exists s0|].
  - intros (H1 & H2 & (s0 & H3 & Hf) & Hs). exists s0. split; [by apply base_store|].
    apply bind_Ok. exists s. split; [by apply fork_part_ok|by apply snapshot_part_ok].
Qed.
End storage.

(** * The configuration of the chain *)

Section configuration.
Context {FM : FlowModel} {CA : Cadence} {VM : VirtualMachine} {CR : Crypto} {SG : Signing}
        {CD : ConfigDefaults}.

Definition configured_key (c : Config) (k : ServiceKey) : Prop :=
  match sc_ServicePrivateKey c, sc_ServicePublicKey c with
  | Some key, _ => sk_PrivateKey k = Some key ∧ sk_PublicKey k = Some (public_key key) ∧
      sk_SigAlgo k = sc_ServiceKeySigAlgo c ∧ sk_HashAlgo k = sc_ServiceKeyHashAlgo c
  | None, Some key => sk_PrivateKey k = None ∧ sk_PublicKey k = Some key ∧
      sk_SigAlgo k = sc_ServiceKeySigAlgo c ∧ sk_HashAlgo k = sc_ServiceKeyHashAlgo c
  | None, None => DefaultServiceKey = Ok k
  end.

Lemma chain_config_Ok chainID (c : Config) (conf : config) :
  chain_config chainID c = Ok conf → ∃ supply k, DefaultServiceKey = Ok k ∧
    conf = apply_options (blockchain_options chainID c)
      (mkConfig k false supply DefaultMaxTransactionGasLimit defaultScriptGasLimit 0 true false false
         DefaultMinimumStorageReservation DefaultStorageMBPerFLOW true flow_Emulator false [] false
         true true false).
Proof.
  unfold chain_config, defaultConfig.
  destruct (map_err _ (cadence_NewUFix64 _)) as [supply|]; [|done]. cbn [mbind res_bind].
  destruct DefaultServiceKey as [k|]; [|done]. intros [= <-]. by exists supply, k.
Qed.

(** (server.go, configureBlockchain; the options and defaultConfig of
    blockchain.go): the options are applied in order to the defaults, and every
    one takes effect, a private service key winning over a public one; but
    scheduled transactions are on whatever the configuration says, because the
    option is given only to turn on what is on by default. *)
Theorem chain_configuration chainID (c : Config) (conf : config) :
  chain_config chainID c = Ok conf →
  configured_key c (conf_ServiceKey conf) ∧
  conf_SimpleAddresses conf = sc_SimpleAddressesEnabled c ∧
  conf_GenesisTokenSupply conf = sc_GenesisTokenSupply c ∧
  conf_TransactionMaxGasLimit conf = sc_TransactionMaxGasLimit c ∧
  conf_ScriptGasLimit conf = sc_ScriptGasLimit c ∧
  conf_TransactionExpiry conf = sc_TransactionExpiry c ∧
  conf_StorageLimitEnabled conf = sc_StorageLimitEnabled c ∧
  conf_TransactionFeesEnabled conf = sc_TransactionFeesEnabled c ∧
  conf_ContractRemovalEnabled conf = sc_ContractRemovalEnabled c ∧
  conf_MinimumStorageReservation conf = sc_MinimumStorageReservation c ∧
  conf_StorageMBPerFLOW conf = sc_StorageMBPerFLOW c ∧
  conf_TransactionValidationEnabled conf = negb (sc_SkipTransactionValidation c) ∧
  conf_ChainID conf = chainID ∧ conf_AutoMine conf = false ∧ conf_Contracts conf = [] ∧
  conf_ComputationReportingEnabled conf = sc_ComputationReportingEnabled c ∧
  conf_ScheduledTransactionsEnabled conf = true ∧
  conf_SetupVMBridgeEnabled conf = sc_SetupVMBridgeEnabled c ∧
  conf_EVMTestHelpersEnabled conf = sc_EVMTestHelpersEnabled c.
Proof.
  intros (supply & k & Hk & ->)%chain_config_Ok.
  unfold blockchain_options, configured_key, apply_options.
  destruct (sc_SkipTransactionValidation c), (sc_SimpleAddressesEnabled c),
    (sc_ServicePrivateKey c), (sc_ServicePublicKey c), (sc_ComputationReportingEnabled c),
    (sc_ScheduledTransactionsEnabled c); by split_and!.
Qed.

Lemma chain_config_contracts chainID (c : Config) (conf : config) :
  chain_config chainID c = Ok conf →
  conf_Contracts conf = [] ∧ conf_ChainID conf = chainID ∧
  conf_TransactionMaxGasLimit conf = sc_TransactionMaxGasLimit c ∧
  conf_ScriptGasLimit conf = sc_ScriptGasLimit c ∧
  conf_GenesisTokenSupply conf = sc_GenesisTokenSupply c ∧
  configured_key c (conf_ServiceKey conf).
Proof.
  intros (supply & k & Hk & ->)%chain_config_Ok.
  unfold blockchain_options, apply_options, configured_key.
  destruct (sc_SkipTransactionValidation c), (sc_SimpleAddressesEnabled c),
    (sc_ServicePrivateKey c), (sc_ServicePublicKey c), (sc_ComputationReportingEnabled c),
    (sc_ScheduledTransactionsEnabled c); done.
Qed.
End configuration.

(** * The start of the server *)

Section server.
Context {FM : FlowModel} {CA : Cadence} {VM : VirtualMachine} {CK : Clocks} {CR : Crypto}
        {SG : Signing} {CP : CadenceParser} {KS : KindString} {GO : GoMapOrder}
        {CD : ConfigDefaults} {LT : LibraryTexts} {AC : AccessCodecs} {SK : SdkLibrary}
        {SV : ServerLibrary} {AS : AccessServers} {S : Type} `{!Store S} {OI : OptionalInterfaces S} {SU : StorageUtil S}
        {SC : StoreCorrect S} {TS : TotalStore S} {AG : AddressGenerator} {SRC : SourceLibrary} {LO : Locations}
        {AL : AdminLibrary}.
Implicit Types b : Blockchain (S := S).

(** The worlds of the calls are admissible. *)
Definition worlds_ok (ws : Worlds) : Prop :=
  world_ok (w_new ws) ∧ (∀ i, world_ok (w_contracts ws i)) ∧ world_ok (w_fork ws) ∧
  (∀ i, world_ok (w_common ws i)) ∧ (∀ i j, world_ok (w_account ws i j)).

Lemma within_submit tx w1 w2 : world_ok w1 → world_ok w2 → within 3 (submit (S := S) tx w1 w2).
Proof.
  intros H1 H2. unfold submit. apply (within_bind 1 2); [eauto with chain_ops|intros _].
  apply (within_bind 1 1); [eauto with chain_ops|intros r].
  apply (within_bind 0 1); [apply within_res|intros last].
  apply (within_bind 1 0); [eauto with chain_ops|intros _]. apply within_ret.
Qed.

Lemma within_create_account ws : (∀ i, world_ok (ws i)) → within 4 (create_account (S := S) ws).
Proof.
  intros Hw. unfold create_account. apply (within_bind 0 4); [apply within_read|intros blk].
  apply (within_bind 1 3); [apply within_serviceKey|intros k].
  apply (within_bind 0 3); [apply within_res|intros key].
  apply (within_bind 0 3); [apply within_res|intros template].
  apply (within_bind 0 3); [apply within_res|intros tx].
  apply (within_bind 3 0); [by apply within_submit|intros last]. apply within_res.
Qed.

Lemma within_fund_account ws a : (∀ i, world_ok (ws i)) → within 4 (fund_account (S := S) ws a).
Proof.
  intros Hw. unfold fund_account. apply (within_bind 0 4); [apply within_get|intros chain].
  apply (within_bind 0 4); [apply within_read|intros blk].
  apply (within_bind 0 4); [apply within_res|intros v].
  apply (within_bind 1 3); [apply within_serviceKey|intros k].
  apply (within_bind 0 3); [apply within_res|intros r].
  apply (within_bind 0 3); [apply within_res|intros m].
  apply (within_bind 0 3); [apply within_res|intros tx].
  apply (within_bind 3 0); [by apply within_submit|intros _]. apply within_ret.
Qed.

Lemma within_precreate_one ws :
  (∀ i, world_ok (ws i)) → within 8 (precreate_one (S := S) ws).
Proof.
  intros Hw. eapply within_state with (m := newAddr ← create_account ws; fund_account ws newAddr ;; mret newAddr).
  - intros b. unfold precreate_one. repeat case_match; by simplify_eq.
  - apply (within_bind 4 4); [by apply within_create_account|intros a].
    apply (within_bind 4 0); [by apply within_fund_account|intros _]. apply within_ret.
Qed.

Lemma within_precreate n ws :
  (∀ i j, world_ok (ws i j)) → within (n * 8) (precreate (S := S) n ws).
Proof.
  revert ws. induction n as [|n IH]; intros ws Hw; [apply within_ret|]. cbn [precreate Nat.mul].
  apply within_bind; [by apply within_precreate_one|intros a].
  replace (n * 8)%nat with (n * 8 + 0)%nat by lia.
  apply within_bind; [by apply IH|intros created]. apply within_ret.
Qed.

Lemma within_precreate_accounts num ws :
  (∀ i j, world_ok (ws i j)) → within (1 + Z.to_nat num * 8) (precreate_accounts (S := S) num ws).
Proof.
  intros Hw. unfold precreate_accounts. case_bool_decide; [|apply within_ret].
  apply within_bind; [apply within_serviceKey|intros k].
  apply (within_bind 0 (Z.to_nat num * 8)); [apply within_res|intros _].
  replace (Z.to_nat num * 8)%nat with (Z.to_nat num * 8 + 0)%nat by lia.
  apply within_bind; [by apply within_precreate|intros created].
  destruct created; [apply within_fail|apply within_ret].
Qed.

Lemma within_logged n m : within n m → within n (logged (S := S) m).
Proof. apply within_state. intros b. unfold logged. by destruct (m b) as [[[]|[]] b']. Qed.

(** The preparation of the chain consists of at most this many operations. *)
Definition preparation (c : Config) : nat := 6 + Z.to_nat (sc_NumAccounts c) * 8.

Lemma within_prepare_chain c ws :
  worlds_ok ws → within (preparation c) (prepare_chain (S := S) c ws).
Proof.
  intros (_ & _ & Hf & Hc & Ha). unfold prepare_chain, preparation.
  apply (within_bind 1 (5 + Z.to_nat (sc_NumAccounts c) * 8)).
  { destruct (nonempty _); [|apply within_ret].
    apply (within_bind 1 0); [by apply within_executeAndCommit|intros _; apply within_ret]. }
  intros _. apply (within_bind 0 (5 + Z.to_nat (sc_NumAccounts c) * 8)); [apply within_get|intros chain].
  apply (within_bind 3 (2 + Z.to_nat (sc_NumAccounts c) * 8)).
  { destruct (sc_WithContracts c); [|apply within_ret]. apply within_logged.
    apply (within_DeployContracts (imap _ (NewCommonContracts chain))). constructor; [apply Hc|by apply list.Forall_nil]. }
  intros _. replace (2 + Z.to_nat (sc_NumAccounts c) * 8)%nat
    with (1 + Z.to_nat (sc_NumAccounts c) * 8 + 1)%nat by lia.
  apply within_bind; [by apply within_precreate_accounts|intros _].
  apply (within_bind 0 1); [apply within_res|intros ticker].
  do 2 (apply (within_bind 0 1); [apply within_res|intros ?]).
  apply (within_bind 1 0); [|intros _; apply within_ret].
  case_bool_decide; [apply (within_autoMine false)|apply (within_autoMine true)].
Qed.

Lemma New_room conf s w ws b n :
  start_ok conf s w ws → conf_Contracts conf = [] → New conf s w ws = (Ok (), b) →
  Z.of_nat n < two32 → reachable conf b ∧ room n b.
Proof.
  intros Hok Hc Hnew Hn. split; [by exists s, w, ws, b|].
  destruct (New_reload conf s w ws Hc) as (H1 & H2 & H3). rewrite Hnew in H1, H2, H3. simpl in H1, H2, H3.
  destruct Hok as (R & Hw & _).
  destruct (ReloadBlockchain_empty w (initial conf s w) R Hw) as [(e & He & _)|(es & evs & _ & HI)];
    [by rewrite He in H1|].
  apply (chain_inv_ext _ b) in HI as HI'; [|done|done]. split.
  - rewrite H3. destruct (ReloadBlockchain w (initial conf s w)) as [[[]|e] b0] eqn:Hr; [|done].
    unfold ReloadBlockchain in Hr. inv_binds. unfold st_modify, st_get in *. simplify_eq.
    unfold Size. simpl. lia.
  - intros h. rewrite (api_latest_height _ _ HI'). intros [= <-]. rewrite next_height_commit.
    unfold bc_height, two32, two64 in *. simpl. unfold Block_Height, Genesis. simpl. lia.
Qed.

Lemma prepare_chain_end c ws b ticker grpc rest b' :
  prepare_chain c ws b = (Ok (ticker, grpc, rest), b') →
  conf_AutoMine (b_conf b') = bool_decide (sc_BlockTime c ≤ 0) ∧
  NewLivenessTicker (sc_LivenessCheckTolerance c) = Ok ticker.
Proof.
  unfold prepare_chain. intros H. do 4 (apply ST_bind_Ok in H as (? & ? & _ & H)).
  apply ST_bind_Ok in H as (ticker' & b1 & Ht & H). do 2 (apply ST_bind_Ok in H as (? & ? & _ & H)).
  apply ST_bind_Ok in H as ([] & b2 & Ha & H). unfold st_res in Ht. injection Ht as Ht <-.
  injection H as <- _ _ <-. split; [|done].
  case_bool_decide as H1; case_bool_decide as H2; try lia; by injection Ha as <-.
Qed.

(** C13 (server.go, NewEmulatorServer and configureBlockchain): when the server
    starts on an empty store its chain was created with the configuration that
    the options give and then only taken steps of the chain, whichever of the
    accounts and contracts could be made; it mines on its own exactly when there
    is no block time, and the ticker exists exactly when there is one; the
    liveness ticker has the configured tolerance, or one second.  The chain ID is the configured one or the emulator's: the detection from a fork's host
    is never reached, since the missing chain ID was filled in before.
    (On a store whose writes succeed.) *)
Theorem server_starts_chain (c : Config) ws srv :
  (∀ s, configureStorage (sanitizeConfig c) = Ok s → store_rel s []) → worlds_ok ws →
  Z.of_nat (preparation c) < two32 →
  NewEmulatorServer c ws = Ok srv →
  ∃ conf,
    chain_config (conf_ChainID conf) (sanitizeConfig c) = Ok conf ∧
    conf_ChainID conf = (if bool_decide (sc_ChainID c = ""%string) then flow_Emulator else sc_ChainID c) ∧
    reachable conf (srv_emulator srv) ∧
    getBlockByHeight 0 (srv_emulator srv) = Ok (Genesis (GetChainID conf)) ∧
    conf_AutoMine (b_conf (srv_emulator srv)) = bool_decide (sc_BlockTime c ≤ 0) ∧
    srv_blocks srv = (if bool_decide (0 < sc_BlockTime c) then Some (sc_BlockTime c) else None) ∧
    NewLivenessTicker (if bool_decide (sc_LivenessCheckTolerance c = 0) then 1000000000
                       else sc_LivenessCheckTolerance c) = Ok (srv_liveness srv).
Proof.
  intros HR Hws Hp H. unfold NewEmulatorServer in H.
  apply bind_Ok in H as (s & Hs & H). apply bind_Ok in H as (chainID & Hid & H).
  assert (chainID = sc_ChainID (sanitizeConfig c)) as ->.
  { destruct (nonempty _); [|by injection Hid]. unfold sanitizeConfig in *. simpl in *.
    repeat case_bool_decide; simplify_eq/=; done. }
  apply bind_Ok in H as (b & Hb & H). unfold configureBlockchain in Hb.
  apply bind_Ok in Hb as (conf & Hconf & Hb).
  destruct (New conf s (w_new ws) (w_contracts ws)) as [[[]|e] b0] eqn:Hnew; [|done].
  injection Hb as ->. destruct (chain_config_contracts _ _ _ Hconf) as (Hc & Hchain & _).
  destruct (New_room conf s (w_new ws) (w_contracts ws) b (preparation c + 0)) as [HRb Hroom]; [|done|done|lia|].
  { split_and!; [by apply HR|apply Hws|apply Hws|by rewrite Hc]. }
  pose proof (within_prepare_chain (sanitizeConfig c) ws Hws conf b 0%nat HRb Hroom) as [Hsteps _].
  destruct (prepare_chain (sanitizeConfig c) ws b) as [[[[ticker grpc] rest]|e] b'] eqn:Hprep;
    [|done]. injection H as <-.
  destruct (prepare_chain_end _ ws b ticker grpc rest b' Hprep) as [Hauto Htick].
  exists conf. rewrite Hchain. split; [done|]. split; [done|].
  apply (reachable_steps conf b b') in HRb; [|done]. split; [done|]. split; [|split_and!].
  - apply reachable_inv in HRb as (l & es & evs & HI). by eapply genesis_block.
  - done.
  - done.
  - done.
Qed.

(** The servers around the chain: they listen on the configured host at the three
    configured or default ports, gRPC first; the gRPC server has the two versions
    of the access API and the execution data API, and the reflection exactly when
    it is asked for; the admin server has its four routes and the configured or
    default headers. *)
Theorem server_endpoints (c : Config) ws srv :
  NewEmulatorServer (S := S) c ws = Ok srv →
  listeners srv = servers_of (sanitizeConfig c) ∧
  (∀ s, s ∈ gs_services (srv_grpc srv) ↔ (s = Reflection → sc_GRPCDebug c = true)) ∧
  http_mux (srv_admin srv) = admin_mux ∧
  http_headers (srv_admin srv) = default defaultHTTPHeaders (sc_HTTPHeaders c) ∧
  is_Some (rest_server (srv_rest srv)).
Proof.
  intros H. unfold NewEmulatorServer in H. do 3 (apply bind_Ok in H as (? & _ & H)).
  destruct (prepare_chain _ _ _) as [[[[t g] r]|e] b'] eqn:Hp; [|done]. injection H as <-.
  unfold prepare_chain in Hp. do 5 (apply ST_bind_Ok in Hp as (? & ? & _ & Hp)).
  apply ST_bind_Ok in Hp as (g' & b1 & Hg & Hp). apply ST_bind_Ok in Hp as (r' & b2 & Hr & Hp).
  apply ST_bind_Ok in Hp as (? & b3 & _ & Hp). injection Hp as _ <- <- _.
  unfold st_res in Hg, Hr. injection Hg as Hg _. injection Hr as Hr _.
  unfold NewGRPCServer in Hg. apply bind_Ok in Hg as (? & _ & Hg). injection Hg as <-.
  unfold NewRestServer in Hr. do 3 (apply bind_Ok in Hr as (? & _ & Hr)). injection Hr as <-.
  split_and!; try done. intros s. cbn [srv_grpc gs_services sc_GRPCDebug sanitizeConfig].
  destruct (sc_GRPCDebug c), s; set_unfold; naive_solver.
Qed.

(** ** Serving requests *)

(** A request to one of the APIs of the server, or a tick of its block ticker. *)
Inductive request :=
  | AccessSend (tx : TransactionBody) (w : World)
  | AccessScript (script : Bytes) (arguments : list Bytes)
  | AccessScriptAtHeight (height : Z) (script : Bytes) (arguments : list Bytes)
  | AccessScriptAtID (id : Identifier) (script : Bytes) (arguments : list Bytes)
  | SdkSend (tx : sdk_Transaction) (w : World)
  | SdkCreateAccount (keys : list sdk_AccountKey) (contracts : list template_Contract)
      (w1 w2 w3 : World)
  | AdminNewBlock (w : World)
  | AdminConfig
  | AdminRollback (height : string) (w : World)
  | AdminSnapshotCreate (name : string) (w : World)
  | AdminSnapshotJump (name : string) (w : World)
  | BlockTick (w : World).

Definition serve (r : request) (b : Blockchain (S := S)) : Blockchain :=
  match r with
  | AccessSend tx w => (AccessAdapter.SendTransaction tx w b).2
  | AccessScript script args => (AccessAdapter.ExecuteScriptAtLatestBlock script args b).2
  | AccessScriptAtHeight h script args => (AccessAdapter.ExecuteScriptAtBlockHeight h script args b).2
  | AccessScriptAtID id script args => (AccessAdapter.ExecuteScriptAtBlockID id script args b).2
  | SdkSend tx w => (SDKAdapter.SendTransaction tx w b).2
  | SdkCreateAccount keys contracts w1 w2 w3 =>
      (SDKAdapter.CreateAccount keys contracts w1 w2 w3 b).2
  | AdminNewBlock w => (EmulatorAPIServer.CommitBlock_handler w b).2
  | AdminConfig => (EmulatorAPIServer.Config_handler b).2
  | AdminRollback height w => (EmulatorAPIServer.Rollback height w b).2
  | AdminSnapshotCreate name w => (EmulatorAPIServer.SnapshotCreate name w b).2
  | AdminSnapshotJump name w => (EmulatorAPIServer.SnapshotJump name w b).2
  | BlockTick w => tick w b
  end.

Definition request_worlds (r : request) : list World :=
  match r with
  | AccessSend _ w | SdkSend _ w | AdminNewBlock w | BlockTick w
  | AdminRollback _ w | AdminSnapshotCreate _ w | AdminSnapshotJump _ w => [w]
  | SdkCreateAccount _ _ w1 w2 w3 => [w1; w2; w3]
  | _ => []
  end.

Lemma within_script_latest script args : within 1 (Queries.ExecuteScript (S := S) script args).
Proof.
  apply (within_bind 0 1); [apply within_read|intros blk]. apply within_script.
Qed.
Lemma within_script_height script args h :
  within 1 (Queries.ExecuteScriptAtBlockHeight (S := S) script args h).
Proof.
  apply (within_bind 0 1); [apply within_read|intros blk]. apply within_script.
Qed.
Lemma within_convert_script n (m : ST error (Blockchain (S := S)) ScriptResult) :
  within n m → within n (AccessAdapter.convert_script m).
Proof.
  apply within_state. intros b. unfold AccessAdapter.convert_script. by destruct (m b).
Qed.

Lemma within_CreateAccount keys contracts w1 w2 w3 :
  world_ok w1 → world_ok w2 → world_ok w3 →
  within 4 (SDKAdapter.CreateAccount (B := Blockchain (S := S)) keys contracts w1 w2 w3).
Proof.
  intros H1 H2 H3. apply (within_bind 1 3); [apply within_serviceKey|intros k].
  apply (within_bind 0 3); [apply within_read|intros blk].
  apply (within_bind 0 3); [apply within_res|intros template].
  apply (within_bind 0 3); [apply within_res|intros tx].
  apply (within_bind 1 2); [by apply within_SendTransaction|intros _].
  apply (within_bind 1 1); [by apply within_executeAndCommit|intros r].
  apply (within_bind 1 0); [by apply within_commitBlock|intros _].
  apply (within_bind 0 0); [apply within_res|intros last].
  destruct (tr_Error last); [apply within_fail|apply within_res].
Qed.

(** A store with neither of the optional interfaces. *)
Definition plain_store : Prop := ∀ s : S, as_RollbackProvider s = None ∧ as_SnapshotProvider s = None.

(** On such a store the requests for rollbacks and snapshots are refused. *)
Lemma plain_Rollback height w b : plain_store → (EmulatorAPIServer.Rollback height w b).2 = b.
Proof.
  intros Hp. unfold EmulatorAPIServer.Rollback. case_bool_decide; [done|]. destruct (ParseUint height); [|done].
  unfold EmulatorAPIServer.perform, RollbackToBlockHeight, mbind, ST_bind, st_read, rollbackProvider.
  by rewrite (proj1 (Hp (b_storage b))).
Qed.
Lemma plain_Snapshots b : plain_store → Snapshots b = Err (Errorf "storage doesn't support snapshots").
Proof. intros Hp. unfold Snapshots, snapshotProvider. by rewrite (proj2 (Hp (b_storage b))). Qed.
Lemma plain_SnapshotCreate name w b : plain_store → (EmulatorAPIServer.SnapshotCreate name w b).2 = b.
Proof.
  intros Hp. unfold EmulatorAPIServer.SnapshotCreate, EmulatorAPIServer.query. case_bool_decide; [done|].
  by rewrite plain_Snapshots.
Qed.
Lemma plain_SnapshotJump name w b : plain_store → (EmulatorAPIServer.SnapshotJump name w b).2 = b.
Proof.
  intros Hp. unfold EmulatorAPIServer.SnapshotJump, EmulatorAPIServer.query. by rewrite plain_Snapshots.
Qed.

(** A request is at most four operations of the chain. *)
Lemma within_serve r :
  plain_store → Forall world_ok (request_worlds r) → within 4 (λ b, (Ok (), serve r b)).
Proof.
  intros Hplain.
  destruct r as [tx w|sc args|h sc args|id sc args|tx w|keys cs w1 w2 w3|w| |h w|name w|name w|w]; intros Hw; simpl in Hw;
    repeat match goal with H : Forall _ (_ :: _) |- _ => apply Forall_cons_1 in H as [? ?] end.
  - apply (within_le 1); [lia|]. apply (within_state _ (AccessAdapter.SendTransaction tx w)); [done|].
    by apply within_map_err, within_SendTransaction.
  - apply (within_le 1); [lia|]. apply (within_state _ (AccessAdapter.ExecuteScriptAtLatestBlock sc args)); [done|].
    apply (within_bind 0 1); [apply within_read|intros _]. apply within_convert_script, within_script_latest.
  - apply (within_le 1); [lia|].
    apply (within_state _ (AccessAdapter.ExecuteScriptAtBlockHeight h sc args)); [done|].
    apply within_convert_script, within_script_height.
  - apply (within_le 1); [lia|].
    apply (within_state _ (AccessAdapter.ExecuteScriptAtBlockID id sc args)); [done|].
    apply within_convert_script, within_script.
  - apply (within_le 1); [lia|].
    apply (within_state _ (Blockchain.SendTransaction (SDKTransactionToFlow tx) w)); [done|eauto with chain_ops].
  - apply (within_state _ (SDKAdapter.CreateAccount keys cs w1 w2 w3)); [done|]. by apply within_CreateAccount.
  - apply (within_le 1); [lia|]. apply (within_state _ (commitBlock w)); [|eauto with chain_ops].
    intros b. simpl. unfold EmulatorAPIServer.CommitBlock_handler, EmulatorAPIServer.perform,
      EmulatorAPIServer.query. by repeat case_match.
  - apply (within_le 1); [lia|]. apply (within_state _ currentServiceKey); [|eauto with chain_ops].
    intros b. simpl. unfold EmulatorAPIServer.Config_handler, EmulatorAPIServer.perform.
    by repeat case_match.
  - apply within_pure. intros b. by apply plain_Rollback.
  - apply within_pure. intros b. by apply plain_SnapshotCreate.
  - apply within_pure. intros b. by apply plain_SnapshotJump.
  - apply (within_le 1); [lia|]. by apply (within_op (OTick w)).
Qed.

Lemma serve_all rs conf b k :
  plain_store → Forall (λ r, Forall world_ok (request_worlds r)) rs → reachable conf b →
  room (4 * length rs + k) b →
  rtc chain_step b (foldl (λ b r, serve r b) b rs) ∧ room k (foldl (λ b r, serve r b) b rs).
Proof.
  intros Hplain Hws. revert b. induction Hws as [|r rs Hr _ IH]; intros b HR Hroom; [by split|].
  destruct (within_serve r Hplain Hr conf b (4 * length rs + k)%nat HR) as [H1 H2].
  { by replace (4 + (4 * length rs + k))%nat with (4 * length (r :: rs) + k)%nat by (simpl; lia). }
  destruct (IH (serve r b)) as [H3 H4]; [by eapply reachable_steps|done|]. split; [by etrans|done].
Qed.

(** C15 (the access and SDK adapters, the admin API and the block ticker over one
    chain): on a store whose writes succeed and that has neither rollbacks nor
    snapshots, as the in-memory store, whatever requests are served, those for
    rollbacks and snapshots included, which are refused, in whatever order and
    whether they succeed or fail, the chain is one that its own operations reach,
    and everything that was committed stays as it was: the latest block's height
    does not decrease, the blocks are the same, and so are the events and the
    registers at their heights.  There has to be room for four blocks for each
    request. *)
Theorem served_requests_extend_chain conf b rs latest :
  plain_store → reachable conf b → room (4 * length rs) b →
  Forall (λ r, Forall world_ok (request_worlds r)) rs → getLatestBlock b = Ok latest →
  let b' := foldl (λ b r, serve r b) b rs in
  reachable conf b' ∧
  (∀ h ty ids, 0 ≤ h ≤ Block_Height latest →
     getBlockByHeight h b' = getBlockByHeight h b ∧
     GetEventsByHeight h ty b' = GetEventsByHeight h ty b ∧
     GetRegisterValues ids h b' = GetRegisterValues ids h b) ∧
  ∃ latest', getLatestBlock b' = Ok latest' ∧ Block_Height latest ≤ Block_Height latest'.
Proof.
  intros Hplain HR Hroom Hws Hlat b'.
  destruct (serve_all rs conf b 0%nat Hplain Hws HR) as [Hs _]; [by rewrite Nat.add_0_r|].
  split; [by eapply reachable_steps|]. by apply (steps_keep_history conf b).
Qed.
End server.
