(* ===== verification/ServerSimulation.v ===== *)
(** The server on its default store.

    Without a flag that chooses a store, the server runs on an in-memory SQLite
    store.  Its start (server/server.go, [NewEmulatorServer]) is followed on the
    chain over the log of the writes, operation by operation, as in [Simulation]:
    the server that is made serves a client as the server over the log, within the
    conditions on a client's calls that [StoreIndependence] states. *)
From S2P Require Import Prelude FlowTypes Errors Storage LogStore Keys Memstore DefaultStore DefaultStoreCorrect.
From S2P Require Import Sqlite SqliteCorrect Redis Remote Report Convert Pragma Vm PendingBlock.
From S2P Require Import Blockchain Config ServerConfig Queries BlockchainCorrect Chain Composition Checkpoint.
From S2P Require Import SourceFiles Emulator Access Sdk Consistency Providers Simulation StoreIndependence.
From S2P Require Import LivenessCheck Servers ServerSetup Server Admin.
From S2P Require Import ServerTheorems.

(** * The start of the server *)

Section start.
Context {FM : FlowModel} {CA : Cadence} {VM : VirtualMachine} {CK : Clocks} {CR : Crypto}
        {SG : Signing} {CP : CadenceParser} {KS : KindString} {GO : GoMapOrder}
        {CF : ConfigDefaults} {LT : LibraryTexts} {AC : AccessCodecs} {SK : SdkLibrary}
        {SV : ServerLibrary} {AS : AccessServers} {S : Type} `{!Store S} {OI : OptionalInterfaces S} {SC : StoreCorrect S}.

(** Errors that are handled keep the relation. *)
Lemma same_handle {A B} (h : res error A → res error B) (m1 : ST error (Blockchain (S := log)) A)
    (m2 : ST error (Blockchain (S := S)) A) :
  same m1 m2 → same (λ b, match m1 b with (r, b') => (h r, b') end)
                    (λ b, match m2 b with (r, b') => (h r, b') end).
Proof.
  intros [Hx Hs]. split.
  - intros b. specialize (Hx b). by destruct (m1 b).
  - intros b s _ R. specialize (Hs b s I R). destruct (m1 b) as [r b1]. simpl in *.
    intros Hg. destruct (Hs Hg) as (s1 & -> & R1 & _). by exists s1.
Qed.

Lemma same_ext {A} (m1 m1' : ST error (Blockchain (S := log)) A) (m2 m2' : ST error (Blockchain (S := S)) A) :
  (∀ b, m1 b = m1' b) → (∀ b, m2 b = m2' b) → same m1' m2' → same m1 m2.
Proof.
  intros H1 H2 [Hx Hs]. split.
  - intros b. rewrite H1. apply Hx.
  - intros b s _ R. rewrite H1, H2. by apply Hs.
Qed.

Definition log_error (r : res error unit) : res error unit :=
  match r with Err (Panic text) => Err (Panic text) | _ => Ok () end.
Lemma same_logged (m1 : ST error (Blockchain (S := log)) unit) (m2 : ST error (Blockchain (S := S)) unit) :
  same m1 m2 → same (logged m1) (logged m2).
Proof.
  intros H. eapply same_ext; [..|apply (same_handle log_error _ _ H)]; intros b; unfold logged;
    [destruct (m1 b) as [[[]|[]] ?]|destruct (m2 b) as [[[]|[]] ?]]; done.
Qed.

Lemma same_submit tx w1 w2 : same (submit tx w1 w2) (submit (S := S) tx w1 w2).
Proof.
  unfold submit. same; [apply same_addTransaction|apply same_executeAndCommitBlock|apply same_commitBlock].
Qed.
Lemma same_create_account ws : same (create_account ws) (create_account (S := S) ws).
Proof.
  unfold create_account. same; [apply same_latest|apply same_currentServiceKey|apply same_submit].
Qed.
Lemma same_fund_account ws a : same (fund_account ws a) (fund_account (S := S) ws a).
Proof.
  unfold fund_account. same; [apply same_latest|apply same_currentServiceKey|apply same_submit].
Qed.

Definition skip_error (r : res error sdk_Address) : res error (option sdk_Address) :=
  match r with Ok a => Ok (Some a) | Err (Panic text) => Err (Panic text) | Err _ => Ok None end.
Lemma same_precreate_one ws : same (precreate_one ws) (precreate_one (S := S) ws).
Proof.
  eapply same_ext; [..|apply (same_handle skip_error (newAddr ← create_account ws; fund_account ws newAddr ;; mret newAddr)
                                 (newAddr ← create_account ws; fund_account ws newAddr ;; mret newAddr))].
  - intros b. unfold precreate_one. by destruct ((create_account ws ≫= _) b) as [[?|[]] ?].
  - intros b. unfold precreate_one. by destruct ((create_account ws ≫= _) b) as [[?|[]] ?].
  - same; [apply same_create_account|apply same_fund_account].
Qed.
Lemma same_precreate n ws : same (precreate n ws) (precreate (S := S) n ws).
Proof.
  revert ws. induction n as [|n IH]; intros ws; cbn [precreate]; same; [apply same_precreate_one|apply IH].
Qed.
Lemma same_precreate_accounts n ws : same (precreate_accounts n ws) (precreate_accounts (S := S) n ws).
Proof.
  unfold precreate_accounts. same; [apply same_currentServiceKey|apply same_precreate|].
  destruct a1; same.
Qed.

Lemma same_prepare_chain c ws : same (prepare_chain c ws) (prepare_chain (S := S) c ws).
Proof.
  unfold prepare_chain. same; [apply same_executeAndCommitBlock| |apply same_precreate_accounts|..].
  - apply same_logged, same_DeployContracts.
  - apply same_autoMine.
  - apply same_autoMine.
Qed.
End start.

(** * The two servers *)

(** On the log every new store is empty; it is only asked for the default one. *)
Definition log_util : StorageUtil log := {|
  NewRedisStorage _ := Err ErrNotFound;
  NewSqliteStorage _ := Ok [];
  checkpoint_New _ _ _ := Err ErrNotFound;
  is_sqlite _ := true;
  remote_New _ _ _ _ := Err ErrNotFound;
  snapshot_support _ := Some true
|}.

Section servers.
Context {FM : FlowModel} {FL : FlowModelLaws FM} {TR : SnapshotTrees} {TL : SnapshotTreeLaws TR}
        {CD : Codecs} {CL : CodecsLaws CD} {SE : SqlEngine} {SL : SqlEngineLaws SE}
        {CA : Cadence} {VM : VirtualMachine} {CK : Clocks} {CR : Crypto}
        {SG : Signing} {CP : CadenceParser} {KS : KindString} {GO : GoMapOrder}
        {AG : AddressGenerator} {SRC : SourceLibrary} {RS : RedisServer} {RC : RedisClient} {DB : Databases}
        {DL : DatabasesLaws DB} {AN : AccessNode} {FS : FileSystem} {SS : SortSlice}
        {CH : CheckpointLedger} {LT : LibraryTexts} {CF : ConfigDefaults} {AC : AccessCodecs}
        {SK : SdkLibrary} {SV : ServerLibrary} {AS : AccessServers} {LO : Locations} {AL : AdminLibrary}.
Context (now : Time) (entries : list DirEntry).

Lemma no_flags_sanitized c : no_storage_flags c → no_storage_flags (sanitizeConfig c).
Proof. done. Qed.

(** The start over the log, taken apart. *)
Lemma log_server_start c ws srv0 :
  no_storage_flags c → worlds_ok ws → Z.of_nat (preparation c) < two32 →
  NewEmulatorServer (SU := log_util) c ws = Ok srv0 →
  ∃ conf b0 t g r l,
    chain_config (sc_ChainID (sanitizeConfig c)) (sanitizeConfig c) = Ok conf ∧
    start_ok conf ([] : log) (w_new ws) (w_contracts ws) ∧
    Blockchain.New conf ([] : log) (w_new ws) (w_contracts ws) = (Ok (), b0) ∧
    prepare_chain (sanitizeConfig c) ws b0 = (Ok (t, g, r), srv_emulator srv0) ∧
    chain_inv (srv_emulator srv0) l.
Proof.
  intros Hf Hws Hp H. unfold NewEmulatorServer in H. cbn zeta in H.
  apply bind_Ok in H as (s & Hs & H).
  assert (s = []) as ->.
  { destruct Hf as (H1 & H2 & H3 & H4 & H5 & H6).
    unfold configureStorage, redis_part, sqlite_part, checkpoint_part, persist_part, fork_part, memory_part in Hs.
    cbn [sc_RedisURL sc_SqliteURL sc_CheckpointPath sc_StateHash sc_Persist sc_ForkHost sanitizeConfig] in Hs.
    rewrite H1, H2, H3, H4, H5, H6 in Hs. assert (nonempty "" = false) as Hn by done. rewrite !Hn in Hs.
    cbn [mbind res_bind orb] in Hs. unfold snapshot_part in Hs. by destruct (sc_Snapshot _); injection Hs. }
  apply bind_Ok in H as (chainID & Hid & H).
  assert (chainID = sc_ChainID (sanitizeConfig c)) as ->.
  { destruct Hf as (_ & _ & _ & _ & _ & H6). cbn [sc_ForkHost sanitizeConfig] in Hid. rewrite H6 in Hid.
    by injection Hid. }
  apply bind_Ok in H as (b & Hb & H). unfold configureBlockchain in Hb.
  apply bind_Ok in Hb as (conf & Hconf & Hb).
  destruct (Blockchain.New conf [] (w_new ws) (w_contracts ws)) as [[[]|e] b0] eqn:Hnew; [|done].
  injection Hb as ->. destruct (chain_config_contracts _ _ _ Hconf) as (Hc & _).
  assert (start_ok conf ([] : log) (w_new ws) (w_contracts ws)) as Hok
    by (split_and!; [done|apply Hws|apply Hws|by rewrite Hc]).
  destruct (New_room conf [] (w_new ws) (w_contracts ws) b (preparation c + 0) Hok Hc Hnew)
    as [HRb Hroom]; [lia|].
  pose proof (within_prepare_chain (sanitizeConfig c) ws Hws conf b 0%nat HRb Hroom) as [Hsteps _].
  destruct (prepare_chain (sanitizeConfig c) ws b) as [[[[t g] r]|e] b'] eqn:Hprep; [|done].
  injection H as <-. apply (reachable_steps conf b b') in HRb; [|done].
  apply reachable_inv in HRb as (l & es & evs & HI). by eexists conf, b, t, g, r, _.
Qed.

End servers.
