(* ===== verification/StartCmd.v ===== *)
(** The command line: cmd/emulator/start/start.go, from the parsed flags to the
    configuration of the server, and the default service key of
    cmd/emulator/main.go.

    The flags are parsed by cobra and sconfig: [Config] is what they give, and
    [changed] says which flags were set.  An [os.Exit] is an error. *)
From S2P Require Import Prelude FlowTypes Errors Storage Report Convert Pragma Vm PendingBlock.
From S2P Require Import Blockchain Config ServerConfig Queries BlockchainCorrect Chain Composition.
From S2P Require Import Emulator Access Sdk Servers ServerSetup Server ServerTheorems.
#[local] Open Scope string_scope.

(** The names of algorithms and the decoding of keys of the crypto library. *)
Class KeyLibrary {CR : Crypto} := {
  StringToSignatureAlgorithm : string → SigningAlgorithm;
  StringToHashAlgorithm : string → HashingAlgorithm;
  is_UnknownSignatureAlgorithm : SigningAlgorithm → bool;
  is_UnknownHashAlgorithm : HashingAlgorithm → bool;
  DecodePrivateKeyHex : SigningAlgorithm → string → result PrivateKey
}.

(** [flowgo.Testnet], [flowgo.Mainnet] *)
Definition flow_Testnet : ChainID := "flow-testnet".
Definition flow_Mainnet : ChainID := "flow-mainnet".

Module start.

Record Config := mkStartConfig {
  Port : Z; DebuggerPort : Z; RestPort : Z; AdminPort : Z;
  BlockTime : Duration;
  ServicePrivateKey : string; ServicePublicKey : string;
  ServiceKeySigAlgo : string; ServiceKeyHashAlgo : string;
  Init : bool; Persist : bool; Snapshot : bool;
  DBPath : string; ForkCacheDir : string;
  SimpleAddresses : bool;
  TokenSupply : string;
  TransactionExpiry : Z;
  StorageLimitEnabled : bool;
  StorageMBPerFLOW : string; MinimumAccountBalance : string;
  TransactionFeesEnabled : bool;
  TransactionMaxGasLimit : Z; ScriptGasLimit : Z;
  TransactionMaxComputeLimit : Z; ScriptComputeLimit : Z;
  Contracts : bool; ContractRemovalEnabled : bool; SkipTxValidation : bool;
  Host : string; ChainID : string; RedisURL : string; SqliteURL : string;
  ForkHost : string; ForkHeight : Z;
  CheckpointPath : string; StateHash : string;
  ComputationReportingEnabled : bool; ScheduledTransactionsEnabled : bool;
  SetupVMBridgeEnabled : bool;
  NumAccounts : Z;
  EVMTestHelpersEnabled : bool;
  StartBlockHeight : Z; RPCHost : string;
  GRPCDebug : bool; RESTDebug : bool;
  Verbose : bool; LogFormat : string
}.

Section cmd.
Context {FM : FlowModel} {CA : Cadence} {VM : VirtualMachine} {CK : Clocks} {CR : Crypto}
        {SG : Signing} {CP : CadenceParser} {KS : KindString} {GO : GoMapOrder}
        {CD : ConfigDefaults} {LT : LibraryTexts} {AC : AccessCodecs} {SK : SdkLibrary}
        {SV : ServerLibrary} {AS : AccessServers} {KL : KeyLibrary}.

(** [Exit(code, msg)]: the process ends. *)
Definition Exit (code : Z) (msg : string) : error := Errorf ("exit " +:+ show_int code +:+ ": " +:+ msg).

(** The message names the token supply, whichever value was parsed. *)
Definition parseCadenceUFix64 (conf : Config) (value valueName : string) : result Z :=
  map_err (λ err, Exit 1 ("Failed to parse " +:+ valueName +:+ " from value `" +:+ TokenSupply conf +:+
             "` as an unsigned 64-bit fixed-point number: " +:+ Error_text err))
    (cadence_NewUFix64 value).

Definition getSDKChainID (chainID : string) : result FlowTypes.ChainID :=
  if bool_decide (chainID = "emulator") then Ok flow_Emulator
  else if bool_decide (chainID = "testnet") then Ok flow_Testnet
  else if bool_decide (chainID = "mainnet") then Ok flow_Mainnet
  else Err (Errorf ("invalid ChainID " +:+ chainID +:+ ", valid values are: emulator, testnet, mainnet")).

Definition checkKeyAlgorithms (sigAlgo : SigningAlgorithm) (hashAlgo : HashingAlgorithm) : result unit :=
  if is_UnknownSignatureAlgorithm sigAlgo
  then Err (Exit 1 "Must specify service key signature algorithm (e.g. --service-sig-algo=ECDSA_P256)")
  else if is_UnknownHashAlgorithm hashAlgo
  then Err (Exit 1 "Must specify service key hash algorithm (e.g. --service-hash-algo=SHA3_256)")
  else Ok ().

(** cmd/emulator/main.go *)
Definition defaultServiceKey (init : bool) (sigAlgo : SigningAlgorithm) (hashAlgo : HashingAlgorithm)
    : result (PrivateKey * SigningAlgorithm * HashingAlgorithm) :=
  let sigAlgo := if is_UnknownSignatureAlgorithm sigAlgo then ECDSA_P256 else sigAlgo in
  let hashAlgo := if is_UnknownHashAlgorithm hashAlgo then SHA3_256 else hashAlgo in
  serviceKey ← GenerateDefaultServiceKey sigAlgo hashAlgo;
  privateKey ← of_option (Panic "nil private key") (sk_PrivateKey serviceKey);
  Ok (privateKey, sk_SigAlgo serviceKey, sk_HashAlgo serviceKey).

(** The service key of the flags, or the one of [GetServiceKey]. *)
Definition service_key
    (GetServiceKey : bool → SigningAlgorithm → HashingAlgorithm →
                     result (PrivateKey * SigningAlgorithm * HashingAlgorithm))
    (conf : Config) : result (PrivateKey * SigningAlgorithm * HashingAlgorithm) :=
  let sigAlgo := StringToSignatureAlgorithm (ServiceKeySigAlgo conf) in
  let hashAlgo := StringToHashAlgorithm (ServiceKeyHashAlgo conf) in
  if nonempty (ServicePrivateKey conf)
  then _ ← checkKeyAlgorithms sigAlgo hashAlgo;
       key ← map_err (λ err, Exit 1 (Error_text err))
               (DecodePrivateKeyHex sigAlgo (ServicePrivateKey conf));
       Ok (key, sigAlgo, hashAlgo)
  else GetServiceKey (Init conf) sigAlgo hashAlgo.

(** The deprecated flags stand for the new ones. *)
Definition fork_host (conf : Config) : string :=
  if nonempty (RPCHost conf) && negb (nonempty (ForkHost conf)) then RPCHost conf else ForkHost conf.
Definition fork_height (conf : Config) : Z :=
  if bool_decide (0 < StartBlockHeight conf) && bool_decide (ForkHeight conf = 0)
  then StartBlockHeight conf else ForkHeight conf.
Definition transaction_limit (changed : string → bool) (conf : Config) : Z :=
  if changed "transaction-max-gas-limit" && negb (changed "transaction-max-compute-limit")
  then TransactionMaxGasLimit conf else TransactionMaxComputeLimit conf.
Definition script_limit (changed : string → bool) (conf : Config) : Z :=
  if changed "script-gas-limit" && negb (changed "script-compute-limit")
  then ScriptGasLimit conf else ScriptComputeLimit conf.

(** [initLogger]: the level, and whether the messages are JSON.  The only letters
    that become ASCII letters of the name are its own. *)
Inductive log_level := DebugLevel | InfoLevel.
Definition ToLower (s : string) : string :=
  string_of_bytes ((λ c, if is_upper c then shift_byte c 32 else c) <$> bytes_of_string s).
Definition initLogger (verbose : bool) (conf : Config) : log_level * bool :=
  (if verbose then DebugLevel else InfoLevel, bool_decide (ToLower (LogFormat conf) = "json")).

(** The flags that are hidden, with the ones that replace them. *)
Definition deprecated_flags : list (string * string) :=
  [("rpc-host", "use --fork-host"); ("start-block-height", "use --fork-height");
   ("transaction-max-gas-limit", "use --transaction-max-compute-limit");
   ("script-gas-limit", "use --script-compute-limit")].

(** The body of the command up to the server's configuration. *)
Definition server_config
    (GetServiceKey : bool → SigningAlgorithm → HashingAlgorithm →
                     result (PrivateKey * SigningAlgorithm * HashingAlgorithm))
    (changed : string → bool) (conf : Config) : result ServerConfig.Config :=
  key ← service_key GetServiceKey conf;
  let '(servicePrivateKey, serviceKeySigAlgo, serviceKeyHashAlgo) := key in
  flowChainID ← map_err (λ err, Exit 1 (Error_text err)) (getSDKChainID (ChainID conf));
  let forkHost := fork_host conf in
  let forkHeight := fork_height conf in
  if negb (nonempty forkHost) &&
     (bool_decide (0 < StartBlockHeight conf) || bool_decide (0 < forkHeight))
  then Err (Exit 1 "❗  --fork-height requires --fork-host")
  else
    minimumStorageReservation ←
      (if nonempty (MinimumAccountBalance conf)
       then parseCadenceUFix64 conf (MinimumAccountBalance conf) "min-account-balance"
       else Ok DefaultMinimumStorageReservation);
    storageMBPerFLOW ←
      (if nonempty (StorageMBPerFLOW conf)
       then parseCadenceUFix64 conf (StorageMBPerFLOW conf) "storage-per-flow"
       else Ok DefaultStorageMBPerFLOW);
    resolvedChainID ←
      (if nonempty forkHost
       then map_err (λ err, Exit 1 ("failed to detect remote chain id from " +:+ forkHost +:+ ": " +:+
                                    Error_text err)) (DetectRemoteChainID forkHost)
       else Ok flowChainID);
    supply ← parseCadenceUFix64 conf (TokenSupply conf) "token-supply";
    Ok (mkServerConfig (Port conf) (AdminPort conf) (DebuggerPort conf) (RestPort conf) None
          (BlockTime conf) (Some (public_key servicePrivateKey)) (Some servicePrivateKey)
          serviceKeySigAlgo serviceKeyHashAlgo supply (u64 (TransactionExpiry conf))
          (StorageLimitEnabled conf) minimumStorageReservation storageMBPerFLOW
          (TransactionFeesEnabled conf) (u64 (transaction_limit changed conf))
          (u64 (script_limit changed conf)) (Persist conf) (Snapshot conf)
          (ContractRemovalEnabled conf) (DBPath conf) (ForkCacheDir conf) 0 (Contracts conf)
          (SimpleAddresses conf) (SkipTxValidation conf) (Host conf) resolvedChainID (RedisURL conf)
          (SqliteURL conf) forkHost forkHeight (CheckpointPath conf) (StateHash conf)
          (ComputationReportingEnabled conf) (ScheduledTransactionsEnabled conf)
          (SetupVMBridgeEnabled conf) (NumAccounts conf) (EVMTestHelpersEnabled conf) (GRPCDebug conf)
          (RESTDebug conf)).

(** The key and the middlewares that the caller of [Cmd] gives. *)
Record StartConfig := mkStart {
  GetServiceKey : bool → SigningAlgorithm → HashingAlgorithm →
                  result (PrivateKey * SigningAlgorithm * HashingAlgorithm);
  RestMiddlewares : list (Handler → Handler)
}.

(** [Run]: a server that could not be made ends the process with the code -1; the
    middlewares are put around the handlers of the REST server in their order. *)
Definition Run {S : Type} `{!Store S} {OI : OptionalInterfaces S} {SU : StorageUtil S} (config : StartConfig)
    (changed : string → bool) (conf : Config) (ws : Worlds) : result (EmulatorServer (S := S)) :=
  serverConf ← server_config (GetServiceKey config) changed conf;
  emu ← map_err (λ _, Exit (-1) "") (NewEmulatorServer serverConf ws);
  Ok (foldl (λ emu middleware, UseRestMiddleware middleware emu) emu (RestMiddlewares config)).

(** cmd/emulator/main.go *)
Definition main_config : StartConfig := mkStart defaultServiceKey [].
End cmd.
End start.

Section cmd_theorems.
Context {FM : FlowModel} {CA : Cadence} {VM : VirtualMachine} {CK : Clocks} {CR : Crypto}
        {SG : Signing} {CP : CadenceParser} {KS : KindString} {GO : GoMapOrder}
        {CD : ConfigDefaults} {LT : LibraryTexts} {AC : AccessCodecs} {SK : SdkLibrary}
        {SV : ServerLibrary} {AS : AccessServers} {KL : KeyLibrary}.
Import start.

Lemma bool_decide_nonempty s : bool_decide (s = "") = negb (nonempty s).
Proof. by destruct s. Qed.

Lemma service_key_Ok G (conf : Config) key sigAlgo hashAlgo :
  service_key G conf = Ok (key, sigAlgo, hashAlgo) →
  let sigAlgo' := StringToSignatureAlgorithm (ServiceKeySigAlgo conf) in
  let hashAlgo' := StringToHashAlgorithm (ServiceKeyHashAlgo conf) in
  if bool_decide (ServicePrivateKey conf = "")
  then G (Init conf) sigAlgo' hashAlgo' = Ok (key, sigAlgo, hashAlgo)
  else is_UnknownSignatureAlgorithm sigAlgo' = false ∧ is_UnknownHashAlgorithm hashAlgo' = false ∧
       DecodePrivateKeyHex sigAlgo' (ServicePrivateKey conf) = Ok key ∧
       sigAlgo = sigAlgo' ∧ hashAlgo = hashAlgo'.
Proof.
  intros H. cbn zeta. rewrite bool_decide_nonempty. unfold service_key in H.
  destruct (nonempty _); [|done]. simpl. unfold checkKeyAlgorithms in H.
  destruct (is_UnknownSignatureAlgorithm _); [done|]. destruct (is_UnknownHashAlgorithm _); [done|].
  simpl in H. apply bind_Ok in H as (key' & Hk%map_err_Ok & [= <- <- <-]). by split_and!.
Qed.

Lemma fork_host_cases (conf : Config) :
  fork_host conf = if bool_decide (ForkHost conf = "") then RPCHost conf else ForkHost conf.
Proof.
  unfold fork_host. rewrite bool_decide_nonempty. destruct (ForkHost conf); simpl.
  - rewrite andb_true_r. by destruct (RPCHost conf).
  - by rewrite andb_false_r.
Qed.

Lemma fork_height_cases (conf : Config) :
  fork_height conf = if bool_decide (ForkHeight conf = 0) then Z.max 0 (StartBlockHeight conf)
                     else ForkHeight conf.
Proof. unfold fork_height. repeat case_bool_decide; simpl; lia. Qed.

(** C20 (start.go, the command's [Run], with sanitizeConfig and configureBlockchain
    of server.go): the chain that the flags configure.  Its service key is the one
    of the flags, decoded with their algorithms, which have to be known ones, or
    without it the one of [GetServiceKey], with the public key of the private one.
    A deprecated limit counts only when it was set and the new one was not, and
    limits wrap to 64 bits.  The deprecated fork host and height count only when
    the new ones are not given.  The chain ID is the one of the name or, in fork
    mode, the one detected at the host, the emulator's when that is empty; a height
    needs a host. *)
Theorem command_line_configures_chain G changed (conf : Config) c chain :
  server_config G changed conf = Ok c →
  chain_config (sc_ChainID (sanitizeConfig c)) (sanitizeConfig c) = Ok chain →
  let sigAlgo := StringToSignatureAlgorithm (ServiceKeySigAlgo conf) in
  let hashAlgo := StringToHashAlgorithm (ServiceKeyHashAlgo conf) in
  let k := conf_ServiceKey chain in
  (∃ key, sk_PrivateKey k = Some key ∧ sk_PublicKey k = Some (public_key key) ∧
     if bool_decide (ServicePrivateKey conf = "")
     then G (Init conf) sigAlgo hashAlgo = Ok (key, sk_SigAlgo k, sk_HashAlgo k)
     else is_UnknownSignatureAlgorithm sigAlgo = false ∧ is_UnknownHashAlgorithm hashAlgo = false ∧
          DecodePrivateKeyHex sigAlgo (ServicePrivateKey conf) = Ok key ∧
          sk_SigAlgo k = sigAlgo ∧ sk_HashAlgo k = hashAlgo) ∧
  conf_TransactionMaxGasLimit chain =
    (if changed "transaction-max-compute-limit" then u64 (TransactionMaxComputeLimit conf)
     else if changed "transaction-max-gas-limit" then u64 (TransactionMaxGasLimit conf)
     else u64 (TransactionMaxComputeLimit conf)) ∧
  conf_ScriptGasLimit chain =
    (if changed "script-compute-limit" then u64 (ScriptComputeLimit conf)
     else if changed "script-gas-limit" then u64 (ScriptGasLimit conf)
     else u64 (ScriptComputeLimit conf)) ∧
  sc_ForkHost c = (if bool_decide (ForkHost conf = "") then RPCHost conf else ForkHost conf) ∧
  sc_ForkHeight c = (if bool_decide (ForkHeight conf = 0) then Z.max 0 (StartBlockHeight conf)
                     else ForkHeight conf) ∧
  cadence_NewUFix64 (TokenSupply conf) = Ok (conf_GenesisTokenSupply chain) ∧
  ∃ named, getSDKChainID (ChainID conf) = Ok named ∧
    if bool_decide (sc_ForkHost c = "")
    then conf_ChainID chain = named ∧ (StartBlockHeight conf ≤ 0)%Z ∧ (ForkHeight conf ≤ 0)%Z
    else ∃ id, rpc_NetworkChainID (sc_ForkHost c) = Ok id ∧
           conf_ChainID chain = (if bool_decide (id = "") then flow_Emulator else id).
Proof.
  intros H Hchain. unfold server_config in H.
  apply bind_Ok in H as ([[key sigAlgo] hashAlgo] & Hkey & H).
  apply bind_Ok in H as (named & Hnamed & H). apply map_err_Ok in Hnamed.
  destruct (negb _ && _) eqn:Hfork; [done|].
  apply bind_Ok in H as (reservation & _ & H). apply bind_Ok in H as (mb & _ & H).
  apply bind_Ok in H as (id & Hid & H). apply bind_Ok in H as (supply & Hsupply & H).
  apply map_err_Ok in Hsupply. injection H as <-.
  destruct (chain_config_contracts _ _ _ Hchain) as (_ & Hc & Hmax & Hscript & Hgen & Hsk).
  cbn zeta. rewrite Hmax, Hscript, Hgen, Hc. clear Hmax Hscript Hgen Hc Hchain.
  destruct Hsk as (Hk1 & Hk2 & Hk3 & Hk4). simpl in Hk1, Hk2, Hk3, Hk4 |- *.
  split; [|split; [|split; [|split; [|split; [|split; [done|]]]]]].
  - exists key. rewrite Hk1, Hk2, Hk3, Hk4. split; [done|]. split; [done|]. by apply service_key_Ok.
  - unfold transaction_limit. by destruct (changed _), (changed _).
  - unfold script_limit. by destruct (changed _), (changed _).
  - apply fork_host_cases.
  - apply fork_height_cases.
  - exists named. split; [done|]. rewrite bool_decide_nonempty. unfold fork_height in Hfork.
    destruct (nonempty (fork_host conf)) eqn:Hhost; simpl in Hfork |- *.
    + exists id. by apply map_err_Ok in Hid.
    + injection Hid as ->. apply orb_false_iff in Hfork as [H1 H2]. rewrite H1 in H2. simpl in H2.
      apply bool_decide_eq_false in H1, H2. split; [|lia].
      unfold getSDKChainID in Hnamed. by repeat case_bool_decide; simplify_eq.
Qed.

(** The middlewares of the command change the REST server only, and the later one
    is around the earlier ones. *)
Theorem rest_middlewares_nest {S : Type} `{!Store S} {OI : OptionalInterfaces S} {SU : StorageUtil S} (config : StartConfig) changed
    (conf : Config) ws (srv : EmulatorServer (S := S)) :
  Run config changed conf ws = Ok srv →
  ∃ srv0, Run (mkStart (GetServiceKey config) []) changed conf ws = Ok srv0 ∧
    rest_server (srv_rest srv)
    = (λ h, foldl (λ h middleware, middleware h) h (RestMiddlewares config)) <$> rest_server (srv_rest srv0) ∧
    srv_emulator srv = srv_emulator srv0 ∧ listeners srv = listeners srv0.
Proof.
  unfold Run. intros (c & Hc & H)%bind_Ok. apply bind_Ok in H as (emu & He & H). injection H as <-.
  exists emu. simpl. rewrite Hc. simpl. rewrite He. split; [done|]. clear Hc He.
  revert emu. induction (RestMiddlewares config) as [|m ms IH]; intros emu; simpl.
  - by destruct (rest_server (srv_rest emu)).
  - destruct (IH (UseRestMiddleware m emu)) as (H1 & H2 & H3). rewrite H1, H2, H3. simpl.
    by destruct (rest_server (srv_rest emu)).
Qed.
End cmd_theorems.
