(* ===== verification/Instances.v ===== *)
(** Concrete instances of every parameter of the development: a small flow-go
    model, codecs, a virtual machine, a SQL engine, a Redis server.  They show
    that the laws the theorems assume can hold together, and the theorems are
    evaluated on them. *)
From S2P Require Import Prelude FlowTypes Errors Storage Keys Memstore DefaultStore.
From S2P Require Import DefaultStoreCorrect Sqlite Redis Report Convert Pragma Vm PendingBlock.
From S2P Require Import Blockchain Queries BlockchainCorrect.

(** * flow-go's model: short IDs, a block is its own header *)

Fixpoint tagged (bs : Bytes) : Bytes :=
  match bs with [] => [] | c :: bs => x00%byte :: c :: tagged bs end.

#[export] Instance ex_flow : FlowModel := {
  Block_ID b := idn (100 + Block_Height b);
  LightCollection_ID c := idn (Z.of_nat (length (lc_Transactions c)));
  Transaction_ID tx := idn (tx_GasLimit tx);
  Header := Block;
  ToHeader b := b;
  Header_HeaderBody b := Block_HeaderBody b;
  Header_ID b := idn (100 + Block_Height b);
  RegisterID_String r := tagged (reg_Owner r) ++ x01%byte :: reg_Key r;
  GenesisTime := time_of_Unix 1545091200
}.

Lemma tagged_inj o1 o2 k1 k2 :
  tagged o1 ++ x01%byte :: k1 = tagged o2 ++ x01%byte :: k2 → o1 = o2 ∧ k1 = k2.
Proof.
  revert o2. induction o1 as [|c o1 IH]; intros [|c' o2]; simpl; intros H; try done.
  - by injection H as ->.
  - injection H as -> H. by destruct (IH o2 H) as [-> ->].
Qed.

#[export] Instance ex_flow_laws : FlowModelLaws ex_flow.
Proof. split; [done|done|]. intros [o1 k1] [o2 k2] H. simpl in H. by apply tagged_inj in H as [-> ->]. Qed.

#[export] Instance ex_order : GoMapOrder := canonical_order.

(** * Codecs through the countable encodings *)

Fixpoint bytes_of_pos (p : positive) : Bytes :=
  match p with
  | xH => []
  | xO p => x00%byte :: bytes_of_pos p
  | xI p => x01%byte :: bytes_of_pos p
  end.
Fixpoint pos_of_bytes (bs : Bytes) : positive :=
  match bs with
  | [] => xH
  | x00 :: bs => xO (pos_of_bytes bs)
  | _ :: bs => xI (pos_of_bytes bs)
  end%byte.
Lemma pos_of_bytes_of_pos p : pos_of_bytes (bytes_of_pos p) = p.
Proof. induction p; simpl; congruence. Qed.

Definition countable_codec (A : Type) `{Countable A} : Codec A := {|
  cbor_Marshal a := Ok (bytes_of_pos (encode a));
  cbor_Unmarshal bs := of_option (LibraryError "cbor") (decode (pos_of_bytes bs))
|}.
Lemma countable_codec_laws (A : Type) `{Countable A} (P : A → Prop) :
  CodecLaws A P (Codec0 := countable_codec A).
Proof.
  intros a _. eexists. split; [reflexivity|]. simpl. by rewrite pos_of_bytes_of_pos, decode_encode.
Qed.

#[export] Instance HeaderBody_countable : Countable HeaderBody.
Proof.
  refine (inj_countable'
    (λ h, (hb_ChainID h, hb_ParentID h, hb_Height h, hb_Timestamp h, hb_View h))
    (λ '(a, b, c, d, e), mkHeaderBody a b c d e) _). by intros [].
Defined.
#[export] Instance BlockSeal_countable : Countable BlockSeal.
Proof. refine (inj_countable' (λ s, (seal_BlockID s, seal_ResultID s)) (λ '(a, b), mkBlockSeal a b) _). by intros []. Defined.
#[export] Instance CollectionGuarantee_countable : Countable CollectionGuarantee.
Proof. refine (inj_countable' CollectionID mkGuarantee _). by intros []. Defined.
#[export] Instance Payload_countable : Countable Payload.
Proof. refine (inj_countable' (λ p, (Guarantees p, Seals p)) (λ '(a, b), mkPayload a b) _). by intros []. Defined.
#[export] Instance Block_countable : Countable Block.
Proof. refine (inj_countable' (λ b, (Block_HeaderBody b, Block_Payload b)) (λ '(a, b), mkBlock a b) _). by intros []. Defined.
#[export] Instance SystemTransactions_countable : Countable SystemTransactions.
Proof.
  refine (inj_countable' (λ s, (st_BlockID s, st_Transactions s, st_ScheduledTransactionIDs s))
    (λ '(a, b, c), mkSystemTransactions a b c) _). by intros [].
Defined.
#[export] Instance LightCollection_countable : Countable LightCollection.
Proof. refine (inj_countable' lc_Transactions mkLightCollection _). by intros []. Defined.
#[export] Instance ProposalKey_countable : Countable ProposalKey.
Proof.
  refine (inj_countable' (λ k, (pk_Address k, pk_KeyIndex k, pk_SequenceNumber k))
    (λ '(a, b, c), mkProposalKey a b c) _). by intros [].
Defined.
#[export] Instance TransactionSignature_countable : Countable TransactionSignature.
Proof.
  refine (inj_countable' (λ s, (sig_Address s, sig_SignerIndex s, sig_KeyIndex s, sig_Signature s))
    (λ '(a, b, c, d), mkSignature a b c d) _). by intros [].
Defined.
#[export] Instance TransactionBody_countable : Countable TransactionBody.
Proof.
  refine (inj_countable'
    (λ t, (tx_ReferenceBlockID t, tx_Script t, tx_Arguments t, tx_GasLimit t, tx_ProposalKey t,
           tx_Payer t, tx_Authorizers t, tx_PayloadSignatures t, tx_EnvelopeSignatures t))
    (λ '(a, b, c, d, e, f, g, h, i), mkTransactionBody a b c d e f g h i) _). by intros [].
Defined.
#[export] Instance Event_countable : Countable Event.
Proof.
  refine (inj_countable'
    (λ e, (ev_Type e, ev_TransactionID e, ev_TransactionIndex e, ev_EventIndex e, ev_Payload e))
    (λ '(a, b, c, d, e), mkEvent a b c d e) _). by intros [].
Defined.
#[export] Instance StorableTransactionResult_countable : Countable StorableTransactionResult.
Proof.
  refine (inj_countable'
    (λ r, (str_ErrorCode r, str_ErrorMessage r, str_Logs r, str_Events r, str_BlockID r,
           str_BlockHeight r, str_CollectionID r))
    (λ '(a, b, c, d, e, f, g), mkStorableResult a b c d e f g) _). by intros [].
Defined.

#[export] Instance ex_codecs : Codecs := {
  codec_uint64 := countable_codec Z;
  codec_block := countable_codec Block;
  codec_systemTransaction := countable_codec SystemTransactions;
  codec_collection := countable_codec LightCollection;
  codec_transaction := countable_codec TransactionBody;
  codec_transactionResult := countable_codec StorableTransactionResult;
  codec_events := countable_codec (list Event)
}.
#[export] Instance ex_codecs_laws : CodecsLaws ex_codecs.
Proof. split; apply countable_codec_laws. Qed.

(** * Back ends *)

#[export] Instance ex_trees : SnapshotTrees := {
  SnapshotTree := gmap RegisterID RegisterValue;
  emptyTree := ∅;
  tree_Append es t := WriteSet es ∪ t;
  tree_Get t r := Ok (default [] (t !! r))
}.
Lemma union_get (w t : gmap RegisterID RegisterValue) r :
  (w ∪ t) !! r = match w !! r with Some v => Some v | None => t !! r end.
Proof. rewrite lookup_union. by destruct (w !! r), (t !! r). Qed.
#[export] Instance ex_trees_laws : SnapshotTreeLaws ex_trees.
Proof.
  split; [done|]. intros es t r. cbn [tree_Get tree_Append ex_trees].
  rewrite (union_get (WriteSet es)). by destruct (WriteSet es !! r).
Qed.

#[export] Instance mem_total : TotalStore Mem.Memstore.
Proof. done. Qed.

Definition better (p q : rowkey * Bytes) : rowkey * Bytes :=
  if bool_decide (row_version p ≤ row_version q) then q else p.
#[export] Instance ex_sql : SqlEngine := {
  bind_uint64 z := if bool_decide (0 ≤ z < two64 / 2) then Ok z
                   else Err (LibraryError "uint64 values with high bit set are not supported");
  limit1 rows := match rows with [] => None | p :: rows => Some (foldl better p rows) end
}.

Lemma foldl_better rows p :
  (foldl better p rows = p ∨ foldl better p rows ∈ rows) ∧
  row_version p ≤ row_version (foldl better p rows) ∧
  ∀ q, q ∈ rows → row_version q ≤ row_version (foldl better p rows).
Proof.
  revert p. induction rows as [|x rows IH]; intros p; simpl.
  - split; [by left|]. split; [done|]. by intros q ?%not_elem_of_nil.
  - destruct (IH (better p x)) as (H1 & H2 & H3).
    assert (row_version p ≤ row_version (better p x) ∧ row_version x ≤ row_version (better p x)
            ∧ (better p x = p ∨ better p x = x)) as (Ha & Hb & Hc).
    { unfold better. case_bool_decide; (split; [lia|split; [lia|]]); auto. }
    split; [|split; [lia|]].
    + destruct H1 as [H1|H1]; [|right; by right]. rewrite H1.
      destruct Hc as [-> | ->]; [by left|right; left].
    + intros q [->|Hq]%elem_of_cons; [lia|by apply H3].
Qed.

#[export] Instance ex_sql_laws : SqlEngineLaws ex_sql.
Proof.
  split; [|done|].
  - intros z Hz. simpl. by rewrite bool_decide_eq_true_2.
  - intros [|p rows] Hne; [done|]. exists (foldl better p rows). split; [done|].
    destruct (foldl_better rows p) as (H1 & H2 & H3). split.
    + destruct H1 as [-> |H1]; [left|by right].
    + intros q [->|Hq]%elem_of_cons; [done|by apply H3].
Qed.

(** A Redis server: the strings and the sorted sets of the key space. *)
#[export] Instance ex_redis : RedisServer := {
  DB := gmap string Bytes * gmap string (gmap Bytes Z);
  db_empty := (∅, ∅);
  cmd_GET k d := d.1 !! k;
  cmd_SET k v d := (<[k := v]> d.1, d.2);
  cmd_ZADD k n v d := (d.1, <[k := <[v := n]> (default ∅ (d.2 !! k))]> d.2);
  cmd_ZREVRANGEBYSCORE k m d :=
    match filter (λ p : Bytes * Z, 0 ≤ p.2 ≤ m) (map_to_list (default ∅ (d.2 !! k))) with
    | [] => []
    | p :: l => [(foldl (λ p q : Bytes * Z, if bool_decide (p.2 ≤ q.2) then q else p) p l).1]
    end;
  zset k d := default ∅ (d.2 !! k);
  float64 z := z
}.

Lemma foldl_score (l : list (Bytes * Z)) p :
  let q := foldl (λ p q : Bytes * Z, if bool_decide (p.2 ≤ q.2) then q else p) p l in
  (q = p ∨ q ∈ l) ∧ p.2 ≤ q.2 ∧ ∀ x, x ∈ l → x.2 ≤ q.2.
Proof.
  revert p. induction l as [|x l IH]; intros p; simpl.
  - split; [by left|]. split; [done|]. by intros q ?%not_elem_of_nil.
  - case_bool_decide as Hle.
    + destruct (IH x) as (H1 & H2 & H3). split; [|split; [lia|]].
      * right. destruct H1 as [-> |H1]; [left|by right].
      * intros y [->|Hy]%elem_of_cons; [lia|by apply H3].
    + destruct (IH p) as (H1 & H2 & H3). split; [|split; [lia|]].
      * destruct H1 as [-> |H1]; [by left|right; by right].
      * intros y [->|Hy]%elem_of_cons; [lia|by apply H3].
Qed.

#[export] Instance ex_redis_laws : RedisLaws ex_redis.
Proof.
  split; simpl; intros *.
  - done.
  - done.
  - by rewrite lookup_insert_eq.
  - intros. by rewrite lookup_insert_ne.
  - done.
  - done.
  - by rewrite lookup_insert_eq.
  - intros. by rewrite lookup_insert_ne.
  - intros Hall. destruct (filter _ _) as [|p l] eqn:Hf; [done|].
    assert (p ∈ p :: l) as Hp by left. rewrite <- Hf in Hp.
    apply list_elem_of_filter in Hp as [Hb Hp]. destruct p as [v n]. apply elem_of_map_to_list in Hp.
    apply Hall in Hp. simpl in Hb. lia.
  - intros Hv Hn. destruct (filter _ _) as [|p l] eqn:Hf.
    { assert ((v, n) ∈ @nil (Bytes * Z)) as Hp; [|by apply not_elem_of_nil in Hp]. rewrite <- Hf.
      apply list_elem_of_filter. split; [done|by apply elem_of_map_to_list]. }
    assert (∀ x, x ∈ p :: l ↔ 0 ≤ x.2 ≤ max ∧ default ∅ (d.2 !! k) !! x.1 = Some x.2) as Hin.
    { intros [y m]. rewrite <- Hf, list_elem_of_filter, elem_of_map_to_list. done. }
    destruct (foldl_score l p) as (H1 & H2 & H3). set (q := foldl _ p l) in *.
    assert (q ∈ p :: l) as Hq by (destruct H1 as [-> |?]; [left|by right]).
    apply Hin in Hq as [Hqb Hq].
    assert (∀ x, x ∈ p :: l → x.2 ≤ q.2) as Hmax.
    { intros x [->|Hx]%elem_of_cons; [done|by apply H3]. }
    exists q.1, q.2. split; [done|]. split; [done|]. split.
    + split; [|lia]. apply (Hmax (v, n)). by apply Hin.
    + intros v'' n'' Hv'' Hle. destruct (decide (0 ≤ n'')); [|lia]. apply (Hmax (v'', n'')). by apply Hin.
  - done.
Qed.

(** * Cadence, keys, signatures, the parser *)

#[export] Instance ex_cadence : Cadence := {
  cadence_Value := Bytes;
  cadence_Event := Bytes;
  as_Event v := Some v;
  as_UInt64 v := match v with [c] => Some (Z.of_N (Byte.to_N c)) | _ => None end;
  of_Event e := e;
  cadence_String v := string_of_bytes v;
  SearchFieldByName e _ := Some e;
  ccf_Encode v := Ok v;
  ccf_EventsDecode bs := Ok bs;
  ccf_Decode bs := Ok bs
}.
#[export] Instance ex_cadence_laws : CadenceLaws ex_cadence.
Proof.
  split; simpl; intros *; try congruence.
  destruct v as [|c [|]]; [done| |done]. intros [= <-]. unfold is_u64.
  pose proof (Byte.to_N_bounded c). unfold two64. lia.
Qed.

#[export] Instance ex_crypto : Crypto :=
  { PublicKey := unit; SigningAlgorithm := unit; HashingAlgorithm := bool;
    PrivateKey := unit; public_key _ := () }.

Definition ex_tx (script : string) (gas : Z) : TransactionBody :=
  mkTransactionBody ZeroID (bytes_of_string script) [] gas (mkProposalKey EmptyAddress 0 0)
    EmptyAddress [EmptyAddress] [] [].

#[export] Instance ex_signing : Signing := {
  EnvelopeMessage tx := tx_Script tx;
  PayloadMessage tx := tx_Script tx;
  ErrCodeInvalidEnvelopeSignatureError := 1008;
  ErrCodeInvalidPayloadSignatureError := 1009;
  SHA2_256 := true;
  SHA3_256 := false;
  same_algo := eqb;
  algo_String a := if a : bool then "SHA2_256"%string else "SHA3_256"%string;
  Verify _ _ _ _ := false;
  AccountKeyWeightThreshold := 1000;
  deploy_transaction _ _ _ _ := Err (LibraryError "no signer")
}.
#[export] Instance ex_parser : CadenceParser := { ParseProgram _ := Ok [] }.
#[export] Instance ex_kinds : KindString := λ n, "other"%string.
#[export] Instance ex_clocks : Clocks := { Clock := Z; SystemClock := 0 }.
Definition ex_world : World := mkWorld (λ c, time_of_Unix (1700000000 + c)) 0.

(** * A virtual machine

    A transaction writes its gas limit under its script; one whose gas limit is
    [fatal] makes the machine itself fail.  The transaction that processes the
    callbacks announces the scheduled transaction 5, which runs as another
    transaction. *)

Definition ex_out (evs : list Event) : ProcedureOutput :=
  mkProcedureOutput ["ran"%string] evs None 1 ∅ 1 None.
Definition ex_process : TransactionBody := ex_tx "process" 201.
Definition ex_callback : TransactionBody := ex_tx "callback" 202.

Definition ex_run (fatal : option Z) (proc : Procedure) : result (ExecutionSnapshot * ProcedureOutput) :=
  match proc with
  | fvm_Transaction tx i =>
      if decide (Some (tx_GasLimit tx) = fatal) then Err (LibraryError "execution failed")
      else Ok (mkExecutionSnapshot {[ mkRegisterID [] (tx_Script tx) := show_dec (tx_GasLimit tx) ]},
               ex_out (if decide (tx = ex_process)
                       then [mkEvent "PendingExecution" (idn 201) i 0 [x05%byte]] else []))
  | fvm_Script _ _ => Ok (mkExecutionSnapshot ∅, ex_out [])
  | fvm_Bootstrap _ =>
      Ok (mkExecutionSnapshot {[ mkRegisterID [] (bytes_of_string "supply") := [x01%byte] ]}, ex_out [])
  end.

Definition ex_vm (fatal : option Z) : VirtualMachine := {|
  vm_Run _ _ _ proc _ := ex_run fatal proc;
  fvm_GetAccount _ _ _ _ := Err (LibraryError "no account");
  IsAccountNotFoundError _ := true;
  ExecutionState := StorageSnapshot * gmap RegisterID RegisterValue * bool;
  NewExecutionState s := (s, ∅, false);
  es_Get st r := if st.2 then Err (LibraryError "finalized")
                 else match st.1.2 !! r with Some v => Ok v | None => st.1.1 r end;
  es_Merge es st := if st.2 then (Err (LibraryError "finalized"), st)
                    else (Ok (), (st.1.1, WriteSet es ∪ st.1.2, false));
  es_Finalize st := (mkExecutionSnapshot st.1.2, (st.1, true));
  interpreter_Debugger := nat;
  debugger_RequestPause n := Datatypes.S n;
  validator_Validate _ _ _ _ := Ok ();
  ProcessCallbacksTransaction _ := Ok ex_process;
  ExecuteCallbacksTransactions _ evs := Ok (match evs with [] => [] | _ => [ex_callback] end);
  PendingExecutionEventType _ := "PendingExecution"%string;
  ServiceAddress _ := EmptyAddress;
  ReplaceAddresses _ := bytes_of_string "system chunk";
  Build tx := Ok tx;
  DefaultMaxTransactionGasLimit := 200;
  Script_ID s := idn (Z.of_nat (length s));
  ScriptProcedure_ID s _ := idn (Z.of_nat (length s))
|}.

Lemma ex_vm_laws fatal : VirtualMachineLaws (ex_vm fatal).
Proof.
  split; simpl.
  - done.
  - intros es [[s w] []] st'; [done|]. by intros [= <-].
  - done.
  - done.
  - done.
  - intros es [[s w] []] st' r; [done|]. intros [= <-]. simpl. rewrite union_get. by destruct (WriteSet es !! r).
Qed.

(** * Configurations *)

Definition ex_conf (autoMine scheduled : bool) : config :=
  mkConfig (mkServiceKey 0 EmptyAddress 0 (Some ()) (Some ()) true () 1000) false 1000000000 9999 100000 0 true false true
    0 100 true "flow-emulator" autoMine [] false scheduled false false.
