(* ===== verification/StoreWitnesses.v ===== *)
(** The theorems on the stores, the conversions and the report at concrete inputs. *)
From S2P Require Import Prelude FlowTypes Errors Storage Keys Memstore DefaultStore.
From S2P Require Import DefaultStoreCorrect Sqlite SqliteCorrect StoreTheorems Redis Report.
From S2P Require Import Convert Pragma Vm PendingBlock Blockchain Instances.

(** * A log: genesis, a block with a transaction and a scheduled one, an index entry *)

Definition lg_block (h : Z) (guarantees : list CollectionGuarantee) : Block :=
  mkBlock (mkHeaderBody "flow-emulator" (idn (99 + h)) h (1000 * h) h) (mkPayload guarantees []).
Definition lg_result (h : Z) : StorableTransactionResult :=
  mkStorableResult 0 "" ["ran"%string] [] (idn (100 + h)) h (idn 1).
Definition lg_reg : RegisterID := mkRegisterID [] (bytes_of_string "x").
Definition lg_genesis : BlockCommit :=
  mkBlockCommit (lg_block 0 []) [] ∅ ∅ [] ∅ ∅ (mkExecutionSnapshot {[ lg_reg := [x01%byte] ]}) [] ∅.
Definition lg_commit : BlockCommit :=
  mkBlockCommit (lg_block 1 [mkGuarantee (idn 1)]) [mkLightCollection [idn 1]]
    {[ idn 1 := ex_tx "transfer" 1 ]} {[ idn 1 := lg_result 1 ]}
    [idn 202; idn 200] {[ idn 202 := ex_tx "callback" 202; idn 200 := ex_tx "system chunk" 200 ]}
    {[ idn 202 := lg_result 1; idn 200 := lg_result 1 ]}
    (mkExecutionSnapshot {[ lg_reg := [x02%byte] ]}) [mkEvent "A" (idn 1) 0 0 [x07%byte]] {[ 5 := idn 202 ]}.
Definition lg_old : list write := [WCommit lg_genesis].
Definition lg_new : list write := [WIndexScheduled 5 (idn 101); WCommit lg_commit].
Definition lg : list write := lg_new ++ lg_old.

Lemma lg_old_ok : log_ok lg_old.
Proof. constructor; [constructor|]. split; [by_decide|]. split; by_decide. Qed.
Lemma lg_ok : log_ok lg.
Proof.
  constructor; [constructor; [apply lg_old_ok|]|by_decide].
  split; [by_decide|]. split; by_decide.
Qed.

(** The keys the writes have in common are in the global table. *)
Definition apart (w w' : write) : Prop :=
  Forall (λ p, Forall (λ q, p.1 = q.1 → p.1.1 = globalStoreName) (plain_writes w')) (plain_writes w).
#[local] Instance apart_dec w w' : Decision (apart w w').
Proof. apply _. Defined.

Lemma consistent_apart l w :
  Forall (apart w) l → match w with WCommit c => Sqlite.small (bc_height c) | _ => True end → consistent l w.
Proof.
  intros Ha Hs. split; [|done]. intros st k v w' v' Hst Hin Hw Hin'. exfalso. apply Hst.
  rewrite list.Forall_forall in Ha. specialize (Ha w' Hw). unfold apart in Ha.
  rewrite list.Forall_forall in Ha. specialize (Ha _ Hin). rewrite list.Forall_forall in Ha.
  by apply (Ha _ Hin').
Qed.

Lemma lg_consistent : consistent_log lg.
Proof.
  split; [apply consistent_apart; [by_decide|done]|].
  split; [apply consistent_apart; by_decide|].
  split; [apply consistent_apart; by_decide|done].
Qed.

Lemma memstore_refines_log_witness :
  ∃ s, run_log lg Mem.New = (Ok (), s) ∧ refines s lg ∧
    (ledger ← LedgerByHeight 1 s; ledger lg_reg) = Ok [x02%byte] ∧
    (ledger ← LedgerByHeight 2 s; ledger lg_reg) = Ok [].
Proof.
  destruct (memstore_refines_log lg lg_ok) as (s & H1 & H2 & H3). exists s.
  split; [exact H1|]. split; [exact H2|]. split; [|apply (H3 2 lg_reg); by_decide].
  destruct (ref_LedgerByHeight s lg H2 1) as (snap & H4 & H5); [by_decide|].
  rewrite H4. exact (H5 lg_reg).
Defined.

Lemma sqlite_refines_log_witness :
  ∃ s, run_log lg Sqlite.fresh = (Ok (), s) ∧ refines s lg.
Proof. apply (sqlite_refines_log lg lg_ok lg_consistent). Defined.

Lemma run_pair' {E S A} (op : ST E S A) s a : (op s).1 = Ok a → op s = (Ok a, (op s).2).
Proof. intros <-. by destruct (op s). Qed.

Lemma lg_mem : run_log lg Mem.New = (Ok (), (run_log lg Mem.New).2).
Proof. apply run_pair'. vm_compute. reflexivity. Qed.
Lemma lg_sqlite : run_log lg Sqlite.fresh = (Ok (), (run_log lg Sqlite.fresh).2).
Proof. destruct (sqlite_run_fresh lg lg_ok lg_consistent) as (s & -> & _). reflexivity. Qed.

Lemma memstore_sqlite_agree_witness :
  same_answers 2 (run_log lg Mem.New).2 (run_log lg Sqlite.fresh).2.
Proof. exact (memstore_sqlite_agree lg _ _ lg_ok lg_consistent lg_mem lg_sqlite). Defined.

Lemma unbalanced_commit_refused_witness :
  let c := mkBlockCommit (lg_block 0 []) [] {[ idn 1 := ex_tx "transfer" 1 ]} ∅ [] ∅ ∅
             (mkExecutionSnapshot ∅) [] ∅ in
  (∃ e, CommitBlock c Mem.New = (Err e, Mem.New)) ∧ (∃ e, CommitBlock c Sqlite.fresh = (Err e, Sqlite.fresh)).
Proof. intros c. apply (unbalanced_commit_refused c). left. by_decide. Defined.

(** * Rolling back, snapshots *)

Definition lg_s0 : Sqlite.Store := (run_log lg_old Sqlite.fresh).2.
Definition lg_s1 : Sqlite.Store := (run_log lg_new lg_s0).2.

Lemma lg_s0_rel : sq_rel lg_s0 lg_old.
Proof.
  destruct (sqlite_run Sqlite.fresh [] lg_old fresh_rel) as (s & Hs & R).
  { rewrite app_nil_r. apply lg_old_ok. }
  { rewrite app_nil_r. apply lg_consistent. }
  rewrite app_nil_r in R. unfold lg_s0. by rewrite Hs.
Qed.
Lemma lg_s1_run : run_log lg_new lg_s0 = (Ok (), lg_s1).
Proof.
  unfold lg_s1. by destruct (sqlite_run lg_s0 lg_old lg_new lg_s0_rel lg_ok lg_consistent) as (s & -> & _).
Qed.

Lemma rollback_restores_witness :
  ∃ s', Sqlite.RollbackToBlockHeight 0 lg_s1 = (Ok (), s') ∧ rolled_back 0 lg_old lg s'.
Proof.
  apply (rollback_restores 0 lg_old lg_new lg_s0 lg_s1 lg_s0_rel lg_ok lg_consistent);
    [by_decide|by_decide|apply lg_s1_run|by_decide].
Defined.

(** A store in a directory, with a snapshot. *)
Definition sn0 : Sqlite.Store := Sqlite.New Directory 0 ∅.
Definition sn1 : Sqlite.Store := (Sqlite.CreateSnapshot "one" sn0).2.
Lemma sn1_run : Sqlite.CreateSnapshot "one" sn0 = (Ok (), sn1).
Proof. apply run_pair'. vm_compute. reflexivity. Qed.

Lemma snapshot_restores_witness :
  ∃ s2, Sqlite.LoadSnapshot "one" (st_iter apply_write [WCommit lg_genesis] sn1).2 = (Ok (), s2) ∧
        Sqlite.tables s2 = Sqlite.tables sn0.
Proof. apply (snapshot_restores "one" sn0 sn1 [WCommit lg_genesis]); [by_decide|apply sn1_run]. Defined.

Definition sn2 : Sqlite.Store := (Sqlite.LoadSnapshot "one" sn1).2.
Lemma snapshot_is_live_witness :
  ∃ s3, Sqlite.LoadSnapshot "one" (st_iter apply_write [WCommit lg_genesis] sn2).2 = (Ok (), s3) ∧
        Sqlite.tables s3 = Sqlite.tables (st_iter apply_write [WCommit lg_genesis] sn2).2.
Proof.
  apply (snapshot_is_live "one" sn1 sn2 [WCommit lg_genesis]); [|by_decide].
  apply run_pair'. vm_compute. reflexivity.
Defined.

(** * Redis *)

Definition rd0 : Redis.Store := Redis.mkStore db_empty 0.
Lemma redis_new_value_witness :
  Redis.redis_GetBytesAtVersion "ledger" [x01%byte] 9
    (Redis.redis_SetBytesWithVersion "ledger" [x01%byte] [x02%byte] 4 rd0).2 = Ok [x02%byte].
Proof.
  apply (Redis.redis_new_value "ledger" [x01%byte] [x02%byte] 4 9 rd0); [by_decide| |by_decide].
  intros w n. vm_compute. discriminate.
Defined.

Lemma redis_rewrite_loses_history_witness :
  let s1 := (Redis.redis_SetBytesWithVersion "ledger" [x01%byte] [x02%byte] 1 rd0).2 in
  let s2 := (Redis.redis_SetBytesWithVersion "ledger" [x01%byte] [x03%byte] 2 s1).2 in
  let s3 := (Redis.redis_SetBytesWithVersion "ledger" [x01%byte] [x02%byte] 3 s2).2 in
  Redis.redis_GetBytesAtVersion "ledger" [x01%byte] 1 s1 = Ok [x02%byte] ∧
  Redis.redis_GetBytesAtVersion "ledger" [x01%byte] 1 s3 = Err ErrNotFound.
Proof.
  apply (Redis.redis_rewrite_loses_history "ledger" [x01%byte] [x02%byte] [x03%byte] 1 2 3 rd0);
    [by_decide|by_decide|by_decide|vm_compute; reflexivity].
Defined.

(** * Conversions, the report *)

Definition cv_event : Event := mkEvent "A" (idn 1) 2 3 [x07%byte].
Lemma event_conversion_roundtrip_witness :
  ∃ s, FlowEventToSDK cv_event = Ok s ∧ SDKEventToFlow s = Ok cv_event.
Proof.
  eexists. split; [vm_compute; reflexivity|].
  destruct event_conversion_roundtrip as [H _]. apply (H cv_event); [by_decide|by_decide|].
  vm_compute. reflexivity.
Defined.

Definition cv_account : Account :=
  mkAccount EmptyAddress 5 [mkAccountPublicKey 0 () () true 0 1000 false] {[ "C"%string := [x01%byte] ]}.
Lemma account_conversion_roundtrip_witness :
  (s ← FlowAccountToSDK cv_account; SDKAccountToFlow s) = Ok cv_account.
Proof.
  apply (account_conversion_roundtrip cv_account); [|by_decide].
  intros [|i] k; [by intros [= <-]|]. simpl. by destruct i.
Defined.

Lemma transformIntensities_exact_witness :
  transformIntensities {[ KindLoop := 7; KindStatement := 2; OtherKind 3 := 1 ]} !! kind_name KindLoop = Some 7.
Proof.
  rewrite (transformIntensities_exact {[ KindLoop := 7; KindStatement := 2; OtherKind 3 := 1 ]} KindLoop);
    [vm_compute; reflexivity|by_decide|].
  intros n k' _. by_decide.
Defined.
