(* ===== verification/RemoteWitnesses.v ===== *)
(** The theorems on the store of a forked network at a concrete node: a chain of
    a hundred blocks whose registers hold the height in their last byte. *)
From stdpp Require Import sorting.
From S2P Require Import Prelude FlowTypes Errors Storage Keys DefaultStore.
From S2P Require Import DefaultStoreCorrect Sqlite Remote RemoteTheorems Instances StoreWitnesses.
Import Remote.

(** The node's latest block is at height [top]. *)
Definition node_header (top h : Z) : result Block :=
  if bool_decide (h ≤ top) then Ok (lg_block h []) else Err (status_Error codes_NotFound "no block").
Definition ex_node (top : Z) : AccessNode := {|
  BlockHeaderMessage := Block;
  msg_Id b := vec_to_list (Block_ID b);
  msg_Height := Block_Height;
  MessageToBlockHeader b := Ok b;
  HashToID bs := default ZeroID (id_of_bytes bs);
  rpc_ChainId := Ok "flow-testnet"%string;
  rpc_LatestBlockHeader := node_header top top;
  rpc_BlockHeaderByHeight := node_header top;
  rpc_BlockHeaderByID id := Err (status_Error codes_NotFound "no block");
  rpc_RegisterValues h id := Ok [[default x00%byte (Byte.of_N (Z.to_N h))]];
  is_status_NotFound e := match e with status_Error codes_NotFound _ => true | _ => false end;
  grpc_NewClient _ := None
|}.
#[local] Instance node100 : AccessNode := ex_node 100.

#[local] Instance ex_fs : FileSystem := {|
  os_MkdirAll _ := None; os_ReadDir := None; os_RemoveAll _ := None; sqlite_New _ := None
|}.

Definition older (a b : cacheInfo) : Prop := ci_accessTime a ≤ ci_accessTime b.
#[local] Instance older_dec a b : Decision (older a b).
Proof. unfold older. apply _. Defined.
#[local] Instance older_total : Total older.
Proof. intros a b. unfold older. lia. Qed.
#[local] Instance older_trans : Transitive older.
Proof. intros a b c. unfold older. lia. Qed.
#[local] Program Instance ex_sort : SortSlice := { sort_Slice := merge_sort older }.
Next Obligation. apply merge_sort_Permutation. Qed.
Next Obligation. intros l. apply (StronglySorted_merge_sort older). Qed.

(** * A fork at the node's height, with the cache in memory *)

Definition fk : Store :=
  (New (Sqlite.New InMemory 0 ∅) [WithForkHost "localhost:9000"] [] 0).2.

Lemma fk_new : New (Sqlite.New InMemory 0 ∅) [WithForkHost "localhost:9000"] [] 0 = (Ok (), fk).
Proof.
  assert (is_Ok (New (Sqlite.New InMemory 0 ∅) [WithForkHost "localhost:9000"] [] 0).1 = true) as H
    by by vm_compute.
  unfold fk. by destruct (New _ _ _ _) as [[[]|e] s].
Qed.

Lemma fk_cache : rs_cacheStore fk = Some (Sqlite.New InMemory 0 ∅).
Proof. reflexivity. Qed.
Lemma fk_coherent : coherent fk.
Proof. intros c Hc. rewrite fk_cache in Hc. injection Hc as <-. apply fresh_cache_ok. Qed.

Definition fk_commit : BlockCommit :=
  mkBlockCommit (lg_block 91 []) [] ∅ ∅ [] ∅ ∅ (mkExecutionSnapshot {[ lg_reg := [x07%byte] ]}) [] ∅.
Definition fk_ops : list fork_op :=
  [FRead 90 lg_reg; FRead 95 lg_reg; FWrite (WCommit fk_commit); FRead 90 lg_reg; FRead 91 lg_reg].

Lemma fork_cache_invisible_witness :
  (run_ops fork_step fk_ops fk).1 = (run_ops (spec_step 90) fk_ops (rs_Store fk)).1 ∧
  (run_ops (spec_step 90) fk_ops (rs_Store fk)).1
    = [inl (Ok [x5a%byte]); inl (Ok [x5a%byte]); inr (Ok ()); inl (Ok [x5a%byte]);
       inl (Ok [x07%byte])].
Proof.
  split; [|by vm_compute].
  apply (fork_cache_invisible fk fk_ops fk_coherent).
  repeat constructor; cbn [op_above]; by vm_compute.
Defined.

Lemma read_below_fork_is_cached_witness :
  ∃ s', ledger_Get 80 lg_reg fk = (Ok [x50%byte], s') ∧ (ledger_Get 90 lg_reg s').1 = Ok [x50%byte].
Proof.
  apply (read_below_fork_is_cached fk (Sqlite.New InMemory 0 ∅) lg_reg 80 90 [x50%byte]).
  - apply fk_cache.
  - apply fresh_cache_ok.
  - by vm_compute.
  - by vm_compute.
  - by vm_compute.
  - by vm_compute.
  - by vm_compute.
Defined.

(** * A restart after a commit, with other options and a longer chain *)

Definition fk_db : Sqlite.Store := apply_writes [WCommit fk_commit] (rs_Store fk).

Lemma fork_height_survives_restart_witness :
  ∃ s', New (AN := ex_node 200) fk_db [WithRPCHost "other:9000" "flow-testnet"; WithForkHeight 7] [] 5
          = (Ok (), s') ∧ rs_forkHeight fk = 90 ∧ rs_forkHeight s' = rs_forkHeight fk.
Proof.
  set (r := New (AN := ex_node 200) fk_db
              [WithRPCHost "other:9000" "flow-testnet"; WithForkHeight 7] [] 5).
  assert (is_Ok r.1 = true) as Hok by by vm_compute.
  destruct r as [[[]|e] s'] eqn:Hr; [|done]. exists s'. split; [done|]. split; [by vm_compute|].
  apply (fork_height_survives_restart (ex_node 100) (ex_node 200) InMemory 0
           [WithForkHost "localhost:9000"]
           [WithRPCHost "other:9000" "flow-testnet"; WithForkHeight 7] [] [] 0 5
           [WCommit fk_commit] fk s' fk_new).
  - by repeat constructor.
  - split; by vm_compute.
  - exact Hr.
  - by repeat constructor.
Defined.

(** * Twelve caches, one of them too old *)

Definition day : Z := 24 * 3600 * 1000000000.
Definition fk_dir : list DirEntry :=
  mkDirEntry "notes.txt" false (Some 0) (Some 10) ∅ ::
  ((λ n, mkDirEntry (show_int (Z.of_nat n)) true (Some (Z.of_nat n * day)) (Some 1) ∅) <$> seq 0 12).

Lemma pruneCache_keeps_newest_witness :
  ∃ entries', pruneCache ".flow-fork-cache" (31 * day) fk_dir = Ok entries' ∧
    length entries' = 11%nat ∧
    (length (getCaches entries') ≤ DefaultMaxCacheCount)%nat ∧
    ∀ c, c ∈ getCaches entries' → 31 * day - DefaultTTL ≤ ci_accessTime c.
Proof.
  set (r := pruneCache ".flow-fork-cache" (31 * day) fk_dir).
  assert (length <$> r = Ok 11%nat) as Hlen by by vm_compute.
  destruct r as [entries'|e] eqn:Hr; [|done]. injection Hlen as Hlen. exists entries'.
  destruct (pruneCache_keeps_newest ".flow-fork-cache" (31 * day) fk_dir entries') as (H1 & H2 & _).
  - by_decide.
  - done.
  - exact Hr.
  - split; [done|]. split; [done|]. split; [done|]. intros c Hc. by apply H2.
Defined.
