(* ===== verification/Witnesses.v ===== *)
(** The theorems at concrete inputs: a chain over the in-memory store with the
    virtual machine of [Instances], and concrete logs for the stores. *)
From S2P Require Import Prelude FlowTypes Errors Storage Keys Memstore DefaultStore.
From S2P Require Import DefaultStoreCorrect Sqlite SqliteCorrect StoreTheorems Redis Report.
From S2P Require Import Convert Pragma Vm PendingBlock Blockchain Queries BlockchainCorrect.
From S2P Require Import Chain ChainTheorems Lives Recovery QueryTheorems Liveness Ledger Creation.
From S2P Require Import Instances.

(** * Concrete chains *)

Section reach.
Context {FM : FlowModel} {CA : Cadence} {VM : VirtualMachine} {CK : Clocks} {CR : Crypto}
        {SG : Signing} {CP : CadenceParser} {KS : KindString} {GO : GoMapOrder}
        {S : Type} `{!Store S} {OI : OptionalInterfaces S} {SC : StoreCorrect S} {TS : TotalStore S}.
Implicit Types b : Blockchain (S := S).

Definition op_okb (o : op) b : bool :=
  bool_decide (Size (b_pendingBlock b) + 1 < two32) &&
  match LatestBlockHeight (b_storage b) with Ok h => bool_decide (h + 1 < two64) | Err _ => true end &&
  match op_world o with Some w => bool_decide (0 ≤ Intn w < MaxViewIncrease) | None => true end &&
  negb (offered o b).

Lemma op_okb_ok o b : op_okb o b = true → op_ok o b.
Proof.
  unfold op_okb, op_ok. intros [[[H1 H2]%andb_prop H3]%andb_prop H4]%andb_prop. apply bool_decide_eq_true in H1.
  split; [done|]. split.
  - intros h Hh. rewrite Hh in H2. by apply bool_decide_eq_true in H2.
  - split; [|by destruct (offered o b)]. destruct (op_world o); [|done]. by apply bool_decide_eq_true in H3.
Qed.

Fixpoint ops_okb (os : list op) b : bool :=
  match os with [] => true | o :: os => op_okb o b && ops_okb os (step o b) end.
Lemma ops_okb_ok os b : ops_okb os b = true → ops_ok os b.
Proof.
  revert b. induction os as [|o os IH]; intros b; simpl; [done|].
  intros [H1%op_okb_ok H2]%andb_prop. split; [done|by apply IH].
Qed.

Lemma reach_step conf o b : reachable conf b → op_okb o b = true → reachable conf (step o b).
Proof.
  intros (s & w & ws & b0 & Hok & Hnew & Hs) Ho%op_okb_ok. exists s, w, ws, b0.
  split; [done|]. split; [done|]. eapply rtc_r; [exact Hs|]. by exists o.
Qed.

Lemma reach_new conf s w ws :
  start_ok conf s w ws → (New conf s w ws).1 = Ok () → reachable conf (New conf s w ws).2.
Proof.
  intros Hok H. exists s, w, ws, (New conf s w ws).2. split; [done|]. split; [|done].
  rewrite <- H. by destruct (New conf s w ws).
Qed.
End reach.

(** The chain whose machine fails on the gas limit 99; no automatic mining,
    scheduled transactions on. *)
#[local] Instance ex_machine : VirtualMachine := ex_vm (Some 99).
#[local] Instance ex_machine_laws : VirtualMachineLaws ex_machine := ex_vm_laws _.

Definition tx1 : TransactionBody := ex_tx "transfer" 1.
Definition tx2 : TransactionBody := ex_tx "mint" 2.
Definition txF : TransactionBody := ex_tx "crash" 99.
Definition conf0 : config := ex_conf false true.

Lemma world_good : world_ok ex_world.
Proof. by_decide. Qed.

Lemma start0 conf : conf_Contracts conf = [] → start_ok conf Mem.New ex_world (λ _, ex_world).
Proof.
  intros Hc. split; [apply Mem.mem_rel_New|]. split; [apply world_good|]. split; [intros; apply world_good|].
  rewrite Hc. reflexivity.
Qed.

Abbreviation mchain := (Blockchain (S := Mem.Memstore)).
Definition b0 : mchain := (New conf0 Mem.New ex_world (λ _, ex_world)).2.
(** A transaction is added, the block is executed, committed. *)
Definition b1 : mchain := step (OAddTransaction tx1) b0.
Definition b2 : mchain := step OExecuteBlock b1.
Definition b3 : mchain := step (OCommitBlock ex_world) b2.

Lemma reach0 : reachable conf0 b0.
Proof. apply reach_new; [by apply start0|]. vm_compute. reflexivity. Qed.
Lemma reach1 : reachable conf0 b1.
Proof. apply reach_step; [apply reach0|]. vm_compute. reflexivity. Qed.
Lemma reach2 : reachable conf0 b2.
Proof. apply reach_step; [apply reach1|]. vm_compute. reflexivity. Qed.
Lemma reach3 : reachable conf0 b3.
Proof. apply reach_step; [apply reach2|]. vm_compute. reflexivity. Qed.

(** The blocks of the chain. *)
Definition blk0 : Block := Genesis "flow-emulator".
Definition blk1 : Block := pending_Block (b_pendingBlock b2).

Lemma latest0 : getLatestBlock b0 = Ok blk0.
Proof. vm_compute. reflexivity. Qed.
Lemma latest1 : getLatestBlock b1 = Ok blk0.
Proof. vm_compute. reflexivity. Qed.
Lemma latest2 : getLatestBlock b2 = Ok blk0.
Proof. vm_compute. reflexivity. Qed.
Lemma latest3 : getLatestBlock b3 = Ok blk1.
Proof. vm_compute. reflexivity. Qed.
Lemma run_pair {E S A} (op : ST E S A) s a : (op s).1 = Ok a → op s = (Ok a, (op s).2).
Proof. intros <-. by destruct (op s). Qed.
Lemma is_Ok_ex {E A} (r : res E A) : is_Ok r = true → ∃ a, r = Ok a.
Proof. destruct r; [by eexists|done]. Qed.
Lemma commit2 : commitBlock ex_world b2 = (Ok blk1, b3).
Proof. apply (run_pair (commitBlock ex_world) b2). vm_compute. reflexivity. Qed.

(** * The chain's theorems *)

(** The life of the chain above; the rollback is refused. *)
Definition ops1 : list op := [OAddTransaction tx1].
Definition ops3 : list op := [OExecuteBlock; ORollback 0 ex_world; OCommitBlock ex_world].
Lemma life3 : life conf0 Mem.New ex_world (λ _, ex_world) (ops1 ++ ops3).
Proof.
  split; [by apply start0|vm_compute; reflexivity|apply ops_okb_ok; vm_compute; reflexivity|].
  intros s w l2 l3 _ _. apply mem_total.
Qed.

Lemma pending_block_well_formed_witness :
  NoDup (pb_transactionIDs (b_pendingBlock b1)) ∧
  ∃ tx, NextTransaction (b_pendingBlock b1) = Some tx ∧
        ContainsTransaction (Transaction_ID tx) (b_pendingBlock b1) = true ∧
        pb_transactionResults (b_pendingBlock b1) !! Transaction_ID tx = None.
Proof.
  destruct (pending_block_well_formed conf0 b1 reach1) as (H1 & _ & _ & _ & _ & _ & H2).
  split; [exact H1|apply H2; vm_compute; reflexivity].
Defined.

Lemma steps13 : rtc chain_step b1 b3.
Proof.
  eapply rtc_l; [exists OExecuteBlock; split; [apply op_okb_ok; vm_compute; reflexivity|reflexivity]|].
  eapply rtc_l; [exists (OCommitBlock ex_world); split; [apply op_okb_ok; vm_compute; reflexivity|reflexivity]|].
  apply rtc_refl.
Qed.

Lemma history_immutable_witness :
  let b := made conf0 Mem.New ex_world (λ _, ex_world) (ops1 ++ ops3) in
  getBlockByHeight 0 b = getBlockByHeight 0 b1 ∧
  ∃ latest', getLatestBlock b = Ok latest' ∧ Block_Height blk0 ≤ Block_Height latest'.
Proof.
  destruct (history_immutable conf0 Mem.New ex_world (λ _, ex_world) ops1 ops3 blk0 life3 latest1) as [H1 H2].
  split; [|exact H2]. apply (H1 0 ""%string []). by_decide.
Defined.

Lemma addTransaction_accepts_witness :
  is_Ok (addTransaction tx1 b0).1 = true ∧
  getTransactionResult (Transaction_ID tx1) (addTransaction tx1 b0).2 = Ok (status_result StatusPending) ∧
  is_Ok (addTransaction tx1 b3).1 = false ∧ (addTransaction tx1 b3).2 = b3.
Proof.
  destruct (addTransaction_accepts conf0 tx1 b0 reach0) as (_ & H & _).
  destruct (addTransaction_accepts conf0 tx1 b3 reach3) as (_ & _ & H').
  assert (is_Ok (addTransaction tx1 b0).1 = true) as E0 by (vm_compute; reflexivity).
  assert (is_Ok (addTransaction tx1 b3).1 = false) as E3 by (vm_compute; reflexivity).
  split; [exact E0|]. split; [apply (H E0)|]. split; [exact E3|exact (H' E3)].
Defined.

Lemma keep13 : rtc keep_step b1 b3.
Proof.
  eapply rtc_l; [exists OExecuteBlock; split; [reflexivity|split; [apply op_okb_ok; vm_compute; reflexivity|reflexivity]]|].
  eapply rtc_l; [exists (OCommitBlock ex_world); split; [reflexivity|split; [apply op_okb_ok; vm_compute; reflexivity|reflexivity]]|].
  apply rtc_refl.
Qed.

Lemma accepted_once_witness :
  ∃ e, addTransaction tx1 b3 = (Err e, b3) ∧
    (e = DuplicateTransactionError (Transaction_ID tx1) ∨
     e = PendingBlockMidExecutionError (pending_ID (b_pendingBlock b3))).
Proof.
  apply (accepted_once conf0 tx1 b0 b1 b3 reach0); [by_decide| |apply keep13].
  apply (run_pair (addTransaction tx1) b0). vm_compute. reflexivity.
Defined.

Lemma transactions_committed_once_witness :
  ∃ l, store_rel (b_storage b3) l ∧ log_ok l ∧
       NoDup (pb_transactionIDs (b_pendingBlock b3) ++ user_ids l).
Proof. apply (transactions_committed_once conf0 b3 reach3). Defined.

Lemma executeBlock_terminates_witness :
  executeBlock b1 = execute_loop 7 (block_context b1) [] (set_vmCtx (block_context b1) b1).
Proof.
  rewrite (executeBlock_terminates conf0 b1 7 reach1) by (vm_compute; lia).
  assert (negb (Empty (b_pendingBlock b1)) &&
    bool_decide (pb_index (b_pendingBlock b1) = Size (b_pendingBlock b1)) = false) as ->
    by (vm_compute; reflexivity).
  reflexivity.
Defined.

Lemma executeBlock_runs_remaining_witness :
  b_storage (executeBlock b1).2 = b_storage b1 ∧
  ∀ rs, (executeBlock b1).1 = Ok rs → tr_TransactionID <$> rs = [Transaction_ID tx1].
Proof.
  destruct (executeBlock_runs_remaining conf0 b1 reach1) as (H1 & _ & _ & H2).
  split; [exact H1|]. intros rs Hrs. destruct (H2 rs Hrs) as [_ ->]. vm_compute. reflexivity.
Defined.

Lemma unexecuted_block_refused_witness :
  commitBlock ex_world b1 =
  (Err (PendingBlockCommitBeforeExecutionError (pending_ID (b_pendingBlock b1))), b1).
Proof.
  rewrite (unexecuted_block_refused conf0 ex_world b1 reach1) by by_decide.
  assert (bool_decide (pb_index (b_pendingBlock b1) = 0) = true) as -> by (vm_compute; reflexivity).
  reflexivity.
Defined.

Lemma commit_outcome_witness :
  ∃ b', commitBlock ex_world b2 = (Ok blk1, b') ∧ Block_Height blk1 = Block_Height blk0 + 1 ∧
    getLatestBlock b' = Ok blk1 ∧ Size (b_pendingBlock b') = 0.
Proof.
  destruct (commit_outcome conf0 Mem.New ex_world (λ _, ex_world) (ops1 ++ [OExecuteBlock; ORollback 0 ex_world])
              ex_world blk0 life3 latest2)
    as [(e & b' & H & _)|(b' & H1 & H2 & _ & H4 & _ & _ & _ & H8 & _)].
  - change (commitBlock ex_world b2 = (Err e, b')) in H. rewrite commit2 in H. discriminate H.
  - exists b'. split; [exact H1|]. split; [exact H2|]. split; [exact H4|exact H8].
Defined.


(** * Failed runs and resets *)

(** The transaction on which the machine fails is pending. *)
Definition bF : mchain := step (OAddTransaction txF) b0.
Lemma reachF : reachable conf0 bF.
Proof. apply reach_step; [apply reach0|]. vm_compute. reflexivity. Qed.

Lemma failed_run_blocks_commit_witness :
  let b := (ExecuteNextTransaction bF).2 in
  (ExecuteNextTransaction bF).1 = Err (LibraryError "execution failed") ∧
  b_storage (step (OExecuteAndCommitBlock ex_world) b) = b_storage bF ∧
  ∃ e, (commitBlock ex_world (step (OExecuteAndCommitBlock ex_world) b)).1 = Err e.
Proof.
  intros b.
  destruct (failed_run_blocks_commit conf0 bF txF (LibraryError "execution failed")
              (step (OExecuteAndCommitBlock ex_world) b) reachF) as (H1 & H2 & H3).
  - by_decide.
  - apply op_okb_ok. vm_compute. reflexivity.
  - vm_compute. reflexivity.
  - vm_compute. reflexivity.
  - vm_compute. reflexivity.
  - apply rtc_once. exists (OExecuteAndCommitBlock ex_world). split; [reflexivity|].
    split; [apply op_okb_ok; vm_compute; reflexivity|reflexivity].
  - split; [exact H1|]. split; [exact H2|]. apply H3. apply op_okb_ok. vm_compute. reflexivity.
Defined.

Lemma reset_recovers_witness :
  ∃ b', ResetPendingBlock ex_world (ExecuteNextTransaction bF).2 = (Ok (), b') ∧
    pb_transactionIDs (b_pendingBlock b') = [] ∧
    is_Ok (addTransaction tx1 b').1 = true.
Proof.
  assert (reachable conf0 (ExecuteNextTransaction bF).2) as HR.
  { apply (reach_step conf0 OExecuteNextTransaction bF reachF). vm_compute. reflexivity. }
  destruct (reset_recovers conf0 ex_world (ExecuteNextTransaction bF).2 blk0 HR world_good)
    as (b' & H1 & _ & H2 & _); [vm_compute; reflexivity|].
  exists b'. split; [exact H1|]. split; [exact H2|].
  assert (b' = (ResetPendingBlock ex_world (ExecuteNextTransaction bF).2).2) as -> by (rewrite H1; reflexivity).
  vm_compute. reflexivity.
Defined.

(** * Queries *)


Lemma zero_id_is_last_system_transaction_witness :
  ∃ chunk r, systemChunkTransaction b2 = Ok chunk ∧
    GetSystemTransaction ZeroID (Block_ID blk1) b3 = Ok chunk ∧
    GetSystemTransactionResult ZeroID (Block_ID blk1) b3 = Ok r ∧
    ar_Status r = StatusSealed ∧ ar_TransactionID r = Transaction_ID chunk ∧
    ar_BlockID r = Block_ID blk1.
Proof.
  apply (zero_id_is_last_system_transaction conf0 ex_world b2 blk0 blk1 b3 reach2 world_good latest2);
    [by_decide|apply commit2].
Defined.

Lemma scheduled_transactions_found_witness :
  ∃ tx r, GetScheduledTransaction 5 b3 = Ok tx ∧ Transaction_ID tx = idn 202 ∧
          GetScheduledTransactionResult 5 b3 = Ok r ∧ ar_Status r = StatusSealed ∧
          ar_TransactionID r = idn 202 ∧ ar_BlockID r = Block_ID blk1.
Proof.
  apply (scheduled_transactions_found conf0 ex_world b2 blk0 blk1 b3
    (mkSystemTransactions (idn 101) [idn 201; idn 202; idn 200] {[ 5 := idn 202 ]}) 5 (idn 202)
    reach2 world_good latest2); [by_decide|apply commit2|vm_compute; reflexivity|vm_compute; reflexivity].
Defined.

Lemma events_for_height_range_witness :
  ∃ bes, GetEventsForHeightRange 3 "PendingExecution" 0 (two64 - 1) b3 = Some bes ∧
         Forall2 (events_at b3 "PendingExecution") [0; 1] bes.
Proof.
  apply (events_for_height_range conf0 b3 blk1 "PendingExecution" 0 (two64 - 1) 3 reach3 latest3);
    [by_decide|by_decide|by_decide|vm_compute; lia].
Defined.

Lemma events_for_block_ids_truncated_witness :
  GetEventsForBlockIDs "" [Block_ID blk1; idn 7; Block_ID blk0] b3 = GetEventsForBlockIDs "" [Block_ID blk1] b3 ∧
  be_BlockHeight <$> GetEventsForBlockIDs "" [Block_ID blk1] b3 = [1].
Proof.
  destruct (events_for_block_ids_truncated conf0 b3 "" [Block_ID blk1] (idn 7) [Block_ID blk0] reach3)
    as [H1 H2].
  - intros id ->%list_elem_of_singleton. vm_compute. reflexivity.
  - vm_compute. reflexivity.
  - split; [exact H1|]. rewrite H2. vm_compute. reflexivity.
Defined.

Lemma transaction_status_witness :
  ∃ r, getTransactionResult (Transaction_ID tx1) b1 = Ok r ∧ ar_Status r = StatusPending.
Proof.
  destruct (transaction_status conf0 b1 (Transaction_ID tx1) reach1) as (r & H1 & H2 & _).
  exists r. split; [exact H1|]. apply H2. by_decide.
Defined.

Lemma scripts_read_only_witness :
  let r := executeScriptAtBlockID (bytes_of_string "main") [] (Block_ID blk0) b3 in
  b_storage r.2 = b_storage b3 ∧ b_pendingBlock r.2 = b_pendingBlock b3.
Proof.
  destruct (scripts_read_only conf0 (bytes_of_string "main") [] (Block_ID blk0) b3 _ _ reach3
              (surjective_pairing _)) as (H1 & H2 & _).
  split; [exact H1|exact H2].
Defined.

(** * The ledger *)

Lemma execution_reads_latest_registers_witness :
  sees_committed (ResetPendingBlock ex_world b1).2 ∧ sees_committed b3.
Proof.
  destruct (execution_reads_latest_registers conf0 b1 ex_world reach1 world_good) as (H1 & _ & _ & _).
  destruct (execution_reads_latest_registers conf0 b2 ex_world reach2 world_good) as (_ & _ & _ & H3).
  split; [exact H1|]. apply (H3 blk0 blk1 b3 latest2); [by_decide|apply commit2].
Defined.

(** A reset, then a transaction is added and executed. *)
Definition r0 : mchain := (ResetPendingBlock ex_world b3).2.
Definition r1 : mchain := step (OAddTransaction tx2) r0.
Definition r2 : mchain := step OExecuteBlock r1.
Lemma reach_r0 : reachable conf0 r0.
Proof. apply (reach_step conf0 (OResetPendingBlock ex_world) b3 reach3). vm_compute. reflexivity. Qed.
Lemma reach_r1 : reachable conf0 r1.
Proof. apply reach_step; [apply reach_r0|]. vm_compute. reflexivity. Qed.
Lemma reach_r2 : reachable conf0 r2.
Proof. apply reach_step; [apply reach_r1|]. vm_compute. reflexivity. Qed.
Lemma clean_r2 : clean conf0 r2.
Proof.
  apply clean_step; [apply clean_step; [|apply op_okb_ok; vm_compute; reflexivity|reflexivity]
                    |apply op_okb_ok; vm_compute; reflexivity|vm_compute; reflexivity].
  apply (clean_reset conf0 (OResetPendingBlock ex_world) b3 reach3);
    [apply op_okb_ok; vm_compute; reflexivity|reflexivity].
Qed.

Lemma commit_persists_ledger_witness :
  ∃ v, GetRegisterValues [mkRegisterID [] (bytes_of_string "mint")]
         (Block_Height (pending_Block (b_pendingBlock r2))) (commitBlock ex_world r2).2 = Ok [v] ∧
       es_Get (pb_ledgerState (b_pendingBlock (commitBlock ex_world r2).2))
         (mkRegisterID [] (bytes_of_string "mint")) = Ok v.
Proof.
  assert (∃ sr, (executeSystem (b_pendingBlock r2) r2).1 = Ok sr) as [sr Hsr] by (apply is_Ok_ex; vm_compute; reflexivity).
  assert ((commitBlock ex_world r2).1 = Ok (pending_Block (b_pendingBlock r2))) as Hb by (vm_compute; reflexivity).
  destruct (commit_persists_ledger conf0 r2 ex_world blk1 sr (executeSystem (b_pendingBlock r2) r2).2
              (pending_Block (b_pendingBlock r2)) (commitBlock ex_world r2).2 (mkRegisterID [] (bytes_of_string "mint")) clean_r2 world_good) as (v & _ & H2 & H3).
  - vm_compute. reflexivity.
  - by_decide.
  - apply (run_pair _ _ _ Hsr).
  - apply (run_pair _ _ _ Hb).
  - exists v. split; [exact H2|exact H3].
Defined.

(** * Automatic mining, creation *)

Section automine.
#[local] Instance ex_good : VirtualMachine := ex_vm None.

(** Scheduled transactions are on, as by default. *)
Definition conf1 : config := ex_conf true true.
Definition m0 : Blockchain (VM := ex_good) (S := Mem.Memstore) :=
  (New (VM := ex_good) conf1 Mem.New ex_world (λ _, ex_world)).2.
Lemma reach_m0 : reachable (VM := ex_good) conf1 m0.
Proof. apply (reach_new (VM := ex_good)); [by apply (start0 conf1)|]. vm_compute. reflexivity. Qed.
Definition m1 : Blockchain (VM := ex_good) (S := Mem.Memstore) := (addTransaction (VM := ex_good) tx1 m0).2.
Definition m2 : Blockchain (VM := ex_good) (S := Mem.Memstore) := (executeBlock (VM := ex_good) m1).2.
Definition counts_equal (r : result BlockCommit) : bool :=
  match r with
  | Ok c => bool_decide (length (bc_systemTransactions c) = size (bc_systemTransactionResults c))
  | Err _ => false
  end.

Lemma automine_commits_witness :
  ∃ b' latest' r, SendTransaction (VM := ex_good) tx1 ex_world m0 = (Ok (), b') ∧
    getLatestBlock (VM := ex_good) b' = Ok latest' ∧ Block_Height latest' = Block_Height blk0 + 1 ∧
    getTransactionResult (VM := ex_good) (Transaction_ID tx1) b' = Ok r ∧ ar_Status r = StatusSealed ∧
    ar_BlockID r = Block_ID latest'.
Proof.
  assert (∃ rs, (executeBlock (VM := ex_good) m1).1 = Ok rs) as [rs Hrs] by (apply is_Ok_ex; vm_compute; reflexivity).
  assert (counts_equal (prepareCommit (VM := ex_good) (b_pendingBlock m2) m2).1 = true) as Hc by (vm_compute; reflexivity).
  pose proof (automine_commits (VM := ex_good) conf1 tx1 ex_world m0 m1 blk0 reach_m0 world_good) as H.
  rewrite (run_pair _ _ _ Hrs) in H. fold m2 in H.
  destruct (prepareCommit (VM := ex_good) (b_pendingBlock m2) m2) as [[c|e] b3]; [|discriminate Hc].
  apply bool_decide_eq_true in Hc. rewrite decide_True in H by exact Hc. apply H.
  - vm_compute. reflexivity.
  - by_decide.
  - vm_compute. reflexivity.
  - by_decide.
  - apply (run_pair (addTransaction (VM := ex_good) tx1) m0). vm_compute. reflexivity.
Defined.
End automine.

Lemma new_chain_starts_at_genesis_witness :
  getLatestBlock (New conf0 Mem.New ex_world (λ _, ex_world)).2 = Ok (Genesis (GetChainID conf0)).
Proof.
  destruct (new_chain_starts_at_genesis conf0 Mem.New ex_world (λ _, ex_world) (start0 conf0 eq_refl) eq_refl)
    as [(e & He & _)|(_ & H & _)]; [|exact H].
  assert (is_Ok (New conf0 Mem.New ex_world (λ _, ex_world)).1 = true) as Hok by (vm_compute; reflexivity).
  rewrite He in Hok. discriminate Hok.
Defined.

Lemma restart_resumes_witness :
  getLatestBlock (New conf0 (b_storage b3) ex_world (λ _, ex_world)).2 = Ok blk1 ∧
  b_storage (New conf0 (b_storage b3) ex_world (λ _, ex_world)).2 = b_storage b3.
Proof.
  destruct (restart_resumes conf0 conf0 b3 ex_world (λ _, ex_world) blk1 reach3 world_good eq_refl latest3)
    as (_ & H1 & H2 & _).
  split; [exact H2|exact H1].
Defined.

Definition pending_events : list Event :=
  [mkEvent "Other" (idn 1) 0 0 []; mkEvent "PendingExecution" (idn 201) 0 1 [x05%byte]].
Lemma scheduled_ids_read_back_witness :
  parseScheduledIDs "PendingExecution" pending_events = Ok [show_dec 5] ∧
  Forall2 (λ e id, ∃ v ce f n, ccf_Decode (ev_Payload e) = Ok v ∧ as_Event v = Some ce ∧
             SearchFieldByName ce "id" = Some f ∧ as_UInt64 f = Some n ∧ sscanf_u64 id = Some n)
    (filter (λ e, ev_Type e = "PendingExecution"%string) pending_events) [show_dec 5].
Proof.
  assert (parseScheduledIDs "PendingExecution" pending_events = Ok [show_dec 5]) as H by (vm_compute; reflexivity).
  split; [exact H|]. exact (scheduled_ids_read_back "PendingExecution" pending_events _ H).
Defined.
