(* ===== verification/AdapterWitnesses.v ===== *)
(** The theorems on the adapters at the concrete chains of [Witnesses]. *)
From S2P Require Import Prelude FlowTypes Errors Storage Keys Memstore DefaultStore.
From S2P Require Import Convert Pragma Vm PendingBlock Blockchain Queries BlockchainCorrect.
From S2P Require Import Chain ChainTheorems Lives SourceFiles Emulator Access AccessTheorems Sdk SdkTheorems.
From S2P Require Import Liveness Instances Witnesses.
Import AccessAdapter.

#[export] Instance ex_texts : LibraryTexts := λ _, "rpc error"%string.
#[export] Instance ex_codecs_access : AccessCodecs := {
  jsoncdc_Encode v := Ok (default [] v);
  CcfEventToJsonEvent e := Ok e
}.
#[export] Instance ex_addresses : AddressGenerator := λ _ _, EmptyAddress.
#[export] Instance ex_sources : SourceLibrary := {
  Location_ID _ := "location"%string;
  ContractLocation_ID _ name := name;
  GetAccountContractCode _ _ _ _ := Err (LibraryError "no contract")
}.
#[export] Instance ex_sdk : SdkLibrary := {
  template_Contract := unit;
  templates_CreateAccount _ _ _ := Ok (FlowTransactionToSDK (ex_tx "create account" 3));
  SignEnvelope _ tx := Ok tx;
  sdk_Transaction_ID tx := idn (stx_GasLimit tx);
  as_Address _ := None;
  EventAccountCreated := "flow.AccountCreated";
  AccountEventAddressParameter := "address"
}.

Section with_machine.
#[local] Instance machine : VirtualMachine := ex_vm (Some 99).

Lemma block_stream_is_the_chain_witness :
  let b := made conf0 Mem.New ex_world (λ _, ex_world) (ops1 ++ ops3) in
  ∃ blk, getBlock 0 b1 = Ok blk ∧ getBlock 0 b = Ok blk ∧
    ∀ next, getBlock 1 b = Ok next → Block_Height next = 1 ∧ follows blk next.
Proof.
  destruct (block_stream_is_the_chain conf0 Mem.New ex_world (λ _, ex_world) ops1 ops3 blk0 0 life3 latest1)
    as [H _]; [by_decide|].
  destruct H as (blk & H1 & H2 & _ & H3); [by_decide|]. exists blk. split; [exact H1|].
  split; [exact H2|]. intros next Hn. apply (H3 next); [by_decide|exact Hn].
Defined.

Lemma unseen_transaction_reported_sealed_witness :
  ar_Status <$> getTransactionResult (idn 77) b3 = Ok StatusUnknown ∧
  ∃ updates, getTransactionStatusResponse (idn 77) 0 JSON_CDC_V0 1 b3 StatusUnknown
               = (Ok updates, StatusSealed) ∧
    ar_Status <$> updates = [StatusPending; StatusFinalized; StatusExecuted; StatusSealed].
Proof.
  destruct (unseen_transaction_reported_sealed conf0 b3 blk1 (idn 77) 0 JSON_CDC_V0 1 reach3 latest3)
    as (H1 & updates & H2 & H3 & _); [by_decide|by_decide|vm_compute; reflexivity|vm_compute; reflexivity|].
  split; [exact H1|]. exists updates. split; [exact H2|exact H3].
Defined.

Lemma not_found_statuses_witness :
  GetAccount EmptyAddress b3
    = Err (status_Error codes_NotFound (Error_text (AccountNotFoundError EmptyAddress))) ∧
  (∃ text, GetAccountAtLatestBlock EmptyAddress b3 = Err (status_Error codes_Internal text)) ∧
  GetBlockByHeight 2 b3
    = Err (status_Error codes_NotFound (Error_text (BlockNotFoundByHeightError 2))).
Proof.
  apply (not_found_statuses conf0 b3 blk1 EmptyAddress 2 reach3 latest3);
    [vm_compute; reflexivity|by_decide].
Defined.
End with_machine.

(** * An account on a chain that mines by itself *)

Section automining.
#[local] Instance good_machine : VirtualMachine := ex_vm None.
#[local] Instance good_machine_laws : VirtualMachineLaws good_machine := ex_vm_laws _.

Definition ex_key : ServiceKey := mkServiceKey 0 EmptyAddress 0 (Some ()) (Some ()) true () 1000.
Definition create_tx : sdk_Transaction :=
  SDKAdapter.service_transaction ex_key blk0
    (FlowTransactionToSDK (ex_tx "create account" 3)).
Definition s1 := SDKAdapter.SendTransaction create_tx ex_world m0.
Definition s2 := executeAndCommitBlock ex_world s1.2.
Definition s3 := commitBlock ex_world s2.2.

Lemma creation_signed : signs_creation [] [] m0 create_tx m0.
Proof.
  exists ex_key, blk0, (FlowTransactionToSDK (ex_tx "create account" 3)).
  split; [|split; [vm_compute; reflexivity|split; reflexivity]].
  assert (is_Ok (getAccount EmptyAddress m0) = false) as Ha by (vm_compute; reflexivity).
  unfold currentServiceKey.
  replace (b_serviceKey m0) with ex_key by (vm_compute; reflexivity).
  simpl sk_Address. destruct (getAccount EmptyAddress m0); [discriminate Ha|reflexivity].
Qed.

Lemma automine_hides_created_account_witness :
  is_Ok (SDKAdapter.CreateAccount [] [] ex_world ex_world ex_world m0).1 = false ∧
  ∃ r, getTransactionResult (idn 200) s1.2 = Ok r ∧ ar_Status r = StatusSealed.
Proof.
  assert (is_Ok s1.1 = true) as [[] H1]%is_Ok_ex by (vm_compute; reflexivity).
  assert (is_Ok s2.1 = true) as [x H2]%is_Ok_ex by (vm_compute; reflexivity).
  assert (is_Ok s3.1 = true) as [y H3]%is_Ok_ex by (vm_compute; reflexivity).
  destruct (automine_hides_created_account conf1 [] [] ex_world ex_world ex_world m0 blk0 create_tx m0
              s1.2 x s2.2 y s3.2) as [Hc Hr].
  - apply reach_m0.
  - vm_compute. reflexivity.
  - by_decide.
  - apply world_good.
  - by_decide.
  - vm_compute. reflexivity.
  - apply creation_signed.
  - by apply (run_pair (SDKAdapter.SendTransaction create_tx ex_world) m0 tt).
  - by apply (run_pair (executeAndCommitBlock ex_world) s1.2 x).
  - by apply (run_pair (commitBlock ex_world) s2.2 y).
  - split; [exact (f_equal (λ p, is_Ok p.1) Hc)|exact Hr].
Defined.
End automining.
