(* ===== verification/ServerWitnesses.v ===== *)
(** The theorems on the server, the streams and the admin API at concrete
    chains, one of them over a SQLite store. *)
From S2P Require Import Prelude FlowTypes Errors Storage Keys Memstore DefaultStore DefaultStoreCorrect.
From S2P Require Import Sqlite SqliteCorrect Report Convert Pragma Vm PendingBlock Blockchain Config.
From S2P Require Import ServerConfig Queries BlockchainCorrect Chain Composition ChainTheorems.
From S2P Require Import SourceFiles Emulator Access Stream StreamTheorems Sdk Server Admin AdminTheorems.
From S2P Require Import Creation Checkpoint LivenessCheck Servers ServerSetup StartCmd.
From S2P Require Import ServerTheorems Instances StoreWitnesses Witnesses AdapterWitnesses.

#[local] Instance ex_stream : StreamLibrary := {
  EventFilter := unit;
  filter_Filter _ evs := evs;
  AccountStatusFilter := unit;
  account_Filter _ evs := evs;
  AccountEvents := list Event;
  GroupCoreEventsByAccountAddress _ evs := evs;
  EventTypeBlockExecuted := "BlockExecuted";
  EventTypeTransactionExecuted := "TransactionExecuted";
  IsBlobNotFoundError _ := false;
  rpc_ConvertError e _ _ := e
}.
#[local] Instance ex_locations : Locations := λ _ name, ("A." +:+ name)%string.
#[local] Instance ex_admin : AdminLibrary := {
  PublicKey_String _ := "key"%string;
  HexStringToIdentifier _ := Ok ZeroID
}.
#[local] Instance ex_defaults : ConfigDefaults := {
  cadence_NewUFix64 _ := Ok 1000;
  DefaultMinimumStorageReservation := 1;
  DefaultStorageMBPerFLOW := 100;
  ECDSA_P256 := ();
  GeneratePrivateKey _ _ := Ok ()
}.
#[local] Instance ex_server : ServerLibrary := {
  rpc_NetworkChainID _ := Ok "flow-mainnet"%string;
  ExampleNFT _ _ _ := [];
  FungibleTokenAddress _ := "ee82856bf20e2aa6"%string;
  FlowTokenAddress _ := "0ae53cb6e3f42a79"%string;
  cadence_Address _ := [];
  cadence_UFix64 _ := []
}.
#[local] Instance ex_servers : AccessServers := {
  Handler := list string;
  Limiter := Z;
  NewConcurrencyLimiter n := Ok n;
  RestMetrics := bool;
  NewNoopCollector := false;
  NewRestCollector := Ok true;
  rest_NewServer rc _ _ _ _ _ := Ok [rc_ListenAddress rc];
  DefaultMaxGlobalStreams := 1000;
  DefaultSendTimeout := 30000000000;
  DefaultSendBufferSize := 10;
  DefaultResponseLimit := 0;
  DefaultHeartbeatInterval := 1;
  DefaultWriteTimeout := 30000000000;
  DefaultReadTimeout := 15000000000;
  DefaultIdleTimeout := 60000000000;
  DefaultAccessMaxRequestSize := 4194304;
  DefaultAccessMaxResponseSize := 1073741824
}.
(** Every store of the server is a memory store. *)
#[local] Instance ex_storages : StorageUtil Mem.Memstore := {
  NewRedisStorage _ := Ok Mem.New;
  NewSqliteStorage _ := Ok Mem.New;
  checkpoint_New _ _ _ := Ok Mem.New;
  is_sqlite _ := true;
  remote_New s _ _ _ := Ok s;
  snapshot_support _ := None
}.

(** * Streams *)

Section with_machine.
#[local] Instance machine : VirtualMachine := ex_vm (Some 99).

Lemma execution_data_of_block_witness :
  ∃ evmTx evmBlock entries,
    Forall2 (entry_of b3 blk1) (pb_transactionIDs (b_pendingBlock b2)) entries ∧
    StateStreamBackend.getExecutionDataResponse (Block_Height blk1) b3
      = Ok (mkExecutionDataResponse (Block_Height blk1)
              (mkBlockExecutionData (Block_ID blk1) [chunk_for entries evmTx evmBlock])).
Proof.
  destruct (execution_data_of_block conf0 ex_world b2 blk0 blk1 b3 reach2 world_good latest2)
    as (evmTx & evmBlock & entries & _ & _ & H1 & H2 & _); [by_decide|exact commit2|].
  exists evmTx, evmBlock, entries. split; [exact H1|exact H2].
Defined.

(** * The server *)

Definition ex_worlds : Worlds := mkWorlds ex_world (λ _, ex_world) ex_world (λ _, ex_world) (λ _ _, ex_world).
Lemma ex_worlds_ok : worlds_ok ex_worlds.
Proof. pose proof world_good. by split_and!. Qed.

(** Validation is skipped, and there is a block time. *)
Definition ex_server_conf : Config :=
  mkServerConfig 0 0 0 0 None 1000000000 None (Some ()) () true 500 10 true 1 100 false 9999 100000
    false false true "./flowdb" "" 0 true false true "" "" "" "" "" 0 "" "" false false true 0 false false false.

Lemma chain_configuration_witness :
  ∃ conf, chain_config "flow-emulator" ex_server_conf = Ok conf ∧
    conf_TransactionValidationEnabled conf = false ∧ conf_ScheduledTransactionsEnabled conf = true.
Proof.
  assert (is_Ok (chain_config "flow-emulator" ex_server_conf) = true) as H by reflexivity.
  apply is_Ok_ex in H as [conf H]. exists conf.
  pose proof (chain_configuration "flow-emulator" ex_server_conf conf H) as Hc.
  split; [exact H|]. split; apply Hc.
Defined.

Lemma server_starts_chain_witness :
  ∃ srv conf, NewEmulatorServer (S := Mem.Memstore) ex_server_conf ex_worlds = Ok srv ∧
    reachable conf (srv_emulator srv) ∧ conf_AutoMine (b_conf (srv_emulator srv)) = false ∧
    srv_blocks srv = Some 1000000000.
Proof.
  assert (is_Ok (NewEmulatorServer (S := Mem.Memstore) ex_server_conf ex_worlds) = true) as Hok
    by (vm_compute; reflexivity).
  apply is_Ok_ex in Hok as [srv Hsrv].
  destruct (server_starts_chain ex_server_conf ex_worlds srv) as (conf & _ & _ & H1 & _ & H2 & H3 & _).
  - intros s [= <-]. apply Mem.mem_rel_New.
  - exact ex_worlds_ok.
  - by_decide.
  - exact Hsrv.
  - exists srv, conf. split; [exact Hsrv|]. split; [exact H1|]. split; [exact H2|exact H3].
Defined.

Definition ex_requests : list request :=
  [AccessSend tx2 ex_world; BlockTick ex_world; AdminRollback "0" ex_world; AdminConfig; AccessScript [] []; AdminNewBlock ex_world].
Lemma served_requests_extend_chain_witness :
  let b' := foldl (λ b r, serve r b) b3 ex_requests in
  reachable conf0 b' ∧ getBlockByHeight 1 b' = getBlockByHeight 1 b3 ∧
  ∃ latest', getLatestBlock b' = Ok latest' ∧ 1 ≤ Block_Height latest'.
Proof.
  destruct (served_requests_extend_chain conf0 b3 ex_requests blk1) as (H1 & H2 & H3).
  - intros s. split; reflexivity.
  - exact reach3.
  - split; [by_decide|]. intros h Hh.
    assert (LatestBlockHeight (b_storage b3) = Ok 1) as Hl by (vm_compute; reflexivity).
    rewrite Hl in Hh. injection Hh as <-. by_decide.
  - pose proof world_good. by repeat constructor.
  - exact latest3.
  - split; [exact H1|]. split; [apply (H2 1 ""%string [])|exact H3]. by_decide.
Defined.

(** * The admin API over a SQLite store *)

Definition q0 : Blockchain (S := Sqlite.Store) :=
  (New conf0 (Sqlite.New Directory 0 ∅) ex_world (λ _, ex_world)).2.
Definition q1 := EmulatorAPIServer.SnapshotCreate "one" ex_world q0.
(** A block is committed, and another snapshot is made and jumped to. *)
Definition q2 : Blockchain (S := Sqlite.Store) :=
  step (OLoadSnapshot "two" ex_world) (step (OCreateSnapshot "two" ex_world) (step (OCommitBlock ex_world) q1.2)).

Lemma q0_latest : getLatestBlock q0 = Ok blk0.
Proof. vm_compute. reflexivity. Qed.

Lemma snapshot_jump_restores_witness :
  ∃ b3, EmulatorAPIServer.SnapshotJump "one" ex_world q2
          = (EmulatorAPIServer.block_response "one" blk0, b3) ∧ getLatestBlock b3 = Ok blk0.
Proof.
  destruct (snapshot_jump_restores "one" ex_world ex_world q0 q1.2 q2 blk0 q1.1 q0_latest world_good)
    as (_ & b3 & H1 & H2 & _).
  - exact (surjective_pairing q1).
  - vm_compute. reflexivity.
  - eapply rtc_l; [exists (OCommitBlock ex_world); split; [exact I|reflexivity]|].
    eapply rtc_l; [exists (OCreateSnapshot "two" ex_world); split; [exact I|reflexivity]|].
    apply rtc_once. exists (OLoadSnapshot "two" ex_world). split; [discriminate|reflexivity].
  - exists b3. split; [exact H1|exact H2].
Defined.

(** The database that the chain above leaves, opened again. *)
Definition q_found : gmap string database := Sqlite.sq_databases (b_storage q0).
Definition q_restart : res error unit * Blockchain (S := Sqlite.Store) :=
  New conf0 (Sqlite.New Directory 0 q_found) ex_world (λ _, ex_world).
Definition q3 : Blockchain (S := Sqlite.Store) := q_restart.2.
Lemma q3_run : q_restart = (Ok (), q3).
Proof.
  unfold q3. assert (q_restart.1 = Ok ()) as H by (vm_compute; reflexivity).
  revert H. generalize q_restart. intros [r b] H. simpl in H. by rewrite H.
Qed.

Definition lg_second : BlockCommit :=
  mkBlockCommit (lg_block 2 []) [] ∅ ∅ [] ∅ ∅ (mkExecutionSnapshot ∅) [] ∅.
Lemma rollback_above_snapshot_witness :
  ∃ s3 s4, Sqlite.RollbackToBlockHeight 1 s3 = (Ok (), s4) ∧ LatestBlock s4 = Err ErrNotFound.
Proof.
  destruct (rollback_above_snapshot "one" lg_s0 lg_old (Sqlite.CreateSnapshot "one" lg_s0).2
              [WCommit lg_commit; WCommit lg_second] 1 lg_s0_rel) as (s3 & s4 & _ & H1 & _ & H2 & _).
  - by_decide.
  - apply run_pair'. vm_compute. reflexivity.
  - by_decide.
  - by_decide.
  - exists s3, s4. split; [exact H1|exact H2].
Defined.

(** * A checkpoint of two payloads of one register *)

#[local] Instance ex_ledger : CheckpointLedger := {
  StateCommitment := Bytes;
  ToStateCommitment bs := Ok bs;
  Ledger := unit;
  NewDiskWAL _ := Ok ();
  NewLedger _ := Ok ();
  NewCompactor _ _ := Ok ();
  ledger_Payload := RegisterID * RegisterValue;
  FindTrieByStateCommit _ _ := Ok [(lg_reg, [x01%byte]); (lg_reg, [x02%byte])];
  PayloadToRegister p := Ok p
}.
Lemma checkpoint_is_genesis_witness :
  ∃ s b, Checkpoint.New "dir" "00ff" "flow-mainnet" = Ok s ∧
    New conf0 s ex_world (λ _, ex_world) = (Ok (), b) ∧
    getLatestBlock b = Ok (Genesis "flow-mainnet") ∧
    GetRegisterValues [lg_reg] 0 b = Ok [[x02%byte]].
Proof.
  assert (is_Ok (Checkpoint.New "dir" "00ff" "flow-mainnet") = true) as Hok by (vm_compute; reflexivity).
  apply is_Ok_ex in Hok as [s Hs]. exists s.
  destruct (checkpoint_is_genesis "dir" "00ff" "flow-mainnet" s conf0 ex_world (λ _, ex_world) Hs
              eq_refl world_good)
    as (b & bs & state & led & payloads & H1 & _ & _ & _ & _ & H2 & H3 & H4 & _).
  exists b. split; [exact Hs|]. split; [exact H1|]. split; [exact H3|].
  injection H2 as <-. rewrite (H4 [lg_reg]). vm_compute. reflexivity.
Defined.

(** * The command line *)

#[local] Instance ex_keys : KeyLibrary := {
  StringToSignatureAlgorithm _ := ();
  StringToHashAlgorithm name := bool_decide (name = "SHA2_256"%string);
  is_UnknownSignatureAlgorithm _ := false;
  is_UnknownHashAlgorithm _ := false;
  DecodePrivateKeyHex _ _ := Ok ()
}.
(** The defaults of the flags, on the test network. *)
Definition ex_flags : start.Config :=
  start.mkStartConfig 3569 2345 8888 8080 0 "" "" "ECDSA_P256" "SHA3_256" false false false
    "./flowdb" ".flow-fork-cache" false "1000000000.0" 10 true "" "" false 9999 100000 9999 100000
    false true false "" "testnet" "" "" "" 0 "" "" false true true 0 false 0 ""
    false false false "text".
Definition ex_command : result Config := start.server_config start.defaultServiceKey (λ _, false) ex_flags.
Lemma command_line_configures_chain_witness :
  ∃ c chain, ex_command = Ok c ∧
    chain_config (sc_ChainID (sanitizeConfig c)) (sanitizeConfig c) = Ok chain ∧
    conf_ChainID chain = flow_Testnet ∧ conf_TransactionMaxGasLimit chain = 9999.
Proof.
  assert (is_Ok ex_command = true) as Hok by reflexivity. apply is_Ok_ex in Hok as [c Hc].
  assert (is_Ok (chain_config (sc_ChainID (sanitizeConfig c)) (sanitizeConfig c)) = true) as Hok
    by reflexivity.
  apply is_Ok_ex in Hok as [chain Hchain]. exists c, chain.
  destruct (command_line_configures_chain start.defaultServiceKey (λ _, false) ex_flags c chain Hc Hchain)
    as (_ & Hmax & _ & _ & _ & _ & named & Hn & Hid).
  split; [exact Hc|]. split; [exact Hchain|]. injection Hn as <-. split; [|rewrite Hmax; reflexivity].
  injection Hc as <-. apply Hid.
Defined.
End with_machine.
