(* ===== verification/DebuggerWitnesses.v ===== *)
(** The theorems on the debugger at concrete sessions and interleavings. *)
From S2P Require Import Prelude FlowTypes Errors Storage Memstore Report Convert Pragma Vm PendingBlock.
From S2P Require Import Blockchain Queries BlockchainCorrect Chain Lives SourceFiles Emulator Debugger DebuggerTheorems DebugServer.
From S2P Require Import Instances Witnesses AdapterWitnesses.

#[local] Instance ex_debug : DebugLibrary := {
  shape v := match v with _ :: _ :: _ => Array ((λ c, [c]) <$> v) | _ => Simple end;
  type_ID _ := "Int"%string;
  Location := string;
  Location_String l := l;
  StringLocation l := l;
  as_AddressLocation _ := None;
  DecodeTypeID s := Ok (Some s);
  ReadFile _ := "access(all) fun main() {}"%string;
  FingerPrintID _ := "id"%string
}.
#[local] Instance ex_dbg_machine : VirtualMachine := ex_vm (Some 99).

Definition ex_request (n : Z) (a : arguments) : dap_Request := mkRequest n "command" a.
(** A program is launched; the request for the threads is received and still to be
    answered. *)
Definition ex_events : list event :=
  [EReceive (ex_request 1 AInitialize); EDispatch 0; EReceive (ex_request 2 (ALaunch (Program "a.cdc") false));
   EReceive (ex_request 3 AConfigurationDone); EDispatch 1; EDispatch 0; EReceive (ex_request 4 AThreads)].
Abbreviation mdbg := (dbg (S := Mem.Memstore)).
Abbreviation ex_chain := (made conf0 Mem.New ex_world (λ _, ex_world) (ops1 ++ ops3)).
Definition ex_play (es : list event) (d : mdbg) : mdbg := foldl (λ d e, (handle 3 e d).2) d es.
Definition dbg1 : mdbg := ex_play ex_events (connect ex_chain).

(** Whether the events of a list are enabled and succeed one after the other. *)
Definition ex_plays (es : list event) (d : mdbg) : bool :=
  (foldl (λ r e, (r.1 && enabled e r.2 && bool_decide (fst (handle 3 e r.2) = Ok ()), (handle 3 e r.2).2))
     (true, d) es).1.

Lemma play_trace es d : ex_plays es d = true → dbg_trace 3 es d (ex_play es d).
Proof.
  unfold ex_plays, ex_play. induction es as [|e es IH] using rev_ind; intros H; [constructor|].
  rewrite foldl_app in H. rewrite foldl_app. simpl in H |- *. apply andb_prop in H as [[Hb He]%andb_prop Hh].
  apply bool_decide_eq_true in Hh.
  assert (∀ r : bool * mdbg, (foldl (λ r e, (r.1 && enabled e r.2 && bool_decide (fst (handle 3 e r.2) = Ok ()),
    (handle 3 e r.2).2)) r es).2 = foldl (λ d e, (handle 3 e d).2) r.2 es) as Hsnd.
  { clear. induction es as [|e es IH]; intros r; [done|]. simpl. by rewrite IH. }
  rewrite Hsnd in He, Hh. simpl in He, Hh. eapply trace_snoc; [by apply IH|done|by apply run_pair].
Qed.
Lemma trace_dbg1 : dbg_trace 3 ex_events (connect ex_chain) dbg1.
Proof. apply play_trace. vm_compute. reflexivity. Qed.



Lemma session_keeps_chain_witness :
  b_storage (d_chain dbg1) = b_storage ex_chain ∧ b_pendingBlock (d_chain dbg1) = b_pendingBlock ex_chain.
Proof.
  exact (session_keeps_chain conf0 Mem.New ex_world (λ _, ex_world) (ops1 ++ ops3) 3 ex_events dbg1 trace_dbg1).
Defined.

Lemma program_outcome_witness :
  ∃ result, (ExecuteScript (bytes_of_string "access(all) fun main() {}") [] (d_chain dbg1)).1 = Ok result ∧
    (scr_Error result ≠ None → (scriptDone 0 dbg1).1 = Err nil_pointer).
Proof.
  destruct (program_outcome conf0 Mem.New ex_world (λ _, ex_world) (ops1 ++ ops3) 3 ex_events 0 dbg1
              "access(all) fun main() {}" trace_dbg1) as [H _]; [vm_compute; reflexivity|].
  assert (is_Ok (ExecuteScript (bytes_of_string "access(all) fun main() {}") [] (d_chain dbg1)).1 = true) as Hok
    by (vm_compute; reflexivity).
  cbn zeta in H. revert H Hok.
  generalize ((ExecuteScript (bytes_of_string "access(all) fun main() {}") [] (d_chain dbg1)).1).
  intros [result|e] H Hok; [|discriminate Hok]. exists result. split; [reflexivity|]. exact (proj1 H).
Defined.

(** ** The server of the debugger *)

(** [Stop] takes the lock before [Start] does, and closes the connections of none. *)
Definition ex_early_run : list label := [StartListen true; StopQuit; StopLock; StopClose; StopConnections].
Definition ex_closed_run : list label :=
  [StartListen true; StartRegister; StartCheck; StopQuit; StopLock; StopClose; StopConnections].
Definition ex_early : DebugServer := default new_DebugServer (exec_all ex_early_run new_DebugServer).
Definition ex_closed : DebugServer := default new_DebugServer (exec_all ex_closed_run new_DebugServer).

Lemma exec_all_steps ls d d' : exec_all ls d = Some d' → rtc server_step d d'.
Proof.
  revert d. induction ls as [|l ls IH]; intros d He; [injection He as <-; apply rtc_refl|].
  unfold exec_all in He. simpl in He. destruct (exec l d) as [d1|] eqn:H1.
  - eapply rtc_l; [by exists l|]. by apply IH.
  - exfalso. clear -He. induction ls as [|l' ls IH]; [done|]. by apply IH.
Qed.
Lemma reach_early : server_reachable ex_early.
Proof. by apply (exec_all_steps ex_early_run). Qed.
Lemma reach_closed : server_reachable ex_closed.
Proof. by apply (exec_all_steps ex_closed_run). Qed.

Lemma stop_closes_listener_witness :
  ds_socket ex_closed ≠ Some true ∧ ∀ d', exec ServeError ex_closed = Some d' → ds_crashed d' = false.
Proof.
  destruct (stop_closes_listener ex_closed reach_closed) as [H1 H2].
  split; [apply H1; [reflexivity|left; reflexivity]|apply H2; reflexivity].
Defined.

Lemma start_returns_after_stop_witness :
  ∃ d', rtc own_step ex_early d' ∧ ds_start d' = Returned ∧ ds_crashed d' = false.
Proof. apply (start_returns_after_stop ex_early reach_early); [reflexivity|reflexivity|discriminate|reflexivity]. Defined.
