(* ===== verification/IndependenceWitnesses.v ===== *)
(** The theorems on the independence of the store at a concrete client. *)
From S2P Require Import Prelude FlowTypes Errors Storage Keys Memstore DefaultStore DefaultStoreCorrect.
From S2P Require Import Sqlite SqliteCorrect Redis Remote Report Convert Pragma Vm PendingBlock.
From S2P Require Import Blockchain Config ServerConfig Queries BlockchainCorrect Chain Checkpoint.
From S2P Require Import SourceFiles Emulator Providers LogStore Simulation Consistency StoreTheorems StoreIndependence Lives.
From S2P Require Import Access Sdk LivenessCheck Servers ServerSetup Server ServerTheorems ServerSimulation.
From S2P Require Import Instances RemoteWitnesses Witnesses AdapterWitnesses ServerWitnesses.

#[local] Instance ex_machine : VirtualMachine := ex_vm (Some 99).

(** * A client of the chain *)

(** It adds a transaction, commits a block, and asks for the outcome and for the
    events of the block. *)
Definition ex_client : client (result access_TransactionResult * result (list Event)) :=
  Call (MAddTransaction tx1) (λ _,
  Call MExecuteBlock (λ _,
  Call (MCommitBlock ex_world) (λ r,
  Call (MGetTransactionResult (Transaction_ID tx1)) (λ r1,
  Call (MGetEventsByHeight (match r with Ok blk => Block_Height blk | Err _ => 0 end) "") (λ r2,
  StoreIndependence.Done (r1, r2)))))).

Definition log0 : Blockchain (S := log) := (Blockchain.New conf0 ([] : log) ex_world (λ _, ex_world)).2.
Lemma log_new : Blockchain.New conf0 ([] : log) ex_world (λ _, ex_world) = (Ok (), log0).
Proof.
  assert ((Blockchain.New conf0 ([] : log) ex_world (λ _, ex_world)).1 = Ok ()) as H
    by (vm_compute; reflexivity).
  unfold log0. rewrite <- H. by destruct (Blockchain.New _ _ _ _).
Qed.
Lemma log_start : start_ok conf0 ([] : log) ex_world (λ _, ex_world).
Proof.
  split; [reflexivity|]. split; [apply world_good|]. split; [intros; apply world_good|]. by_decide.
Qed.

Lemma ex_room (b : Blockchain (S := log)) : op_okb OExecuteBlock b = true → has_room b.
Proof. intros (H1 & H2 & _)%op_okb_ok. by split. Qed.

Lemma ex_calls : calls_ok ex_client log0.
Proof.
  unfold ex_client. cbn [calls_ok args_ok].
  repeat (split; [first [exact I|apply world_good|by_decide]
                 |split; [apply ex_room; vm_compute; reflexivity|]]).
  exact I.
Qed.

(** Collisions are decidable: two writes at a time. *)
Definition commit_txs (c : BlockCommit) : list TransactionBody :=
  (map_to_list (bc_transactions c) ++ map_to_list (bc_systemTransactionBodies c)).*2.
Definition apart_IDs (w w' : write) : Prop :=
  match w, w' with
  | WCommit c, WCommit c' =>
      (Block_ID (bc_block c) = Block_ID (bc_block c') → bc_block c = bc_block c') ∧
      Forall (λ tx, Forall (λ tx', Transaction_ID tx = Transaction_ID tx' → tx = tx') (commit_txs c'))
        (commit_txs c) ∧
      Forall (λ col, Forall (λ col', LightCollection_ID col = LightCollection_ID col' → col = col')
        (bc_collections c')) (bc_collections c)
  | WIndexScheduled n b, WIndexScheduled n' b' => n = n' → b = b'
  | WIndexTx t b, WIndexTx t' b' => t = t' → b = b'
  | _, _ => True
  end.
#[local] Instance apart_IDs_dec w w' : Decision (apart_IDs w w').
Proof. destruct w, w'; apply _. Defined.

Lemma has_transaction_elem c tx : has_transaction c tx → tx ∈ commit_txs c.
Proof.
  intros (id & H). apply list_elem_of_fmap. exists (id, tx). split; [done|].
  rewrite elem_of_app, !elem_of_map_to_list. exact H.
Qed.

Lemma apart_collision_free l :
  Forall (λ w, Forall (apart_IDs w) l) l → next_height l ≤ two64 / 2 → collision_free l.
Proof.
  intros H Hn. assert (∀ w w', w ∈ l → w' ∈ l → apart_IDs w w') as Hp.
  { intros w w' Hw Hw'. rewrite list.Forall_forall in H. specialize (H w Hw).
    rewrite list.Forall_forall in H. by apply H. }
  split; [..|done].
  - intros c c' Hc Hc'. apply (Hp _ _ Hc Hc').
  - intros c c' tx tx' Hc Hc' Ht%has_transaction_elem Ht'%has_transaction_elem.
    destruct (Hp _ _ Hc Hc') as (_ & H2 & _). rewrite list.Forall_forall in H2. specialize (H2 tx Ht).
    rewrite list.Forall_forall in H2. by apply H2.
  - intros c c' col col' Hc Hc' Ht Ht'. destruct (Hp _ _ Hc Hc') as (_ & _ & H2).
    rewrite list.Forall_forall in H2. specialize (H2 col Ht).
    rewrite list.Forall_forall in H2. by apply H2.
  - intros n b b' Hb Hb'. by apply (Hp _ _ Hb Hb').
  - intros t b b' Hb Hb'. by apply (Hp _ _ Hb Hb').
Qed.

Lemma ex_collision_free : collision_free (b_storage (run ex_client log0).2).
Proof. apply apart_collision_free; by_decide. Qed.

Lemma stores_indistinguishable_witness :
  ar_Status <$> (run ex_client log0).1.1 = Ok StatusSealed ∧
  ∃ bm bq, Blockchain.New conf0 Mem.New ex_world (λ _, ex_world) = (Ok (), bm) ∧
    Blockchain.New conf0 Sqlite.fresh ex_world (λ _, ex_world) = (Ok (), bq) ∧
    (run ex_client bm).1 = (run ex_client log0).1 ∧ (run ex_client bq).1 = (run ex_client log0).1.
Proof.
  split; [vm_compute; reflexivity|].
  destruct (stores_indistinguishable conf0 ex_world (λ _, ex_world) log0 ex_client
              log_start log_new ex_calls ex_collision_free) as (bm & bq & H1 & H2 & H3 & H4 & _).
  exists bm, bq. split; [exact H1|]. split; [exact H2|]. split; [exact H3|exact H4].
Defined.

(** * A life over SQLite *)

Definition ex_life : list op := [OAddTransaction tx1; OExecuteBlock; OCommitBlock ex_world].
Lemma ex_life_log :
  ∃ l, chain_inv (made conf0 ([] : log) ex_world (λ _, ex_world) ex_life) l ∧
       written conf0 ex_world (λ _, ex_world) ex_life = l.
Proof.
  destruct (life_inv conf0 ([] : log) ex_world (λ _, ex_world) ex_life) as (l & es & evs & HI).
  - split; [exact log_start|rewrite log_new; reflexivity|apply ops_okb_ok; vm_compute; reflexivity|].
    intros s w l2 l3 _ _. exact I.
  - eexists. split; [exact HI|]. exact (ci_store _ _ HI).
Qed.
Lemma ex_life_sqlite : life (SC := sqlite_correct) conf0 Sqlite.fresh ex_world (λ _, ex_world) ex_life.
Proof.
  split.
  - split; [apply fresh_rel|]. split; [apply world_good|]. split; [intros; apply world_good|]. by_decide.
  - vm_compute. reflexivity.
  - apply ops_okb_ok. vm_compute. reflexivity.
  - apply sqlite_writable. destruct ex_life_log as (l & HI & Hl).
    assert (collision_free (written conf0 ex_world (λ _, ex_world) ex_life)) as HF
      by (apply apart_collision_free; by_decide).
    rewrite Hl in HF |- *. apply collision_free_consistent; [apply HI|apply (ci_once _ _ HI)..|exact HF].
Qed.

Lemma chain_well_formed_witness :
  ∃ latest, getLatestBlock (made conf0 Sqlite.fresh ex_world (λ _, ex_world) ex_life) = Ok latest ∧
    ∀ h, is_u64 h → is_Ok (getBlockByHeight h (made conf0 Sqlite.fresh ex_world (λ _, ex_world) ex_life)) = true ↔
         h ≤ Block_Height latest.
Proof.
  destruct (chain_well_formed (SC := sqlite_correct) conf0 Sqlite.fresh ex_world (λ _, ex_world) ex_life ex_life_sqlite)
    as (latest & H1 & _ & H2 & _).
  exists latest. split; [exact H1|exact H2].
Defined.

(** * The default store *)

#[local] Existing Instances node100 ex_fs ex_sort.
#[local] Instance ex_databases : Databases := {
  os_Stat _ := Ok true;
  sql_Open _ := Ok ∅;
  db_Exec _ _ := None;
  db_init _ := None
}.
#[local] Instance ex_databases_laws : DatabasesLaws ex_databases.
Proof. by intros found [= <-]. Qed.
#[local] Instance ex_redis_client : RedisClient := {
  redis_Options := unit;
  ParseURL _ := Ok ();
  NewClient _ := db_empty
}.
#[local] Existing Instances ex_ledger ex_defaults ex_server ex_servers ex_locations ex_admin.

Lemma default_storage_serves_witness :
  ∃ b, Blockchain.New conf0 (PSqlite (Sqlite.New InMemory 7 ∅)) ex_world (λ _, ex_world) = (Ok (), b) ∧
       (run ex_client b).1 = (run ex_client log0).1.
Proof.
  destruct (default_storage_serves 7000000 [] (PSqlite (Sqlite.New InMemory 7 ∅)) conf0 ex_world
              (λ _, ex_world) log0 ex_client) as (b & H1 & H2 & _).
  - right. left. reflexivity.
  - exact log_start.
  - exact log_new.
  - exact ex_calls.
  - exact ex_collision_free.
  - exists b. split; [exact H1|exact H2].
Defined.

(** * The server on its default store *)

Definition the_Ok {A} (r : result A) : is_Ok r = true → A :=
  match r with Ok a => λ _, a | Err _ => λ H, False_rect _ (Bool.diff_false_true H) end.
Lemma the_Ok_eq {A} (r : result A) H : r = Ok (the_Ok r H).
Proof. by destruct r. Qed.

Definition log_server : result (EmulatorServer (S := log)) :=
  NewEmulatorServer (SU := log_util) ex_server_conf ex_worlds.
Lemma log_server_made : is_Ok log_server = true.
Proof. vm_compute. reflexivity. Defined.
Definition srv0 : EmulatorServer (S := log) := the_Ok log_server log_server_made.

Lemma srv_calls : calls_ok ex_client (srv_emulator srv0).
Proof.
  unfold ex_client. cbn [calls_ok args_ok].
  repeat (split; [first [exact I|apply world_good|by_decide]
                 |split; [apply ex_room; vm_compute; reflexivity|]]).
  exact I.
Qed.
Lemma srv_collision_free : collision_free (b_storage (run ex_client (srv_emulator srv0)).2).
Proof. apply apart_collision_free; by_decide. Qed.

